(** * Bitsy: rank-combined bit vector and sampled select, verified

    A shallow embedding of
      - [bitsy/util/math.hpp]
      - [bitsy/select/word_select.hpp]
      - [bitsy/rank/two_layer_rank_combined_bitvector.hpp]
      - [bitsy/select/two_layer_select.hpp]
      - [bitsy/type_traits.hpp], [bitsy/bitvector.hpp]
      - [bitsy/rank/naive_rank.hpp], [bitsy/select/naive_select.hpp]
      - [tests/bitvector_util.hpp]
      - [apps/ads_programm.cpp], [apps/util/query.hpp]
    together with the properties the specification states about them.

    Conventions.  A [std::uint64_t] / [std::size_t] value is a [Z] in
    [0, 2^64); arithmetic that can leave that range is followed by [wrap].
    A [StaticVector<Word>] is a [list Z].  Queries whose reads the
    specification bounds ([rank1], [select0], [select1]) read through
    [rd], which yields [None] outside the buffer. *)

From Stdlib Require Import ZArith List Lia Bool Arith.
Import ListNotations.
Local Open Scope Z_scope.

(* ===================================================================== *)
(** ** Machine words *)
(* ===================================================================== *)

Definition kWordWidth : Z := 64.
Definition kOnes : Z := 2 ^ 64 - 1.

(** Reduction modulo [2^64], the result of unsigned 64-bit arithmetic. *)
Definition wrap (x : Z) : Z := x mod 2 ^ 64.

Definition shl (w s : Z) : Z := wrap (Z.shiftl w s).
Definition shr (w s : Z) : Z := Z.shiftr w s.
Definition lnot (w : Z) : Z := wrap (Z.lnot w).

(** Number of arguments in [lo, lo + n) at which [f] holds. *)
Fixpoint count_bits (f : Z -> bool) (lo : Z) (n : nat) : Z :=
  match n with
  | O => 0
  | S n' => Z.b2z (f lo) + count_bits f (lo + 1) n'
  end.

(** Number of arguments in [lo, hi) at which [f] holds. *)
Definition ones (f : Z -> bool) (lo hi : Z) : Z :=
  count_bits f lo (Z.to_nat (hi - lo)).

(** [std::popcount] on a 64-bit word. *)
Definition popcount (w : Z) : Z := ones (Z.testbit w) 0 64.

(** [std::countr_zero] on a 64-bit word: index of the lowest set bit, 64
    for the zero word. *)
Fixpoint countr_zero_from (n : nat) (i : Z) (w : Z) : Z :=
  match n with
  | O => i
  | S n' => if Z.testbit w i then i else countr_zero_from n' (i + 1) w
  end.

Definition countr_zero (w : Z) : Z := countr_zero_from 64 0 w.

(** The BMI2 instruction behind [_pdep_u64 (src, mask)]: the low bits of
    [src] are deposited, in order, at the positions of the set bits of
    [mask].  [m] walks the bit positions of the mask and [k] the bits of
    the source already consumed. *)
Fixpoint pdep_from (n : nat) (m k : Z) (src mask : Z) : Z :=
  match n with
  | O => 0
  | S n' =>
      if Z.testbit mask m
      then (if Z.testbit src k then Z.shiftl 1 m else 0)
           + pdep_from n' (m + 1) (k + 1) src mask
      else pdep_from n' (m + 1) k src mask
  end.

Definition pdep_u64 (src mask : Z) : Z := pdep_from 64 0 0 src mask.

(* ===================================================================== *)
(** ** bitsy::math *)
(* ===================================================================== *)

Module math.

Definition div_ceil (x y : Z) : Z := x / y + Z.b2z (negb (x mod y =? 0)).

Definition pow2 (n : Z) : Z := shl 1 n.

Definition round_to (x y : Z) : Z := wrap (div_ceil x y * y).

(** [setbits<Word>(num_set_bits, start)]. *)
Definition setbits (num_set_bits start : Z) : Z :=
  if num_set_bits =? 0 then 0
  else shl (shr kOnes (wrap (kWordWidth - num_set_bits))) start.

End math.

(* ===================================================================== *)
(** ** Buffers *)
(* ===================================================================== *)

(** Monadic bind for operations that fail on an access outside a buffer. *)
Definition bind {A B : Type} (m : option A) (k : A -> option B) : option B :=
  match m with
  | Some a => k a
  | None => None
  end.

Notation "x <- m ;; k" := (bind m (fun x => k))
  (at level 61, m at next level, right associativity).

(** [StaticVector<Word>(size)]: [size] words of memory that nobody has
    initialised; [heap i] is whatever the allocator left in word [i]. *)
Definition StaticVector (heap : nat -> Z) (size : Z) : list Z :=
  map (fun i => wrap (heap i)) (seq 0 (Z.to_nat size)).

Definition size (v : list Z) : Z := Z.of_nat (length v).

(** Read of [v[i]] with the bounds made explicit. *)
Definition rd (v : list Z) (i : Z) : option Z :=
  if (0 <=? i) && (i <? size v) then nth_error v (Z.to_nat i) else None.

(** Read of [v[i]] at an index known to lie inside the buffer. *)
Definition peek (v : list Z) (i : Z) : Z := nth (Z.to_nat i) v 0.

Fixpoint upd (v : list Z) (n : nat) (x : Z) : list Z :=
  match v, n with
  | [], _ => []
  | _ :: t, O => x :: t
  | h :: t, S n' => h :: upd t n' x
  end.

(** Write of [v[i] = x] at an index known to lie inside the buffer. *)
Definition poke (v : list Z) (i x : Z) : list Z := upd v (Z.to_nat i) x.

(** Write of [v[i] = x] with the bounds made explicit. *)
Definition wr (v : list Z) (i x : Z) : option (list Z) :=
  if (0 <=? i) && (i <? size v) then Some (poke v i x) else None.

(** [std::fill_n (first, count, x)]. *)
Fixpoint fill_n (v : list Z) (first : Z) (count : nat) (x : Z) : list Z :=
  match count with
  | O => v
  | S c => fill_n (poke v first x) (first + 1) c x
  end.

(** [for (i = start; i < stop; i += step) st = body i st].  [fuel] bounds
    the number of iterations; [stop - start] of them suffice as soon as
    [step] is positive. *)
Fixpoint for_loop {S : Type} (fuel : nat) (i stop step : Z)
    (body : Z -> S -> S) (st : S) : S :=
  match fuel with
  | O => st
  | Datatypes.S fuel' =>
      if i <? stop
      then for_loop fuel' (i + step) stop step body (body i st)
      else st
  end.

Definition for_range {S : Type} (start stop step : Z)
    (body : Z -> S -> S) (st : S) : S :=
  for_loop (Z.to_nat (stop - start)) start stop step body st.

(* ===================================================================== *)
(** ** bitsy::word_select1 *)
(* ===================================================================== *)

Section WordSelect.

(** Whether the build defines [USE_PDEP]. *)
Variable USE_PDEP : bool.

Definition word_select1_pdep (word rank : Z) : Z :=
  let rank_th_one := shl 1 (wrap (rank - 1)) in
  countr_zero (pdep_u64 rank_th_one word).

(** [while (length > 1)] of the branchless binary search. *)
Fixpoint word_select1_binary_loop (fuel : nat) (word rank pos length : Z)
  : option Z :=
  if 1 <? length then
    match fuel with
    | O => None
    | S fuel' =>
        let half := length / 2 in
        let pos' :=
          wrap (pos +
                Z.b2z (popcount (shl word (wrap (64 - wrap (pos + half))))
                       <? rank) * half) in
        word_select1_binary_loop fuel' word rank pos' (wrap (length - half))
    end
  else Some pos.

(** [while (rank > 0)] of the linear scan. *)
Fixpoint word_select1_linear_loop (fuel : nat) (word rank pos : Z)
  : option Z :=
  if 0 <? rank then
    match fuel with
    | O => None
    | S fuel' =>
        word_select1_linear_loop fuel'
          (shr word 1) (wrap (rank - Z.land word 1)) (wrap (pos + 1))
    end
  else Some (wrap (pos - 1)).

(** [word_select1<kUseBinarySearch, kOverwriteFastPDEP> (word, rank)].
    The binary search halves [length = 64] and stops within 7 steps.
    The linear scan has consumed the whole word after 64 steps; a run
    that has not returned by then never does, and yields [None]. *)
Definition word_select1 (kUseBinarySearch kOverwriteFastPDEP : bool)
    (word rank : Z) : option Z :=
  if negb kOverwriteFastPDEP && USE_PDEP then
    Some (word_select1_pdep word rank)
  else if kUseBinarySearch then
    word_select1_binary_loop 64 word rank 0 64
  else
    word_select1_linear_loop 64 word rank 0.

End WordSelect.

(* ===================================================================== *)
(** ** bitsy::TwoLayerRankCombinedBitVector *)
(* ===================================================================== *)

(** What the message of the first [static_assert] asks of the block
    width. *)
Definition power_of_two (x : Z) : bool := x =? 2 ^ Z.log2 x.

Record BitVector : Type := mkBitVector {
  _length : Z;
  _num_blocks : Z;
  _data : list Z;
  _num_superblocks : Z;
  _superblock_data : list Z
}.

Definition with_data (bv : BitVector) (d : list Z) : BitVector :=
  {| _length := _length bv; _num_blocks := _num_blocks bv; _data := d;
     _num_superblocks := _num_superblocks bv;
     _superblock_data := _superblock_data bv |}.

(** The loop variables of [update()]. *)
Record update_state : Type := mkUpdateState {
  u_data : list Z;
  u_superblock_data : list Z;
  u_cur_rank : Z;
  u_cur_block_rank : Z;
  u_cur_num_super_block : Z
}.

Section RankCombined.

(** The template parameters. *)
Variables BlockWidth BlockHeaderWidth : Z.

Definition kBlockWidth : Z := BlockWidth.
Definition kBlockHeaderWidth : Z := BlockHeaderWidth.
Definition kBlockDataWidth : Z := kBlockWidth - kBlockHeaderWidth.
Definition kHeaderDataWidth : Z := kWordWidth - kBlockHeaderWidth.
Definition kNumWordsPerBlock : Z := kBlockWidth / kWordWidth.
Definition kSuperblockWidth : Z := math.pow2 BlockHeaderWidth.
Definition kNumBlocksPerSuperblock : Z := kSuperblockWidth / kBlockWidth.
Definition kNumWordsPerSuperblock : Z := kSuperblockWidth / kWordWidth.
Definition kSuperblockDataWidth : Z :=
  kSuperblockWidth - kNumBlocksPerSuperblock * kBlockHeaderWidth.

(** The [static_assert]s of the class. *)
Definition static_asserts : bool :=
  (kBlockWidth mod 2 =? 0) && (64 <? kBlockWidth)
  && (kBlockHeaderWidth <=? 64)
  && (kBlockWidth <? math.pow2 kBlockHeaderWidth).

(** [TwoLayerRankCombinedBitVector (length)]: both buffers come
    uninitialised from the allocator; only the last block is cleared. *)
Definition new (heap_data heap_superblock : nat -> Z) (length : Z)
  : BitVector :=
  let num_blocks := math.div_ceil length kBlockDataWidth in
  let data :=
    StaticVector heap_data
      (num_blocks * kNumWordsPerBlock
       + kNumBlocksPerSuperblock * kNumWordsPerBlock) in
  let num_superblocks := math.div_ceil length kSuperblockDataWidth in
  let superblock_data := StaticVector heap_superblock num_superblocks in
  let data :=
    if 0 <? num_blocks then
      let last_block := (num_blocks - 1) * kNumWordsPerBlock in
      fill_n data last_block (Z.to_nat kNumWordsPerBlock) 0
    else data in
  {| _length := length; _num_blocks := num_blocks; _data := data;
     _num_superblocks := num_superblocks;
     _superblock_data := superblock_data |}.

Definition unset (bv : BitVector) (pos : Z) : BitVector :=
  let num_block := pos / kBlockDataWidth in
  let block_pos := pos mod kBlockDataWidth + kBlockHeaderWidth in
  let num_local_word := block_pos / kWordWidth in
  let num_word := num_block * kNumWordsPerBlock + num_local_word in
  with_data bv
    (poke (_data bv) num_word
       (Z.land (peek (_data bv) num_word)
               (lnot (shl 1 (block_pos mod kWordWidth))))).

Definition set (bv : BitVector) (pos : Z) : BitVector :=
  let num_block := pos / kBlockDataWidth in
  let block_pos := pos mod kBlockDataWidth + kBlockHeaderWidth in
  let num_local_word := block_pos / kWordWidth in
  let num_word := num_block * kNumWordsPerBlock + num_local_word in
  with_data bv
    (poke (_data bv) num_word
       (Z.lor (peek (_data bv) num_word)
              (shl 1 (block_pos mod kWordWidth)))).

(** [set (pos, value)]. *)
Definition set_value (bv : BitVector) (pos : Z) (value : bool)
  : BitVector :=
  let num_block := pos / kBlockDataWidth in
  let block_pos := pos mod kBlockDataWidth + kBlockHeaderWidth in
  let num_local_word := block_pos / kWordWidth in
  let num_word := num_block * kNumWordsPerBlock + num_local_word in
  let mask := shl 1 (block_pos mod kWordWidth) in
  with_data bv
    (poke (_data bv) num_word
       (Z.lor (Z.land (peek (_data bv) num_word) (lnot mask))
              (Z.land (wrap (- Z.b2z value)) mask))).

Definition is_set (bv : BitVector) (pos : Z) : bool :=
  let num_block := pos / kBlockDataWidth in
  let block_pos := pos mod kBlockDataWidth + kBlockHeaderWidth in
  let num_local_word := block_pos / kWordWidth in
  let num_word := num_block * kNumWordsPerBlock + num_local_word in
  let word := peek (_data bv) num_word in
  let word_pos := block_pos mod kWordWidth in
  Z.land (shr word word_pos) 1 =? 1.

(** [block_popcount (data)], [data] pointing at word [base] of the
    buffer. *)
Definition block_popcount_at (data : list Z) (base : Z) : Z :=
  for_range 1 kNumWordsPerBlock 1
    (fun i popcnt => wrap (popcnt + popcount (peek data (base + i))))
    (popcount (shr (peek data base) kBlockHeaderWidth)).

(** [block_popcount (num_block)]. *)
Definition block_popcount (bv : BitVector) (num_block : Z) : Z :=
  block_popcount_at (_data bv) (num_block * kNumWordsPerBlock).

(** The branch [if (is_superblock_word)] of the first loop of
    [update()]. *)
Definition begin_superblock (st : update_state) : update_state :=
  let cur_rank := wrap (u_cur_rank st + u_cur_block_rank st) in
  {| u_data := u_data st;
     u_superblock_data :=
       poke (u_superblock_data st) (u_cur_num_super_block st) cur_rank;
     u_cur_rank := cur_rank;
     u_cur_block_rank := 0;
     u_cur_num_super_block := wrap (u_cur_num_super_block st + 1) |}.

(** Body of the first loop of [update()]: the real blocks. *)
Definition update_block (i : Z) (st : update_state) : update_state :=
  let is_superblock_word := i mod kNumWordsPerSuperblock =? 0 in
  let st := if is_superblock_word then begin_superblock st else st in
  let data :=
    poke (u_data st) i
      (Z.lor (Z.land (peek (u_data st) i)
                     (math.setbits kHeaderDataWidth kBlockHeaderWidth))
             (u_cur_block_rank st)) in
  {| u_data := data;
     u_superblock_data := u_superblock_data st;
     u_cur_rank := u_cur_rank st;
     u_cur_block_rank :=
       wrap (u_cur_block_rank st + block_popcount_at data i);
     u_cur_num_super_block := u_cur_num_super_block st |}.

(** Body of the second loop of [update()]: the padding blocks. *)
Definition update_pad (i : Z) (st : update_state) : update_state :=
  let is_superblock_word := i mod kNumWordsPerSuperblock =? 0 in
  let cur_block_rank :=
    if is_superblock_word then 0 else u_cur_block_rank st in
  {| u_data := poke (u_data st) i cur_block_rank;
     u_superblock_data := u_superblock_data st;
     u_cur_rank := u_cur_rank st;
     u_cur_block_rank := cur_block_rank;
     u_cur_num_super_block := u_cur_num_super_block st |}.

Definition update_run (bv : BitVector) : update_state :=
  let num_words := _num_blocks bv * kNumWordsPerBlock in
  let st :=
    for_range 0 num_words kNumWordsPerBlock update_block
      {| u_data := _data bv; u_superblock_data := _superblock_data bv;
         u_cur_rank := 0; u_cur_block_rank := 0;
         u_cur_num_super_block := 0 |} in
  for_range num_words (size (_data bv)) kNumWordsPerBlock update_pad st.

Definition update (bv : BitVector) : BitVector :=
  let st := update_run bv in
  {| _length := _length bv; _num_blocks := _num_blocks bv;
     _data := u_data st;
     _num_superblocks := _num_superblocks bv;
     _superblock_data := u_superblock_data st |}.

(** [TwoLayerRankCombinedBitVector (length, set)]. *)
Definition new_filled (heap_data heap_superblock : nat -> Z)
    (length : Z) (value : bool) : BitVector :=
  update
    (for_range 0 length 1 (fun pos bv => set_value bv pos value)
       (new heap_data heap_superblock length)).

(** Step b5 of [rank1]: [while (i < num_word) rank += popcount (data[i++])]
    on the block starting at word [base]. *)
Fixpoint rank1_words (fuel : nat) (data : list Z) (base i num_word rank : Z)
  : option (Z * Z) :=
  if i <? num_word then
    match fuel with
    | O => None
    | S fuel' =>
        w <- rd data (base + i) ;;
        rank1_words fuel' data base (i + 1) num_word
          (wrap (rank + popcount w))
    end
  else Some (i, rank).

Definition rank1 (bv : BitVector) (pos : Z) : option Z :=
  let num_block := pos / kBlockDataWidth in
  let block_pos := pos mod kBlockDataWidth + kBlockHeaderWidth in
  let num_word := block_pos / kWordWidth in
  let word_pos := block_pos mod kWordWidth in
  let num_superblock := pos / kSuperblockDataWidth in
  rank <- rd (_superblock_data bv) num_superblock ;;
  let base := num_block * kNumWordsPerBlock in
  first_word <- rd (_data bv) base ;;
  let rank :=
    wrap (rank + Z.land first_word (math.setbits kBlockHeaderWidth 0)) in
  if num_word =? 0 then
    let shift := (kWordWidth + kBlockHeaderWidth) - word_pos in
    Some (wrap (rank +
                popcount (shl (shr first_word kBlockHeaderWidth) shift)
                * Z.b2z (negb (word_pos =? kBlockHeaderWidth))))
  else
    let rank := wrap (rank + popcount (shr first_word kBlockHeaderWidth)) in
    ir <- rank1_words (Z.to_nat num_word) (_data bv) base 1 num_word rank ;;
    let '(i, rank) := ir in
    let shift := kWordWidth - word_pos in
    last <- rd (_data bv) (base + i) ;;
    Some (wrap (rank +
                popcount (shl last shift) * Z.b2z (negb (word_pos =? 0)))).

Definition rank0 (bv : BitVector) (pos : Z) : option Z :=
  r <- rank1 bv pos ;;
  Some (wrap (pos - r)).

Definition memory_space (bv : BitVector) : Z :=
  wrap (wrap (size (_data bv) * kWordWidth)
        + wrap (size (_superblock_data bv) * kWordWidth)).

End RankCombined.

(* ===================================================================== *)
(** ** bitsy::TwoLayerSelect *)
(* ===================================================================== *)

Record TwoLayerSelect : Type := mkTwoLayerSelect {
  _bitvector : BitVector;
  _zero_samples : list Z;
  _one_samples : list Z
}.

(** The variables captured by the [handle_block] closure of [update()]. *)
Record sample_state : Type := mkSampleState {
  s_one_samples : list Z;
  s_zero_samples : list Z;
  s_cur_one : Z;
  s_cur_zero : Z;
  s_total_ones : Z;
  s_total_zeros : Z;
  s_threshold_one : Z;
  s_threshold_zero : Z
}.

(** The branchless binary search shared by the superblock and the block
    level: [while (length > 1)], with [probe] the rank stored at an index.
    A 64-bit [length] is halved to 1 within 64 steps. *)
Fixpoint binary_search (fuel : nat) (probe : Z -> option Z)
    (rank idx length : Z) : option Z :=
  if 1 <? length then
    match fuel with
    | O => None
    | S fuel' =>
        let half := length / 2 in
        let length := wrap (length - half) in
        v <- probe (wrap (idx + half)) ;;
        binary_search fuel' probe rank
          (wrap (idx + Z.b2z (v <? rank) * half)) length
    end
  else Some idx.

(** The linear alternative:
    [while (idx < last && probe (idx + 1) < rank) idx += 1]. *)
Fixpoint linear_search (fuel : nat) (probe : Z -> option Z)
    (rank idx last : Z) : option Z :=
  if idx <? last then
    v <- probe (wrap (idx + 1)) ;;
    if v <? rank then
      match fuel with
      | O => None
      | S fuel' => linear_search fuel' probe rank (wrap (idx + 1)) last
      end
    else Some idx
  else Some idx.

(** Step 4 of a select query:
    [while ((word_rank = current_word_rank ()) < rank)], the pointer
    [data] standing at word [ptr] of the buffer.  Every iteration moves
    the pointer one word forward, so the walk leaves the buffer before
    [fuel = size data] runs out. *)
Fixpoint word_search (current_word_rank : Z -> Z -> Z) (fuel : nat)
    (data : list Z) (ptr num_word rank : Z) : option (Z * Z * Z) :=
  w <- rd data ptr ;;
  let word_rank := current_word_rank num_word w in
  if word_rank <? rank then
    match fuel with
    | O => None
    | S fuel' =>
        word_search current_word_rank fuel' data
          (ptr + 1) (wrap (num_word + 1)) (wrap (rank - word_rank))
    end
  else Some (ptr, num_word, rank).

Section Select.

(** The template parameters of the bit vector and of the select
    structure, and the build flag of [word_select1]. *)
Variables BlockWidth BlockHeaderWidth : Z.
Variable kUseBinarySearch : bool.
Variable Stride : Z.
Variable USE_PDEP : bool.

Local Abbreviation BHW := (kBlockHeaderWidth BlockHeaderWidth).
Local Abbreviation BDW := (kBlockDataWidth BlockWidth BlockHeaderWidth).
Local Abbreviation WPB := (kNumWordsPerBlock BlockWidth).
Local Abbreviation BPSB := (kNumBlocksPerSuperblock BlockWidth BlockHeaderWidth).
Local Abbreviation SBDW := (kSuperblockDataWidth BlockWidth BlockHeaderWidth).

Definition kStride : Z := Stride.

(** The [static_assert] of the class. *)
Definition select_static_asserts : bool := kStride mod 2 =? 0.

(** One of the two [if (total >= threshold)] blocks of [handle_block]:
    the sample buffer, the index of the next sample and the next
    threshold of one kind of bit. *)
Definition record_sample (total num_block : Z) (st : list Z * Z * Z)
  : option (list Z * Z * Z) :=
  let '(samples, cur, threshold) := st in
  if threshold <=? total then
    let num_superblock := wrap (num_block * BDW) / SBDW in
    samples <- wr samples cur num_superblock ;;
    Some (samples, wrap (cur + 1), wrap (threshold + kStride))
  else Some (samples, cur, threshold).

(** The closure [handle_block] of [update()]. *)
Definition handle_block (num_block num_ones num_zeros : Z)
    (st : sample_state) : option sample_state :=
  let total_ones := wrap (s_total_ones st + num_ones) in
  let total_zeros := wrap (s_total_zeros st + num_zeros) in
  st1 <- record_sample total_ones num_block
           (s_one_samples st, s_cur_one st, s_threshold_one st) ;;
  let '(one_samples, cur_one, threshold_one) := st1 in
  st0 <- record_sample total_zeros num_block
           (s_zero_samples st, s_cur_zero st, s_threshold_zero st) ;;
  let '(zero_samples, cur_zero, threshold_zero) := st0 in
  Some {| s_one_samples := one_samples; s_zero_samples := zero_samples;
          s_cur_one := cur_one; s_cur_zero := cur_zero;
          s_total_ones := total_ones; s_total_zeros := total_zeros;
          s_threshold_one := threshold_one;
          s_threshold_zero := threshold_zero |}.

(** [TwoLayerSelect::update()]; [None] when a sample is written outside
    its buffer. *)
Definition select_update (sel : TwoLayerSelect) : option TwoLayerSelect :=
  let bv := _bitvector sel in
  if _length bv =? 0 then Some sel
  else
    let init :=
      {| s_one_samples := _one_samples sel;
         s_zero_samples := _zero_samples sel;
         s_cur_one := 0; s_cur_zero := 0;
         s_total_ones := 0; s_total_zeros := 0;
         s_threshold_one := 0; s_threshold_zero := 0 |} in
    st <-
      for_range 0 (wrap (_num_blocks bv - 1)) 1
        (fun num_block ost =>
           st <- ost ;;
           let num_ones :=
             block_popcount BlockWidth BlockHeaderWidth bv num_block in
           let num_zeros := wrap (BDW - num_ones) in
           handle_block num_block num_ones num_zeros st)
        (Some init) ;;
    let num_last_block := wrap (_num_blocks bv - 1) in
    let wrong_zeros := wrap (wrap (_num_blocks bv * BDW) - _length bv) in
    let num_ones :=
      block_popcount BlockWidth BlockHeaderWidth bv num_last_block in
    let num_zeros := wrap (wrap (BDW - num_ones) - wrong_zeros) in
    st <- handle_block num_last_block num_ones num_zeros st ;;
    one_samples <-
      wr (s_one_samples st) (s_cur_one st)
         (wrap (_num_superblocks bv - 1)) ;;
    zero_samples <-
      wr (s_zero_samples st) (s_cur_zero st)
         (wrap (_num_superblocks bv - 1)) ;;
    Some {| _bitvector := bv; _zero_samples := zero_samples;
            _one_samples := one_samples |}.

(** [TwoLayerSelect (bitvector, num_ones)]: the sample buffers come
    uninitialised from the allocator and are filled by [update()]. *)
Definition select_new (heap_zero heap_one : nat -> Z)
    (bitvector : BitVector) (num_ones : Z) : option TwoLayerSelect :=
  select_update
    {| _bitvector := bitvector;
       _zero_samples :=
         StaticVector heap_zero
           (wrap (wrap (_length bitvector - num_ones) / kStride + 2));
       _one_samples :=
         StaticVector heap_one (wrap (num_ones / kStride + 2)) |}.

(** Steps 2 and 3 of a select query: the search among the entries
    [idx .. last] ([idx .. idx + length - 1] for the binary search). *)
Definition search (probe : Z -> option Z) (rank idx last length : Z)
  : option Z :=
  if kUseBinarySearch
  then binary_search 64 probe rank idx length
  else linear_search (Z.to_nat last) probe rank idx last.

Definition select0 (sel : TwoLayerSelect) (rank : Z) : option Z :=
  let bv := _bitvector sel in
  let nearest_prev_sample := wrap (rank - 1) / kStride in
  num_superblock <- rd (_zero_samples sel) nearest_prev_sample ;;
  num_last_superblock <-
    rd (_zero_samples sel) (wrap (nearest_prev_sample + 1)) ;;
  let superblock_data := _superblock_data bv in
  let superblock_rank := fun num_superblock =>
    v <- rd superblock_data num_superblock ;;
    Some (wrap (wrap (num_superblock * SBDW) - v)) in
  num_superblock <-
    search superblock_rank rank num_superblock num_last_superblock
      (wrap (wrap (num_last_superblock - num_superblock) + 1)) ;;
  sr <- superblock_rank num_superblock ;;
  let rank := wrap (rank - sr) in
  let num_block := wrap (num_superblock * BPSB) in
  let num_last_block :=
    wrap (Z.min (_num_blocks bv) (wrap (wrap (num_superblock + 1) * BPSB))
          - 1) in
  let data := _data bv in
  let block_rank := fun num_block =>
    header_word <- rd data (wrap (num_block * WPB)) ;;
    let block_rank := Z.land header_word (math.setbits BHW 0) in
    Some (wrap (wrap ((num_block mod BPSB) * BDW) - block_rank)) in
  num_block <- search block_rank rank num_block num_last_block BPSB ;;
  br <- block_rank num_block ;;
  let rank := wrap (rank - br) in
  let ptr := wrap (num_block * WPB) in
  let current_word_rank := fun num_word word =>
    if num_word =? 0
    then popcount (lnot (Z.lor word (math.setbits BHW 0)))
    else popcount (lnot word) in
  found <- word_search current_word_rank (length data) data ptr 0 rank ;;
  let '(ptr, num_word, rank) := found in
  w <- rd data ptr ;;
  let word :=
    if num_word =? 0 then Z.lor w (math.setbits BHW 0) else w in
  bit <- word_select1 USE_PDEP false false (lnot word) rank ;;
  Some (wrap (wrap (wrap (wrap (num_block * BDW) + wrap (num_word * kWordWidth))
                    + bit) - BHW)).

Definition select1 (sel : TwoLayerSelect) (rank : Z) : option Z :=
  let bv := _bitvector sel in
  let nearest_prev_sample := wrap (rank - 1) / kStride in
  num_superblock <- rd (_one_samples sel) nearest_prev_sample ;;
  num_last_superblock <-
    rd (_one_samples sel) (wrap (nearest_prev_sample + 1)) ;;
  let superblock_data := _superblock_data bv in
  num_superblock <-
    search (rd superblock_data) rank num_superblock num_last_superblock
      (wrap (wrap (num_last_superblock - num_superblock) + 1)) ;;
  sr <- rd superblock_data num_superblock ;;
  let rank := wrap (rank - sr) in
  let num_block := wrap (num_superblock * BPSB) in
  let num_last_block :=
    wrap (Z.min (_num_blocks bv) (wrap (wrap (num_superblock + 1) * BPSB))
          - 1) in
  let data := _data bv in
  let block_rank := fun offset =>
    word <- rd data (wrap (offset * WPB)) ;;
    Some (Z.land word (math.setbits BHW 0)) in
  num_block <- search block_rank rank num_block num_last_block BPSB ;;
  br <- block_rank num_block ;;
  let rank := wrap (rank - br) in
  let ptr := wrap (num_block * WPB) in
  let current_word_rank := fun num_word word =>
    if num_word =? 0 then popcount (shr word BHW) else popcount word in
  found <- word_search current_word_rank (length data) data ptr 0 rank ;;
  let '(ptr, num_word, rank) := found in
  w <- rd data ptr ;;
  let word :=
    if num_word =? 0 then Z.land w (lnot (math.setbits BHW 0)) else w in
  bit <- word_select1 USE_PDEP false false word rank ;;
  Some (wrap (wrap (wrap (wrap (num_block * BDW) + wrap (num_word * kWordWidth))
                    + bit) - BHW)).

(** [TwoLayerSelect::memory_space()]. *)
Definition select_memory_space (sel : TwoLayerSelect) : Z :=
  wrap (wrap (size (_zero_samples sel) * kWordWidth)
        + wrap (size (_one_samples sel) * kWordWidth)).

End Select.


(* ===================================================================== *)
(** ** bitsy::type_traits *)
(* ===================================================================== *)

From Stdlib Require Ascii String.

Module type_traits.

(** The concept [type_traits::BitVector]: the two constructors and the
    member functions a bit vector offers.  [memory] is what the
    allocator hands to the constructor. *)
Class BitVector (T : Type) : Type := {
  memory : Type;
  new : memory -> Z -> T;
  new_filled : memory -> Z -> bool -> T;
  unset : T -> Z -> T;
  set : T -> Z -> T;
  set_value : T -> Z -> bool -> T;
  is_set : T -> Z -> bool;
  length : T -> Z;
  memory_space : T -> Z
}.

End type_traits.

(** [TwoLayerRankCombinedBitVector<BlockWidth, BlockHeaderWidth>] is a
    [type_traits::BitVector]. *)
#[export] Instance TwoLayerRankCombinedBitVector
    (BlockWidth BlockHeaderWidth : Z) : type_traits.BitVector BitVector := {|
  type_traits.memory := ((nat -> Z) * (nat -> Z))%type;
  type_traits.new := fun m => new BlockWidth BlockHeaderWidth (fst m) (snd m);
  type_traits.new_filled :=
    fun m => new_filled BlockWidth BlockHeaderWidth (fst m) (snd m);
  type_traits.unset := unset BlockWidth BlockHeaderWidth;
  type_traits.set := set BlockWidth BlockHeaderWidth;
  type_traits.set_value := set_value BlockWidth BlockHeaderWidth;
  type_traits.is_set := is_set BlockWidth BlockHeaderWidth;
  type_traits.length := _length;
  type_traits.memory_space := memory_space
|}.

(* ===================================================================== *)
(** ** bitsy::BitVector *)
(* ===================================================================== *)

Module bitvector.

Record BitVector : Type := mkBitVector {
  _length : Z;
  _num_words : Z;
  _data : list Z
}.

Definition with_data (bv : BitVector) (d : list Z) : BitVector :=
  {| _length := _length bv; _num_words := _num_words bv; _data := d |}.

(** [BitVector (length)]: the words come uninitialised from the
    allocator. *)
Definition new (heap : nat -> Z) (length : Z) : BitVector :=
  let num_words := math.div_ceil length kWordWidth in
  {| _length := length; _num_words := num_words;
     _data := StaticVector heap num_words |}.

(** [BitVector (length, set)]. *)
Definition new_filled (heap : nat -> Z) (length : Z) (set : bool)
  : BitVector :=
  let bv := new heap length in
  let default_word := math.setbits (if set then kWordWidth else 0) 0 in
  with_data bv
    (fill_n (_data bv) 0 (Z.to_nat (_num_words bv)) default_word).

Definition unset (bv : BitVector) (pos : Z) : BitVector :=
  with_data bv
    (poke (_data bv) (pos / kWordWidth)
       (Z.land (peek (_data bv) (pos / kWordWidth))
               (lnot (shl 1 (pos mod kWordWidth))))).

Definition set (bv : BitVector) (pos : Z) : BitVector :=
  with_data bv
    (poke (_data bv) (pos / kWordWidth)
       (Z.lor (peek (_data bv) (pos / kWordWidth))
              (shl 1 (pos mod kWordWidth)))).

(** [set (pos, value)]. *)
Definition set_value (bv : BitVector) (pos : Z) (value : bool)
  : BitVector :=
  let num_word := pos / kWordWidth in
  let mask := shl 1 (pos mod kWordWidth) in
  with_data bv
    (poke (_data bv) num_word
       (Z.lor (Z.land (peek (_data bv) num_word) (lnot mask))
              (Z.land (wrap (- Z.b2z value)) mask))).

Definition is_set (bv : BitVector) (pos : Z) : bool :=
  let word := peek (_data bv) (pos / kWordWidth) in
  Z.land (shr word (pos mod kWordWidth)) 1 =? 1.

Definition memory_space (bv : BitVector) : Z :=
  wrap (size (_data bv) * kWordWidth).

End bitvector.

(** [bitsy::BitVector] is a [type_traits::BitVector]. *)
#[export] Instance PlainBitVector : type_traits.BitVector bitvector.BitVector
  := {|
  type_traits.memory := nat -> Z;
  type_traits.new := bitvector.new;
  type_traits.new_filled := bitvector.new_filled;
  type_traits.unset := bitvector.unset;
  type_traits.set := bitvector.set;
  type_traits.set_value := bitvector.set_value;
  type_traits.is_set := bitvector.is_set;
  type_traits.length := bitvector._length;
  type_traits.memory_space := bitvector.memory_space
|}.

(* ===================================================================== *)
(** ** bitsy::NaiveRank *)
(* ===================================================================== *)

Module naive_rank.

Section NaiveRank.

(** The template parameter. *)
Variable T : Type.
Context {T_is_bitvector : type_traits.BitVector T}.

Record NaiveRank : Type := mkNaiveRank {
  _bitvector : T;
  _data : list Z
}.

(** [update()]; [None] when a rank is written outside the buffer. *)
Definition update (r : NaiveRank) : option NaiveRank :=
  st <-
    for_range 0 (type_traits.length (_bitvector r)) 1
      (fun pos ost =>
         st <- ost ;;
         let '(data, cur_rank) := st in
         data <- wr data pos cur_rank ;;
         Some (data,
               wrap (cur_rank
                     + Z.b2z (type_traits.is_set (_bitvector r) pos))))
      (Some (_data r, 0)) ;;
  Some {| _bitvector := _bitvector r; _data := fst st |}.

(** [NaiveRank (bitvector)]. *)
Definition new (heap : nat -> Z) (bitvector : T) : option NaiveRank :=
  update {| _bitvector := bitvector;
            _data := StaticVector heap (type_traits.length bitvector) |}.

Definition rank1 (r : NaiveRank) (pos : Z) : option Z :=
  rd (_data r) pos.

Definition rank0 (r : NaiveRank) (pos : Z) : option Z :=
  v <- rank1 r pos ;;
  Some (wrap (pos - v)).

Definition memory_space (r : NaiveRank) : Z :=
  wrap (size (_data r) * kWordWidth).

End NaiveRank.

Arguments _bitvector {T} _.
Arguments _data {T} _.
Arguments update {T T_is_bitvector} r.
Arguments new {T T_is_bitvector} heap bitvector.
Arguments rank1 {T} r pos.
Arguments rank0 {T} r pos.
Arguments memory_space {T} r.

End naive_rank.

(* ===================================================================== *)
(** ** bitsy::NaiveSelect *)
(* ===================================================================== *)

Module naive_select.

Section NaiveSelect.

(** The template parameter. *)
Variable T : Type.
Context {T_is_bitvector : type_traits.BitVector T}.

Record NaiveSelect : Type := mkNaiveSelect {
  _bitvector : T;
  _zero_positions : list Z;
  _one_positions : list Z
}.

(** The loop variables of [update()]. *)
Record positions : Type := mkPositions {
  p_zero_positions : list Z;
  p_one_positions : list Z;
  p_cur_zero : Z;
  p_cur_one : Z
}.

(** The body of the loop of [update()]. *)
Definition record_position (bitvector : T) (pos : Z) (st : positions)
  : option positions :=
  if type_traits.is_set bitvector pos then
    one_positions <- wr (p_one_positions st) (p_cur_one st) pos ;;
    Some {| p_zero_positions := p_zero_positions st;
            p_one_positions := one_positions;
            p_cur_zero := p_cur_zero st;
            p_cur_one := wrap (p_cur_one st + 1) |}
  else
    zero_positions <- wr (p_zero_positions st) (p_cur_zero st) pos ;;
    Some {| p_zero_positions := zero_positions;
            p_one_positions := p_one_positions st;
            p_cur_zero := wrap (p_cur_zero st + 1);
            p_cur_one := p_cur_one st |}.

(** [update()]; [None] when a position is written outside its
    buffer. *)
Definition update (s : NaiveSelect) : option NaiveSelect :=
  let length := type_traits.length (_bitvector s) in
  st <-
    for_range 0 length 1
      (fun pos ost => st <- ost ;; record_position (_bitvector s) pos st)
      (Some {| p_zero_positions := _zero_positions s;
               p_one_positions := _one_positions s;
               p_cur_zero := 0; p_cur_one := 0 |}) ;;
  Some {| _bitvector := _bitvector s;
          _zero_positions := p_zero_positions st;
          _one_positions := p_one_positions st |}.

(** [NaiveSelect (bitvector, num_ones)]. *)
Definition new (heap_zero heap_one : nat -> Z) (bitvector : T)
    (num_ones : Z) : option NaiveSelect :=
  update
    {| _bitvector := bitvector;
       _zero_positions :=
         StaticVector heap_zero
           (wrap (type_traits.length bitvector - num_ones));
       _one_positions := StaticVector heap_one num_ones |}.

Definition select0 (s : NaiveSelect) (rank : Z) : option Z :=
  rd (_zero_positions s) (wrap (rank - 1)).

Definition select1 (s : NaiveSelect) (rank : Z) : option Z :=
  rd (_one_positions s) (wrap (rank - 1)).

Definition memory_space (s : NaiveSelect) : Z :=
  wrap (wrap (size (_zero_positions s) * kWordWidth)
        + wrap (size (_one_positions s) * kWordWidth)).

End NaiveSelect.

Arguments _bitvector {T} _.
Arguments _zero_positions {T} _.
Arguments _one_positions {T} _.
Arguments record_position {T T_is_bitvector} bitvector pos st.
Arguments update {T T_is_bitvector} s.
Arguments new {T T_is_bitvector} heap_zero heap_one bitvector num_ones.
Arguments select0 {T} s rank.
Arguments select1 {T} s rank.
Arguments memory_space {T} s.

End naive_select.

(* ===================================================================== *)
(** ** bitsy::testing *)
(* ===================================================================== *)

Module testing.

Section Testing.

Variable T : Type.
Context {T_is_bitvector : type_traits.BitVector T}.

(** [create_alternating_bitvec<BitVector> (length, period)].  The
    remainder [pos % period] of two [std::size_t] has no value when
    [period] is zero: the result is [None] as soon as the loop body
    runs with such a period. *)
Definition create_alternating_bitvec (mem : type_traits.memory)
    (length period : Z) : option T :=
  for_range 0 length 1
    (fun pos result =>
       bitvector <- result ;;
       if period =? 0 then None
       else
         Some (type_traits.set_value bitvector pos
                 (pos mod period =? 0)))
    (Some (type_traits.new mem length)).

(** [create_random_bitvec<BitVector> (length, fill_ratio, seed)].
    The generator is not modelled: [draw pos] is the outcome of
    [dist (gen)] in the iteration for position [pos], which
    [fill_ratio] and [seed] determine. *)
Definition create_random_bitvec (draw : Z -> bool)
    (mem : type_traits.memory) (length : Z) : T :=
  for_range 0 length 1
    (fun pos bitvector => type_traits.set_value bitvector pos (draw pos))
    (type_traits.new mem length).

(** [count_ones (bitvector)]. *)
Definition count_ones (bitvector : T) : Z :=
  for_range 0 (type_traits.length bitvector) 1
    (fun pos num_ones =>
       wrap (num_ones + Z.b2z (type_traits.is_set bitvector pos)))
    0.

End Testing.

Arguments create_alternating_bitvec T {T_is_bitvector} mem length period.
Arguments create_random_bitvec T {T_is_bitvector} draw mem length.
Arguments count_ones {T T_is_bitvector} bitvector.

End testing.

(* ===================================================================== *)
(** ** The application [ads_programm] *)
(* ===================================================================== *)

Module ads_programm.

(** [apps/util/query.hpp]. *)
Inductive QueryKind : Type := ACCESS | RANK0 | RANK1 | SELECT0 | SELECT1.

Record Query : Type := mkQuery {
  kind : QueryKind;
  value : Z
}.

Section Main.

(** Whether the build defines [USE_PDEP]. *)
Variable USE_PDEP : bool.

(** [raw_bitvector[pos] == '1'], the character ['1'] being the byte
    49. *)
Definition is_one (raw_bitvector : String.string) (pos : Z) : bool :=
  match String.get (Z.to_nat pos) raw_bitvector with
  | Some c => Ascii.eqb c (Ascii.ascii_of_nat 49)
  | None => false
  end.

(** The first loop of [main]: the bits of the input are stored and
    the ones counted. *)
Definition load (heap_data heap_superblock : nat -> Z)
    (raw_bitvector : String.string) : Z * BitVector :=
  let length := Z.of_nat (String.length raw_bitvector) in
  for_range 0 length 1
    (fun pos st =>
       let is_set := is_one raw_bitvector pos in
       (wrap (fst st + Z.b2z is_set),
        set_value 512 14 (snd st) pos is_set))
    (0, new 512 14 heap_data heap_superblock length).

(** The [switch] of the query loop. *)
Definition answer (bitvector : BitVector) (select : TwoLayerSelect)
    (query : Query) : option Z :=
  match kind query with
  | ACCESS => Some (Z.b2z (is_set 512 14 bitvector (value query)))
  | RANK0 => rank0 512 14 bitvector (value query)
  | RANK1 => rank1 512 14 bitvector (value query)
  | SELECT0 => select0 512 14 true 32768 USE_PDEP select (value query)
  | SELECT1 => select1 512 14 true 32768 USE_PDEP select (value query)
  end.

(** The query loop: [answers[i]] for [i = 0 .. num_queries - 1]. *)
Fixpoint answer_queries (bitvector : BitVector)
    (select : TwoLayerSelect) (queries : list Query)
  : option (list Z) :=
  match queries with
  | [] => Some []
  | query :: rest =>
      a <- answer bitvector select query ;;
      answers <- answer_queries bitvector select rest ;;
      Some (a :: answers)
  end.

(** [main], from the result of [read_input] to the arguments of
    [write_answers]: the space reported and the answers. *)
Definition main (heap_data heap_superblock heap_zero heap_one : nat -> Z)
    (raw_bitvector : String.string) (queries : list Query)
  : option (Z * list Z) :=
  let loaded := load heap_data heap_superblock raw_bitvector in
  let num_ones := fst loaded in
  let bitvector := snd loaded in
  let memory_space := memory_space bitvector in
  let bitvector := update 512 14 bitvector in
  select <- select_new 512 14 32768 heap_zero heap_one bitvector
              num_ones ;;
  let memory_space :=
    wrap (memory_space + select_memory_space select) in
  answers <- answer_queries bitvector select queries ;;
  Some (memory_space, answers).

End Main.

End ads_programm.

(* ===================================================================== *)
(** ** Vocabulary of the specification *)
(* ===================================================================== *)

(** A 64-bit value. *)
Definition word (w : Z) : Prop := 0 <= w < 2 ^ 64.

(** [pos] is the position of the [k]-th set bit of [w], counting from 1. *)
Definition kth_set_bit (w k pos : Z) : Prop :=
  0 <= pos < 64 /\ Z.testbit w pos = true /\ ones (Z.testbit w) 0 pos = k - 1.

(** [n] rounds of a counted loop: the body at [start], [start + step], ... *)
Fixpoint iterate {S : Type} (n : nat) (start step : Z)
    (body : Z -> S -> S) (st : S) : S :=
  match n with
  | O => st
  | Datatypes.S n' =>
      body (start + Z.of_nat n' * step) (iterate n' start step body st)
  end.

(** The whole buffer seen as one string of bits: bit [g] is bit
    [g mod 64] of word [g / 64]. *)
Definition buffer_bit (data : list Z) (g : Z) : bool :=
  Z.testbit (peek data (g / 64)) (g mod 64).

Section Specification.

Variables BlockWidth BlockHeaderWidth : Z.

Local Abbreviation BW := (kBlockWidth BlockWidth).
Local Abbreviation BHW := (kBlockHeaderWidth BlockHeaderWidth).
Local Abbreviation BDW := (kBlockDataWidth BlockWidth BlockHeaderWidth).
Local Abbreviation WPB := (kNumWordsPerBlock BlockWidth).
Local Abbreviation BPSB :=
  (kNumBlocksPerSuperblock BlockWidth BlockHeaderWidth).
Local Abbreviation SBDW :=
  (kSuperblockDataWidth BlockWidth BlockHeaderWidth).

(** The requirements on the template parameters: the four
    [static_assert]s of the class, and the requirement the first of them
    announces ("Block width has to be a power of two"). *)
Definition valid_parameters : Prop :=
  static_asserts BlockWidth BlockHeaderWidth = true
  /\ power_of_two BlockWidth = true.

(** The class invariant: what the constructor establishes and every
    member function keeps. *)
Record wf (bv : BitVector) : Prop := {
  wf_length : 0 <= _length bv;
  wf_num_blocks : _num_blocks bv = math.div_ceil (_length bv) BDW;
  wf_num_superblocks :
    _num_superblocks bv = math.div_ceil (_length bv) SBDW;
  wf_data_size : size (_data bv) = _num_blocks bv * WPB + BPSB * WPB;
  wf_superblock_size : size (_superblock_data bv) = _num_superblocks bv;
  wf_addressable : size (_data bv) * kWordWidth < 2 ^ 63;
  wf_data_words : Forall word (_data bv);
  wf_superblock_words : Forall word (_superblock_data bv);
  wf_tail :
    forall p, _length bv <= p < _num_blocks bv * BDW ->
              is_set BlockWidth BlockHeaderWidth bv p = false
}.

(** The bit vectors a client can build: the constructor, then any
    sequence of [set], [unset], [set (pos, value)] at positions below
    the length and of [update()].  The buffer of blocks is assumed to
    be smaller than [2^63] bits. *)
Inductive reachable : BitVector -> Prop :=
| reach_new heap_data heap_superblock length :
    0 <= length ->
    (math.div_ceil length BDW + BPSB) * BW < 2 ^ 63 ->
    reachable (new BlockWidth BlockHeaderWidth heap_data heap_superblock
                 length)
| reach_set bv pos :
    reachable bv -> 0 <= pos < _length bv ->
    reachable (set BlockWidth BlockHeaderWidth bv pos)
| reach_unset bv pos :
    reachable bv -> 0 <= pos < _length bv ->
    reachable (unset BlockWidth BlockHeaderWidth bv pos)
| reach_set_value bv pos value :
    reachable bv -> 0 <= pos < _length bv ->
    reachable (set_value BlockWidth BlockHeaderWidth bv pos value)
| reach_update bv :
    reachable bv -> reachable (update BlockWidth BlockHeaderWidth bv).

(** Where position [p] lives in the buffer seen as a string of bits. *)
Definition bit_index (p : Z) : Z := p / BDW * BW + p mod BDW + BHW.

(** The logical bits: [is_set] inside the real blocks, zero beyond. *)
Definition payload (bv : BitVector) (p : Z) : bool :=
  (p <? _num_blocks bv * BDW) && is_set BlockWidth BlockHeaderWidth bv p.

(** Number of ones from the start of the superblock of block [b] up to
    the start of block [b]. *)
Definition header_rank (bv : BitVector) (b : Z) : Z :=
  ones (payload bv) (b / BPSB * SBDW) (b * BDW).

(** The header stored in block [b]: the low [BHW] bits of its first
    word. *)
Definition header (bv : BitVector) (b : Z) : Z :=
  Z.land (peek (_data bv) (b * WPB)) (math.setbits BHW 0).

(** What [update()] leaves in word [i] of the buffer. *)
Definition updated_word (bv : BitVector) (i : Z) : Z :=
  if i mod WPB =? 0 then
    if i / WPB <? _num_blocks bv then
      Z.lor (Z.land (peek (_data bv) i)
                    (math.setbits (kHeaderDataWidth BlockHeaderWidth) BHW))
            (header_rank bv (i / WPB))
    else header_rank bv (i / WPB)
  else peek (_data bv) i.

(** After [k] blocks of [update()]: the first position of the superblock
    of the last block handled, and the number of superblocks begun. *)
Definition current_superblock_start (k : Z) : Z :=
  if k =? 0 then 0 else (k - 1) / BPSB * SBDW.

Definition superblocks_begun (k : Z) : Z :=
  if k =? 0 then 0 else (k - 1) / BPSB + 1.

(** The state of [update()] after [k] blocks, real or padding. *)
Record update_invariant (bv : BitVector) (k : Z) (st : update_state)
  : Prop := {
  ui_data_size : size (u_data st) = size (_data bv);
  ui_superblock_size :
    size (u_superblock_data st) = size (_superblock_data bv);
  ui_data_words : Forall word (u_data st);
  ui_superblock_words : Forall word (u_superblock_data st);
  ui_data :
    forall i, 0 <= i < size (_data bv) ->
      peek (u_data st) i =
      if i <? k * WPB then updated_word bv i else peek (_data bv) i;
  ui_superblock :
    forall s, 0 <= s < size (_superblock_data bv) ->
      peek (u_superblock_data st) s =
      if s <? superblocks_begun (Z.min k (_num_blocks bv))
      then ones (payload bv) 0 (s * SBDW)
      else peek (_superblock_data bv) s;
  ui_cur_num_super_block :
    u_cur_num_super_block st
    = superblocks_begun (Z.min k (_num_blocks bv));
  ui_cur_rank :
    u_cur_rank st
    = ones (payload bv) 0
        (current_superblock_start (Z.min k (_num_blocks bv)));
  ui_cur_block_rank :
    u_cur_block_rank st
    = ones (payload bv) (current_superblock_start k) (k * BDW)
}.

(** A bit vector whose rank data is up to date. *)
Record finalized (bv : BitVector) : Prop := {
  fin_wf : wf bv;
  fin_header :
    forall b, 0 <= b < _num_blocks bv + BPSB ->
              header bv b = header_rank bv b;
  fin_superblock :
    forall s, 0 <= s < _num_superblocks bv ->
              peek (_superblock_data bv) s = ones (payload bv) 0 (s * SBDW)
}.

End Specification.

Section SelectSpecification.

Variables BlockWidth BlockHeaderWidth : Z.
Variable Stride : Z.

Local Abbreviation BW := (kBlockWidth BlockWidth).
Local Abbreviation BDW := (kBlockDataWidth BlockWidth BlockHeaderWidth).
Local Abbreviation BPSB :=
  (kNumBlocksPerSuperblock BlockWidth BlockHeaderWidth).
Local Abbreviation payload := (payload BlockWidth BlockHeaderWidth).

(** The requirements on the stride: the [static_assert] of the class,
    room for the one sample that [handle_block] can record per block,
    and the range of [std::size_t]. *)
Definition valid_stride : Prop :=
  select_static_asserts Stride = true /\ BW <= Stride < 2 ^ 64.

(** The bits a select query of kind [v] looks for: the ones, or the
    zeros below the length. *)
Definition wanted (bv : BitVector) (v : bool) (p : Z) : bool :=
  if v then payload bv p else (p <? _length bv) && negb (payload bv p).

(** The bits a descent of kind [v] counts: beyond the length every bit
    counts as a zero. *)
Definition counted (bv : BitVector) (v : bool) (p : Z) : bool :=
  if v then payload bv p else negb (payload bv p).

(** Number of wanted bits in the first [k] blocks. *)
Definition seen (bv : BitVector) (v : bool) (k : Z) : Z :=
  ones (wanted bv v) 0 (k * BDW).

(** The sampling state of one kind of bit after [k] blocks. *)
Record sampled (bv : BitVector) (v : bool) (n : Z) (k : Z)
    (st : list Z * Z * Z) : Prop := {
  sp_size : size (fst (fst st)) = n;
  sp_words : Forall word (fst (fst st));
  sp_threshold : snd st = snd (fst st) * Stride;
  sp_cur : 0 <= snd (fst st);
  sp_first : k = 0 -> snd (fst st) = 0;
  sp_next :
    0 < k ->
    (snd (fst st) - 1) * Stride <= seen bv v k < snd (fst st) * Stride;
  sp_samples :
    forall j, 0 <= j < snd (fst st) ->
      exists b, 0 <= b < k
                /\ peek (fst (fst st)) j = b / BPSB
                /\ seen bv v b <= j * Stride <= seen bv v (b + 1)
}.

(** The samples of one kind of bit, once [update()] has run. *)
Record samples_ok (bv : BitVector) (v : bool) (samples : list Z)
  : Prop := {
  so_size :
    size samples = seen bv v (_num_blocks bv) / Stride + 2;
  so_samples :
    forall j, 0 <= j <= seen bv v (_num_blocks bv) / Stride ->
      exists b, 0 <= b < _num_blocks bv
                /\ peek samples j = b / BPSB
                /\ seen bv v b <= j * Stride <= seen bv v (b + 1);
  so_sentinel :
    peek samples (seen bv v (_num_blocks bv) / Stride + 1)
    = _num_superblocks bv - 1
}.

(** The state of [TwoLayerSelect::update()] after [k] blocks. *)
Record sample_invariant (bv : BitVector) (n1 n0 : Z) (k : Z)
    (st : sample_state) : Prop := {
  si_total_ones : s_total_ones st = seen bv true k;
  si_total_zeros : s_total_zeros st = seen bv false k;
  si_ones :
    sampled bv true n1 k
      (s_one_samples st, s_cur_one st, s_threshold_one st);
  si_zeros :
    sampled bv false n0 k
      (s_zero_samples st, s_cur_zero st, s_threshold_zero st)
}.

End SelectSpecification.

Section Descent.

Variables BlockWidth BlockHeaderWidth : Z.
Variable kUseBinarySearch : bool.
Variable Stride : Z.
Variable USE_PDEP : bool.

Local Abbreviation BHW := (kBlockHeaderWidth BlockHeaderWidth).
Local Abbreviation BDW := (kBlockDataWidth BlockWidth BlockHeaderWidth).
Local Abbreviation WPB := (kNumWordsPerBlock BlockWidth).
Local Abbreviation BPSB :=
  (kNumBlocksPerSuperblock BlockWidth BlockHeaderWidth).
Local Abbreviation SBDW :=
  (kSuperblockDataWidth BlockWidth BlockHeaderWidth).

(** What [select0] and [select1] have in common; they differ in the
    sample buffer, in the rank they read for a superblock and for a
    block, in the rank of a word and in the word they hand to
    [word_select1]. *)
Definition descend (samples : list Z)
    (superblock_rank block_rank : Z -> option Z)
    (current_word_rank select_word : Z -> Z -> Z)
    (bv : BitVector) (rank : Z) : option Z :=
  let nearest_prev_sample := wrap (rank - 1) / kStride Stride in
  num_superblock <- rd samples nearest_prev_sample ;;
  num_last_superblock <- rd samples (wrap (nearest_prev_sample + 1)) ;;
  num_superblock <-
    search kUseBinarySearch superblock_rank rank num_superblock
      num_last_superblock
      (wrap (wrap (num_last_superblock - num_superblock) + 1)) ;;
  sr <- superblock_rank num_superblock ;;
  let rank := wrap (rank - sr) in
  let num_block := wrap (num_superblock * BPSB) in
  let num_last_block :=
    wrap (Z.min (_num_blocks bv) (wrap (wrap (num_superblock + 1) * BPSB))
          - 1) in
  let data := _data bv in
  num_block <-
    search kUseBinarySearch block_rank rank num_block num_last_block BPSB ;;
  br <- block_rank num_block ;;
  let rank := wrap (rank - br) in
  let ptr := wrap (num_block * WPB) in
  found <- word_search current_word_rank (length data) data ptr 0 rank ;;
  let '(ptr, num_word, rank) := found in
  w <- rd data ptr ;;
  bit <- word_select1 USE_PDEP false false (select_word num_word w) rank ;;
  Some (wrap (wrap (wrap (wrap (num_block * BDW)
                          + wrap (num_word * kWordWidth))
                    + bit) - BHW)).

(** The parts of a descent for the ones ([v = true]) and for the zeros
    ([v = false]). *)
Definition samples_of (v : bool) (sel : TwoLayerSelect) : list Z :=
  if v then _one_samples sel else _zero_samples sel.

Definition probe_superblock (v : bool) (bv : BitVector) (s : Z)
  : option Z :=
  if v then rd (_superblock_data bv) s
  else x <- rd (_superblock_data bv) s ;;
       Some (wrap (wrap (s * SBDW) - x)).

Definition probe_block (v : bool) (bv : BitVector) (b : Z) : option Z :=
  if v then
    w <- rd (_data bv) (wrap (b * WPB)) ;;
    Some (Z.land w (math.setbits BHW 0))
  else
    w <- rd (_data bv) (wrap (b * WPB)) ;;
    let block_rank := Z.land w (math.setbits BHW 0) in
    Some (wrap (wrap ((b mod BPSB) * BDW) - block_rank)).

Definition word_rank (v : bool) (num_word w : Z) : Z :=
  if v then
    if num_word =? 0 then popcount (shr w BHW) else popcount w
  else
    if num_word =? 0
    then popcount (lnot (Z.lor w (math.setbits BHW 0)))
    else popcount (lnot w).

Definition word_mask (v : bool) (num_word w : Z) : Z :=
  if v then
    if num_word =? 0 then Z.land w (lnot (math.setbits BHW 0)) else w
  else
    lnot (if num_word =? 0 then Z.lor w (math.setbits BHW 0) else w).

(** [select1] for [v = true], [select0] for [v = false]. *)
Definition select (v : bool) (sel : TwoLayerSelect) (rank : Z)
  : option Z :=
  if v
  then select1 BlockWidth BlockHeaderWidth kUseBinarySearch Stride USE_PDEP
         sel rank
  else select0 BlockWidth BlockHeaderWidth kUseBinarySearch Stride USE_PDEP
         sel rank.

(** A bit as a descent of kind [v] sees it. *)
Definition kind_bit (v b : bool) : bool := if v then b else negb b.

End Descent.

(* ===================================================================== *)
(** ** A worked example *)
(* ===================================================================== *)

(** Memory as an allocator may hand it out: every word differs from
    zero. *)
Definition dirty_heap (i : nat) : Z := 2 ^ 64 - 1 - Z.of_nat i.

(** A vector of three bits, of which the middle one is set, with the
    default template arguments. *)
Definition example_bitvector : BitVector :=
  set 512 14
    (unset 512 14 (unset 512 14 (new 512 14 dirty_heap dirty_heap 3) 0) 2) 1.

(** Memory in which every bit is set. *)
Definition full_heap (i : nat) : Z := 2 ^ 64 - 1.

(** A block width that is even and no power of two: the instantiation
    [<1536, 16>] of the rank benchmark, with 42 blocks of 1520 bits to a
    superblock of 64864 bits.  Constructed in memory full of ones, the
    vector of length 66881 holds 44 blocks of ones and a cleared last
    block with the single position 66880. *)
Definition example_wide_blocks : BitVector :=
  new 1536 16 full_heap full_heap 66881.



(* ===================================================================== *)
(** ** Vocabulary for [bitsy::BitVector] *)
(* ===================================================================== *)

(** The class invariant of [bitsy::BitVector]. *)
Record bitvector_wf (bv : bitvector.BitVector) : Prop := {
  bwf_length : 0 <= bitvector._length bv;
  bwf_num_words :
    bitvector._num_words bv = math.div_ceil (bitvector._length bv) kWordWidth;
  bwf_size : size (bitvector._data bv) = bitvector._num_words bv;
  bwf_words : Forall word (bitvector._data bv)
}.

(** The plain bit vectors a client can build: either constructor, then
    any sequence of [set], [unset] and [set (pos, value)] at positions
    below the length. *)
Inductive bitvector_reachable : bitvector.BitVector -> Prop :=
| breach_new heap length :
    0 <= length -> bitvector_reachable (bitvector.new heap length)
| breach_new_filled heap length value :
    0 <= length ->
    bitvector_reachable (bitvector.new_filled heap length value)
| breach_set bv pos :
    bitvector_reachable bv -> 0 <= pos < bitvector._length bv ->
    bitvector_reachable (bitvector.set bv pos)
| breach_unset bv pos :
    bitvector_reachable bv -> 0 <= pos < bitvector._length bv ->
    bitvector_reachable (bitvector.unset bv pos)
| breach_set_value bv pos value :
    bitvector_reachable bv -> 0 <= pos < bitvector._length bv ->
    bitvector_reachable (bitvector.set_value bv pos value).

(* ===================================================================== *)
(** ** Vocabulary for [bitsy::NaiveSelect] *)
(* ===================================================================== *)

Section NaiveSpecification.

Context {T : Type} {T_is_bitvector : type_traits.BitVector T}.

Variable bitvector : T.

Local Abbreviation is_set :=
  (@type_traits.is_set T T_is_bitvector bitvector).

(** The state of [NaiveSelect::update()] after [k] positions, for a
    buffer of [n1] one-positions and [n0] zero-positions. *)
Definition positions_invariant (n1 n0 k : Z) (st : naive_select.positions)
  : Prop :=
  size (naive_select.p_one_positions st) = n1
  /\ size (naive_select.p_zero_positions st) = n0
  /\ naive_select.p_cur_one st = ones is_set 0 k
  /\ naive_select.p_cur_zero st = k - ones is_set 0 k
  /\ (forall j, 0 <= j < ones is_set 0 k ->
        exists p, 0 <= p < k
                  /\ peek (naive_select.p_one_positions st) j = p
                  /\ is_set p = true /\ ones is_set 0 p = j)
  /\ (forall j, 0 <= j < k - ones is_set 0 k ->
        exists p, 0 <= p < k
                  /\ peek (naive_select.p_zero_positions st) j = p
                  /\ is_set p = false /\ p - ones is_set 0 p = j).

End NaiveSpecification.

(* ===================================================================== *)
(** ** Vocabulary for the application *)
(* ===================================================================== *)

(** The queries [ads_programm] can answer on [n] bits [bits]: a position
    below the length, or a rank between 1 and the number of ones,
    respectively zeros. *)
Definition query_valid (bits : Z -> bool) (n : Z)
    (query : ads_programm.Query) : Prop :=
  match ads_programm.kind query with
  | ads_programm.ACCESS | ads_programm.RANK0 | ads_programm.RANK1 =>
      0 <= ads_programm.value query < n
  | ads_programm.SELECT1 =>
      1 <= ads_programm.value query <= ones bits 0 n
  | ads_programm.SELECT0 =>
      1 <= ads_programm.value query <= n - ones bits 0 n
  end.

(** The answer a query asks for. *)
Definition query_answer (bits : Z -> bool) (n : Z)
    (query : ads_programm.Query) (a : Z) : Prop :=
  let v := ads_programm.value query in
  match ads_programm.kind query with
  | ads_programm.ACCESS => a = Z.b2z (bits v)
  | ads_programm.RANK1 => a = ones bits 0 v
  | ads_programm.RANK0 => a = v - ones bits 0 v
  | ads_programm.SELECT1 =>
      0 <= a < n /\ bits a = true /\ ones bits 0 a = v - 1
  | ads_programm.SELECT0 =>
      0 <= a < n /\ bits a = false /\ a - ones bits 0 a = v - 1
  end.

(* ===================================================================== *)
(** ** Further worked examples *)
(* ===================================================================== *)

(** The text of a bit string: ['1'] is the byte 49 and ['0'] the byte
    48. *)
Definition raw_of_bits (l : list bool) : String.string :=
  fold_right
    (fun (b : bool) s =>
       String.String (Ascii.ascii_of_nat (if b then 49 else 48)%nat) s)
    String.EmptyString l.

(** The input [0110100] with one query of every kind. *)
Definition example_input : String.string :=
  raw_of_bits [false; true; true; false; true; false; false].

Definition example_queries : list ads_programm.Query :=
  [ {| ads_programm.kind := ads_programm.ACCESS; ads_programm.value := 4 |};
    {| ads_programm.kind := ads_programm.RANK0; ads_programm.value := 5 |};
    {| ads_programm.kind := ads_programm.RANK1; ads_programm.value := 5 |};
    {| ads_programm.kind := ads_programm.SELECT0; ads_programm.value := 4 |};
    {| ads_programm.kind := ads_programm.SELECT1; ads_programm.value := 3 |} ].

(** A vector of two blocks, as the allocator left it. *)
Definition example_two_blocks : BitVector :=
  new 512 14 dirty_heap dirty_heap 600.

(** A plain bit vector of two words. *)
Definition example_plain : bitvector.BitVector :=
  bitvector.set (bitvector.new_filled dirty_heap 70 false) 65.

(* ===================================================================== *)
(** ** Counting lemmas *)
(* ===================================================================== *)

Lemma count_bits_bounds f lo n : 0 <= count_bits f lo n <= Z.of_nat n.
Proof.
  revert lo; induction n as [|n IH]; intros lo; cbn [count_bits].
  - lia.
  - specialize (IH (lo + 1)). destruct (f lo); cbn [Z.b2z]; lia.
Qed.

Lemma count_bits_ext f g lo n :
  (forall i, lo <= i < lo + Z.of_nat n -> f i = g i) ->
  count_bits f lo n = count_bits g lo n.
Proof.
  revert lo; induction n as [|n IH]; intros lo H; cbn [count_bits].
  - reflexivity.
  - rewrite (H lo) by lia. f_equal. apply IH. intros i Hi. apply H. lia.
Qed.

Lemma count_bits_app f lo n m :
  count_bits f lo (n + m) =
  count_bits f lo n + count_bits f (lo + Z.of_nat n) m.
Proof.
  revert lo; induction n as [|n IH]; intros lo.
  - cbn [count_bits Nat.add]. replace (lo + Z.of_nat 0) with lo by lia.
    reflexivity.
  - cbn [count_bits Nat.add]. rewrite IH.
    replace (lo + 1 + Z.of_nat n) with (lo + Z.of_nat (S n)) by lia. lia.
Qed.

Lemma count_bits_shift f d lo n :
  count_bits (fun i => f (i + d)) lo n = count_bits f (lo + d) n.
Proof.
  revert lo; induction n as [|n IH]; intros lo; cbn [count_bits].
  - reflexivity.
  - rewrite IH. do 2 f_equal. lia.
Qed.

Lemma count_bits_negb f lo n :
  count_bits (fun i => negb (f i)) lo n = Z.of_nat n - count_bits f lo n.
Proof.
  revert lo; induction n as [|n IH]; intros lo; cbn [count_bits].
  - reflexivity.
  - rewrite IH. destruct (f lo); cbn [Z.b2z negb]; lia.
Qed.

Lemma ones_bounds f lo hi : lo <= hi -> 0 <= ones f lo hi <= hi - lo.
Proof.
  intros H. unfold ones.
  pose proof (count_bits_bounds f lo (Z.to_nat (hi - lo))). lia.
Qed.

Lemma ones_nonneg f lo hi : 0 <= ones f lo hi.
Proof. apply count_bits_bounds. Qed.

Lemma ones_empty f lo hi : hi <= lo -> ones f lo hi = 0.
Proof.
  intros H. unfold ones. replace (Z.to_nat (hi - lo)) with O by lia.
  reflexivity.
Qed.

Lemma ones_ext f g lo hi :
  (forall i, lo <= i < hi -> f i = g i) -> ones f lo hi = ones g lo hi.
Proof.
  intros H. unfold ones. apply count_bits_ext. intros i Hi. apply H. lia.
Qed.

Lemma ones_split f lo mid hi :
  lo <= mid <= hi -> ones f lo hi = ones f lo mid + ones f mid hi.
Proof.
  intros H. unfold ones.
  replace (Z.to_nat (hi - lo))
    with (Z.to_nat (mid - lo) + Z.to_nat (hi - mid))%nat by lia.
  rewrite count_bits_app. do 2 f_equal. lia.
Qed.

Lemma ones_shift f d lo hi :
  ones (fun i => f (i + d)) lo hi = ones f (lo + d) (hi + d).
Proof.
  unfold ones. rewrite count_bits_shift. f_equal. lia.
Qed.

Lemma ones_single f p : ones f p (p + 1) = Z.b2z (f p).
Proof.
  unfold ones. replace (Z.to_nat (p + 1 - p)) with 1%nat by lia.
  cbn [count_bits]. lia.
Qed.

Lemma ones_succ f lo p :
  lo <= p -> ones f lo (p + 1) = ones f lo p + Z.b2z (f p).
Proof.
  intros H. rewrite (ones_split f lo p (p + 1)) by lia.
  rewrite ones_single. reflexivity.
Qed.

Lemma ones_mono f lo a b : lo <= a <= b -> ones f lo a <= ones f lo b.
Proof.
  intros H. rewrite (ones_split f lo a b) by lia.
  pose proof (ones_nonneg f a b). lia.
Qed.

Lemma ones_mono_l f a b hi : a <= b <= hi -> ones f b hi <= ones f a hi.
Proof.
  intros H. rewrite (ones_split f a b hi) by lia.
  pose proof (ones_nonneg f a b). lia.
Qed.

Lemma ones_negb f lo hi :
  lo <= hi -> ones (fun i => negb (f i)) lo hi = (hi - lo) - ones f lo hi.
Proof.
  intros H. unfold ones. rewrite count_bits_negb. lia.
Qed.

Lemma ones_false f lo hi :
  (forall i, lo <= i < hi -> f i = false) -> ones f lo hi = 0.
Proof.
  intros H. rewrite (ones_ext f (fun _ => false) lo hi H).
  unfold ones. generalize (Z.to_nat (hi - lo)). intros n. clear H.
  revert lo. induction n as [|n IH]; intros lo; cbn [count_bits Z.b2z].
  - reflexivity.
  - rewrite IH. reflexivity.
Qed.

Lemma ones_true f lo hi :
  lo <= hi -> (forall i, lo <= i < hi -> f i = true) -> ones f lo hi = hi - lo.
Proof.
  intros Hle H.
  assert (E : ones (fun i => negb (f i)) lo hi = 0).
  { apply ones_false. intros i Hi. rewrite H by lia. reflexivity. }
  rewrite ones_negb in E by lia. lia.
Qed.

(** A position holding a one that is counted makes the count positive:
    the [r]-th one below [hi] exists. *)
Lemma ones_find f lo hi r :
  1 <= r <= ones f lo hi ->
  exists p, lo <= p < hi /\ f p = true /\ ones f lo p = r - 1.
Proof.
  intros H.
  assert (Hle : lo <= hi).
  { destruct (Z_le_gt_dec lo hi); auto. rewrite ones_empty in H; lia. }
  revert H. pattern hi. apply (Zlt_lower_bound_ind _ lo); [|exact Hle].
  clear hi Hle. intros hi IH Hlo H.
  destruct (Z.eq_dec hi lo) as [->|Hne].
  { rewrite ones_empty in H; lia. }
  replace hi with (hi - 1 + 1) in H by lia.
  rewrite ones_succ in H by lia.
  destruct (f (hi - 1)) eqn:E; cbn [Z.b2z] in H.
  - destruct (Z.eq_dec r (ones f lo (hi - 1) + 1)) as [->|Hr].
    + exists (hi - 1). repeat split; try lia; auto.
    + destruct (IH (hi - 1)) as (p & Hp & Hf & Hc); try lia.
      exists p. repeat split; try lia; auto.
  - destruct (IH (hi - 1)) as (p & Hp & Hf & Hc); try lia.
    exists p. repeat split; try lia; auto.
Qed.

(** Two positions holding a one with the same count below them coincide. *)
Lemma ones_inj f lo p q :
  lo <= p -> lo <= q -> f p = true -> f q = true ->
  ones f lo p = ones f lo q -> p = q.
Proof.
  intros Hp Hq Fp Fq E.
  destruct (Z.lt_trichotomy p q) as [H|[H|H]]; auto; exfalso.
  - pose proof (ones_mono f lo (p + 1) q ltac:(lia)).
    rewrite ones_succ, Fp in H0 by lia. cbn [Z.b2z] in H0. lia.
  - pose proof (ones_mono f lo (q + 1) p ltac:(lia)).
    rewrite ones_succ, Fq in H0 by lia. cbn [Z.b2z] in H0. lia.
Qed.

(* ===================================================================== *)
(** ** Words and their bits *)
(* ===================================================================== *)

Lemma wrap_small x : 0 <= x < 2 ^ 64 -> wrap x = x.
Proof. intros H. unfold wrap. apply Z.mod_small. exact H. Qed.

Lemma wrap_word x : word (wrap x).
Proof. unfold word, wrap. apply Z.mod_pos_bound. lia. Qed.

Lemma word_testbit_high w i : word w -> 64 <= i -> Z.testbit w i = false.
Proof.
  intros [H0 H1] Hi. destruct (Z.eq_dec w 0) as [->|Hne].
  - apply Z.testbit_0_l.
  - apply Z.bits_above_log2; [lia|].
    assert (Z.log2 w < 64); [|lia]. apply Z.log2_lt_pow2; lia.
Qed.

Lemma testbit_wrap x i : Z.testbit (wrap x) i = (i <? 64) && Z.testbit x i.
Proof.
  unfold wrap. destruct (Z.ltb_spec i 64) as [H|H]; cbn [andb].
  - destruct (Z.ltb_spec i 0) as [Hn|Hn].
    + rewrite !Z.testbit_neg_r by lia. reflexivity.
    + apply Z.mod_pow2_bits_low. lia.
  - apply Z.mod_pow2_bits_high. lia.
Qed.

Lemma testbit_shr w s i :
  0 <= i -> Z.testbit (shr w s) i = Z.testbit w (i + s).
Proof. intros H. unfold shr. apply Z.shiftr_spec. exact H. Qed.

Lemma testbit_shl w s i :
  0 <= i -> Z.testbit (shl w s) i = (i <? 64) && Z.testbit w (i - s).
Proof.
  intros H. unfold shl. rewrite testbit_wrap. f_equal.
  apply Z.shiftl_spec. exact H.
Qed.

Lemma testbit_lnot w i :
  0 <= i -> Z.testbit (lnot w) i = (i <? 64) && negb (Z.testbit w i).
Proof.
  intros H. unfold lnot. rewrite testbit_wrap. f_equal.
  apply Z.lnot_spec. exact H.
Qed.

Lemma word_bits_inj a b :
  word a -> word b ->
  (forall i, 0 <= i < 64 -> Z.testbit a i = Z.testbit b i) -> a = b.
Proof.
  intros Ha Hb H. apply Z.bits_inj'. intros i Hi.
  destruct (Z.ltb_spec i 64).
  - apply H. lia.
  - rewrite !word_testbit_high by (auto; lia). reflexivity.
Qed.

Lemma word_of_bits w :
  0 <= w -> (forall i, 64 <= i -> Z.testbit w i = false) -> word w.
Proof.
  intros H0 H. split; [exact H0|].
  destruct (Z.eq_dec w 0) as [->|Hne]; [lia|].
  destruct (Z_lt_le_dec w (2 ^ 64)) as [|Hge]; [assumption|exfalso].
  assert (Hl : 64 <= Z.log2 w) by (apply Z.log2_le_pow2; lia).
  pose proof (Z.bit_log2 w ltac:(lia)) as Hb.
  rewrite H in Hb by lia. discriminate.
Qed.

Lemma word_land a b : word a -> 0 <= b -> word (Z.land a b).
Proof.
  intros Ha Hb. apply word_of_bits.
  - apply Z.land_nonneg. left. apply Ha.
  - intros i Hi. rewrite Z.land_spec, (word_testbit_high a) by auto.
    reflexivity.
Qed.

Lemma word_lor a b : word a -> word b -> word (Z.lor a b).
Proof.
  intros Ha Hb. apply word_of_bits.
  - apply Z.lor_nonneg. split; [apply Ha|apply Hb].
  - intros i Hi. rewrite Z.lor_spec, !word_testbit_high by auto.
    reflexivity.
Qed.

Lemma word_shr w s : word w -> 0 <= s -> word (shr w s).
Proof.
  intros Hw Hs. unfold shr. apply word_of_bits.
  - apply Z.shiftr_nonneg. apply Hw.
  - intros i Hi. rewrite Z.shiftr_spec by lia.
    apply word_testbit_high; [auto|lia].
Qed.

Lemma testbit_land1 w i :
  0 <= i -> (Z.land (shr w i) 1 =? 1) = Z.testbit w i.
Proof.
  intros Hi. unfold shr.
  change 1 with (Z.ones 1) at 1. rewrite Z.land_ones by lia.
  change (2 ^ 1) with 2. rewrite Z.shiftr_div_pow2 by lia.
  rewrite <- Z.testbit_spec' by lia.
  destruct (Z.testbit w i); reflexivity.
Qed.

Lemma land1_b2z w : Z.land w 1 = Z.b2z (Z.testbit w 0).
Proof.
  change 1 with (Z.ones 1). rewrite Z.land_ones by lia.
  rewrite Z.bit0_mod. reflexivity.
Qed.

Lemma popcount_bounds w : 0 <= popcount w <= 64.
Proof. unfold popcount. pose proof (ones_bounds (Z.testbit w) 0 64). lia. Qed.

Lemma popcount_word w : word (popcount w).
Proof. pose proof (popcount_bounds w). unfold word. lia. Qed.

Lemma popcount_shr w s :
  word w -> 0 <= s -> popcount (shr w s) = ones (Z.testbit w) s 64.
Proof.
  intros Hw Hs. unfold popcount.
  rewrite (ones_ext _ (fun i => Z.testbit w (i + s)) 0 64).
  2:{ intros i Hi. apply testbit_shr. lia. }
  rewrite ones_shift. cbn [Z.add].
  destruct (Z_le_gt_dec s 64).
  - rewrite (ones_split _ s 64 (64 + s)) by lia.
    rewrite (ones_false _ 64 (64 + s)); [lia|].
    intros i Hi. apply word_testbit_high; [auto|lia].
  - rewrite (ones_empty _ s 64) by lia. apply ones_false.
    intros i Hi. apply word_testbit_high; [auto|lia].
Qed.

Lemma popcount_shl w s :
  0 <= s <= 64 -> popcount (shl w s) = ones (Z.testbit w) 0 (64 - s).
Proof.
  intros Hs. unfold popcount.
  rewrite (ones_split _ 0 s 64) by lia.
  rewrite (ones_false _ 0 s).
  2:{ intros i Hi. rewrite testbit_shl by lia.
      rewrite (Z.testbit_neg_r w) by lia. apply andb_false_r. }
  rewrite (ones_ext _ (fun i => Z.testbit w (i + - s)) s 64).
  2:{ intros i Hi. rewrite testbit_shl by lia.
      replace (i <? 64) with true by (symmetry; apply Z.ltb_lt; lia).
      cbn [andb]. f_equal. }
  rewrite ones_shift. replace (s + - s) with 0 by lia.
  replace (64 + - s) with (64 - s) by lia. lia.
Qed.

Lemma popcount_ext a b :
  (forall i, 0 <= i < 64 -> Z.testbit a i = Z.testbit b i) ->
  popcount a = popcount b.
Proof. intros H. unfold popcount. apply ones_ext. exact H. Qed.

Lemma popcount_lnot w :
  popcount (lnot w) = 64 - popcount w.
Proof.
  unfold popcount.
  rewrite (ones_ext _ (fun i => negb (Z.testbit w i)) 0 64).
  2:{ intros i Hi. rewrite testbit_lnot by lia.
      replace (i <? 64) with true by (symmetry; apply Z.ltb_lt; lia).
      reflexivity. }
  rewrite ones_negb by lia. lia.
Qed.

(* ===================================================================== *)
(** ** word_select1: the three implementations *)
(* ===================================================================== *)

Lemma kth_set_bit_exists w k :
  1 <= k <= popcount w -> exists pos, kth_set_bit w k pos.
Proof.
  intros H. destruct (ones_find (Z.testbit w) 0 64 k H) as (p & Hp & Hb & Hc).
  exists p. repeat split; auto; lia.
Qed.

Lemma kth_set_bit_unique w k p q :
  kth_set_bit w k p -> kth_set_bit w k q -> p = q.
Proof.
  intros (Hp & Bp & Cp) (Hq & Bq & Cq).
  apply (ones_inj (Z.testbit w) 0); auto; lia.
Qed.

Lemma pow2_testbit r j : 0 <= r -> Z.testbit (2 ^ r) j = (r =? j).
Proof. intros Hr. apply Z.pow2_bits_eqb. exact Hr. Qed.

(** PDEP of a source with a single set bit. *)
Lemma pdep_from_none n r mask :
  0 <= r ->
  forall m k,
    (forall i, m <= i < m + Z.of_nat n -> Z.testbit mask i = true ->
               k + ones (Z.testbit mask) m i <> r) ->
    pdep_from n m k (2 ^ r) mask = 0.
Proof.
  intros Hr. induction n as [|n IH]; intros m k H; cbn [pdep_from].
  - reflexivity.
  - destruct (Z.testbit mask m) eqn:Em.
    + rewrite pow2_testbit by lia.
      destruct (Z.eqb_spec r k) as [->|Hne].
      * exfalso. apply (H m); [lia|auto|]. rewrite ones_empty; lia.
      * rewrite IH; [reflexivity|]. intros i Hi Hb.
        specialize (H i ltac:(lia) Hb).
        rewrite (ones_split _ m (m + 1) i) in H by lia.
        rewrite ones_single, Em in H. cbn [Z.b2z] in H. lia.
    + apply IH. intros i Hi Hb. specialize (H i ltac:(lia) Hb).
      rewrite (ones_split _ m (m + 1) i) in H by lia.
      rewrite ones_single, Em in H. cbn [Z.b2z] in H. lia.
Qed.

Lemma pdep_from_hit n r mask p :
  0 <= r -> Z.testbit mask p = true ->
  forall m k,
    0 <= m <= p -> p < m + Z.of_nat n ->
    k + ones (Z.testbit mask) m p = r ->
    pdep_from n m k (2 ^ r) mask = 2 ^ p.
Proof.
  intros Hr Hp. induction n as [|n IH]; intros m k Hm Hn Hk; [lia|].
  cbn [pdep_from]. destruct (Z.eq_dec m p) as [->|Hne].
  - rewrite Hp, pow2_testbit by lia. rewrite ones_empty in Hk by lia.
    replace (r =? k) with true by (symmetry; apply Z.eqb_eq; lia).
    rewrite Z.shiftl_1_l. rewrite pdep_from_none; [lia|lia|].
    intros i Hi Hb. pose proof (ones_nonneg (Z.testbit mask) (p + 1) i). lia.
  - pose proof (ones_split (Z.testbit mask) m (m + 1) p ltac:(lia)) as Hs.
    rewrite ones_single in Hs.
    destruct (Z.testbit mask m) eqn:Em; cbn [Z.b2z] in Hs.
    + rewrite pow2_testbit by lia.
      pose proof (ones_nonneg (Z.testbit mask) (m + 1) p).
      replace (r =? k) with false by (symmetry; apply Z.eqb_neq; lia).
      rewrite (IH (m + 1) (k + 1)); lia.
    + apply IH; lia.
Qed.

Lemma countr_zero_from_pow2 p n :
  forall i, 0 <= i <= p -> p < i + Z.of_nat n ->
            countr_zero_from n i (2 ^ p) = p.
Proof.
  induction n as [|n IH]; intros i Hi Hn; [lia|].
  cbn [countr_zero_from]. rewrite pow2_testbit by lia.
  destruct (Z.eqb_spec p i) as [->|Hne]; [reflexivity|].
  apply IH; lia.
Qed.

Lemma word_select1_pdep_correct w k pos :
  kth_set_bit w k pos -> 1 <= k <= 64 -> word_select1_pdep w k = pos.
Proof.
  intros (Hp & Hb & Hc) Hk. unfold word_select1_pdep, pdep_u64, countr_zero.
  rewrite (wrap_small (k - 1)) by lia.
  unfold shl. rewrite Z.shiftl_1_l.
  rewrite wrap_small.
  2:{ split; [apply Z.pow_nonneg; lia|apply Z.pow_lt_mono_r; lia]. }
  rewrite (pdep_from_hit 64 (k - 1) w pos); try lia; auto.
  apply countr_zero_from_pow2; lia.
Qed.

(** The branchless binary search keeps the [k]-th set bit inside
    [pos, pos + length). *)
Lemma word_select1_binary_loop_correct w k :
  forall fuel pos length,
    0 <= pos -> 1 <= length -> pos + length <= 64 ->
    length <= 2 ^ Z.of_nat fuel ->
    ones (Z.testbit w) 0 pos < k <= ones (Z.testbit w) 0 (pos + length) ->
    exists p, word_select1_binary_loop fuel w k pos length = Some p
              /\ kth_set_bit w k p.
Proof.
  induction fuel as [|fuel IH]; intros pos length Hpos Hlen Hsum Hfuel Hk;
    cbn [word_select1_binary_loop].
  - change (2 ^ Z.of_nat 0) with 1 in Hfuel.
    assert (length = 1) by lia. subst length.
    cbn. exists pos. split; [reflexivity|].
    rewrite ones_succ in Hk by lia.
    destruct (Z.testbit w pos) eqn:E; cbn [Z.b2z] in Hk;
      repeat split; auto; lia.
  - destruct (Z.ltb_spec 1 length) as [Hl|Hl].
    + assert (Hhalf : 1 <= length / 2 /\ 2 * (length / 2) <= length).
      { pose proof (Z.div_mod length 2 ltac:(lia)).
        pose proof (Z.mod_pos_bound length 2 ltac:(lia)). lia. }
      assert (Hceil : length - length / 2 <= 2 ^ Z.of_nat fuel).
      { rewrite Nat2Z.inj_succ, Z.pow_succ_r in Hfuel by lia.
        pose proof (Z.div_mod length 2 ltac:(lia)).
        pose proof (Z.mod_pos_bound length 2 ltac:(lia)). lia. }
      set (half := length / 2) in *.
      rewrite (wrap_small (pos + half)) by lia.
      rewrite (wrap_small (64 - (pos + half))) by lia.
      rewrite popcount_shl by lia.
      replace (64 - (64 - (pos + half))) with (pos + half) by lia.
      rewrite (wrap_small (length - half)) by lia.
      destruct (Z.ltb_spec (ones (Z.testbit w) 0 (pos + half)) k) as [Hc|Hc];
        cbn [Z.b2z].
      * rewrite Z.mul_1_l, (wrap_small (pos + half)) by lia.
        apply IH; try lia.
        replace (pos + half + (length - half)) with (pos + length) by lia.
        lia.
      * rewrite Z.mul_0_l, Z.add_0_r, (wrap_small pos) by lia.
        apply IH; try lia. split; [lia|].
        pose proof (ones_mono (Z.testbit w) 0 (pos + half)
                      (pos + (length - half)) ltac:(lia)). lia.
    + assert (length = 1) by lia. subst length. exists pos.
      split; [reflexivity|].
      rewrite ones_succ in Hk by lia.
      destruct (Z.testbit w pos) eqn:E; cbn [Z.b2z] in Hk;
        repeat split; auto; lia.
Qed.

(** The linear scan: after [j] steps the word is [w >> j] and [rank] has
    been decreased by the number of set bits among the low [j]. *)
Lemma word_select1_linear_loop_correct w k :
  word w -> 1 <= k <= popcount w ->
  forall fuel j,
    0 <= j <= 64 -> (64 - j <= Z.of_nat fuel) ->
    (j = 0 \/ ones (Z.testbit w) 0 (j - 1) < k) ->
    ones (Z.testbit w) 0 j <= k ->
    exists p, word_select1_linear_loop fuel (shr w j)
                (k - ones (Z.testbit w) 0 j) j = Some p
              /\ kth_set_bit w k p.
Proof.
  intros Hw Hk. induction fuel as [|fuel IH]; intros j Hj Hfuel Hprev Hcur.
  - assert (j = 64) by lia. subst j. cbn [word_select1_linear_loop].
    destruct Hprev as [|Hprev]; [lia|]. unfold popcount in Hk.
    replace (0 <? k - ones (Z.testbit w) 0 64) with false
      by (symmetry; apply Z.ltb_ge; lia).
    rewrite wrap_small by lia. exists 63. split; [reflexivity|].
    change (64 - 1) with 63 in Hprev.
    change 64 with (63 + 1) in Hk. rewrite ones_succ in Hk by lia.
    destruct (Z.testbit w 63) eqn:E; cbn [Z.b2z] in Hk;
      repeat split; auto; lia.
  - cbn [word_select1_linear_loop].
    destruct (Z.ltb_spec 0 (k - ones (Z.testbit w) 0 j)) as [Hr|Hr].
    + assert (Hj64 : j < 64).
      { destruct (Z.eq_dec j 64) as [->|]; [|lia].
        unfold popcount in Hk. lia. }
      rewrite land1_b2z, testbit_shr by lia. cbn [Z.add].
      pose proof (ones_succ (Z.testbit w) 0 j ltac:(lia)) as Hs.
      assert (Hb : 0 <= Z.b2z (Z.testbit w j) <= 1)
        by (destruct (Z.testbit w j); cbn; lia).
      rewrite (wrap_small (j + 1)) by lia.
      rewrite wrap_small.
      2:{ unfold popcount in Hk.
          pose proof (ones_bounds (Z.testbit w) 0 64 ltac:(lia)).
          pose proof (ones_nonneg (Z.testbit w) 0 j). lia. }
      replace (k - ones (Z.testbit w) 0 j - Z.b2z (Z.testbit w j))
        with (k - ones (Z.testbit w) 0 (j + 1)) by lia.
      replace (shr (shr w j) 1) with (shr w (j + 1)).
      2:{ unfold shr. rewrite Z.shiftr_shiftr by lia. reflexivity. }
      apply IH; try lia. right. replace (j + 1 - 1) with j by lia. lia.
    + assert (Hj0 : j <> 0).
      { intros ->. rewrite ones_empty in Hr; lia. }
      destruct Hprev as [|Hprev]; [lia|].
      rewrite wrap_small by lia. exists (j - 1). split; [reflexivity|].
      replace j with (j - 1 + 1) in Hr, Hcur by lia.
      rewrite ones_succ in Hr, Hcur by lia.
      destruct (Z.testbit w (j - 1)) eqn:E; cbn [Z.b2z] in Hr, Hcur;
        repeat split; auto; lia.
Qed.

Lemma word_select1_correct (USE_PDEP kUseBinarySearch kOverwriteFastPDEP : bool)
    w k pos :
  word w -> kth_set_bit w k pos ->
  word_select1 USE_PDEP kUseBinarySearch kOverwriteFastPDEP w k = Some pos.
Proof.
  intros Hw Hpos.
  assert (Hk : 1 <= k <= popcount w).
  { destruct Hpos as (Hp & Hb & Hc). unfold popcount.
    pose proof (ones_nonneg (Z.testbit w) 0 pos).
    pose proof (ones_mono (Z.testbit w) 0 (pos + 1) 64 ltac:(lia)).
    rewrite ones_succ, Hb in H0 by lia. cbn [Z.b2z] in H0. lia. }
  pose proof (popcount_bounds w) as Hpc.
  unfold word_select1.
  destruct (negb kOverwriteFastPDEP && USE_PDEP).
  - f_equal. apply word_select1_pdep_correct; [auto|lia].
  - destruct kUseBinarySearch.
    + destruct (word_select1_binary_loop_correct w k 64 0 64)
        as (p & Hr & Hkth); try lia.
      { rewrite ones_empty by lia. unfold popcount in Hk. cbn [Z.add]. lia. }
      rewrite Hr. f_equal. eapply kth_set_bit_unique; eauto.
    + destruct (word_select1_linear_loop_correct w k Hw Hk 64 0)
        as (p & Hr & Hkth); try lia.
      { rewrite ones_empty by lia. lia. }
      rewrite ones_empty, Z.sub_0_r in Hr by lia.
      replace (shr w 0) with w in Hr by (unfold shr; rewrite Z.shiftr_0_r; auto).
      rewrite Hr. f_equal. eapply kth_set_bit_unique; eauto.
Qed.

(** C9.  For every 64-bit word [w] and every [k] with
    [1 <= k <= popcount w], the PDEP, the branchless binary-search and the
    linear-scan implementation of [word_select1] return the same value,
    the 0-indexed position of the [k]-th set bit of [w]. *)
Theorem word_select1_implementations_agree (w k : Z) :
  word w -> 1 <= k <= popcount w ->
  exists pos,
    kth_set_bit w k pos
    /\ (forall kUseBinarySearch,
          word_select1 true kUseBinarySearch false w k = Some pos)
    /\ (forall USE_PDEP,
          word_select1 USE_PDEP true true w k = Some pos)
    /\ word_select1 false true false w k = Some pos
    /\ (forall USE_PDEP,
          word_select1 USE_PDEP false true w k = Some pos)
    /\ word_select1 false false false w k = Some pos.
Proof.
  intros Hw Hk. destruct (kth_set_bit_exists w k Hk) as (pos & Hpos).
  exists pos. split; [exact Hpos|].
  repeat split; intros; apply word_select1_correct; auto.
Qed.

Lemma word_select1_implementations_agree_witness :
  exists pos,
    kth_set_bit 44 3 pos
    /\ (forall kUseBinarySearch,
          word_select1 true kUseBinarySearch false 44 3 = Some pos)
    /\ (forall USE_PDEP, word_select1 USE_PDEP true true 44 3 = Some pos)
    /\ word_select1 false true false 44 3 = Some pos
    /\ (forall USE_PDEP, word_select1 USE_PDEP false true 44 3 = Some pos)
    /\ word_select1 false false false 44 3 = Some pos.
Proof.
  apply (word_select1_implementations_agree 44 3).
  - unfold word. lia.
  - vm_compute. split; discriminate.
Defined.

(* ===================================================================== *)
(** ** Buffers *)
(* ===================================================================== *)

Lemma size_nonneg v : 0 <= size v.
Proof. unfold size. lia. Qed.

Lemma length_upd v n x : length (upd v n x) = length v.
Proof.
  revert n; induction v as [|h t IH]; intros [|n]; cbn; auto.
Qed.

Lemma size_poke v i x : size (poke v i x) = size v.
Proof. unfold size, poke. rewrite length_upd. reflexivity. Qed.

Lemma nth_upd v n m x d :
  (n < length v)%nat ->
  nth m (upd v n x) d = if Nat.eqb m n then x else nth m v d.
Proof.
  revert n m; induction v as [|h t IH]; intros n m H; cbn in H; [lia|].
  destruct n as [|n], m as [|m]; cbn; auto.
  apply IH. lia.
Qed.

Lemma peek_poke v i x j :
  0 <= i < size v -> 0 <= j ->
  peek (poke v i x) j = if j =? i then x else peek v j.
Proof.
  intros Hi Hj. unfold peek, poke, size in *. rewrite nth_upd by lia.
  destruct (Z.eqb_spec j i) as [->|Hne].
  - rewrite Nat.eqb_refl. reflexivity.
  - replace (Z.to_nat j =? Z.to_nat i)%nat with false; [reflexivity|].
    symmetry. apply Nat.eqb_neq. lia.
Qed.

Lemma peek_poke_eq v i x : 0 <= i < size v -> peek (poke v i x) i = x.
Proof. intros H. rewrite peek_poke by lia. rewrite Z.eqb_refl. auto. Qed.

Lemma peek_poke_ne v i x j :
  0 <= i < size v -> 0 <= j -> j <> i -> peek (poke v i x) j = peek v j.
Proof.
  intros Hi Hj Hne. rewrite peek_poke by lia.
  destruct (Z.eqb_spec j i); [contradiction|reflexivity].
Qed.

Lemma rd_peek v i : 0 <= i < size v -> rd v i = Some (peek v i).
Proof.
  intros H. unfold rd, peek.
  replace ((0 <=? i) && (i <? size v)) with true.
  2:{ symmetry. apply andb_true_iff. split; [apply Z.leb_le|apply Z.ltb_lt]; lia. }
  apply nth_error_nth'. unfold size in H. lia.
Qed.

Lemma rd_outside v i : size v <= i -> rd v i = None.
Proof.
  intros H. unfold rd.
  replace (i <? size v) with false by (symmetry; apply Z.ltb_ge; lia).
  rewrite andb_false_r. reflexivity.
Qed.

Lemma wr_poke v i x : 0 <= i < size v -> wr v i x = Some (poke v i x).
Proof.
  intros H. unfold wr.
  replace ((0 <=? i) && (i <? size v)) with true; [reflexivity|].
  symmetry. apply andb_true_iff. split; [apply Z.leb_le|apply Z.ltb_lt]; lia.
Qed.

Lemma Forall_upd (P : Z -> Prop) v n x :
  Forall P v -> P x -> Forall P (upd v n x).
Proof.
  intros Hv Hx. revert n. induction Hv as [|h t Hh Ht IH]; intros [|n]; cbn;
    auto.
Qed.

Lemma words_poke v i x : Forall word v -> word x -> Forall word (poke v i x).
Proof. intros. unfold poke. apply Forall_upd; auto. Qed.

Lemma words_peek v i : Forall word v -> word (peek v i).
Proof.
  intros H. unfold peek.
  destruct (Nat.lt_ge_cases (Z.to_nat i) (length v)) as [Hlt|Hge].
  - rewrite Forall_forall in H. apply H. apply nth_In. exact Hlt.
  - rewrite nth_overflow by lia. unfold word. lia.
Qed.

Lemma buffer_ext a b :
  size a = size b ->
  (forall i, 0 <= i < size a -> peek a i = peek b i) -> a = b.
Proof.
  unfold size, peek. intros Hs H. apply (nth_ext a b 0 0); [lia|].
  intros n Hn. specialize (H (Z.of_nat n) ltac:(lia)).
  rewrite Nat2Z.id in H. exact H.
Qed.

Lemma size_StaticVector heap n : 0 <= n -> size (StaticVector heap n) = n.
Proof.
  intros H. unfold size, StaticVector. rewrite length_map, length_seq. lia.
Qed.

Lemma words_StaticVector heap n : Forall word (StaticVector heap n).
Proof.
  unfold StaticVector. apply Forall_forall. intros x Hx.
  apply in_map_iff in Hx. destruct Hx as (i & <- & _). apply wrap_word.
Qed.


Lemma BitVector_ext a b :
  _length a = _length b -> _num_blocks a = _num_blocks b ->
  _data a = _data b -> _num_superblocks a = _num_superblocks b ->
  _superblock_data a = _superblock_data b -> a = b.
Proof. destruct a, b; cbn; intros; subst; reflexivity. Qed.

Lemma size_fill_n count v first x :
  size (fill_n v first count x) = size v.
Proof.
  revert v first; induction count as [|c IH]; intros v first; cbn [fill_n].
  - reflexivity.
  - rewrite IH. apply size_poke.
Qed.

Lemma peek_fill_n count v first x j :
  0 <= first -> first + Z.of_nat count <= size v -> 0 <= j ->
  peek (fill_n v first count x) j =
  if (first <=? j) && (j <? first + Z.of_nat count) then x else peek v j.
Proof.
  revert v first; induction count as [|c IH]; intros v first H0 H1 Hj;
    cbn [fill_n].
  - replace ((first <=? j) && (j <? first + Z.of_nat 0)) with false;
      [reflexivity|].
    symmetry. apply andb_false_iff.
    destruct (Z.leb_spec first j); [right; apply Z.ltb_ge; lia|left; auto].
  - rewrite IH by (rewrite ?size_poke; lia).
    rewrite peek_poke by lia.
    destruct (Z.leb_spec (first + 1) j), (Z.leb_spec first j),
      (Z.ltb_spec j (first + 1 + Z.of_nat c)),
      (Z.ltb_spec j (first + Z.of_nat (S c))),
      (Z.eqb_spec j first); cbn [andb]; try reflexivity; lia.
Qed.

Lemma words_fill_n count v first x :
  Forall word v -> word x -> Forall word (fill_n v first count x).
Proof.
  revert v first; induction count as [|c IH]; intros v first Hv Hx;
    cbn [fill_n]; auto using words_poke.
Qed.

Lemma iterate_shift {S : Type} n start step (body : Z -> S -> S) st :
  iterate (Datatypes.S n) start step body st =
  iterate n (start + step) step body (body start st).
Proof.
  induction n as [|n IH].
  - cbn. f_equal. lia.
  - change (iterate (Datatypes.S (Datatypes.S n)) start step body st)
      with (body (start + Z.of_nat (Datatypes.S n) * step)
              (iterate (Datatypes.S n) start step body st)).
    rewrite IH. cbn [iterate]. f_equal. lia.
Qed.

Lemma for_loop_iterate {S : Type} (body : Z -> S -> S) step :
  0 < step ->
  forall n fuel start st,
    (n <= fuel)%nat ->
    for_loop fuel start (start + Z.of_nat n * step) step body st =
    iterate n start step body st.
Proof.
  intros Hstep. induction n as [|n IH]; intros fuel start st Hfuel.
  - destruct fuel; cbn [for_loop iterate]; auto.
    replace (start <? start + Z.of_nat 0 * step) with false; auto.
    symmetry. apply Z.ltb_ge. lia.
  - destruct fuel as [|fuel]; [lia|]. cbn [for_loop].
    replace (start <? start + Z.of_nat (Datatypes.S n) * step) with true
      by (symmetry; apply Z.ltb_lt; nia).
    rewrite iterate_shift. rewrite <- IH with (fuel := fuel) by lia.
    f_equal. lia.
Qed.

Lemma for_range_iterate {S : Type} (body : Z -> S -> S) start step n st :
  0 < step -> 0 <= n ->
  for_range start (start + n * step) step body st =
  iterate (Z.to_nat n) start step body st.
Proof.
  intros Hstep Hn. unfold for_range.
  rewrite <- (for_loop_iterate body step Hstep (Z.to_nat n)
                (Z.to_nat (start + n * step - start)) start st) by nia.
  rewrite Z2Nat.id by lia. reflexivity.
Qed.

Lemma for_range_empty {S : Type} (body : Z -> S -> S) start stop step st :
  stop <= start -> for_range start stop step body st = st.
Proof.
  intros H. unfold for_range. replace (Z.to_nat (stop - start)) with O by lia.
  reflexivity.
Qed.

(** Invariant rule for [iterate]. *)
Lemma iterate_invariant {S : Type} (P : Z -> S -> Prop)
    (body : Z -> S -> S) start step n st :
  P 0 st ->
  (forall k s, 0 <= k < Z.of_nat n -> P k s ->
               P (k + 1) (body (start + k * step) s)) ->
  P (Z.of_nat n) (iterate n start step body st).
Proof.
  intros H0 Hstep. induction n as [|n IH].
  - exact H0.
  - cbn [iterate]. rewrite Nat2Z.inj_succ. unfold Z.succ.
    apply Hstep; [lia|]. apply IH. intros k s Hk. apply Hstep. lia.
Qed.

(* ===================================================================== *)
(** ** The template parameters *)
(* ===================================================================== *)

Section Parameters.

Variables BlockWidth BlockHeaderWidth : Z.
Hypothesis Hvalid : valid_parameters BlockWidth BlockHeaderWidth.

Local Abbreviation BW := (kBlockWidth BlockWidth).
Local Abbreviation BHW := (kBlockHeaderWidth BlockHeaderWidth).
Local Abbreviation BDW := (kBlockDataWidth BlockWidth BlockHeaderWidth).
Local Abbreviation HDW := (kHeaderDataWidth BlockHeaderWidth).
Local Abbreviation WPB := (kNumWordsPerBlock BlockWidth).
Local Abbreviation SBW := (kSuperblockWidth BlockHeaderWidth).
Local Abbreviation BPSB :=
  (kNumBlocksPerSuperblock BlockWidth BlockHeaderWidth).
Local Abbreviation WPSB := (kNumWordsPerSuperblock BlockHeaderWidth).
Local Abbreviation SBDW :=
  (kSuperblockDataWidth BlockWidth BlockHeaderWidth).

Lemma parameters_log :
  exists k, 7 <= k /\ k < BlockHeaderWidth < 64 /\ BlockWidth = 2 ^ k.
Proof.
  destruct Hvalid as [Hs Hp]. unfold static_asserts, power_of_two in *.
  unfold kBlockWidth, kBlockHeaderWidth, math.pow2, shl in Hs.
  apply andb_true_iff in Hs. destruct Hs as [Hs H4].
  apply andb_true_iff in Hs. destruct Hs as [Hs H3].
  apply andb_true_iff in Hs. destruct Hs as [H1 H2].
  apply Z.ltb_lt in H2, H4. apply Z.leb_le in H3. apply Z.eqb_eq in Hp.
  set (k := Z.log2 BlockWidth) in *.
  assert (Hk0 : 0 <= k) by apply Z.log2_nonneg.
  assert (Hk : 7 <= k).
  { destruct (Z_lt_le_dec k 7); [|assumption]. exfalso.
    assert (2 ^ k <= 2 ^ 6) by (apply Z.pow_le_mono_r; lia).
    change (2 ^ 6) with 64 in *. lia. }
  assert (Hh0 : 0 <= BlockHeaderWidth).
  { destruct (Z_lt_le_dec BlockHeaderWidth 0); [|assumption]. exfalso.
    rewrite Z.shiftl_1_l, Z.pow_neg_r in H4 by lia.
    unfold wrap in H4. rewrite Z.mod_0_l in H4 by lia. lia. }
  rewrite Z.shiftl_1_l in H4.
  assert (Hh : BlockHeaderWidth < 64).
  { destruct (Z_lt_le_dec BlockHeaderWidth 64); [assumption|]. exfalso.
    unfold wrap in H4.
    replace BlockHeaderWidth with (64 + (BlockHeaderWidth - 64)) in H4
      by lia.
    rewrite Z.pow_add_r, Z.mul_comm, Z.mod_mul in H4 by lia. lia. }
  rewrite wrap_small in H4.
  2:{ split; [apply Z.pow_nonneg; lia|apply Z.pow_lt_mono_r; lia]. }
  exists k. repeat split; auto.
  destruct (Z_lt_le_dec k BlockHeaderWidth); [assumption|exfalso].
  assert (2 ^ BlockHeaderWidth <= 2 ^ k) by (apply Z.pow_le_mono_r; lia).
  lia.
Qed.

(** The relations among the derived constants. *)
Record relations : Prop := {
  r_BHW : 8 <= BHW < 64;
  r_WPB : 2 <= WPB;
  r_BW : BW = 64 * WPB;
  r_BPSB : 2 <= BPSB;
  r_SBW : 2 ^ BHW = BPSB * BW;
  r_WPSB : WPSB = BPSB * WPB;
  r_BDW : BDW = BW - BHW;
  r_SBDW : SBDW = BPSB * BDW;
  r_HDW : HDW = 64 - BHW
}.

Lemma parameters_relations : relations.
Proof.
  destruct parameters_log as (k & Hk & Hh & Hbw).
  assert (E6 : 2 ^ k = 64 * 2 ^ (k - 6)).
  { change 64 with (2 ^ 6). rewrite <- Z.pow_add_r by lia.
    f_equal. lia. }
  assert (Ehk : 2 ^ BlockHeaderWidth = 2 ^ (BlockHeaderWidth - k) * 2 ^ k).
  { rewrite <- Z.pow_add_r by lia. f_equal. lia. }
  assert (Eh6 : 2 ^ BlockHeaderWidth = 64 * 2 ^ (BlockHeaderWidth - 6)).
  { change 64 with (2 ^ 6). rewrite <- Z.pow_add_r by lia.
    f_equal. lia. }
  assert (Ewpb : WPB = 2 ^ (k - 6)).
  { unfold kNumWordsPerBlock, kBlockWidth, kWordWidth. rewrite Hbw, E6.
    rewrite Z.mul_comm, Z.div_mul by lia. reflexivity. }
  assert (Esbw : SBW = 2 ^ BlockHeaderWidth).
  { unfold kSuperblockWidth, math.pow2, shl. rewrite Z.shiftl_1_l.
    apply wrap_small.
    split; [apply Z.pow_nonneg; lia|apply Z.pow_lt_mono_r; lia]. }
  assert (Ebpsb : BPSB = 2 ^ (BlockHeaderWidth - k)).
  { unfold kNumBlocksPerSuperblock. rewrite Esbw.
    unfold kBlockWidth. rewrite Hbw, Ehk.
    rewrite Z.div_mul; [reflexivity|].
    pose proof (Z.pow_pos_nonneg 2 k). lia. }
  assert (Ewpsb : WPSB = 2 ^ (BlockHeaderWidth - 6)).
  { unfold kNumWordsPerSuperblock. rewrite Esbw, Eh6.
    unfold kWordWidth. rewrite Z.mul_comm, Z.div_mul by lia.
    reflexivity. }
  assert (P1 : 2 <= 2 ^ (k - 6)).
  { change 2 with (2 ^ 1) at 1. apply Z.pow_le_mono_r; lia. }
  assert (P2 : 2 <= 2 ^ (BlockHeaderWidth - k)).
  { change 2 with (2 ^ 1) at 1. apply Z.pow_le_mono_r; lia. }
  constructor; unfold kBlockHeaderWidth, kBlockWidth in *.
  - lia.
  - lia.
  - lia.
  - lia.
  - rewrite Ebpsb, Hbw. exact Ehk.
  - rewrite Ewpsb, Ebpsb, Ewpb. rewrite <- Z.pow_add_r by lia.
    f_equal. lia.
  - reflexivity.
  - unfold kSuperblockDataWidth, kBlockDataWidth, kBlockWidth,
      kBlockHeaderWidth. rewrite Esbw.
    fold (kNumBlocksPerSuperblock BlockWidth BlockHeaderWidth).
    rewrite Ehk, <- Ebpsb, Hbw. lia.
  - reflexivity.
Qed.

End Parameters.

(* ===================================================================== *)
(** ** Masks *)
(* ===================================================================== *)

Lemma testbit_kOnes i : 0 <= i -> Z.testbit kOnes i = (i <? 64).
Proof.
  intros H. change kOnes with (Z.ones 64). apply Z.testbit_ones_nonneg; lia.
Qed.

Lemma testbit_setbits n start i :
  0 < n -> 0 <= start -> n + start <= 64 -> 0 <= i ->
  Z.testbit (math.setbits n start) i = (start <=? i) && (i <? start + n).
Proof.
  intros Hn Hs Hb Hi. unfold math.setbits, kWordWidth.
  replace (n =? 0) with false by (symmetry; apply Z.eqb_neq; lia).
  rewrite (wrap_small (64 - n)) by lia.
  rewrite testbit_shl by lia.
  destruct (Z.leb_spec start i) as [Hsi|Hsi]; cbn [andb].
  - rewrite testbit_shr, testbit_kOnes by lia.
    destruct (Z.ltb_spec i 64), (Z.ltb_spec (i - start + (64 - n)) 64),
      (Z.ltb_spec i (start + n)); cbn [andb]; try reflexivity; lia.
  - unfold shr. rewrite (Z.testbit_neg_r _ (i - start)) by lia.
    apply andb_false_r.
Qed.

Lemma word_setbits n start : word (math.setbits n start).
Proof.
  unfold math.setbits. destruct (n =? 0); [unfold word; lia|].
  unfold shl. apply wrap_word.
Qed.

Lemma setbits_low n : 0 < n <= 64 -> math.setbits n 0 = Z.ones n.
Proof.
  intros H. apply Z.bits_inj'. intros i Hi.
  rewrite testbit_setbits, Z.testbit_ones_nonneg by lia.
  replace (0 <=? i) with true by (symmetry; apply Z.leb_le; lia).
  reflexivity.
Qed.

(** The word [update()] stores in the first word of a real block: the old
    payload above a header [c]. *)
Lemma testbit_merge w c h i :
  0 < h < 64 -> 0 <= c < 2 ^ h -> 0 <= i < 64 ->
  Z.testbit (Z.lor (Z.land w (math.setbits (64 - h) h)) c) i =
  if i <? h then Z.testbit c i else Z.testbit w i.
Proof.
  intros Hh Hc Hi. rewrite Z.lor_spec, Z.land_spec.
  rewrite testbit_setbits by lia.
  destruct (Z.ltb_spec i h) as [Hlt|Hge].
  - replace (h <=? i) with false by (symmetry; apply Z.leb_gt; lia).
    cbn [andb]. rewrite andb_false_r. reflexivity.
  - replace (h <=? i) with true by (symmetry; apply Z.leb_le; lia).
    replace (i <? h + (64 - h)) with true by (symmetry; apply Z.ltb_lt; lia).
    rewrite andb_true_r.
    replace (Z.testbit c i) with false; [apply orb_false_r|].
    symmetry. destruct (Z.eq_dec c 0) as [->|Hne]; [apply Z.testbit_0_l|].
    apply Z.bits_above_log2; [lia|].
    assert (Z.log2 c < h) by (apply Z.log2_lt_pow2; lia). lia.
Qed.

Lemma word_merge w c h :
  word w -> 0 < h < 64 -> 0 <= c < 2 ^ h ->
  word (Z.lor (Z.land w (math.setbits (64 - h) h)) c).
Proof.
  intros Hw Hh Hc. apply word_lor.
  - apply word_land; [auto|]. apply word_setbits.
  - split; [lia|]. assert (2 ^ h < 2 ^ 64) by (apply Z.pow_lt_mono_r; lia).
    lia.
Qed.

Lemma land_low_merge w c h :
  0 < h < 64 -> 0 <= c < 2 ^ h ->
  Z.land (Z.lor (Z.land w (math.setbits (64 - h) h)) c)
         (math.setbits h 0) = c.
Proof.
  intros Hh Hc. apply Z.bits_inj'. intros i Hi.
  rewrite Z.land_spec, Z.lor_spec, Z.land_spec.
  rewrite !testbit_setbits by lia.
  replace (0 <=? i) with true by (symmetry; apply Z.leb_le; lia).
  cbn [andb Z.add].
  destruct (Z.ltb_spec i h) as [Hlt|Hge].
  - replace (h <=? i) with false by (symmetry; apply Z.leb_gt; lia).
    cbn [andb]. rewrite andb_false_r, andb_true_r. reflexivity.
  - rewrite andb_false_r. symmetry.
    destruct (Z.eq_dec c 0) as [->|Hne]; [apply Z.testbit_0_l|].
    apply Z.bits_above_log2; [lia|].
    assert (Z.log2 c < h) by (apply Z.log2_lt_pow2; lia). lia.
Qed.

Lemma land_low_small c h :
  0 < h <= 64 -> 0 <= c < 2 ^ h -> Z.land c (math.setbits h 0) = c.
Proof.
  intros Hh Hc. rewrite setbits_low by lia. rewrite Z.land_ones by lia.
  apply Z.mod_small. exact Hc.
Qed.

Lemma land_low_bounds w h :
  0 < h <= 64 -> 0 <= Z.land w (math.setbits h 0) < 2 ^ h.
Proof.
  intros Hh. rewrite setbits_low by lia. rewrite Z.land_ones by lia.
  apply Z.mod_pos_bound. apply Z.pow_pos_nonneg; lia.
Qed.

(* ===================================================================== *)
(** ** The buffer as a string of bits *)
(* ===================================================================== *)

Lemma buffer_bit_word data i j :
  0 <= j < 64 -> buffer_bit data (64 * i + j) = Z.testbit (peek data i) j.
Proof.
  intros Hj. unfold buffer_bit.
  replace ((64 * i + j) / 64) with i.
  2:{ rewrite Z.mul_comm, Z.div_add_l by lia.
      rewrite (Z.div_small j 64) by lia. lia. }
  replace ((64 * i + j) mod 64) with j.
  2:{ rewrite Z.add_comm, Z.mul_comm, Z.mod_add by lia.
      rewrite Z.mod_small by lia. reflexivity. }
  reflexivity.
Qed.

Lemma ones_word_bits data i a b :
  0 <= a -> b <= 64 ->
  ones (Z.testbit (peek data i)) a b =
  ones (buffer_bit data) (64 * i + a) (64 * i + b).
Proof.
  intros Ha Hb.
  rewrite (ones_ext _ (fun j => buffer_bit data (j + 64 * i)) a b).
  - rewrite ones_shift. f_equal; lia.
  - intros j Hj. rewrite <- buffer_bit_word by lia. f_equal. lia.
Qed.

Lemma popcount_buffer data i :
  popcount (peek data i) = ones (buffer_bit data) (64 * i) (64 * i + 64).
Proof.
  unfold popcount. rewrite ones_word_bits by lia. f_equal. lia.
Qed.

Lemma buffer_bit_ext d1 d2 g :
  peek d1 (g / 64) = peek d2 (g / 64) -> buffer_bit d1 g = buffer_bit d2 g.
Proof. intros H. unfold buffer_bit. rewrite H. reflexivity. Qed.

(* ===================================================================== *)
(** ** The rank-combined bit vector *)
(* ===================================================================== *)

Lemma div_ceil_spec x y :
  0 <= x -> 0 < y ->
  0 <= math.div_ceil x y /\ x <= math.div_ceil x y * y < x + y.
Proof.
  intros Hx Hy. unfold math.div_ceil.
  pose proof (Z.div_mod x y ltac:(lia)) as E.
  pose proof (Z.mod_pos_bound x y Hy) as B.
  pose proof (Z.div_pos x y Hx Hy) as P.
  destruct (Z.eqb_spec (x mod y) 0) as [H0|H0]; cbn [negb Z.b2z]; nia.
Qed.

Lemma mul_lt_cancel a b c : 0 < c -> a * c < b * c -> a < b.
Proof. intros Hc H. nia. Qed.

Lemma mul_le_cancel a b c : 0 < c -> a * c <= b * c -> a <= b.
Proof. intros Hc H. nia. Qed.

Lemma div_mul_add q r c : 0 < c -> 0 <= r < c -> (q * c + r) / c = q.
Proof.
  intros Hc Hr. rewrite Z.add_comm, Z.div_add by lia.
  rewrite Z.div_small by lia. reflexivity.
Qed.

Lemma mod_mul_add q r c : 0 < c -> 0 <= r < c -> (q * c + r) mod c = r.
Proof.
  intros Hc Hr. rewrite Z.add_comm, Z.mod_add by lia.
  apply Z.mod_small. lia.
Qed.

Lemma div_range x c q : 0 < c -> q * c <= x < (q + 1) * c -> x / c = q.
Proof.
  intros Hc H. replace x with (q * c + (x - q * c)) by lia.
  apply div_mul_add; lia.
Qed.

Lemma div_bounds x c : 0 < c -> x / c * c <= x < (x / c + 1) * c.
Proof.
  intros Hc. pose proof (Z.div_mod x c ltac:(lia)).
  pose proof (Z.mod_pos_bound x c Hc). lia.
Qed.

(* ===================================================================== *)
(** ** Searching a monotone table *)
(* ===================================================================== *)

(** The branchless binary search returns the last index whose entry is
    below [rank]. *)
Lemma binary_search_spec (probe : Z -> option Z) (f : Z -> Z) rank t hi :
  hi < 2 ^ 64 ->
  forall fuel idx length,
    0 <= idx -> 1 <= length -> length <= 2 ^ Z.of_nat fuel ->
    idx <= t <= idx + length - 1 -> idx + length - 1 <= hi ->
    (forall i, idx < i <= idx + length - 1 ->
       probe i = Some (f i) /\ (f i <? rank) = (i <=? t)) ->
    binary_search fuel probe rank idx length = Some t.
Proof.
  intros Hhi. induction fuel as [|fuel IH];
    intros idx length Hidx Hlen Hfuel Ht Hb Hp; cbn [binary_search].
  - change (2 ^ Z.of_nat 0) with 1 in Hfuel.
    replace (1 <? length) with false by (symmetry; apply Z.ltb_ge; lia).
    f_equal. lia.
  - destruct (Z.ltb_spec 1 length) as [Hl|Hl]; [|f_equal; lia].
    assert (Hhalf : 1 <= length / 2 /\ 2 * (length / 2) <= length
                    /\ length - length / 2 <= 2 ^ Z.of_nat fuel).
    { rewrite Nat2Z.inj_succ, Z.pow_succ_r in Hfuel by lia.
      pose proof (Z.div_mod length 2 ltac:(lia)).
      pose proof (Z.mod_pos_bound length 2 ltac:(lia)). lia. }
    set (half := length / 2) in *.
    rewrite (wrap_small (length - half)) by lia.
    rewrite (wrap_small (idx + half)) by lia.
    destruct (Hp (idx + half) ltac:(lia)) as [-> Hc]. cbn [bind].
    rewrite Hc. destruct (Z.leb_spec (idx + half) t) as [Hle|Hgt];
      cbn [Z.b2z].
    + rewrite Z.mul_1_l, (wrap_small (idx + half)) by lia.
      apply IH; try lia. intros i Hi. apply Hp. lia.
    + rewrite Z.mul_0_l, Z.add_0_r, (wrap_small idx) by lia.
      apply IH; try lia. intros i Hi. apply Hp. lia.
Qed.

(** So does the linear search. *)
Lemma linear_search_spec (probe : Z -> option Z) (f : Z -> Z) rank t last :
  last < 2 ^ 64 -> t <= last ->
  forall fuel idx,
    0 <= idx <= t -> (Z.to_nat (t - idx) <= fuel)%nat ->
    (forall i, idx < i <= last ->
       probe i = Some (f i) /\ (f i <? rank) = (i <=? t)) ->
    linear_search fuel probe rank idx last = Some t.
Proof.
  intros Hlast Ht. induction fuel as [|fuel IH]; intros idx Hidx Hfuel Hp.
  - assert (idx = t) by lia. subst idx. cbn [linear_search].
    destruct (Z.ltb_spec t last) as [Hl|Hl]; [|reflexivity].
    rewrite (wrap_small (t + 1)) by lia.
    destruct (Hp (t + 1) ltac:(lia)) as [-> Hc]. cbn [bind]. rewrite Hc.
    replace (t + 1 <=? t) with false by (symmetry; apply Z.leb_gt; lia).
    reflexivity.
  - cbn [linear_search].
    destruct (Z.ltb_spec idx last) as [Hl|Hl].
    + rewrite (wrap_small (idx + 1)) by lia.
      destruct (Hp (idx + 1) ltac:(lia)) as [-> Hc]. cbn [bind]. rewrite Hc.
      destruct (Z.leb_spec (idx + 1) t) as [Hle|Hgt].
      * apply IH; try lia. intros i Hi. apply Hp. lia.
      * f_equal. lia.
    + f_equal. lia.
Qed.

Section Verification.

Variables BlockWidth BlockHeaderWidth : Z.
Hypothesis Hvalid : valid_parameters BlockWidth BlockHeaderWidth.

Local Abbreviation BW := (kBlockWidth BlockWidth).
Local Abbreviation BHW := (kBlockHeaderWidth BlockHeaderWidth).
Local Abbreviation BDW := (kBlockDataWidth BlockWidth BlockHeaderWidth).
Local Abbreviation HDW := (kHeaderDataWidth BlockHeaderWidth).
Local Abbreviation WPB := (kNumWordsPerBlock BlockWidth).
Local Abbreviation BPSB :=
  (kNumBlocksPerSuperblock BlockWidth BlockHeaderWidth).
Local Abbreviation WPSB := (kNumWordsPerSuperblock BlockHeaderWidth).
Local Abbreviation SBDW :=
  (kSuperblockDataWidth BlockWidth BlockHeaderWidth).

Local Abbreviation wf := (wf BlockWidth BlockHeaderWidth).
Local Abbreviation reachable := (reachable BlockWidth BlockHeaderWidth).
Local Abbreviation is_set := (is_set BlockWidth BlockHeaderWidth).
Local Abbreviation bit_index := (bit_index BlockWidth BlockHeaderWidth).
Local Abbreviation payload := (payload BlockWidth BlockHeaderWidth).
Local Abbreviation header_rank :=
  (header_rank BlockWidth BlockHeaderWidth).
Local Abbreviation header := (header BlockWidth BlockHeaderWidth).
Local Abbreviation update := (update BlockWidth BlockHeaderWidth).

Ltac params :=
  destruct (parameters_relations _ _ Hvalid)
    as [pBHW pWPB pBW pBPSB pSBW pWPSB pBDW pSBDW pHDW].

Lemma BDW_bounds : 65 <= BDW /\ BDW < BW.
Proof. params. lia. Qed.

Lemma SBDW_bounds : BDW < SBDW < 2 ^ BHW.
Proof. params. pose proof BDW_bounds. nia. Qed.

(** *** Positions and bits *)

Lemma bit_index_block b o :
  0 <= o < BDW -> bit_index (b * BDW + o) = b * BW + BHW + o.
Proof.
  intros Ho. pose proof BDW_bounds. unfold bit_index.
  rewrite div_mul_add, mod_mul_add by lia. lia.
Qed.

Lemma bit_index_split p :
  0 <= p ->
  bit_index p / 64 = p / BDW * WPB + (p mod BDW + BHW) / 64
  /\ bit_index p mod 64 = (p mod BDW + BHW) mod 64.
Proof.
  intros Hp. params. unfold bit_index.
  replace (p / BDW * BW + p mod BDW + BHW)
    with ((p mod BDW + BHW) + (p / BDW * WPB) * 64) by lia.
  rewrite Z.div_add, Z.mod_add by lia. lia.
Qed.

Lemma is_set_bit bv p :
  0 <= p -> is_set bv p = buffer_bit (_data bv) (bit_index p).
Proof.
  intros Hp. params. pose proof BDW_bounds.
  destruct (bit_index_split p Hp) as [Ed Em].
  unfold is_set, buffer_bit, kWordWidth. rewrite Ed, Em.
  apply testbit_land1. apply Z.mod_pos_bound. lia.
Qed.

Lemma bit_index_inj p q :
  0 <= p -> 0 <= q -> bit_index p = bit_index q -> p = q.
Proof.
  intros Hp Hq E. params. pose proof BDW_bounds.
  unfold bit_index in E.
  pose proof (Z.mod_pos_bound p BDW ltac:(lia)).
  pose proof (Z.mod_pos_bound q BDW ltac:(lia)).
  assert (Eb : p / BDW = q / BDW).
  { rewrite <- (div_mul_add (p / BDW) (p mod BDW + BHW) BW) by lia.
    rewrite <- (div_mul_add (q / BDW) (q mod BDW + BHW) BW) by lia.
    f_equal. lia. }
  rewrite (Z.div_mod p BDW), (Z.div_mod q BDW) by lia.
  rewrite Eb in *. lia.
Qed.

Lemma ones_is_set_block bv b o1 o2 :
  0 <= b -> 0 <= o1 -> o2 <= BDW ->
  ones (is_set bv) (b * BDW + o1) (b * BDW + o2) =
  ones (buffer_bit (_data bv)) (b * BW + BHW + o1) (b * BW + BHW + o2).
Proof.
  intros Hb H1 H2. pose proof BDW_bounds.
  rewrite (ones_ext _
             (fun p => buffer_bit (_data bv) (p + (b * BW + BHW - b * BDW)))).
  - rewrite ones_shift. f_equal; lia.
  - intros p Hp. rewrite is_set_bit by nia.
    replace p with (b * BDW + (p - b * BDW)) at 1 by lia.
    rewrite bit_index_block by lia. f_equal. lia.
Qed.

(** *** block_popcount *)

Lemma pow_BHW_bounds : 2 * BW <= 2 ^ BHW /\ 2 ^ BHW <= 2 ^ 63.
Proof.
  params. split; [nia|]. apply Z.pow_le_mono_r; lia.
Qed.

Lemma block_popcount_at_spec data b :
  Forall word data -> 0 <= b ->
  block_popcount_at BlockWidth BlockHeaderWidth data (b * WPB) =
  ones (buffer_bit data) (b * BW + BHW) (b * BW + BW).
Proof.
  intros Hw Hb. params. pose proof pow_BHW_bounds as Hpow.
  unfold block_popcount_at.
  replace WPB with (1 + (WPB - 1) * 1) at 1 by lia.
  rewrite for_range_iterate by lia.
  replace (b * BW + BW) with (b * BW + 64 * (1 + Z.of_nat (Z.to_nat (WPB - 1))))
    by lia.
  apply (iterate_invariant
           (fun k s => s = ones (buffer_bit data) (b * BW + BHW)
                                (b * BW + 64 * (1 + k)))).
  - rewrite popcount_shr by (auto using words_peek; lia).
    rewrite ones_word_bits by lia. f_equal; lia.
  - intros k s Hk ->.
    rewrite popcount_buffer.
    rewrite (ones_split _ (b * BW + BHW) (b * BW + 64 * (1 + k))
               (b * BW + 64 * (1 + (k + 1)))) by lia.
    replace (64 * (b * WPB + (1 + k * 1))) with (b * BW + 64 * (1 + k))
      by lia.
    replace (b * BW + 64 * (1 + k) + 64) with (b * BW + 64 * (1 + (k + 1)))
      by lia.
    apply wrap_small.
    pose proof (ones_bounds (buffer_bit data) (b * BW + BHW)
                  (b * BW + 64 * (1 + k)) ltac:(lia)).
    pose proof (ones_bounds (buffer_bit data) (b * BW + 64 * (1 + k))
                  (b * BW + 64 * (1 + (k + 1))) ltac:(lia)).
    change (2 ^ 63) with 9223372036854775808 in Hpow.
    change (2 ^ 64) with 18446744073709551616. lia.
Qed.

Lemma block_popcount_at_bounds data b :
  Forall word data -> 0 <= b ->
  0 <= block_popcount_at BlockWidth BlockHeaderWidth data (b * WPB) <= BDW.
Proof.
  intros Hw Hb. params. rewrite block_popcount_at_spec by auto.
  pose proof (ones_bounds (buffer_bit data) (b * BW + BHW) (b * BW + BW)
                ltac:(lia)). lia.
Qed.

Lemma block_popcount_bounds bv b :
  Forall word (_data bv) -> 0 <= b ->
  0 <= block_popcount BlockWidth BlockHeaderWidth bv b <= BDW.
Proof.
  intros Hw Hb. unfold block_popcount.
  apply block_popcount_at_bounds; auto.
Qed.

Lemma block_popcount_spec bv b :
  Forall word (_data bv) -> 0 <= b ->
  block_popcount BlockWidth BlockHeaderWidth bv b =
  ones (is_set bv) (b * BDW) ((b + 1) * BDW).
Proof.
  intros Hw Hb. params. unfold block_popcount.
  rewrite block_popcount_at_spec by auto.
  replace (b * BDW) with (b * BDW + 0) by lia.
  replace ((b + 1) * BDW) with (b * BDW + BDW) by lia.
  rewrite ones_is_set_block by lia. f_equal; lia.
Qed.

(** *** The class invariant *)

Lemma wf_facts bv :
  wf bv ->
  0 <= _length bv
  /\ 0 <= _num_blocks bv
  /\ _length bv <= _num_blocks bv * BDW < _length bv + BDW
  /\ 0 <= _num_superblocks bv
  /\ _length bv <= _num_superblocks bv * SBDW < _length bv + SBDW
  /\ _num_blocks bv <= _num_superblocks bv * BPSB < _num_blocks bv + BPSB
  /\ size (_data bv) = (_num_blocks bv + BPSB) * WPB
  /\ size (_superblock_data bv) = _num_superblocks bv
  /\ (_num_blocks bv + BPSB) * BW < 2 ^ 64.
Proof.
  intros [HL Hnb Hnsb Hds Hss Hadd _ _ _]. params.
  pose proof BDW_bounds as HB. pose proof SBDW_bounds as HS.
  destruct (div_ceil_spec (_length bv) BDW HL ltac:(lia)) as [B0 B1].
  destruct (div_ceil_spec (_length bv) SBDW HL ltac:(lia)) as [S0 S1].
  rewrite <- Hnb in B0, B1. rewrite <- Hnsb in S0, S1.
  unfold kWordWidth in Hadd.
  assert (2 ^ 63 < 2 ^ 64) by (apply Z.pow_lt_mono_r; lia).
  assert (E : _num_superblocks bv * SBDW
              = _num_superblocks bv * BPSB * BDW).
  { rewrite pSBDW. ring. }
  repeat split; try lia.
  - assert (_num_blocks bv < _num_superblocks bv * BPSB + 1); [|lia].
    apply (mul_lt_cancel _ _ BDW); lia.
  - apply (mul_lt_cancel _ _ BDW); lia.
Qed.

Lemma wf_small bv : wf bv -> (_num_blocks bv + BPSB) * BW < 2 ^ 63.
Proof.
  intros [_ _ _ Hds _ Hadd _ _ _]. params. unfold kWordWidth in Hadd.
  rewrite Hds in Hadd. lia.
Qed.

Ltac facts H :=
  let HL := fresh "HL" in let Hnb := fresh "Hnb" in
  let Hnbd := fresh "Hnbd" in let Hnsb := fresh "Hnsb" in
  let Hnsbd := fresh "Hnsbd" in let Hnn := fresh "Hnn" in
  let Hds := fresh "Hds" in let Hss := fresh "Hss" in
  let Hadd := fresh "Hadd" in
  destruct (wf_facts _ H)
    as (HL & Hnb & Hnbd & Hnsb & Hnsbd & Hnn & Hds & Hss & Hadd).

Lemma bit_index_bounds p :
  0 <= p ->
  (p / BDW) * BW + BHW <= bit_index p < (p / BDW) * BW + BW
  /\ (p / BDW) * WPB <= bit_index p / 64 < (p / BDW) * WPB + WPB.
Proof.
  intros Hp. params. pose proof BDW_bounds.
  pose proof (Z.mod_pos_bound p BDW ltac:(lia)) as Hm.
  assert (E : (p / BDW) * BW + BHW <= bit_index p < (p / BDW) * BW + BW).
  { unfold bit_index. lia. }
  split; [exact E|].
  pose proof (div_bounds (bit_index p) 64 ltac:(lia)). nia.
Qed.

Lemma position_word_in_data bv p :
  wf bv -> 0 <= p < _num_blocks bv * BDW ->
  0 <= bit_index p / 64 < _num_blocks bv * WPB.
Proof.
  intros Hwf Hp. facts Hwf. params. pose proof BDW_bounds.
  destruct (bit_index_bounds p ltac:(lia)) as [_ Hi].
  assert (0 <= p / BDW) by (apply Z.div_pos; lia).
  assert (p / BDW < _num_blocks bv).
  { apply Z.div_lt_upper_bound; lia. }
  nia.
Qed.

Lemma testbit_bitmask wp j :
  0 <= wp < 64 -> 0 <= j < 64 -> Z.testbit (shl 1 wp) j = (j =? wp).
Proof.
  intros Hwp Hj. rewrite testbit_shl by lia.
  replace (j <? 64) with true by (symmetry; apply Z.ltb_lt; lia).
  cbn [andb]. destruct (Z.eqb_spec j wp) as [->|Hne].
  - rewrite Z.sub_diag. reflexivity.
  - destruct (Z_lt_le_dec (j - wp) 0).
    + apply Z.testbit_neg_r. lia.
    + change 1 with (2 ^ 0). rewrite pow2_testbit by lia.
      apply Z.eqb_neq. lia.
Qed.

(** Writing one payload bit keeps the invariant and changes that bit
    only. *)
Lemma write_bit bv p v neww :
  wf bv -> 0 <= p < _length bv ->
  word neww ->
  (forall j, 0 <= j < 64 ->
     Z.testbit neww j =
     if j =? bit_index p mod 64 then v
     else Z.testbit (peek (_data bv) (bit_index p / 64)) j) ->
  let bv' := with_data bv (poke (_data bv) (bit_index p / 64) neww) in
  wf bv'
  /\ forall q, 0 <= q -> is_set bv' q = if q =? p then v else is_set bv q.
Proof.
  intros Hwf Hp Hw Hbits bv'. facts Hwf. params.
  pose proof (position_word_in_data bv p Hwf ltac:(lia)) as Hi.
  assert (Hset : forall q, 0 <= q ->
            is_set bv' q = if q =? p then v else is_set bv q).
  { intros q Hq. rewrite !is_set_bit by lia. unfold bv', buffer_bit.
    cbn [_data with_data].
    assert (Hq64 : 0 <= bit_index q / 64).
    { destruct (bit_index_bounds q Hq) as [_ Hb].
      assert (0 <= q / BDW) by (apply Z.div_pos; pose proof BDW_bounds; lia).
      nia. }
    rewrite peek_poke by nia.
    pose proof (Z.mod_pos_bound (bit_index q) 64 ltac:(lia)).
    destruct (Z.eqb_spec (bit_index q / 64) (bit_index p / 64)) as [Ew|Ew].
    - rewrite Hbits by lia.
      destruct (Z.eqb_spec (bit_index q mod 64) (bit_index p mod 64))
        as [Em|Em].
      + assert (q = p).
        { apply bit_index_inj; try lia.
          rewrite (Z.div_mod (bit_index q) 64), (Z.div_mod (bit_index p) 64)
            by lia. lia. }
        subst q. rewrite Z.eqb_refl. reflexivity.
      + destruct (Z.eqb_spec q p) as [->|Hne]; [lia|].
        rewrite Ew. reflexivity.
    - destruct (Z.eqb_spec q p) as [->|Hne]; [lia|]. reflexivity. }
  split; [|exact Hset].
  destruct Hwf as [W1 W2 W3 W4 W5 W6 W7 W8 W9].
  constructor; unfold bv'; cbn [_length _num_blocks _data _num_superblocks
                                 _superblock_data with_data];
    rewrite ?size_poke; auto.
  - apply words_poke; auto.
  - intros q Hq. fold bv'. rewrite Hset by lia.
    destruct (Z.eqb_spec q p); [lia|]. apply W9. exact Hq.
Qed.

Lemma word_index_bit_index p :
  0 <= p ->
  p / BDW * WPB + (p mod BDW + BHW) / kWordWidth = bit_index p / 64
  /\ (p mod BDW + BHW) mod kWordWidth = bit_index p mod 64.
Proof.
  intros Hp. destruct (bit_index_split p Hp) as [-> ->].
  unfold kWordWidth. auto.
Qed.

Lemma set_spec bv p :
  wf bv -> 0 <= p < _length bv ->
  wf (set BlockWidth BlockHeaderWidth bv p)
  /\ forall q, 0 <= q ->
       is_set (set BlockWidth BlockHeaderWidth bv p) q =
       if q =? p then true else is_set bv q.
Proof.
  intros Hwf Hp. unfold set.
  destruct (word_index_bit_index p ltac:(lia)) as [-> ->].
  pose proof (Z.mod_pos_bound (bit_index p) 64 ltac:(lia)).
  apply write_bit; auto.
  - apply word_lor; [apply words_peek, Hwf|apply wrap_word].
  - intros j Hj. rewrite Z.lor_spec, testbit_bitmask by lia.
    destruct (j =? bit_index p mod 64);
      [apply orb_true_r|apply orb_false_r].
Qed.

Lemma unset_spec bv p :
  wf bv -> 0 <= p < _length bv ->
  wf (unset BlockWidth BlockHeaderWidth bv p)
  /\ forall q, 0 <= q ->
       is_set (unset BlockWidth BlockHeaderWidth bv p) q =
       if q =? p then false else is_set bv q.
Proof.
  intros Hwf Hp. unfold unset.
  destruct (word_index_bit_index p ltac:(lia)) as [-> ->].
  pose proof (Z.mod_pos_bound (bit_index p) 64 ltac:(lia)).
  apply write_bit; auto.
  - apply word_land; [apply words_peek, Hwf|]. apply wrap_word.
  - intros j Hj. rewrite Z.land_spec, testbit_lnot, testbit_bitmask by lia.
    replace (j <? 64) with true by (symmetry; apply Z.ltb_lt; lia).
    destruct (j =? bit_index p mod 64); cbn [andb negb];
      [apply andb_false_r|apply andb_true_r].
Qed.

Lemma set_value_spec bv p v :
  wf bv -> 0 <= p < _length bv ->
  wf (set_value BlockWidth BlockHeaderWidth bv p v)
  /\ forall q, 0 <= q ->
       is_set (set_value BlockWidth BlockHeaderWidth bv p v) q =
       if q =? p then v else is_set bv q.
Proof.
  intros Hwf Hp. unfold set_value.
  destruct (word_index_bit_index p ltac:(lia)) as [-> ->].
  pose proof (Z.mod_pos_bound (bit_index p) 64 ltac:(lia)).
  apply write_bit; auto.
  - apply word_lor.
    + apply word_land; [apply words_peek, Hwf|]. apply wrap_word.
    + apply word_land; [apply wrap_word|]. apply wrap_word.
  - intros j Hj.
    rewrite Z.lor_spec, !Z.land_spec, testbit_lnot, testbit_bitmask by lia.
    replace (j <? 64) with true by (symmetry; apply Z.ltb_lt; lia).
    rewrite testbit_wrap.
    replace (j <? 64) with true by (symmetry; apply Z.ltb_lt; lia).
    destruct (j =? bit_index p mod 64); cbn [andb negb].
    + rewrite andb_false_r, andb_true_r. cbn [orb].
      destruct v; cbn [Z.b2z Z.opp].
      * change (-1) with (Z.lnot 0).
        rewrite Z.lnot_spec, Z.testbit_0_l by lia. reflexivity.
      * apply Z.testbit_0_l.
    + rewrite andb_false_r, andb_true_r. apply orb_false_r.
Qed.

(** *** The constructor *)

Lemma new_last_block_zero heap_data heap_superblock length i :
  0 <= length ->
  let bv := new BlockWidth BlockHeaderWidth heap_data heap_superblock
              length in
  0 <= i -> (_num_blocks bv - 1) * WPB <= i < _num_blocks bv * WPB ->
  peek (_data bv) i = 0.
Proof.
  intros HL bv Hi0 Hi. params. pose proof BDW_bounds.
  destruct (div_ceil_spec length BDW HL ltac:(lia)) as [B0 B1].
  unfold bv, new in *. cbn [_data _num_blocks] in *.
  set (nb := math.div_ceil length BDW) in *.
  assert (0 < nb) by (apply (mul_lt_cancel 0 nb WPB); lia).
  assert (0 <= BPSB * WPB) by (apply Z.mul_nonneg_nonneg; lia).
  assert (0 <= nb * WPB) by (apply Z.mul_nonneg_nonneg; lia).
  assert (0 <= (nb - 1) * WPB) by (apply Z.mul_nonneg_nonneg; lia).
  replace (0 <? nb) with true by (symmetry; apply Z.ltb_lt; lia).
  rewrite peek_fill_n; rewrite ?size_StaticVector; try lia.
  replace (((nb - 1) * WPB <=? i)
           && (i <? (nb - 1) * WPB + Z.of_nat (Z.to_nat WPB))) with true;
    [reflexivity|].
  symmetry. apply andb_true_iff.
  split; [apply Z.leb_le|apply Z.ltb_lt]; lia.
Qed.

Lemma new_wf heap_data heap_superblock length :
  0 <= length ->
  (math.div_ceil length BDW + BPSB) * BW < 2 ^ 63 ->
  wf (new BlockWidth BlockHeaderWidth heap_data heap_superblock length).
Proof.
  intros HL Hadd. params. pose proof BDW_bounds. pose proof SBDW_bounds.
  destruct (div_ceil_spec length BDW HL ltac:(lia)) as [B0 B1].
  destruct (div_ceil_spec length SBDW HL ltac:(lia)) as [S0 S1].
  pose proof (new_last_block_zero heap_data heap_superblock length) as Hz.
  cbv zeta in Hz.
  assert (Hsz : size (_data (new BlockWidth BlockHeaderWidth heap_data
                               heap_superblock length))
                = math.div_ceil length BDW * WPB + BPSB * WPB).
  { unfold new. cbn [_data].
    destruct (0 <? math.div_ceil length BDW);
      rewrite ?size_fill_n, size_StaticVector; nia. }
  constructor.
  - exact HL.
  - reflexivity.
  - reflexivity.
  - exact Hsz.
  - unfold new. cbn [_superblock_data _num_superblocks].
    apply size_StaticVector. lia.
  - rewrite Hsz. unfold kWordWidth. nia.
  - unfold new. cbn [_data].
    destruct (0 <? math.div_ceil length BDW);
      [apply words_fill_n; [|unfold word; lia]|]; apply words_StaticVector.
  - unfold new. cbn [_superblock_data]. apply words_StaticVector.
  - intros p Hp. unfold new in Hp. cbn [_length _num_blocks] in Hp.
    set (nb := math.div_ceil length BDW) in *.
    assert (Hp0 : 0 <= p) by lia.
    rewrite is_set_bit by exact Hp0.
    destruct (bit_index_bounds p Hp0) as [_ Hb].
    assert (Eb : p / BDW = nb - 1) by (apply div_range; lia).
    rewrite Eb in Hb.
    assert (0 < nb) by lia.
    assert (0 <= (nb - 1) * WPB) by (apply Z.mul_nonneg_nonneg; lia).
    unfold buffer_bit. rewrite Hz; [apply Z.testbit_0_l|auto|lia|].
    unfold new. cbn [_num_blocks]. fold nb. lia.
Qed.

(** *** Counting over the payload *)

Lemma payload_is_set bv p :
  p < _num_blocks bv * BDW -> payload bv p = is_set bv p.
Proof.
  intros H. unfold payload.
  replace (p <? _num_blocks bv * BDW) with true
    by (symmetry; apply Z.ltb_lt; lia).
  reflexivity.
Qed.

Lemma payload_beyond bv p :
  wf bv -> _length bv <= p -> payload bv p = false.
Proof.
  intros Hwf H. unfold payload.
  destruct (Z.ltb_spec p (_num_blocks bv * BDW)); [|reflexivity].
  cbn [andb]. apply (wf_tail _ _ _ Hwf). lia.
Qed.

Lemma ones_payload_is_set bv lo hi :
  hi <= _num_blocks bv * BDW ->
  ones (payload bv) lo hi = ones (is_set bv) lo hi.
Proof.
  intros H. apply ones_ext. intros i Hi. apply payload_is_set. lia.
Qed.

Lemma ones_payload_beyond bv lo hi :
  wf bv -> _length bv <= lo -> ones (payload bv) lo hi = 0.
Proof.
  intros Hwf H. apply ones_false. intros i Hi.
  apply payload_beyond; [auto|lia].
Qed.

(** *** update() *)

Local Abbreviation updated_word :=
  (updated_word BlockWidth BlockHeaderWidth).
Local Abbreviation update_invariant :=
  (update_invariant BlockWidth BlockHeaderWidth).
Local Abbreviation current_superblock_start :=
  (current_superblock_start BlockWidth BlockHeaderWidth).
Local Abbreviation superblocks_begun :=
  (superblocks_begun BlockWidth BlockHeaderWidth).

Lemma superblock_word k :
  0 <= k -> ((k * WPB) mod WPSB =? 0) = (k mod BPSB =? 0).
Proof.
  intros Hk. params. rewrite pWPSB.
  rewrite Z.mul_mod_distr_r by lia.
  pose proof (Z.mod_pos_bound k BPSB ltac:(lia)).
  destruct (Z.eqb_spec (k mod BPSB) 0) as [->|Hne].
  - reflexivity.
  - apply Z.eqb_neq. nia.
Qed.

Lemma block_of_boundary k :
  0 <= k -> k mod BPSB = 0 ->
  k / BPSB * SBDW = k * BDW
  /\ superblocks_begun k = k / BPSB
  /\ current_superblock_start k <= k * BDW
  /\ 0 <= current_superblock_start k.
Proof.
  intros Hk Hm. params. pose proof BDW_bounds.
  pose proof (Z.div_mod k BPSB ltac:(lia)) as E. rewrite Hm in E.
  assert (Hq : 0 <= k / BPSB) by (apply Z.div_pos; lia).
  unfold superblocks_begun, current_superblock_start.
  split; [rewrite pSBDW; nia|].
  destruct (Z.eqb_spec k 0) as [->|Hne].
  - rewrite Z.div_0_l by lia. lia.
  - assert (Hq1 : (k - 1) / BPSB = k / BPSB - 1).
    { apply div_range; [lia|]. nia. }
    rewrite Hq1. split; [lia|]. rewrite pSBDW.
    set (q := k / BPSB) in *.
    assert (1 <= q) by nia.
    assert (0 < BPSB * BDW) by (apply Z.mul_pos_pos; lia).
    assert (0 <= (q - 1) * (BPSB * BDW))
      by (apply Z.mul_nonneg_nonneg; lia).
    rewrite E at 1. lia.
Qed.

Lemma block_of_interior k :
  0 <= k -> k mod BPSB <> 0 ->
  0 < k /\ (k - 1) / BPSB = k / BPSB
  /\ current_superblock_start k = k / BPSB * SBDW
  /\ superblocks_begun k = k / BPSB + 1.
Proof.
  intros Hk Hm. params.
  pose proof (Z.div_mod k BPSB ltac:(lia)) as E.
  pose proof (Z.mod_pos_bound k BPSB ltac:(lia)) as B.
  assert (H0 : 0 < k).
  { destruct (Z.eq_dec k 0) as [->|]; [|lia].
    rewrite Z.mod_0_l in Hm; lia. }
  assert (Hq : (k - 1) / BPSB = k / BPSB).
  { apply div_range; [lia|]. nia. }
  unfold superblocks_begun, current_superblock_start.
  replace (k =? 0) with false by (symmetry; apply Z.eqb_neq; lia).
  rewrite Hq. auto.
Qed.

Lemma superblock_start_le k :
  0 <= k -> 0 <= k / BPSB * SBDW <= k * BDW
  /\ k * BDW - k / BPSB * SBDW <= (BPSB - 1) * BDW.
Proof.
  intros Hk. params. pose proof BDW_bounds.
  pose proof (Z.div_mod k BPSB ltac:(lia)) as E.
  pose proof (Z.mod_pos_bound k BPSB ltac:(lia)) as B.
  assert (Hq : 0 <= k / BPSB) by (apply Z.div_pos; lia).
  rewrite pSBDW. nia.
Qed.

Lemma next_superblock_start k :
  0 <= k ->
  current_superblock_start (k + 1) = k / BPSB * SBDW
  /\ superblocks_begun (k + 1) = k / BPSB + 1.
Proof.
  intros Hk.
  unfold superblocks_begun, current_superblock_start.
  replace (k + 1 =? 0) with false by (symmetry; apply Z.eqb_neq; lia).
  replace (k + 1 - 1) with k by lia. auto.
Qed.

Lemma header_rank_bounds bv b :
  0 <= b -> 0 <= header_rank bv b <= (BPSB - 1) * BDW.
Proof.
  intros Hb. destruct (superblock_start_le b Hb) as [H1 H2].
  unfold header_rank.
  pose proof (ones_bounds (payload bv) (b / BPSB * SBDW) (b * BDW)
                ltac:(lia)). lia.
Qed.

Lemma header_rank_fits bv b :
  0 <= b -> 0 <= header_rank bv b < 2 ^ BHW.
Proof.
  intros Hb. pose proof (header_rank_bounds bv b Hb).
  pose proof SBDW_bounds. params. pose proof BDW_bounds. nia.
Qed.

Lemma block_word_bounds bv k :
  wf bv -> 0 <= k < _num_blocks bv + BPSB ->
  0 <= k * WPB /\ k * WPB + WPB <= size (_data bv).
Proof.
  intros Hwf Hk. facts Hwf. params. rewrite Hds.
  assert (0 <= k * WPB) by (apply Z.mul_nonneg_nonneg; lia).
  assert ((k + 1) * WPB <= (_num_blocks bv + BPSB) * WPB)
    by (apply Z.mul_le_mono_nonneg_r; lia).
  lia.
Qed.

Lemma updated_word_head bv k :
  0 <= k ->
  updated_word bv (k * WPB) =
  if k <? _num_blocks bv then
    Z.lor (Z.land (peek (_data bv) (k * WPB)) (math.setbits HDW BHW))
          (header_rank bv k)
  else header_rank bv k.
Proof.
  intros Hk. params. unfold updated_word.
  rewrite Z.mod_mul, Z.div_mul by lia. rewrite Z.eqb_refl. reflexivity.
Qed.

Lemma updated_word_tail bv k r :
  0 < r < WPB -> updated_word bv (k * WPB + r) = peek (_data bv) (k * WPB + r).
Proof.
  intros Hr. unfold updated_word.
  rewrite mod_mul_add by lia.
  replace (r =? 0) with false by (symmetry; apply Z.eqb_neq; lia).
  reflexivity.
Qed.

(** [update()] leaves the payload bits of the real blocks alone. *)
Lemma updated_word_bit bv g :
  wf bv -> 0 <= g -> BHW <= g mod BW -> g / BW < _num_blocks bv ->
  Z.testbit (updated_word bv (g / 64)) (g mod 64)
  = buffer_bit (_data bv) g.
Proof.
  intros Hwf Hg Hm Hb. params. unfold buffer_bit.
  pose proof (Z.div_mod g BW ltac:(lia)) as Eg.
  pose proof (Z.mod_pos_bound g BW ltac:(lia)) as Bg.
  pose proof (Z.div_mod (g mod BW) 64 ltac:(lia)) as Er.
  pose proof (Z.mod_pos_bound (g mod BW) 64 ltac:(lia)) as Br.
  assert (Hq : 0 <= g / BW) by (apply Z.div_pos; lia).
  assert (E64 : g / 64 = g / BW * WPB + g mod BW / 64).
  { apply div_range; [lia|]. lia. }
  assert (E64m : g mod 64 = (g mod BW) mod 64).
  { rewrite Eg at 1. generalize (g / BW) (g mod BW). intros q r.
    rewrite pBW. replace (64 * WPB * q + r) with (r + (WPB * q) * 64) by ring.
    apply Z.mod_add. lia. }
  assert (Hr : 0 <= g mod BW / 64 < WPB).
  { split; [apply Z.div_pos; lia|]. apply Z.div_lt_upper_bound; lia. }
  rewrite E64. destruct (Z.eq_dec (g mod BW / 64) 0) as [E0|Hne].
  - rewrite E0, Z.add_0_r. rewrite updated_word_head by lia.
    replace (g / BW <? _num_blocks bv) with true
      by (symmetry; apply Z.ltb_lt; lia).
    rewrite pHDW. rewrite testbit_merge.
    + replace (g mod 64 <? BHW) with false; [reflexivity|].
      symmetry. apply Z.ltb_ge. rewrite E64m. lia.
    + lia.
    + apply header_rank_fits. lia.
    + apply Z.mod_pos_bound. lia.
  - rewrite updated_word_tail by lia. reflexivity.
Qed.

Lemma block_payload_count bv data' k :
  wf bv -> 0 <= k < _num_blocks bv ->
  Forall word data' ->
  (forall i, k * WPB <= i < k * WPB + WPB ->
             peek data' i = updated_word bv i) ->
  block_popcount_at BlockWidth BlockHeaderWidth data' (k * WPB)
  = ones (payload bv) (k * BDW) ((k + 1) * BDW).
Proof.
  intros Hwf Hk Hw Hd. facts Hwf. params. pose proof BDW_bounds.
  rewrite block_popcount_at_spec by (auto; lia).
  rewrite ones_payload_is_set.
  2:{ apply Z.mul_le_mono_nonneg_r; lia. }
  replace (k * BDW) with (k * BDW + 0) by lia.
  replace ((k + 1) * BDW) with (k * BDW + BDW) by lia.
  rewrite ones_is_set_block by lia.
  replace (k * BW + BHW + 0) with (k * BW + BHW) by lia.
  replace (k * BW + BHW + BDW) with (k * BW + BW) by lia.
  apply ones_ext. intros g Hg.
  assert (0 <= k * BW) by (apply Z.mul_nonneg_nonneg; lia).
  assert (Egq : g / BW = k) by (apply div_range; lia).
  assert (Egm : g mod BW = g - k * BW).
  { pose proof (Z.div_mod g BW ltac:(lia)). rewrite Egq in *. lia. }
  rewrite <- (updated_word_bit bv g) by (auto; lia).
  unfold buffer_bit. rewrite Hd; [reflexivity|].
  pose proof (div_bounds g 64 ltac:(lia)). lia.
Qed.

Lemma update_block_step bv k st :
  wf bv -> 0 <= k < _num_blocks bv ->
  update_invariant bv k st ->
  update_invariant bv (k + 1)
    (update_block BlockWidth BlockHeaderWidth (0 + k * WPB) st).
Proof.
  intros Hwf Hk [I1 I2 I3 I4 I5 I6 I7 I8 I9]. facts Hwf. params.
  pose proof BDW_bounds as HB. pose proof pow_BHW_bounds as Hpow.
  destruct (block_word_bounds bv k Hwf ltac:(lia)) as [Hi0 Hi1].
  rewrite Z.min_l in * by lia.
  destruct (next_superblock_start k ltac:(lia)) as [Ns Nb].
  destruct (superblock_start_le k ltac:(lia)) as [Hs1 Hs2].
  assert (Hcnt : forall a b, 0 <= a <= b -> b <= (_num_blocks bv) * BDW ->
            0 <= ones (payload bv) a b < 2 ^ 64).
  { intros a b Hab Hb'.
    pose proof (ones_bounds (payload bv) a b ltac:(lia)).
    assert (_num_blocks bv * BDW <= (_num_blocks bv + BPSB) * BW).
    { apply Z.mul_le_mono_nonneg; lia. }
    lia. }
  assert (HkB : (k + 1) * BDW <= _num_blocks bv * BDW).
  { apply Z.mul_le_mono_nonneg_r; lia. }
  (* the state after the superblock branch *)
  set (st1 := if (0 + k * WPB) mod WPSB =? 0
              then begin_superblock st else st).
  assert (M : u_data st1 = u_data st
           /\ size (u_superblock_data st1) = size (_superblock_data bv)
           /\ Forall word (u_superblock_data st1)
           /\ (forall s, 0 <= s < size (_superblock_data bv) ->
                 peek (u_superblock_data st1) s =
                 if s <? k / BPSB + 1 then ones (payload bv) 0 (s * SBDW)
                 else peek (_superblock_data bv) s)
           /\ u_cur_num_super_block st1 = k / BPSB + 1
           /\ u_cur_rank st1 = ones (payload bv) 0 (k / BPSB * SBDW)
           /\ u_cur_block_rank st1 = header_rank bv k).
  { unfold st1. replace (0 + k * WPB) with (k * WPB) by lia.
    rewrite superblock_word by lia.
    destruct (Z.eqb_spec (k mod BPSB) 0) as [Hm|Hm].
    - destruct (block_of_boundary k ltac:(lia) Hm) as (E1 & E2 & E3 & E4).
      unfold begin_superblock. cbn [u_data u_superblock_data u_cur_rank
        u_cur_block_rank u_cur_num_super_block].
      rewrite I7, I8, I9, E2.
      rewrite <- ones_split by lia.
      assert (Hq : 0 <= k / BPSB) by (apply Z.div_pos; lia).
      assert (Hqs : k / BPSB < _num_superblocks bv).
      { apply Z.div_lt_upper_bound; lia. }
      rewrite (wrap_small (ones _ _ _)) by (apply Hcnt; lia).
      rewrite (wrap_small (k / BPSB + 1)).
      2:{ change (2 ^ 63) with 9223372036854775808 in Hpow.
          change (2 ^ 64) with 18446744073709551616 in *. nia. }
      repeat split.
      + rewrite size_poke. exact I2.
      + apply words_poke; [exact I4|]. apply Hcnt; lia.
      + intros s Hs. rewrite peek_poke by lia.
        destruct (Z.eqb_spec s (k / BPSB)) as [->|Hne].
        * replace (k / BPSB <? k / BPSB + 1) with true
            by (symmetry; apply Z.ltb_lt; lia).
          rewrite E1. reflexivity.
        * rewrite I6, E2 by lia.
          destruct (Z.ltb_spec s (k / BPSB)), (Z.ltb_spec s (k / BPSB + 1));
            try reflexivity; lia.
      + rewrite E1. reflexivity.
      + unfold header_rank. rewrite E1.
        rewrite ones_empty by lia. reflexivity.
    - destruct (block_of_interior k ltac:(lia) Hm) as (E0 & E1 & E2 & E3).
      rewrite E2 in *. rewrite E3 in *.
      repeat split; auto. }
  destruct M as (M1 & M2 & M3 & M4 & M5 & M6 & M7).
  unfold update_block. fold st1. cbv zeta.
  replace (0 + k * WPB) with (k * WPB) by lia.
  rewrite M1, M7.
  assert (Eold : peek (u_data st) (k * WPB) = peek (_data bv) (k * WPB)).
  { rewrite I5 by lia.
    replace (k * WPB <? k * WPB) with false
      by (symmetry; apply Z.ltb_ge; lia). reflexivity. }
  rewrite Eold.
  assert (EW : Z.lor (Z.land (peek (_data bv) (k * WPB))
                        (math.setbits HDW BHW)) (header_rank bv k)
               = updated_word bv (k * WPB)).
  { rewrite updated_word_head by lia.
    replace (k <? _num_blocks bv) with true
      by (symmetry; apply Z.ltb_lt; lia). reflexivity. }
  rewrite EW.
  set (data' := poke (u_data st) (k * WPB) (updated_word bv (k * WPB))).
  assert (Hw' : Forall word data').
  { apply words_poke; [exact I3|]. rewrite updated_word_head by lia.
    replace (k <? _num_blocks bv) with true
      by (symmetry; apply Z.ltb_lt; lia).
    rewrite pHDW. apply word_merge; [apply words_peek, Hwf|lia|].
    apply header_rank_fits. lia. }
  assert (Hd' : forall i, 0 <= i < size (_data bv) ->
            peek data' i =
            if i <? (k + 1) * WPB then updated_word bv i
            else peek (_data bv) i).
  { intros i Hi. unfold data'. rewrite peek_poke by lia.
    destruct (Z.eqb_spec i (k * WPB)) as [->|Hne].
    - replace (k * WPB <? (k + 1) * WPB) with true
        by (symmetry; apply Z.ltb_lt; lia). reflexivity.
    - rewrite I5 by lia.
      destruct (Z.ltb_spec i (k * WPB)), (Z.ltb_spec i ((k + 1) * WPB));
        try reflexivity; try lia.
      replace i with (k * WPB + (i - k * WPB)) by lia.
      rewrite updated_word_tail by lia. reflexivity. }
  rewrite (block_payload_count bv data' k Hwf Hk Hw').
  2:{ intros i Hi. rewrite Hd' by lia.
      replace (i <? (k + 1) * WPB) with true
        by (symmetry; apply Z.ltb_lt; lia). reflexivity. }
  constructor; cbn [u_data u_superblock_data u_cur_rank u_cur_block_rank
                    u_cur_num_super_block];
    rewrite ?(Z.min_l (k + 1)) by lia.
  - unfold data'. rewrite size_poke. exact I1.
  - exact M2.
  - exact Hw'.
  - exact M3.
  - exact Hd'.
  - intros s Hs. rewrite Nb. apply M4. exact Hs.
  - rewrite Nb. exact M5.
  - rewrite Ns. exact M6.
  - rewrite Ns. unfold header_rank.
    rewrite <- ones_split by lia.
    apply wrap_small. apply Hcnt; lia.
Qed.

Lemma update_pad_step bv j st :
  wf bv -> 0 <= j < BPSB ->
  update_invariant bv (_num_blocks bv + j) st ->
  update_invariant bv (_num_blocks bv + j + 1)
    (update_pad BlockHeaderWidth (_num_blocks bv * WPB + j * WPB) st).
Proof.
  intros Hwf Hj [I1 I2 I3 I4 I5 I6 I7 I8 I9]. facts Hwf. params.
  pose proof BDW_bounds as HB.
  set (k := _num_blocks bv + j) in *.
  assert (Hk : 0 <= k < _num_blocks bv + BPSB) by lia.
  destruct (block_word_bounds bv k Hwf Hk) as [Hi0 Hi1].
  destruct (next_superblock_start k ltac:(lia)) as [Ns Nb].
  destruct (superblock_start_le k ltac:(lia)) as [Hs1 Hs2].
  replace (_num_blocks bv * WPB + j * WPB) with (k * WPB) by (unfold k; ring).
  unfold update_pad. rewrite superblock_word by lia.
  set (cbr := if k mod BPSB =? 0 then 0 else u_cur_block_rank st).
  assert (Ecbr : cbr = header_rank bv k).
  { unfold cbr, header_rank.
    destruct (Z.eqb_spec (k mod BPSB) 0) as [Hm|Hm].
    - destruct (block_of_boundary k ltac:(lia) Hm) as (E1 & _).
      rewrite E1, ones_empty by lia. reflexivity.
    - destruct (block_of_interior k ltac:(lia) Hm) as (_ & _ & E2 & _).
      rewrite I9, E2. reflexivity. }
  assert (EW : updated_word bv (k * WPB) = cbr).
  { rewrite updated_word_head by lia.
    replace (k <? _num_blocks bv) with false
      by (symmetry; apply Z.ltb_ge; lia). auto. }
  pose proof (header_rank_fits bv k ltac:(lia)) as Hfit.
  pose proof pow_BHW_bounds as Hpow.
  constructor; cbn [u_data u_superblock_data u_cur_rank u_cur_block_rank
                    u_cur_num_super_block];
    rewrite ?(Z.min_r (k + 1)) by lia; rewrite ?(Z.min_r k) in * by lia.
  - rewrite size_poke. exact I1.
  - exact I2.
  - apply words_poke; [exact I3|]. rewrite Ecbr. split; [lia|].
    assert (2 ^ 63 < 2 ^ 64) by (apply Z.pow_lt_mono_r; lia). lia.
  - exact I4.
  - intros i Hi. rewrite peek_poke by lia.
    destruct (Z.eqb_spec i (k * WPB)) as [->|Hne].
    + replace (k * WPB <? (k + 1) * WPB) with true
        by (symmetry; apply Z.ltb_lt; lia). auto.
    + rewrite I5 by lia.
      destruct (Z.ltb_spec i (k * WPB)), (Z.ltb_spec i ((k + 1) * WPB));
        try reflexivity; try lia.
      replace i with (k * WPB + (i - k * WPB)) by lia.
      rewrite updated_word_tail by lia. reflexivity.
  - exact I6.
  - exact I7.
  - exact I8.
  - rewrite Ns, Ecbr. unfold header_rank.
    rewrite (ones_split _ (k / BPSB * SBDW) (k * BDW) ((k + 1) * BDW))
      by lia.
    rewrite (ones_false _ (k * BDW) ((k + 1) * BDW)); [lia|].
    intros p Hp. unfold payload.
    replace (p <? _num_blocks bv * BDW) with false; [reflexivity|].
    symmetry. apply Z.ltb_ge.
    assert (_num_blocks bv * BDW <= k * BDW)
      by (apply Z.mul_le_mono_nonneg_r; lia). lia.
Qed.

Lemma update_invariant_init bv :
  wf bv ->
  update_invariant bv 0
    {| u_data := _data bv; u_superblock_data := _superblock_data bv;
       u_cur_rank := 0; u_cur_block_rank := 0;
       u_cur_num_super_block := 0 |}.
Proof.
  intros Hwf. facts Hwf.
  constructor; cbn [u_data u_superblock_data u_cur_rank u_cur_block_rank
                    u_cur_num_super_block];
    rewrite ?Z.min_l by lia;
    unfold superblocks_begun, current_superblock_start;
    cbn [Z.eqb]; try reflexivity.
  - apply Hwf.
  - apply Hwf.
  - intros i Hi. rewrite Z.mul_0_l.
    replace (i <? 0) with false by (symmetry; apply Z.ltb_ge; lia).
    reflexivity.
  - intros s Hs.
    replace (s <? 0) with false by (symmetry; apply Z.ltb_ge; lia).
    reflexivity.
Qed.

Lemma update_run_invariant bv :
  wf bv ->
  update_invariant bv (_num_blocks bv + BPSB)
    (update_run BlockWidth BlockHeaderWidth bv).
Proof.
  intros Hwf. facts Hwf. params. unfold update_run. cbv zeta.
  rewrite (wf_data_size _ _ _ Hwf).
  rewrite for_range_iterate by lia.
  match goal with
  | |- context [for_range 0 _ _ ?body ?st] =>
      pose proof (for_range_iterate body 0 WPB (_num_blocks bv) st
                    ltac:(lia) ltac:(lia)) as E1
  end.
  rewrite Z.add_0_l in E1. rewrite E1. clear E1.
  replace BPSB with (Z.of_nat (Z.to_nat BPSB)) at 1 by lia.
  apply (iterate_invariant
           (fun j st => update_invariant bv (_num_blocks bv + j) st)).
  - rewrite Z.add_0_r.
    replace (_num_blocks bv) with (Z.of_nat (Z.to_nat (_num_blocks bv)))
      at 1 by lia.
    apply (iterate_invariant (fun k st => update_invariant bv k st)).
    + apply update_invariant_init. exact Hwf.
    + intros k s Hk HI. apply update_block_step; auto. lia.
  - intros j s Hj HI.
    replace (_num_blocks bv + (j + 1)) with (_num_blocks bv + j + 1) by lia.
    apply update_pad_step; auto. lia.
Qed.

(** What [update()] computes, word by word. *)

Lemma update_length bv : _length (update bv) = _length bv.
Proof. reflexivity. Qed.

Lemma update_num_blocks bv : _num_blocks (update bv) = _num_blocks bv.
Proof. reflexivity. Qed.

Lemma update_num_superblocks bv :
  _num_superblocks (update bv) = _num_superblocks bv.
Proof. reflexivity. Qed.

Lemma update_data_size bv :
  wf bv -> size (_data (update bv)) = size (_data bv).
Proof. intros Hwf. apply (update_run_invariant bv Hwf). Qed.

Lemma update_superblock_size bv :
  wf bv ->
  size (_superblock_data (update bv)) = size (_superblock_data bv).
Proof. intros Hwf. apply (update_run_invariant bv Hwf). Qed.

Lemma update_data bv i :
  wf bv -> 0 <= i < size (_data bv) ->
  peek (_data (update bv)) i = updated_word bv i.
Proof.
  intros Hwf Hi. facts Hwf.
  rewrite (ui_data _ _ _ _ _ (update_run_invariant bv Hwf)) by exact Hi.
  replace (i <? (_num_blocks bv + BPSB) * WPB) with true; [reflexivity|].
  symmetry. apply Z.ltb_lt. lia.
Qed.

Lemma superblocks_begun_all bv :
  wf bv -> superblocks_begun (_num_blocks bv) = _num_superblocks bv.
Proof.
  intros Hwf. facts Hwf. params. pose proof BDW_bounds.
  unfold superblocks_begun.
  destruct (Z.eqb_spec (_num_blocks bv) 0) as [E|Hne].
  - rewrite E in *.
    assert (_num_superblocks bv * BPSB < 1 * BPSB) by lia.
    assert (_num_superblocks bv < 1)
      by (apply (mul_lt_cancel _ _ BPSB); lia).
    lia.
  - assert ((_num_blocks bv - 1) / BPSB = _num_superblocks bv - 1); [|lia].
    apply div_range; lia.
Qed.

Lemma update_superblock bv s :
  wf bv -> 0 <= s < _num_superblocks bv ->
  peek (_superblock_data (update bv)) s = ones (payload bv) 0 (s * SBDW).
Proof.
  intros Hwf Hs. facts Hwf. params.
  rewrite (ui_superblock _ _ _ _ _ (update_run_invariant bv Hwf)) by lia.
  rewrite Z.min_r by lia. rewrite superblocks_begun_all by exact Hwf.
  replace (s <? _num_superblocks bv) with true; [reflexivity|].
  symmetry. apply Z.ltb_lt. lia.
Qed.

Lemma is_set_update bv p :
  wf bv -> 0 <= p < _num_blocks bv * BDW ->
  is_set (update bv) p = is_set bv p.
Proof.
  intros Hwf Hp. facts Hwf. params. pose proof BDW_bounds.
  rewrite !is_set_bit by lia.
  pose proof (position_word_in_data bv p Hwf Hp) as Hi.
  destruct (bit_index_bounds p ltac:(lia)) as [Hg _].
  assert (Hq : 0 <= p / BDW) by (apply Z.div_pos; lia).
  assert (Hqn : p / BDW < _num_blocks bv)
    by (apply Z.div_lt_upper_bound; lia).
  assert (0 <= p / BDW * BW) by (apply Z.mul_nonneg_nonneg; lia).
  assert (Egq : bit_index p / BW = p / BDW) by (apply div_range; lia).
  assert (Egm : bit_index p mod BW = bit_index p - p / BDW * BW).
  { pose proof (Z.div_mod (bit_index p) BW ltac:(lia)) as E.
    rewrite Egq in E. lia. }
  rewrite <- (updated_word_bit bv (bit_index p)) by (auto; lia).
  unfold buffer_bit. rewrite update_data; [reflexivity|auto|].
  assert (_num_blocks bv * WPB <= (_num_blocks bv + BPSB) * WPB)
    by (apply Z.mul_le_mono_nonneg_r; lia).
  lia.
Qed.

Lemma payload_update bv p :
  wf bv -> 0 <= p -> payload (update bv) p = payload bv p.
Proof.
  intros Hwf Hp. unfold payload. rewrite update_num_blocks.
  destruct (Z.ltb_spec p (_num_blocks bv * BDW)); cbn [andb]; auto.
  apply is_set_update; auto.
Qed.

Lemma ones_payload_update bv lo hi :
  wf bv -> 0 <= lo ->
  ones (payload (update bv)) lo hi = ones (payload bv) lo hi.
Proof.
  intros Hwf Hlo. apply ones_ext. intros i Hi.
  apply payload_update; [auto|lia].
Qed.

Lemma header_rank_update bv b :
  wf bv -> 0 <= b -> header_rank (update bv) b = header_rank bv b.
Proof.
  intros Hwf Hb. unfold header_rank.
  apply ones_payload_update; auto.
  apply (superblock_start_le b Hb).
Qed.

Lemma update_wf bv : wf bv -> wf (update bv).
Proof.
  intros Hwf. pose proof (update_run_invariant bv Hwf) as HI.
  pose proof Hwf as [W1 W2 W3 W4 W5 W6 W7 W8 W9].
  constructor;
    rewrite ?update_length, ?update_num_blocks, ?update_num_superblocks;
    auto.
  - rewrite update_data_size by exact Hwf. exact W4.
  - rewrite update_superblock_size by exact Hwf. exact W5.
  - rewrite update_data_size by exact Hwf. exact W6.
  - apply HI.
  - apply HI.
  - intros p Hp. rewrite is_set_update by (auto; lia). apply W9. exact Hp.
Qed.

Lemma header_update bv b :
  wf bv -> 0 <= b < _num_blocks bv + BPSB ->
  header (update bv) b = header_rank bv b.
Proof.
  intros Hwf Hb. params. unfold header.
  destruct (block_word_bounds bv b Hwf Hb) as [H0 H1].
  rewrite update_data by (auto; lia).
  rewrite updated_word_head by lia.
  pose proof (header_rank_fits bv b ltac:(lia)) as Hfit.
  destruct (b <? _num_blocks bv).
  - rewrite pHDW. apply land_low_merge; lia.
  - apply land_low_small; lia.
Qed.

Lemma reachable_wf bv : reachable bv -> wf bv.
Proof.
  induction 1 as [hd hs len H0 H1|bv pos _ IH Hp|bv pos _ IH Hp
                 |bv pos value _ IH Hp|bv _ IH].
  - apply new_wf; assumption.
  - apply set_spec; assumption.
  - apply unset_spec; assumption.
  - apply set_value_spec; assumption.
  - apply update_wf; assumption.
Qed.

(** *** rank1 *)

Local Abbreviation finalized := (finalized BlockWidth BlockHeaderWidth).

Lemma update_finalized bv : wf bv -> finalized (update bv).
Proof.
  intros Hwf. pose proof BDW_bounds. params. constructor.
  - apply update_wf. exact Hwf.
  - intros b Hb. rewrite update_num_blocks in Hb.
    rewrite header_update, header_rank_update by (auto; lia). reflexivity.
  - intros s Hs. rewrite update_num_superblocks in Hs.
    rewrite update_superblock by (auto; lia).
    symmetry. apply ones_payload_update; [auto|lia].
Qed.

Lemma payload_count_bound bv a b :
  wf bv -> 0 <= a -> 0 <= ones (payload bv) a b < 2 ^ 64.
Proof.
  intros Hwf Ha. facts Hwf. params. pose proof BDW_bounds.
  split; [apply ones_nonneg|].
  assert (Hn : _num_blocks bv * BDW <= (_num_blocks bv + BPSB) * BW)
    by (apply Z.mul_le_mono_nonneg; lia).
  destruct (Z_le_gt_dec b (_length bv)).
  - destruct (Z_le_gt_dec a b).
    + pose proof (ones_bounds (payload bv) a b ltac:(lia)). lia.
    + rewrite ones_empty by lia. lia.
  - destruct (Z_le_gt_dec a (_length bv)).
    + rewrite (ones_split _ a (_length bv) b) by lia.
      rewrite (ones_payload_beyond bv (_length bv) b) by (auto; lia).
      pose proof (ones_bounds (payload bv) a (_length bv) ltac:(lia)). lia.
    + rewrite ones_payload_beyond by (auto; lia). lia.
Qed.

Lemma block_of_position p :
  0 <= p -> p / BDW / BPSB = p / SBDW.
Proof.
  intros Hp. params. pose proof BDW_bounds.
  rewrite pSBDW, Z.mul_comm. apply Z.div_div; lia.
Qed.

Lemma rank1_words_spec data base nw :
  0 <= base -> base + nw < size data ->
  forall fuel i r,
    1 <= i <= nw -> (Z.to_nat (nw - i) <= fuel)%nat ->
    0 <= r ->
    r + ones (buffer_bit data) (64 * (base + i)) (64 * (base + nw)) < 2 ^ 64 ->
    rank1_words fuel data base i nw r =
    Some (nw, r + ones (buffer_bit data) (64 * (base + i)) (64 * (base + nw))).
Proof.
  intros Hb Hsz. induction fuel as [|fuel IH]; intros i r Hi Hf Hr Hbound;
    cbn [rank1_words].
  - assert (i = nw) by lia. subst i.
    replace (nw <? nw) with false by (symmetry; apply Z.ltb_ge; lia).
    rewrite ones_empty by lia. do 2 f_equal. lia.
  - destruct (Z.ltb_spec i nw) as [Hlt|Hge].
    + rewrite rd_peek by lia. cbn [bind].
      rewrite popcount_buffer.
      rewrite (ones_split _ (64 * (base + i)) (64 * (base + i) + 64)
                 (64 * (base + nw))) in Hbound |- * by lia.
      pose proof (ones_nonneg (buffer_bit data) (64 * (base + i))
                    (64 * (base + i) + 64)).
      pose proof (ones_nonneg (buffer_bit data) (64 * (base + i) + 64)
                    (64 * (base + nw))).
      rewrite wrap_small by lia.
      replace (64 * (base + i) + 64) with (64 * (base + (i + 1))) in * by lia.
      rewrite IH by lia. do 2 f_equal. lia.
    + assert (i = nw) by lia. subst i.
      rewrite ones_empty by lia. do 2 f_equal. lia.
Qed.

(** [rank1] on a finalized vector, wherever its superblock entry
    exists. *)
Lemma rank1_spec bv p :
  finalized bv -> 0 <= p <= _length bv ->
  p / SBDW < _num_superblocks bv ->
  rank1 BlockWidth BlockHeaderWidth bv p = Some (ones (payload bv) 0 p).
Proof.
  intros [Hwf Hh Hsb] Hp Hs. facts Hwf. params. pose proof BDW_bounds as HB.
  pose proof (Z.div_mod p BDW ltac:(lia)) as Ep.
  pose proof (Z.mod_pos_bound p BDW ltac:(lia)) as Bp.
  assert (Hb0 : 0 <= p / BDW) by (apply Z.div_pos; lia).
  assert (Hbn : p / BDW <= _num_blocks bv).
  { assert (p / BDW < _num_blocks bv + 1); [|lia].
    apply Z.div_lt_upper_bound; lia. }
  assert (Hs0 : 0 <= p / SBDW).
  { apply Z.div_pos; [lia|]. pose proof SBDW_bounds. lia. }
  destruct (block_word_bounds bv (p / BDW) Hwf ltac:(lia)) as [Hi0 Hi1].
  destruct (superblock_start_le (p / BDW) Hb0) as [Hs1 Hs2].
  assert (Ebs : p / BDW / BPSB = p / SBDW)
    by (apply block_of_position; lia).
  unfold rank1, kWordWidth.
  set (b := p / BDW) in *. set (o := p mod BDW) in *.
  rewrite rd_peek by lia. cbn [bind].
  rewrite Hsb by lia.
  rewrite rd_peek by lia. cbn [bind].
  fold (header bv b). rewrite Hh by lia.
  unfold header_rank. rewrite Ebs in *.
  rewrite <- ones_split by lia.
  pose proof (payload_count_bound bv 0 (b * BDW) Hwf ltac:(lia)) as HR0.
  pose proof (payload_count_bound bv 0 p Hwf ltac:(lia)) as HRp.
  rewrite (wrap_small (ones _ _ _)) by exact HR0.
  set (fw := peek (_data bv) (b * WPB)).
  assert (Hfw : word fw) by (apply words_peek, Hwf).
  (* the ones of the block below [p], as bits of the buffer *)
  assert (Hblock : forall x, 0 <= x <= o ->
            ones (payload bv) 0 (b * BDW + x) =
            ones (payload bv) 0 (b * BDW)
            + ones (buffer_bit (_data bv)) (b * BW + BHW) (b * BW + BHW + x)).
  { intros x Hx. rewrite (ones_split _ 0 (b * BDW) (b * BDW + x)) by lia.
    f_equal. rewrite ones_payload_is_set by lia.
    replace (b * BDW) with (b * BDW + 0) at 1 by lia.
    rewrite ones_is_set_block by lia. f_equal. lia. }
  assert (E64 : b * BW = 64 * (b * WPB)) by lia.
  pose proof (Z.div_mod (o + BHW) 64 ltac:(lia)) as Eq.
  pose proof (Z.mod_pos_bound (o + BHW) 64 ltac:(lia)) as Bq.
  assert (Hnw0 : 0 <= (o + BHW) / 64) by (apply Z.div_pos; lia).
  destruct (Z.eqb_spec ((o + BHW) / 64) 0) as [Enw|Enw].
  - (* the first word of the block *)
    rewrite Enw in Eq. f_equal.
    destruct (Z.eqb_spec ((o + BHW) mod 64) BHW) as [Ewp|Ewp];
      cbn [negb Z.b2z].
    + rewrite Z.mul_0_r, Z.add_0_r. rewrite wrap_small by exact HR0.
      f_equal. lia.
    + rewrite Z.mul_1_r.
      rewrite popcount_shl by lia.
      replace (64 - (64 + BHW - (o + BHW) mod 64))
        with ((o + BHW) mod 64 - BHW) by lia.
      rewrite (ones_ext _ (fun i => Z.testbit fw (i + BHW)) 0
                 ((o + BHW) mod 64 - BHW)).
      2:{ intros i Hi. apply testbit_shr. lia. }
      rewrite ones_shift. unfold fw. rewrite ones_word_bits by lia.
      rewrite <- E64.
      replace (b * BW + (0 + BHW)) with (b * BW + BHW) by lia.
      replace (b * BW + ((o + BHW) mod 64 - BHW + BHW))
        with (b * BW + BHW + o) by lia.
      rewrite <- Hblock by lia.
      replace (b * BDW + o) with p by lia.
      apply wrap_small. exact HRp.
  - (* a later word of the block *)
    set (nw := (o + BHW) / 64) in *. set (wp := (o + BHW) mod 64) in *.
    assert (Hnw : 1 <= nw < WPB).
    { split; [lia|]. apply Z.div_lt_upper_bound; lia. }
    rewrite popcount_shr by (auto; lia).
    unfold fw. rewrite ones_word_bits by lia. rewrite <- E64.
    pose proof (Hblock (64 - BHW) ltac:(lia)) as Hfst.
    replace (b * BW + BHW + (64 - BHW)) with (b * BW + 64) in Hfst by lia.
    pose proof (payload_count_bound bv 0 (b * BDW + (64 - BHW)) Hwf
                  ltac:(lia)) as HR1.
    rewrite <- Hfst. rewrite (wrap_small (ones _ _ _)) by exact HR1.
    pose proof (Hblock (64 * nw - BHW) ltac:(lia)) as Hmid.
    pose proof (payload_count_bound bv 0 (b * BDW + (64 * nw - BHW)) Hwf
                  ltac:(lia)) as HR2.
    assert (Esum : ones (payload bv) 0 (b * BDW + (64 - BHW))
                   + ones (buffer_bit (_data bv)) (64 * (b * WPB + 1))
                       (64 * (b * WPB + nw))
                   = ones (payload bv) 0 (b * BDW + (64 * nw - BHW))).
    { rewrite Hfst, Hmid.
      rewrite (ones_split _ (b * BW + BHW) (b * BW + 64)
                 (b * BW + BHW + (64 * nw - BHW))) by lia.
      replace (64 * (b * WPB + 1)) with (b * BW + 64) by lia.
      replace (64 * (b * WPB + nw)) with (b * BW + BHW + (64 * nw - BHW))
        by lia.
      lia. }
    rewrite (rank1_words_spec (_data bv) (b * WPB) nw); try lia.
    cbn [bind]. rewrite rd_peek by lia. cbn [bind].
    rewrite Esum. f_equal.
    rewrite popcount_shl by lia.
    replace (64 - (64 - wp)) with wp by lia.
    rewrite ones_word_bits by lia.
    assert (Elast : ones (payload bv) 0 (b * BDW + (64 * nw - BHW))
                    + ones (buffer_bit (_data bv)) (64 * (b * WPB + nw) + 0)
                        (64 * (b * WPB + nw) + wp)
                    = ones (payload bv) 0 p).
    { rewrite Hmid. replace p with (b * BDW + o) at 1 by lia.
      rewrite (Hblock o) by lia.
      rewrite (ones_split _ (b * BW + BHW) (b * BW + BHW + (64 * nw - BHW))
                 (b * BW + BHW + o)) by lia.
      replace (64 * (b * WPB + nw) + 0)
        with (b * BW + BHW + (64 * nw - BHW)) by lia.
      replace (64 * (b * WPB + nw) + wp) with (b * BW + BHW + o) by lia.
      lia. }
    destruct (Z.eqb_spec wp 0) as [E0|E0]; cbn [negb Z.b2z].
    + rewrite E0 in Elast.
      rewrite (ones_empty (buffer_bit (_data bv))) in Elast by lia.
      rewrite Z.mul_0_r, Z.add_0_r. rewrite wrap_small by exact HR2. lia.
    + rewrite Z.mul_1_r. rewrite Elast. apply wrap_small. exact HRp.
Qed.

Lemma rank0_spec bv p :
  finalized bv -> 0 <= p <= _length bv ->
  p / SBDW < _num_superblocks bv ->
  rank0 BlockWidth BlockHeaderWidth bv p = Some (p - ones (payload bv) 0 p).
Proof.
  intros Hf Hp Hs. unfold rank0. rewrite rank1_spec by auto. cbn [bind].
  f_equal. apply wrap_small.
  pose proof (ones_bounds (payload bv) 0 p ltac:(lia)).
  pose proof (fin_wf _ _ _ Hf) as Hwf. facts Hwf. params.
  pose proof BDW_bounds.
  assert (_num_blocks bv * BDW <= (_num_blocks bv + BPSB) * BW)
    by (apply Z.mul_le_mono_nonneg; lia).
  lia.
Qed.

(* =================================================================== *)
(** ** The sampled select structure *)
(* =================================================================== *)

Variable Stride : Z.
Hypothesis Hstride : valid_stride BlockWidth Stride.

Local Abbreviation wanted := (wanted BlockWidth BlockHeaderWidth).
Local Abbreviation counted := (counted BlockWidth BlockHeaderWidth).
Local Abbreviation seen := (seen BlockWidth BlockHeaderWidth).
Local Abbreviation sampled := (sampled BlockWidth BlockHeaderWidth Stride).
Local Abbreviation samples_ok :=
  (samples_ok BlockWidth BlockHeaderWidth Stride).
Local Abbreviation sample_invariant :=
  (sample_invariant BlockWidth BlockHeaderWidth Stride).

Lemma stride_bounds : BDW < Stride /\ Stride < 2 ^ 64.
Proof.
  destruct Hstride as [_ H]. pose proof BDW_bounds. lia.
Qed.

(** *** Counting the wanted bits *)

Lemma wanted_beyond bv v p :
  wf bv -> _length bv <= p -> wanted bv v p = false.
Proof.
  intros Hwf Hp. unfold wanted. destruct v.
  - apply payload_beyond; auto.
  - replace (p <? _length bv) with false; [reflexivity|].
    symmetry. apply Z.ltb_ge. lia.
Qed.

Lemma wanted_counted bv v p :
  p < _length bv -> wanted bv v p = counted bv v p.
Proof.
  intros Hp. unfold wanted, counted. destruct v; [reflexivity|].
  replace (p <? _length bv) with true by (symmetry; apply Z.ltb_lt; lia).
  reflexivity.
Qed.

Lemma ones_wanted_counted bv v lo hi :
  hi <= _length bv ->
  ones (wanted bv v) lo hi = ones (counted bv v) lo hi.
Proof.
  intros H. apply ones_ext. intros i Hi. apply wanted_counted. lia.
Qed.

Lemma ones_wanted_beyond bv v lo hi :
  wf bv -> _length bv <= lo -> ones (wanted bv v) lo hi = 0.
Proof.
  intros Hwf H. apply ones_false. intros i Hi.
  apply wanted_beyond; [auto|lia].
Qed.

Lemma ones_counted bv v lo hi :
  lo <= hi ->
  ones (counted bv v) lo hi =
  if v then ones (payload bv) lo hi else hi - lo - ones (payload bv) lo hi.
Proof.
  intros H. unfold counted. destruct v.
  - reflexivity.
  - apply ones_negb. exact H.
Qed.

Lemma seen_0 bv v : seen bv v 0 = 0.
Proof. unfold seen. apply ones_empty. lia. Qed.

Lemma seen_mono bv v a b : 0 <= a <= b -> seen bv v a <= seen bv v b.
Proof.
  intros H. pose proof BDW_bounds. unfold seen. apply ones_mono.
  split; [apply Z.mul_nonneg_nonneg; lia|].
  apply Z.mul_le_mono_nonneg_r; lia.
Qed.

Lemma seen_step bv v k :
  0 <= k -> seen bv v k <= seen bv v (k + 1) <= seen bv v k + BDW.
Proof.
  intros Hk. pose proof BDW_bounds. unfold seen.
  assert (0 <= k * BDW) by (apply Z.mul_nonneg_nonneg; lia).
  rewrite (ones_split _ 0 (k * BDW) ((k + 1) * BDW)) by lia.
  pose proof (ones_bounds (wanted bv v) (k * BDW) ((k + 1) * BDW)
                ltac:(lia)). lia.
Qed.

Lemma seen_bound bv v k :
  wf bv -> 0 <= k -> 0 <= seen bv v k <= _length bv.
Proof.
  intros Hwf Hk. facts Hwf. pose proof BDW_bounds. unfold seen.
  assert (0 <= k * BDW) by (apply Z.mul_nonneg_nonneg; lia).
  split; [apply ones_nonneg|].
  destruct (Z_le_gt_dec (k * BDW) (_length bv)).
  - pose proof (ones_bounds (wanted bv v) 0 (k * BDW) ltac:(lia)). lia.
  - rewrite (ones_split _ 0 (_length bv) (k * BDW)) by lia.
    rewrite (ones_wanted_beyond bv v (_length bv)) by (auto; lia).
    pose proof (ones_bounds (wanted bv v) 0 (_length bv) ltac:(lia)). lia.
Qed.

Lemma length_small bv : wf bv -> _length bv < 2 ^ 63.
Proof.
  intros Hwf. pose proof (wf_small bv Hwf). facts Hwf. params.
  pose proof BDW_bounds.
  assert (_num_blocks bv * BDW <= (_num_blocks bv + BPSB) * BW)
    by (apply Z.mul_le_mono_nonneg; lia).
  lia.
Qed.

Lemma counts_small bv :
  wf bv ->
  _num_blocks bv + BPSB < 2 ^ 63 /\ _num_superblocks bv < 2 ^ 63.
Proof.
  intros Hwf. pose proof (wf_small bv Hwf). facts Hwf. params.
  assert (_num_blocks bv + BPSB <= (_num_blocks bv + BPSB) * BW) by nia.
  assert (_num_superblocks bv <= _num_superblocks bv * BPSB) by nia.
  lia.
Qed.

Lemma BDW_small bv : wf bv -> BDW < 2 ^ 63.
Proof.
  intros Hwf. pose proof (wf_small bv Hwf). facts Hwf. params.
  pose proof BDW_bounds.
  assert (1 * BW <= (_num_blocks bv + BPSB) * BW)
    by (apply Z.mul_le_mono_nonneg_r; lia).
  lia.
Qed.

Lemma seen_ones_step bv k :
  wf bv -> 0 <= k < _num_blocks bv ->
  seen bv true (k + 1)
  = seen bv true k + block_popcount BlockWidth BlockHeaderWidth bv k.
Proof.
  intros Hwf Hk. facts Hwf. pose proof BDW_bounds. unfold seen.
  assert (0 <= k * BDW) by (apply Z.mul_nonneg_nonneg; lia).
  assert ((k + 1) * BDW <= _num_blocks bv * BDW)
    by (apply Z.mul_le_mono_nonneg_r; lia).
  rewrite (ones_split _ 0 (k * BDW) ((k + 1) * BDW)) by lia.
  f_equal. rewrite block_popcount_spec by (try apply Hwf; lia).
  rewrite <- (ones_payload_is_set bv) by lia. reflexivity.
Qed.

Lemma seen_zeros_step bv k :
  wf bv -> 0 <= k < _num_blocks bv ->
  seen bv false (k + 1)
  = seen bv false k
    + (BDW - block_popcount BlockWidth BlockHeaderWidth bv k
       - if k =? _num_blocks bv - 1
         then _num_blocks bv * BDW - _length bv else 0).
Proof.
  intros Hwf Hk. facts Hwf. pose proof BDW_bounds. unfold seen.
  assert (0 <= k * BDW) by (apply Z.mul_nonneg_nonneg; lia).
  assert ((k + 1) * BDW <= _num_blocks bv * BDW)
    by (apply Z.mul_le_mono_nonneg_r; lia).
  rewrite (ones_split _ 0 (k * BDW) ((k + 1) * BDW)) by lia.
  f_equal. rewrite block_popcount_spec by (try apply Hwf; lia).
  rewrite <- (ones_payload_is_set bv) by lia.
  destruct (Z.eqb_spec k (_num_blocks bv - 1)) as [->|Hne].
  - replace (_num_blocks bv - 1 + 1) with (_num_blocks bv) in * by lia.
    rewrite (ones_split (wanted bv false) _ (_length bv)) by lia.
    rewrite (ones_split (payload bv) _ (_length bv) (_num_blocks bv * BDW))
      by lia.
    rewrite (ones_wanted_beyond bv false (_length bv)) by (auto; lia).
    rewrite (ones_payload_beyond bv (_length bv)) by (auto; lia).
    rewrite ones_wanted_counted, ones_counted by lia. lia.
  - assert ((k + 1) * BDW <= (_num_blocks bv - 1) * BDW)
      by (apply Z.mul_le_mono_nonneg_r; lia).
    rewrite ones_wanted_counted, ones_counted by lia. lia.
Qed.

(** *** Recording the samples *)

Lemma superblock_of_block k :
  0 <= k -> k * BDW / SBDW = k / BPSB.
Proof.
  intros Hk. params. pose proof BDW_bounds. rewrite pSBDW.
  apply Z.div_mul_cancel_r; lia.
Qed.

Lemma record_sample_sampled bv v n k st :
  wf bv -> 0 <= k < _num_blocks bv ->
  n = seen bv v (_num_blocks bv) / Stride + 2 ->
  sampled bv v n k st ->
  exists st',
    record_sample BlockWidth BlockHeaderWidth Stride
      (seen bv v (k + 1)) k st = Some st'
    /\ sampled bv v n (k + 1) st'.
Proof.
  intros Hwf Hk Hn [S1 S2 S3 S4 S5 S6 S7]. facts Hwf. params.
  pose proof BDW_bounds. destruct stride_bounds as [HS1 HS2].
  pose proof (length_small bv Hwf) as HLs.
  pose proof (BDW_small bv Hwf) as HBs.
  destruct (counts_small bv Hwf) as [Hcs1 Hcs2].
  destruct st as [[samples cur] thr]. cbn [fst snd] in *. subst thr.
  pose proof (seen_step bv v k ltac:(lia)) as Hstep.
  pose proof (seen_mono bv v (k + 1) (_num_blocks bv) ltac:(lia)) as Hmono.
  pose proof (seen_bound bv v (_num_blocks bv) Hwf ltac:(lia)) as Hall.
  pose proof (seen_bound bv v k Hwf ltac:(lia)) as Hsk.
  assert (E63 : 2 ^ 63 + 2 ^ 63 = 2 ^ 64) by reflexivity.
  assert (Hq : 0 <= k / BPSB) by (apply Z.div_pos; lia).
  assert (Hqn : k / BPSB < _num_superblocks bv)
    by (apply Z.div_lt_upper_bound; lia).
  assert (Hkb : 0 <= k * BDW <= _num_blocks bv * BDW).
  { split; [apply Z.mul_nonneg_nonneg; lia|].
    apply Z.mul_le_mono_nonneg_r; lia. }
  assert (Hdiv : 0 <= seen bv v (_num_blocks bv) / Stride
                 <= seen bv v (_num_blocks bv)).
  { split; [apply Z.div_pos; lia|].
    apply Z.div_le_upper_bound; [lia|].
    assert (1 * seen bv v (_num_blocks bv)
            <= Stride * seen bv v (_num_blocks bv))
      by (apply Z.mul_le_mono_nonneg_r; lia).
    lia. }
  unfold record_sample, kStride.
  destruct (Z.leb_spec (cur * Stride) (seen bv v (k + 1))) as [Hle|Hgt].
  - assert (Hcur : cur <= seen bv v (_num_blocks bv) / Stride).
    { apply Z.div_le_lower_bound; lia. }
    rewrite (wrap_small (k * BDW)) by lia.
    rewrite superblock_of_block by lia.
    rewrite wr_poke by lia. cbn [bind].
    assert (Hnext : seen bv v (k + 1) < (cur + 1) * Stride).
    { destruct (Z.eq_dec k 0) as [E0|E0].
      - rewrite (S5 E0). subst k. rewrite seen_0 in Hstep. lia.
      - specialize (S6 ltac:(lia)). lia. }
    assert (Hthr : cur * Stride + Stride < 2 ^ 64).
    { destruct (Z.eq_dec cur 0) as [->|Hc0]; [lia|].
      assert (1 * Stride <= cur * Stride)
        by (apply Z.mul_le_mono_nonneg_r; lia).
      lia. }
    rewrite (wrap_small (cur + 1)) by lia.
    rewrite (wrap_small (cur * Stride + Stride)) by lia.
    eexists. split; [reflexivity|].
    constructor; cbn [fst snd].
    + rewrite size_poke. exact S1.
    + apply words_poke; [exact S2|]. unfold word. lia.
    + ring.
    + lia.
    + lia.
    + intros _. replace (cur + 1 - 1) with cur by lia. lia.
    + intros j Hj. destruct (Z.eq_dec j cur) as [->|Hne].
      * exists k. rewrite peek_poke_eq by lia.
        repeat split; try lia.
        destruct (Z.eq_dec k 0) as [E0|E0].
        -- rewrite (S5 E0). subst k. rewrite seen_0. lia.
        -- specialize (S6 ltac:(lia)). lia.
      * destruct (S7 j ltac:(lia)) as (b & Hb & Hpk & Hsb).
        exists b. rewrite peek_poke_ne by lia. repeat split; try lia.
  - assert (Hk0 : 0 < k).
    { destruct (Z.eq_dec k 0) as [E0|E0]; [|lia].
      rewrite (S5 E0) in Hgt. lia. }
    specialize (S6 Hk0).
    eexists. split; [reflexivity|].
    constructor; cbn [fst snd]; auto; try lia.
    intros j Hj. destruct (S7 j Hj) as (b & Hb & Hpk & Hsb).
    exists b. repeat split; try lia.
Qed.

Lemma handle_block_step bv n1 n0 k num_ones num_zeros st :
  wf bv -> 0 <= k < _num_blocks bv ->
  n1 = seen bv true (_num_blocks bv) / Stride + 2 ->
  n0 = seen bv false (_num_blocks bv) / Stride + 2 ->
  num_ones = seen bv true (k + 1) - seen bv true k ->
  num_zeros = seen bv false (k + 1) - seen bv false k ->
  sample_invariant bv n1 n0 k st ->
  exists st',
    handle_block BlockWidth BlockHeaderWidth Stride k num_ones num_zeros st
    = Some st'
    /\ sample_invariant bv n1 n0 (k + 1) st'.
Proof.
  intros Hwf Hk Hn1 Hn0 H1 H0 [I1 I2 I3 I4].
  pose proof (length_small bv Hwf) as HLs.
  assert (E63 : 2 ^ 63 + 2 ^ 63 = 2 ^ 64) by reflexivity.
  pose proof (seen_bound bv true (k + 1) Hwf ltac:(lia)) as B1.
  pose proof (seen_bound bv false (k + 1) Hwf ltac:(lia)) as B0.
  unfold handle_block. rewrite I1, I2, H1, H0.
  replace (seen bv true k + (seen bv true (k + 1) - seen bv true k))
    with (seen bv true (k + 1)) by lia.
  replace (seen bv false k + (seen bv false (k + 1) - seen bv false k))
    with (seen bv false (k + 1)) by lia.
  rewrite !wrap_small by lia.
  destruct (record_sample_sampled bv true n1 k _ Hwf Hk Hn1 I3)
    as ([[s1 c1] t1] & E1 & J1).
  destruct (record_sample_sampled bv false n0 k _ Hwf Hk Hn0 I4)
    as ([[s0 c0] t0] & E0 & J0).
  rewrite E1. cbn [bind]. rewrite E0. cbn [bind].
  eexists. split; [reflexivity|].
  constructor; cbn [s_total_ones s_total_zeros s_one_samples s_zero_samples
                    s_cur_one s_cur_zero s_threshold_one s_threshold_zero];
    auto.
Qed.

Lemma sampled_final bv v n st :
  wf bv -> 0 < _length bv ->
  n = seen bv v (_num_blocks bv) / Stride + 2 ->
  sampled bv v n (_num_blocks bv) st ->
  exists samples,
    wr (fst (fst st)) (snd (fst st)) (wrap (_num_superblocks bv - 1))
    = Some samples
    /\ samples_ok bv v samples.
Proof.
  intros Hwf HL0 Hn [S1 S2 S3 S4 S5 S6 S7]. facts Hwf.
  destruct stride_bounds as [HS1 HS2]. pose proof BDW_bounds.
  destruct st as [[samples cur] thr]. cbn [fst snd] in *.
  pose proof SBDW_bounds.
  assert (Hnb1 : 0 < _num_blocks bv).
  { apply (mul_lt_cancel _ _ BDW); lia. }
  assert (Hnsb1 : 0 < _num_superblocks bv).
  { apply (mul_lt_cancel _ _ SBDW); lia. }
  specialize (S6 Hnb1).
  assert (Ecur : seen bv v (_num_blocks bv) / Stride = cur - 1).
  { apply div_range; lia. }
  destruct (counts_small bv Hwf) as [_ Hc].
  assert (E63 : 2 ^ 63 + 2 ^ 63 = 2 ^ 64) by reflexivity.
  rewrite wr_poke by lia. eexists. split; [reflexivity|].
  rewrite wrap_small by lia.
  constructor.
  - rewrite size_poke. lia.
  - intros j Hj. destruct (S7 j ltac:(lia)) as (b & Hb & Hpk & Hsb).
    exists b. rewrite peek_poke_ne by lia. repeat split; try lia.
  - rewrite Ecur. replace (cur - 1 + 1) with cur by lia.
    apply peek_poke_eq. lia.
Qed.

Lemma select_update_spec bv zero_samples one_samples :
  wf bv ->
  size one_samples = seen bv true (_num_blocks bv) / Stride + 2 ->
  size zero_samples = seen bv false (_num_blocks bv) / Stride + 2 ->
  Forall word one_samples -> Forall word zero_samples ->
  exists sel,
    select_update BlockWidth BlockHeaderWidth Stride
      {| _bitvector := bv; _zero_samples := zero_samples;
         _one_samples := one_samples |} = Some sel
    /\ _bitvector sel = bv
    /\ size (_one_samples sel) = size one_samples
    /\ size (_zero_samples sel) = size zero_samples
    /\ (0 < _length bv ->
        samples_ok bv true (_one_samples sel)
        /\ samples_ok bv false (_zero_samples sel)).
Proof.
  intros Hwf Hs1 Hs0 Hw1 Hw0. facts Hwf. pose proof BDW_bounds.
  unfold select_update. cbn [_bitvector _one_samples _zero_samples].
  destruct (Z.eqb_spec (_length bv) 0) as [E0|E0].
  { eexists. split; [reflexivity|]. cbn. repeat split; auto; lia. }
  assert (Hnb1 : 0 < _num_blocks bv).
  { apply (mul_lt_cancel _ _ BDW); lia. }
  destruct (counts_small bv Hwf) as [Hc1 Hc2]. params.
  assert (E63 : 2 ^ 63 + 2 ^ 63 = 2 ^ 64) by reflexivity.
  pose proof pow_BHW_bounds as Hpow.
  rewrite (wrap_small (_num_blocks bv - 1)) by lia.
  set (n1 := seen bv true (_num_blocks bv) / Stride + 2) in *.
  set (n0 := seen bv false (_num_blocks bv) / Stride + 2) in *.
  (* the loop over all blocks but the last *)
  match goal with
  | |- context [for_range 0 _ 1 ?body ?init] =>
      pose proof (for_range_iterate body 0 1 (_num_blocks bv - 1) init
                    ltac:(lia) ltac:(lia)) as Eloop;
      assert (Hloop :
        exists st, iterate (Z.to_nat (_num_blocks bv - 1)) 0 1 body init
                   = Some st
                   /\ sample_invariant bv n1 n0
                        (Z.of_nat (Z.to_nat (_num_blocks bv - 1))) st)
  end.
  { apply (iterate_invariant
             (fun k ost => exists st, ost = Some st
                                      /\ sample_invariant bv n1 n0 k st)).
    - eexists. split; [reflexivity|].
      constructor; cbn [s_total_ones s_total_zeros s_one_samples
        s_zero_samples s_cur_one s_cur_zero s_threshold_one
        s_threshold_zero]; rewrite ?seen_0; auto.
      + constructor; cbn [fst snd]; auto; try lia.
      + constructor; cbn [fst snd]; auto; try lia.
    - intros k ost Hk (st & -> & HI). cbn [bind].
      replace (0 + k * 1) with k by lia.
      apply handle_block_step; auto; try lia.
      + rewrite seen_ones_step by (auto; lia). lia.
      + rewrite seen_zeros_step by (auto; lia).
        replace (k =? _num_blocks bv - 1) with false
          by (symmetry; apply Z.eqb_neq; lia).
        pose proof (block_popcount_bounds bv k
                      ltac:(apply Hwf) ltac:(lia)) as Hpc.
        rewrite wrap_small by lia. lia. }
  replace (0 + (_num_blocks bv - 1) * 1) with (_num_blocks bv - 1) in Eloop
    by lia.
  rewrite Eloop. destruct Hloop as (st & -> & HI). cbn [bind].
  rewrite Z2Nat.id in HI by lia.
  (* the last block *)
  pose proof (block_popcount_bounds bv (_num_blocks bv - 1)
                ltac:(apply Hwf) ltac:(lia)) as Hpc.
  pose proof (seen_zeros_step bv (_num_blocks bv - 1) Hwf ltac:(lia)) as Ez.
  rewrite Z.eqb_refl in Ez.
  pose proof (seen_step bv false (_num_blocks bv - 1) ltac:(lia)) as Hzs.
  assert (Hnbw : 0 <= _num_blocks bv * BDW < 2 ^ 63).
  { pose proof (wf_small bv Hwf).
    assert (_num_blocks bv * BDW <= (_num_blocks bv + BPSB) * BW)
      by (apply Z.mul_le_mono_nonneg; lia).
    lia. }
  rewrite (wrap_small (_num_blocks bv * BDW)) by lia.
  rewrite (wrap_small (_num_blocks bv * BDW - _length bv)) by lia.
  rewrite (wrap_small (BDW - _)) by lia.
  rewrite (wrap_small (BDW - _ - _)) by lia.
  destruct (handle_block_step bv n1 n0 (_num_blocks bv - 1)
              (block_popcount BlockWidth BlockHeaderWidth bv
                 (_num_blocks bv - 1))
              (BDW - block_popcount BlockWidth BlockHeaderWidth bv
                       (_num_blocks bv - 1)
               - (_num_blocks bv * BDW - _length bv)) st Hwf)
    as (st' & -> & HI'); auto; try lia.
  { rewrite seen_ones_step by (auto; lia). lia. }
  replace (_num_blocks bv - 1 + 1) with (_num_blocks bv) in HI' by lia.
  cbn [bind]. destruct HI' as [_ _ J1 J0].
  destruct (sampled_final bv true n1 _ Hwf ltac:(lia) eq_refl J1)
    as (s1 & W1 & O1).
  destruct (sampled_final bv false n0 _ Hwf ltac:(lia) eq_refl J0)
    as (s0 & W0 & O0).
  cbn [fst snd] in W1, W0. rewrite W1. cbn [bind]. rewrite W0. cbn [bind].
  eexists. split; [reflexivity|]. cbn [_bitvector _one_samples _zero_samples].
  split; [reflexivity|].
  split; [rewrite (so_size _ _ _ _ _ _ O1); lia|].
  split; [rewrite (so_size _ _ _ _ _ _ O0); lia|].
  auto.
Qed.

(** *** The descent *)

Variables kUseBinarySearch USE_PDEP : bool.

Local Abbreviation descend :=
  (descend BlockWidth BlockHeaderWidth kUseBinarySearch Stride USE_PDEP).
Local Abbreviation probe_superblock :=
  (probe_superblock BlockWidth BlockHeaderWidth).
Local Abbreviation probe_block :=
  (probe_block BlockWidth BlockHeaderWidth).
Local Abbreviation word_rank := (word_rank BlockHeaderWidth).
Local Abbreviation word_mask := (word_mask BlockHeaderWidth).
Local Abbreviation select :=
  (select BlockWidth BlockHeaderWidth kUseBinarySearch Stride USE_PDEP).

Lemma select_descend v sel rank :
  select v sel rank =
  descend (samples_of v sel) (probe_superblock v (_bitvector sel))
    (probe_block v (_bitvector sel)) (word_rank v) (word_mask v)
    (_bitvector sel) rank.
Proof. destruct v; reflexivity. Qed.

Lemma counted_kind_bit bv v p :
  counted bv v p = kind_bit v (payload bv p).
Proof. destruct v; reflexivity. Qed.

Lemma probe_superblock_spec bv v s :
  finalized bv -> 0 <= s < _num_superblocks bv ->
  probe_superblock v bv s = Some (ones (counted bv v) 0 (s * SBDW)).
Proof.
  intros [Hwf _ Hsb] Hs. facts Hwf. pose proof SBDW_bounds.
  pose proof (length_small bv Hwf) as HLs.
  assert (E63 : 2 ^ 63 + 2 ^ 63 = 2 ^ 64) by reflexivity.
  assert (Hpos : 0 <= s * SBDW) by (apply Z.mul_nonneg_nonneg; lia).
  assert (Hle : s * SBDW <= (_num_superblocks bv - 1) * SBDW)
    by (apply Z.mul_le_mono_nonneg_r; lia).
  rewrite ones_counted by lia.
  unfold probe_superblock. rewrite rd_peek by lia. rewrite Hsb by lia.
  pose proof (ones_bounds (payload bv) 0 (s * SBDW) ltac:(lia)).
  destruct v; cbn [bind]; [reflexivity|].
  rewrite !wrap_small by (rewrite ?wrap_small; lia).
  f_equal. lia.
Qed.

Lemma block_offset b :
  0 <= b -> b * BDW - b / BPSB * SBDW = b mod BPSB * BDW.
Proof.
  intros Hb. params. rewrite pSBDW. rewrite (Z.mod_eq b BPSB) by lia. ring.
Qed.

Lemma probe_block_spec bv v b :
  finalized bv -> 0 <= b < _num_blocks bv + BPSB ->
  probe_block v bv b
  = Some (ones (counted bv v) (b / BPSB * SBDW) (b * BDW)).
Proof.
  intros [Hwf Hh _] Hb. facts Hwf. params. pose proof BDW_bounds.
  destruct (block_word_bounds bv b Hwf Hb) as [H0 H1].
  destruct (superblock_start_le b ltac:(lia)) as [Hs1 Hs2].
  pose proof (block_offset b ltac:(lia)) as Eoff.
  pose proof (header_rank_bounds bv b ltac:(lia)) as Hhr.
  assert (Hbig : size (_data bv) < 2 ^ 64).
  { pose proof (wf_small bv Hwf).
    assert (E63 : 2 ^ 63 + 2 ^ 63 = 2 ^ 64) by reflexivity. lia. }
  pose proof pow_BHW_bounds as Hpow. pose proof SBDW_bounds.
  assert (E63 : 2 ^ 63 + 2 ^ 63 = 2 ^ 64) by reflexivity.
  rewrite ones_counted by lia.
  unfold probe_block. rewrite (wrap_small (b * WPB)) by lia.
  rewrite rd_peek by lia.
  pose proof (Hh b ltac:(lia)) as Ehdr. unfold header in Ehdr.
  destruct v; cbn [bind]; rewrite Ehdr; [reflexivity|].
  unfold header_rank in *.
  pose proof (ones_bounds (payload bv) (b / BPSB * SBDW) (b * BDW)
                ltac:(lia)).
  rewrite (wrap_small (b mod BPSB * BDW)) by lia.
  rewrite wrap_small by lia. f_equal. lia.
Qed.

Lemma testbit_word_mask v j w i :
  0 <= i < 64 ->
  Z.testbit (word_mask v j w) i
  = ((if j =? 0 then BHW else 0) <=? i) && kind_bit v (Z.testbit w i).
Proof.
  intros Hi. params. unfold word_mask, kind_bit.
  assert (Hlt : (i <? 64) = true) by (apply Z.ltb_lt; lia).
  assert (H0 : (0 <=? i) = true) by (apply Z.leb_le; lia).
  destruct v, (j =? 0).
  - rewrite Z.land_spec, testbit_lnot, testbit_setbits by lia.
    rewrite Hlt, H0. cbn [andb Z.add].
    destruct (Z.ltb_spec i BHW), (Z.leb_spec BHW i); try lia;
      destruct (Z.testbit w i); reflexivity.
  - rewrite H0. reflexivity.
  - rewrite testbit_lnot, Z.lor_spec, testbit_setbits by lia.
    rewrite Hlt, H0. cbn [andb Z.add].
    destruct (Z.ltb_spec i BHW), (Z.leb_spec BHW i); try lia;
      destruct (Z.testbit w i); reflexivity.
  - rewrite testbit_lnot by lia. rewrite Hlt, H0. reflexivity.
Qed.

Lemma word_word_mask v j w : word w -> word (word_mask v j w).
Proof.
  intros Hw. unfold word_mask. destruct v.
  - destruct (j =? 0); [|exact Hw].
    apply word_land; [exact Hw|]. apply wrap_word.
  - apply wrap_word.
Qed.

Lemma word_rank_mask v j w :
  word w -> word_rank v j w = popcount (word_mask v j w).
Proof.
  intros Hw. params. unfold word_rank, word_mask.
  destruct v; [|destruct (j =? 0); reflexivity].
  destruct (j =? 0) eqn:Ej; [|reflexivity].
  rewrite popcount_shr by (auto; lia). unfold popcount.
  rewrite (ones_split _ 0 BHW 64) by lia.
  pose proof (fun i => testbit_word_mask true 0 w i) as Hm.
  unfold word_mask in Hm. cbn [Z.eqb kind_bit] in Hm.
  rewrite (ones_false _ 0 BHW).
  2:{ intros i Hi. rewrite Hm by lia.
      replace (BHW <=? i) with false by (symmetry; apply Z.leb_gt; lia).
      reflexivity. }
  cbn [Z.add]. apply ones_ext. intros i Hi. rewrite Hm by lia.
  replace (BHW <=? i) with true by (symmetry; apply Z.leb_le; lia).
  reflexivity.
Qed.

(** The bits of a masked word are the counted bits of the buffer. *)
Lemma ones_word_mask v data i j a b :
  (if j =? 0 then BHW else 0) <= a -> 0 <= a -> b <= 64 ->
  ones (Z.testbit (word_mask v j (peek data i))) a b
  = ones (fun g => kind_bit v (buffer_bit data g)) (64 * i + a) (64 * i + b).
Proof.
  intros Hlo Ha Hb.
  rewrite (ones_ext _ (fun x => kind_bit v (buffer_bit data (x + 64 * i)))
             a b).
  - rewrite (ones_shift (fun g => kind_bit v (buffer_bit data g))).
    f_equal; lia.
  - intros x Hx. rewrite testbit_word_mask by lia.
    replace ((if j =? 0 then BHW else 0) <=? x) with true
      by (symmetry; apply Z.leb_le; lia).
    cbn [andb]. f_equal. rewrite <- buffer_bit_word by lia. f_equal. lia.
Qed.

Lemma ones_word_mask_low v data i j b :
  (if j =? 0 then BHW else 0) <= b <= 64 ->
  0 <= (if j =? 0 then BHW else 0) ->
  ones (Z.testbit (word_mask v j (peek data i))) 0 b
  = ones (fun g => kind_bit v (buffer_bit data g))
      (64 * i + (if j =? 0 then BHW else 0)) (64 * i + b).
Proof.
  intros Hb H0.
  rewrite (ones_split _ 0 (if j =? 0 then BHW else 0) b) by lia.
  rewrite (ones_false _ 0 (if j =? 0 then BHW else 0)).
  - cbn [Z.add]. apply ones_word_mask; lia.
  - intros x Hx. rewrite testbit_word_mask by lia.
    replace ((if j =? 0 then BHW else 0) <=? x) with false
      by (symmetry; apply Z.leb_gt; lia).
    reflexivity.
Qed.

Lemma ones_counted_block bv v b x1 x2 :
  wf bv -> 0 <= b < _num_blocks bv -> 0 <= x1 -> x2 <= BDW ->
  ones (counted bv v) (b * BDW + x1) (b * BDW + x2)
  = ones (fun g => kind_bit v (buffer_bit (_data bv) g))
      (b * BW + BHW + x1) (b * BW + BHW + x2).
Proof.
  intros Hwf Hb H1 H2. pose proof BDW_bounds.
  assert (0 <= b * BDW) by (apply Z.mul_nonneg_nonneg; lia).
  assert ((b + 1) * BDW <= _num_blocks bv * BDW)
    by (apply Z.mul_le_mono_nonneg_r; lia).
  rewrite (ones_ext _
             (fun p => kind_bit v
                         (buffer_bit (_data bv)
                            (p + (b * BW + BHW - b * BDW))))).
  - rewrite (ones_shift (fun g => kind_bit v (buffer_bit (_data bv) g))).
    f_equal; lia.
  - intros p Hp. rewrite counted_kind_bit. f_equal.
    rewrite payload_is_set by lia. rewrite is_set_bit by lia.
    replace p with (b * BDW + (p - b * BDW)) at 1 by lia.
    rewrite bit_index_block by lia. f_equal. lia.
Qed.

Lemma word_search_spec v data base q :
  Forall word data -> 0 <= base -> base + WPB <= size data ->
  BHW <= q < BW ->
  kind_bit v (buffer_bit data (64 * base + q)) = true ->
  forall n fuel j,
    Z.of_nat n = q / 64 - j -> 0 <= j -> (n <= fuel)%nat ->
    word_search (word_rank v) fuel data (base + j) j
      (ones (fun g => kind_bit v (buffer_bit data g))
         (64 * base + Z.max BHW (64 * j)) (64 * base + q) + 1)
    = Some (base + q / 64, q / 64,
            ones (fun g => kind_bit v (buffer_bit data g))
              (64 * base + Z.max BHW (64 * (q / 64))) (64 * base + q) + 1).
Proof.
  intros Hw Hbase Hsz Hq Hbit. params. pose proof pow_BHW_bounds as Hpow.
  assert (E63 : 2 ^ 63 + 2 ^ 63 = 2 ^ 64) by reflexivity.
  pose proof (Z.div_mod q 64 ltac:(lia)) as Eq.
  pose proof (Z.mod_pos_bound q 64 ltac:(lia)) as Bq.
  assert (Hw64 : 0 <= q / 64 < WPB).
  { split; [apply Z.div_pos; lia|apply Z.div_lt_upper_bound; lia]. }
  set (kb := fun g => kind_bit v (buffer_bit data g)).
  assert (Hrank : forall j,
            0 <= j <= q / 64 ->
            word_rank v j (peek data (base + j))
            = ones kb (64 * base + Z.max BHW (64 * j))
                (64 * base + 64 * (j + 1))).
  { intros j Hj. rewrite word_rank_mask by (apply words_peek; exact Hw).
    unfold popcount.
    rewrite ones_word_mask_low by (destruct (j =? 0); lia).
    fold kb. f_equal; [|lia].
    destruct (Z.eqb_spec j 0) as [->|Hne]; lia. }
  induction n as [|n IH]; intros fuel j Hn Hj Hfuel.
  - assert (j = q / 64) by lia. subst j.
    destruct fuel; cbn [word_search];
      rewrite rd_peek by lia; cbn [bind]; rewrite Hrank by lia;
      (replace (_ <? _) with false; [reflexivity|]);
      symmetry; apply Z.ltb_ge;
      pose proof (ones_succ kb (64 * base + Z.max BHW (64 * (q / 64)))
                    (64 * base + q) ltac:(lia)) as Hs;
      fold kb in Hbit; unfold kb at 3 in Hs; rewrite Hbit in Hs;
      cbn [Z.b2z] in Hs;
      pose proof (ones_mono kb (64 * base + Z.max BHW (64 * (q / 64)))
                    (64 * base + q + 1) (64 * base + 64 * (q / 64 + 1))
                    ltac:(lia)); lia.
  - destruct fuel as [|fuel]; [lia|]. cbn [word_search].
    rewrite rd_peek by lia. cbn [bind]. rewrite Hrank by lia.
    assert (Hlt : 64 * (j + 1) <= q) by lia.
    pose proof (ones_split kb (64 * base + Z.max BHW (64 * j))
                  (64 * base + 64 * (j + 1)) (64 * base + q) ltac:(lia))
      as Hs.
    pose proof (ones_bounds kb (64 * base + Z.max BHW (64 * j))
                  (64 * base + 64 * (j + 1)) ltac:(lia)).
    pose proof (ones_bounds kb (64 * base + 64 * (j + 1)) (64 * base + q)
                  ltac:(lia)).
    replace (_ <? _) with true by (symmetry; apply Z.ltb_lt; lia).
    rewrite (wrap_small (j + 1)) by lia.
    rewrite wrap_small by lia.
    replace (base + j + 1) with (base + (j + 1)) by lia.
    replace (ones kb (64 * base + Z.max BHW (64 * j)) (64 * base + q) + 1
             - ones kb (64 * base + Z.max BHW (64 * j))
                 (64 * base + 64 * (j + 1)))
      with (ones kb (64 * base + Z.max BHW (64 * (j + 1))) (64 * base + q)
            + 1).
    2:{ replace (Z.max BHW (64 * (j + 1))) with (64 * (j + 1)) by lia.
        lia. }
    apply IH; lia.
Qed.

Lemma search_spec (probe : Z -> option Z) (f : Z -> Z)
    rank t idx last length :
  0 <= idx <= t -> t <= last -> last <= idx + length - 1 ->
  idx + length - 1 < 2 ^ 64 ->
  (forall i, idx < i <= idx + length - 1 ->
     probe i = Some (f i) /\ (f i <? rank) = (i <=? t)) ->
  search kUseBinarySearch probe rank idx last length = Some t.
Proof.
  intros Hidx Ht Hlast Hbig Hp. unfold search. destruct kUseBinarySearch.
  - apply (binary_search_spec probe f rank t (idx + length - 1)); auto;
      lia.
  - apply (linear_search_spec probe f rank t last); auto; try lia.
    intros i Hi. apply Hp. lia.
Qed.

Lemma wanted_count_step bv v lo p :
  lo <= p -> wanted bv v p = true ->
  ones (wanted bv v) lo (p + 1) = ones (wanted bv v) lo p + 1.
Proof.
  intros Hlo Hw. rewrite ones_succ by lia. rewrite Hw. reflexivity.
Qed.

(** The two samples around a rank enclose the superblock of the bit
    with that rank. *)
Lemma sample_range bv v samples p :
  wf bv -> samples_ok bv v samples ->
  0 <= p < _length bv -> wanted bv v p = true ->
  let k := ones (wanted bv v) 0 p / Stride in
  exists first last,
    rd samples k = Some first /\ rd samples (k + 1) = Some last
    /\ 0 <= first <= p / SBDW /\ p / SBDW <= last < _num_superblocks bv
    /\ 0 <= k /\ k + 1 < 2 ^ 64.
Proof.
  intros Hwf [O1 O2 O3] Hp Hw k. facts Hwf. params.
  assert (E63 : 2 ^ 63 + 2 ^ 63 = 2 ^ 64) by reflexivity.
  pose proof BDW_bounds. pose proof SBDW_bounds.
  destruct stride_bounds as [HS1 HS2].
  pose proof (length_small bv Hwf) as HLs.
  set (c := ones (wanted bv v) 0 p) in *.
  set (T := seen bv v (_num_blocks bv)) in *.
  assert (Hc : 0 <= c) by apply ones_nonneg.
  assert (HcT : c + 1 <= T).
  { unfold c, T, seen. rewrite <- wanted_count_step by (auto; lia).
    apply ones_mono. lia. }
  assert (HT : T <= _length bv).
  { apply seen_bound; auto. }
  pose proof (Z.div_mod c Stride ltac:(lia)) as Ec.
  pose proof (Z.mod_pos_bound c Stride ltac:(lia)) as Bc.
  fold k in Ec.
  assert (Hk0 : 0 <= k) by (apply Z.div_pos; lia).
  assert (HkT : k <= T / Stride) by (apply Z.div_le_mono; lia).
  assert (HTs : T / Stride <= T).
  { apply Z.div_le_upper_bound; [lia|].
    assert (1 * T <= Stride * T) by (apply Z.mul_le_mono_nonneg_r; lia).
    lia. }
  assert (Hblk : p / BDW / BPSB = p / SBDW)
    by (apply block_of_position; lia).
  assert (Hb0 : 0 <= p / BDW) by (apply Z.div_pos; lia).
  destruct (O2 k ltac:(lia)) as (b1 & Hb1 & Pk1 & Sb1).
  assert (Hfirst : b1 <= p / BDW).
  { apply Z.div_le_lower_bound; [lia|].
    destruct (Z_le_gt_dec (b1 * BDW) p) as [|Hgt]; [lia|exfalso].
    assert (c + 1 <= seen bv v b1); [|nia].
    unfold c, seen. rewrite <- wanted_count_step by (auto; lia).
    apply ones_mono. lia. }
  assert (Hb1q : 0 <= b1 / BPSB <= p / SBDW).
  { split; [apply Z.div_pos; lia|].
    rewrite <- Hblk. apply Z.div_le_mono; lia. }
  assert (Hps : p / SBDW < _num_superblocks bv).
  { apply Z.div_lt_upper_bound; lia. }
  assert (Hlast : exists last, peek samples (k + 1) = last
                               /\ p / SBDW <= last < _num_superblocks bv).
  { destruct (Z_le_gt_dec (k + 1) (T / Stride)) as [Hle|Hgt].
    - destruct (O2 (k + 1) ltac:(lia)) as (b2 & Hb2 & Pk2 & Sb2).
      exists (b2 / BPSB). split; [exact Pk2|].
      assert (Hp2 : p < (b2 + 1) * BDW).
      { destruct (Z_lt_le_dec p ((b2 + 1) * BDW)) as [|Hge];
          [lia|exfalso].
        assert (seen bv v (b2 + 1) <= c); [|nia].
        unfold c, seen. apply ones_mono.
        split; [|lia]. apply Z.mul_nonneg_nonneg; lia. }
      assert (p / BDW <= b2).
      { assert (p / BDW < b2 + 1); [|lia].
        apply Z.div_lt_upper_bound; lia. }
      split.
      + rewrite <- Hblk. apply Z.div_le_mono; lia.
      + apply Z.div_lt_upper_bound; lia.
    - exists (_num_superblocks bv - 1).
      replace (k + 1) with (T / Stride + 1) by lia.
      split; [exact O3|lia]. }
  destruct Hlast as (last & Pl & Hl).
  exists (b1 / BPSB), last.
  rewrite !rd_peek by lia. rewrite Pk1, Pl.
  repeat split; try lia.
Qed.

(** A descent of kind [v] for the rank of a wanted bit ends at that
    bit, and every word it reads lies inside its buffer. *)
Lemma descend_spec bv v samples p :
  finalized bv -> samples_ok bv v samples ->
  0 <= p < _length bv -> wanted bv v p = true ->
  descend samples (probe_superblock v bv) (probe_block v bv)
    (word_rank v) (word_mask v) bv (ones (wanted bv v) 0 p + 1) = Some p.
Proof.
  intros Hfin Hsam Hp Hw. pose proof (fin_wf _ _ _ Hfin) as Hwf.
  facts Hwf. params. pose proof BDW_bounds as HB.
  pose proof SBDW_bounds as HSB. pose proof pow_BHW_bounds as Hpow.
  destruct stride_bounds as [HS1 HS2].
  pose proof (length_small bv Hwf) as HLs.
  destruct (counts_small bv Hwf) as [Hcs1 Hcs2].
  assert (E63 : 2 ^ 63 + 2 ^ 63 = 2 ^ 64) by reflexivity.
  destruct (sample_range bv v samples p Hwf Hsam Hp Hw)
    as (first & last & R1 & R2 & Hf & Hl & Hk0 & Hk1).
  set (c := ones (wanted bv v) 0 p) in *.
  assert (Hc : 0 <= c <= p).
  { pose proof (ones_bounds (wanted bv v) 0 p ltac:(lia)). unfold c. lia. }
  (* the place of [p] *)
  pose proof (Z.div_mod p BDW ltac:(lia)) as Ep.
  pose proof (Z.mod_pos_bound p BDW ltac:(lia)) as Bp.
  assert (Hblk : p / BDW / BPSB = p / SBDW)
    by (apply block_of_position; lia).
  set (s := p / SBDW) in *. set (b := p / BDW) in *.
  set (o := p mod BDW) in *.
  assert (Hb : 0 <= b < _num_blocks bv).
  { split; [apply Z.div_pos; lia|apply Z.div_lt_upper_bound; lia]. }
  destruct (superblock_start_le b ltac:(lia)) as [Hs1 Hs2].
  rewrite Hblk in Hs1, Hs2.
  pose proof (div_bounds b BPSB ltac:(lia)) as Hbs. rewrite Hblk in Hbs.
  assert (Hbw : 0 <= b * BDW <= p) by lia.
  assert (Hsw : (b + 1) * BDW <= (s + 1) * SBDW).
  { rewrite pSBDW.
    replace ((s + 1) * (BPSB * BDW)) with ((s + 1) * BPSB * BDW) by ring.
    apply Z.mul_le_mono_nonneg_r; lia. }
  assert (Hcnt : forall lo hi, lo <= hi -> hi <= _length bv ->
            ones (counted bv v) lo hi = ones (wanted bv v) lo hi).
  { intros lo hi _ Hhi. symmetry. apply ones_wanted_counted. lia. }
  assert (Hstep : forall lo, lo <= p ->
            ones (wanted bv v) lo (p + 1) = ones (wanted bv v) lo p + 1).
  { intros lo Hlo. apply wanted_count_step; auto. }
  unfold descend, kStride.
  replace (c + 1 - 1) with c by lia.
  rewrite (wrap_small c) by lia.
  rewrite R1. cbn [bind].
  rewrite (wrap_small (c / Stride + 1)) by lia.
  rewrite R2. cbn [bind].
  (* the superblock *)
  rewrite (wrap_small (last - first)) by lia.
  rewrite (wrap_small (last - first + 1)) by lia.
  rewrite (search_spec (probe_superblock v bv)
             (fun i => ones (counted bv v) 0 (i * SBDW)) (c + 1) s);
    try lia.
  2:{ intros i Hi.
      assert (Hi0 : 0 <= i * SBDW) by (apply Z.mul_nonneg_nonneg; lia).
      assert (Hi1 : i * SBDW <= (_num_superblocks bv - 1) * SBDW)
        by (apply Z.mul_le_mono_nonneg_r; lia).
      split; [apply probe_superblock_spec; auto; lia|].
      rewrite Hcnt by lia.
      destruct (Z.leb_spec i s) as [Hle|Hgt].
      - apply Z.ltb_lt.
        assert (i * SBDW <= s * SBDW)
          by (apply Z.mul_le_mono_nonneg_r; lia).
        pose proof (ones_mono (wanted bv v) 0 (i * SBDW) p ltac:(lia)).
        fold c in H0. lia.
      - apply Z.ltb_ge.
        assert ((s + 1) * SBDW <= i * SBDW)
          by (apply Z.mul_le_mono_nonneg_r; lia).
        pose proof (ones_mono (wanted bv v) 0 (p + 1) (i * SBDW)
                      ltac:(lia)).
        rewrite Hstep in H0 by lia. fold c in H0. lia. }
  cbn [bind].
  rewrite probe_superblock_spec by (auto; lia). cbn [bind].
  assert (Hs0 : 0 <= s * SBDW) by lia.
  rewrite (Hcnt 0 (s * SBDW)) by lia.
  assert (Er1 : c + 1 - ones (wanted bv v) 0 (s * SBDW)
                = ones (wanted bv v) (s * SBDW) p + 1).
  { unfold c. rewrite (ones_split (wanted bv v) 0 (s * SBDW) p) by lia.
    lia. }
  rewrite Er1.
  set (r1 := ones (wanted bv v) (s * SBDW) p + 1).
  assert (Hr1 : 1 <= r1 <= p + 1).
  { pose proof (ones_bounds (wanted bv v) (s * SBDW) p ltac:(lia)).
    unfold r1. lia. }
  rewrite (wrap_small r1) by lia.
  (* the block *)
  assert (HsB : 0 <= s * BPSB <= b) by lia.
  assert (HsB1 : (s + 1) * BPSB < 2 ^ 63) by lia.
  rewrite (wrap_small (s * BPSB)) by lia.
  rewrite (wrap_small (s + 1)) by lia.
  rewrite (wrap_small ((s + 1) * BPSB)) by lia.
  rewrite (wrap_small (Z.min _ _ - 1)) by lia.
  rewrite (search_spec (probe_block v bv)
             (fun i => ones (counted bv v) (s * SBDW) (i * BDW)) r1 b);
    try lia.
  2:{ intros i Hi.
      assert (Eis : i / BPSB = s) by (apply div_range; lia).
      assert (Hi0 : s * SBDW <= i * BDW).
      { rewrite pSBDW.
        replace (s * (BPSB * BDW)) with (s * BPSB * BDW) by ring.
        apply Z.mul_le_mono_nonneg_r; lia. }
      split.
      { rewrite probe_block_spec by (auto; lia). rewrite Eis. reflexivity. }
      destruct (Z.leb_spec i b) as [Hle|Hgt].
      - apply Z.ltb_lt.
        assert (i * BDW <= b * BDW)
          by (apply Z.mul_le_mono_nonneg_r; lia).
        rewrite Hcnt by lia.
        pose proof (ones_mono (wanted bv v) (s * SBDW) (i * BDW) p
                      ltac:(lia)).
        unfold r1. lia.
      - apply Z.ltb_ge.
        assert ((b + 1) * BDW <= i * BDW)
          by (apply Z.mul_le_mono_nonneg_r; lia).
        pose proof (ones_mono (counted bv v) (s * SBDW) (p + 1) (i * BDW)
                      ltac:(lia)).
        rewrite Hcnt, Hstep in H0 by lia. unfold r1. lia. }
  cbn [bind].
  rewrite probe_block_spec by (auto; lia). cbn [bind].
  rewrite Hblk. rewrite (Hcnt (s * SBDW) (b * BDW)) by lia.
  assert (Er2 : r1 - ones (wanted bv v) (s * SBDW) (b * BDW)
                = ones (wanted bv v) (b * BDW) p + 1).
  { unfold r1.
    rewrite (ones_split (wanted bv v) (s * SBDW) (b * BDW) p) by lia.
    lia. }
  rewrite Er2.
  assert (Hr2 : 0 <= ones (wanted bv v) (b * BDW) p <= p).
  { pose proof (ones_bounds (wanted bv v) (b * BDW) p ltac:(lia)). lia. }
  rewrite (wrap_small (_ + 1)) by lia.
  (* the word *)
  destruct (block_word_bounds bv b Hwf ltac:(lia)) as [Hw0 Hw1].
  assert (Hdata : size (_data bv) < 2 ^ 63).
  { pose proof (wf_small bv Hwf). lia. }
  rewrite (wrap_small (b * WPB)) by lia.
  set (base := b * WPB) in *. set (q := o + BHW).
  set (kb := fun g => kind_bit v (buffer_bit (_data bv) g)).
  assert (E64 : b * BW = 64 * base) by (unfold base; lia).
  assert (Ekb : ones (wanted bv v) (b * BDW) p
                = ones kb (64 * base + Z.max BHW (64 * 0)) (64 * base + q)).
  { rewrite <- Hcnt by lia.
    replace (b * BDW) with (b * BDW + 0) at 1 by lia.
    replace p with (b * BDW + o) at 1 by lia.
    rewrite ones_counted_block by (auto; lia).
    fold kb. f_equal; unfold q; lia. }
  assert (Hbit : kind_bit v (buffer_bit (_data bv) (64 * base + q)) = true).
  { rewrite <- Hw. rewrite wanted_counted by lia.
    rewrite counted_kind_bit. f_equal.
    rewrite payload_is_set by lia. rewrite is_set_bit by lia.
    f_equal. replace p with (b * BDW + o) by lia.
    rewrite bit_index_block by lia. unfold q. lia. }
  rewrite Ekb.
  replace base with (base + 0) at 1 by lia.
  unfold kb.
  rewrite (word_search_spec v (_data bv) base q (wf_data_words _ _ _ Hwf)
             ltac:(lia) ltac:(lia) ltac:(unfold q; lia) Hbit
             (Z.to_nat (q / 64)) (length (_data bv)) 0).
  2:{ rewrite Z2Nat.id; [lia|]. apply Z.div_pos; unfold q; lia. }
  2:{ lia. }
  2:{ assert (q / 64 < WPB)
        by (apply Z.div_lt_upper_bound; unfold q; lia).
      unfold size in Hw1. lia. }
  cbn [bind].
  pose proof (Z.div_mod q 64 ltac:(lia)) as Eq.
  pose proof (Z.mod_pos_bound q 64 ltac:(lia)) as Bq.
  assert (Hw64 : 0 <= q / 64 < WPB).
  { split; [apply Z.div_pos; unfold q; lia|].
    apply Z.div_lt_upper_bound; unfold q; lia. }
  set (w := q / 64) in *.
  rewrite rd_peek by lia. cbn [bind].
  (* the bit *)
  assert (Hlo : (if w =? 0 then BHW else 0) <= q mod 64).
  { destruct (Z.eqb_spec w 0) as [E0|E0]; [|lia].
    rewrite E0 in Eq. unfold q in *. lia. }
  assert (Emax : 64 * w + (if w =? 0 then BHW else 0)
                 = Z.max BHW (64 * w)).
  { destruct (Z.eqb_spec w 0) as [->|E0]; lia. }
  rewrite (word_select1_correct USE_PDEP false false _ _ (q mod 64)).
  2:{ apply word_word_mask. apply words_peek, Hwf. }
  2:{ split; [lia|]. split.
      - rewrite testbit_word_mask by lia.
        replace (_ <=? _) with true by (symmetry; apply Z.leb_le; lia).
        cbn [andb]. rewrite <- buffer_bit_word by lia.
        rewrite <- Hbit. f_equal. f_equal. lia.
      - rewrite ones_word_mask_low by (destruct (w =? 0); lia).
        replace (64 * (base + w) + (if w =? 0 then BHW else 0))
          with (64 * base + Z.max BHW (64 * w)) by lia.
        replace (64 * (base + w) + q mod 64) with (64 * base + q) by lia.
        lia. }
  cbn [bind]. unfold kWordWidth. f_equal.
  assert (Hbd : 0 <= b * BDW < 2 ^ 63) by lia.
  rewrite (wrap_small (b * BDW)) by lia.
  rewrite (wrap_small (w * 64)) by lia.
  rewrite (wrap_small (b * BDW + w * 64)) by lia.
  rewrite (wrap_small (b * BDW + w * 64 + q mod 64)) by lia.
  rewrite wrap_small by (unfold q in *; lia).
  unfold q in *. lia.
Qed.

(** *** The constructor of the select structure *)

Lemma seen_all bv v :
  wf bv ->
  seen bv v (_num_blocks bv)
  = if v then ones (is_set bv) 0 (_length bv)
    else _length bv - ones (is_set bv) 0 (_length bv).
Proof.
  intros Hwf. facts Hwf. unfold seen.
  rewrite (ones_split _ 0 (_length bv) (_num_blocks bv * BDW)) by lia.
  rewrite (ones_wanted_beyond bv v (_length bv)) by (auto; lia).
  rewrite ones_wanted_counted, ones_counted by lia.
  rewrite ones_payload_is_set by lia. destruct v; lia.
Qed.

Lemma select_new_spec bv heap_zero heap_one :
  wf bv ->
  let num_ones := ones (is_set bv) 0 (_length bv) in
  exists sel,
    select_new BlockWidth BlockHeaderWidth Stride heap_zero heap_one bv
      num_ones = Some sel
    /\ _bitvector sel = bv
    /\ size (_one_samples sel) = num_ones / Stride + 2
    /\ size (_zero_samples sel) = (_length bv - num_ones) / Stride + 2
    /\ (0 < _length bv ->
        samples_ok bv true (_one_samples sel)
        /\ samples_ok bv false (_zero_samples sel)).
Proof.
  intros Hwf num_ones. facts Hwf. destruct stride_bounds as [HS1 HS2].
  pose proof BDW_bounds. pose proof (length_small bv Hwf) as HLs.
  assert (E63 : 2 ^ 63 + 2 ^ 63 = 2 ^ 64) by reflexivity.
  pose proof (ones_bounds (is_set bv) 0 (_length bv) ltac:(lia)) as Hn.
  fold num_ones in Hn.
  assert (Hd : forall x, 0 <= x <= _length bv -> 0 <= x / Stride <= x).
  { intros x Hx. split; [apply Z.div_pos; lia|].
    apply Z.div_le_upper_bound; [lia|].
    assert (1 * x <= Stride * x) by (apply Z.mul_le_mono_nonneg_r; lia).
    lia. }
  pose proof (Hd num_ones ltac:(lia)) as Hd1.
  pose proof (Hd (_length bv - num_ones) ltac:(lia)) as Hd0.
  unfold select_new, kStride.
  rewrite (wrap_small (_length bv - num_ones)) by lia.
  rewrite !wrap_small by lia.
  destruct (select_update_spec bv
              (StaticVector heap_zero ((_length bv - num_ones) / Stride + 2))
              (StaticVector heap_one (num_ones / Stride + 2)) Hwf)
    as (sel & E & Eb & E1 & E0 & Hok).
  - rewrite size_StaticVector by lia. rewrite (seen_all bv true Hwf).
    reflexivity.
  - rewrite size_StaticVector by lia. rewrite (seen_all bv false Hwf).
    reflexivity.
  - apply words_StaticVector.
  - apply words_StaticVector.
  - exists sel. rewrite E. rewrite size_StaticVector in E1, E0 by lia.
    repeat split; auto; apply Hok; auto.
Qed.

(* =================================================================== *)
(** ** The claims about the bit vector *)
(* =================================================================== *)

Lemma ones_is_set_update bv lo hi :
  wf bv -> 0 <= lo -> hi <= _num_blocks bv * BDW ->
  ones (is_set (update bv)) lo hi = ones (payload bv) lo hi.
Proof.
  intros Hwf Hlo Hhi. apply ones_ext. intros i Hi.
  rewrite is_set_update by (auto; lia). symmetry.
  apply payload_is_set. lia.
Qed.

(** C3 (as amended).  With a block width that is a power of two, after
    [update()], for every superblock [s] and every real block [b] inside
    it, the low [BHW] bits of the first word of block [b] hold the
    number of ones from the start of superblock [s] up to the start of
    block [b], and [superblock_data[s]] holds the number of ones in the
    positions [0, s * SBDW). *)
Theorem update_establishes_ranks bv :
  reachable bv ->
  let bv' := update bv in
  (forall s b,
      0 <= b < _num_blocks bv' -> b / BPSB = s ->
      header bv' b = ones (is_set bv') (s * SBDW) (b * BDW))
  /\ (forall s,
      0 <= s < _num_superblocks bv' ->
      rd (_superblock_data bv') s = Some (ones (is_set bv') 0 (s * SBDW))).
Proof.
  intros Hr bv'. pose proof (reachable_wf bv Hr) as Hwf. facts Hwf. params.
  pose proof BDW_bounds. split.
  - intros s b Hb <-. unfold bv' in *. rewrite update_num_blocks in Hb.
    rewrite header_update by (auto; lia).
    destruct (superblock_start_le b ltac:(lia)) as [H1 H2].
    rewrite ones_is_set_update; auto; try lia.
    apply Z.mul_le_mono_nonneg_r; lia.
  - intros s Hs. unfold bv' in *. rewrite update_num_superblocks in Hs.
    rewrite rd_peek by (rewrite update_superblock_size by auto; lia).
    rewrite update_superblock by (auto; lia).
    rewrite ones_is_set_update; auto; try lia.
    assert (s * SBDW <= (_num_superblocks bv - 1) * SBDW)
      by (apply Z.mul_le_mono_nonneg_r; lia).
    lia.
Qed.

(** C5 (as amended).  With a block width that is a power of two,
    [update()] does not change what [is_set] returns at any position of
    the vector.  In the data buffer it rewrites the low [BHW] bits of
    the first word of every real block and the whole first word of
    every pad block, which then holds the number of ones of the
    superblock the pad block lies in, and no other bit; it keeps the
    length, the block counts and the size of the buffer. *)
Theorem update_preserves_is_set bv :
  reachable bv ->
  (forall p, 0 <= p < _length bv -> is_set (update bv) p = is_set bv p)
  /\ (forall i j,
        0 <= i < size (_data bv) -> 0 <= j < 64 ->
        i mod WPB <> 0 \/ (i / WPB < _num_blocks bv /\ BHW <= j) ->
        Z.testbit (peek (_data (update bv)) i) j
        = Z.testbit (peek (_data bv) i) j)
  /\ (forall b,
        _num_blocks bv <= b < _num_blocks bv + BPSB ->
        peek (_data (update bv)) (b * WPB)
        = ones (is_set bv) (b / BPSB * SBDW) (_length bv))
  /\ size (_data (update bv)) = size (_data bv)
  /\ _length (update bv) = _length bv
  /\ _num_blocks (update bv) = _num_blocks bv
  /\ _num_superblocks (update bv) = _num_superblocks bv.
Proof.
  intros Hr. pose proof (reachable_wf bv Hr) as Hwf. facts Hwf. params.
  pose proof BDW_bounds.
  split; [|split; [|split; [|split; [|repeat split]]]].
  - intros p Hp. apply is_set_update; [auto|lia].
  - intros i j Hi Hj Hc.
    rewrite update_data by (auto; lia).
    pose proof (Z.div_mod i WPB ltac:(lia)) as Ei.
    pose proof (Z.mod_pos_bound i WPB ltac:(lia)) as Bi.
    assert (Hq : 0 <= i / WPB) by (apply Z.div_pos; lia).
    destruct (Z.eq_dec (i mod WPB) 0) as [E0|Hne].
    + destruct Hc as [Hc|[Hqn Hc]]; [contradiction|].
      replace i with (i / WPB * WPB) at 1 by lia.
      rewrite updated_word_head by lia.
      replace (i / WPB <? _num_blocks bv) with true
        by (symmetry; apply Z.ltb_lt; lia).
      rewrite pHDW, testbit_merge; try lia.
      * replace (j <? BHW) with false by (symmetry; apply Z.ltb_ge; lia).
        do 2 f_equal. lia.
      * apply header_rank_fits. lia.
    + replace i with (i / WPB * WPB + i mod WPB) at 1 by lia.
      rewrite updated_word_tail by lia. do 2 f_equal. lia.
  - intros b Hb.
    destruct (block_word_bounds bv b Hwf ltac:(lia)) as [Hi0 Hi1].
    destruct (superblock_start_le b ltac:(lia)) as [Hs1 Hs2].
    assert (Hnbb : _num_blocks bv * BDW <= b * BDW)
      by (apply Z.mul_le_mono_nonneg_r; lia).
    rewrite update_data by (auto; lia).
    rewrite updated_word_head by lia.
    replace (b <? _num_blocks bv) with false
      by (symmetry; apply Z.ltb_ge; lia).
    unfold header_rank.
    destruct (Z_le_gt_dec (_length bv) (b / BPSB * SBDW)) as [Hle|Hgt].
    + rewrite ones_payload_beyond by auto.
      rewrite ones_empty by lia. reflexivity.
    + rewrite (ones_split _ _ (_length bv) (b * BDW)) by lia.
      rewrite (ones_payload_beyond bv (_length bv)) by (auto; lia).
      rewrite ones_payload_is_set by lia. lia.
  - apply update_data_size. exact Hwf.
Qed.


(** C7 (as amended).  With a block width that is a power of two, after
    [update()] the first word of every padding block, and so its header,
    holds the number of ones stored in the superblock the padding block
    lies in; it is zero exactly when that superblock holds no one, in
    particular for every padding block that lies in a superblock without
    a real block. *)
Theorem update_pad_headers bv :
  reachable bv ->
  let bv' := update bv in
  forall b,
    _num_blocks bv' <= b < _num_blocks bv' + BPSB ->
    peek (_data bv') (b * WPB)
    = ones (is_set bv') (b / BPSB * SBDW) (_length bv')
    /\ header bv' b = ones (is_set bv') (b / BPSB * SBDW) (_length bv')
    /\ (_length bv' <= b / BPSB * SBDW -> header bv' b = 0).
Proof.
  intros Hr bv' b Hb. pose proof (reachable_wf bv Hr) as Hwf.
  facts Hwf. params. pose proof BDW_bounds.
  unfold bv' in *. rewrite update_num_blocks in Hb.
  rewrite update_length.
  destruct (block_word_bounds bv b Hwf ltac:(lia)) as [Hi0 Hi1].
  destruct (superblock_start_le b ltac:(lia)) as [Hs1 Hs2].
  assert (Hnbb : _num_blocks bv * BDW <= b * BDW)
    by (apply Z.mul_le_mono_nonneg_r; lia).
  assert (E : header_rank bv b
              = ones (is_set (update bv)) (b / BPSB * SBDW) (_length bv)).
  { unfold header_rank.
    destruct (Z_le_gt_dec (_length bv) (b / BPSB * SBDW)) as [Hle|Hgt].
    - rewrite ones_payload_beyond by auto.
      rewrite ones_empty by lia. reflexivity.
    - rewrite (ones_split _ _ (_length bv) (b * BDW)) by lia.
      rewrite (ones_payload_beyond bv (_length bv)) by (auto; lia).
      rewrite ones_is_set_update by (auto; lia). lia. }
  assert (Ew : peek (_data (update bv)) (b * WPB) = header_rank bv b).
  { rewrite update_data by (auto; lia).
    rewrite updated_word_head by lia.
    replace (b <? _num_blocks bv) with false
      by (symmetry; apply Z.ltb_ge; lia). reflexivity. }
  assert (Eh : header (update bv) b = header_rank bv b)
    by (apply header_update; auto; lia).
  repeat split.
  - rewrite Ew. exact E.
  - rewrite Eh. exact E.
  - intros Hle. rewrite Eh, E. apply ones_empty. lia.
Qed.


(** C1 (as amended).  With a block width that is a power of two, after
    [update()], [rank1 (p)] is the number of positions [q < p] at which
    [is_set (q)] holds, and [rank0 (p)] is [p] minus that number, for
    every [p] below the length, and for [p] equal to the length [n] when
    [n] is not a multiple of the superblock data width.  When [n] is
    such a multiple, [rank1 (n)] reads
    [superblock_data[num_superblocks]], one entry past the table. *)
Theorem rank_correct bv p :
  reachable bv ->
  let bv' := update bv in
  0 <= p <= _length bv' ->
  (p < _length bv' \/ _length bv' mod SBDW <> 0 ->
   rank1 BlockWidth BlockHeaderWidth bv' p
   = Some (ones (is_set bv') 0 p)
   /\ rank0 BlockWidth BlockHeaderWidth bv' p
      = Some (p - ones (is_set bv') 0 p))
  /\ (p = _length bv' -> _length bv' mod SBDW = 0 ->
      rank1 BlockWidth BlockHeaderWidth bv' p = None
      /\ rd (_superblock_data bv') (p / SBDW) = None).
Proof.
  intros Hr bv' Hp. pose proof (reachable_wf bv Hr) as Hwf.
  pose proof (update_finalized bv Hwf) as Hfin. fold bv' in Hfin.
  pose proof (fin_wf _ _ _ Hfin) as Hwf'. facts Hwf'. params.
  pose proof BDW_bounds. pose proof SBDW_bounds.
  pose proof (Z.div_mod (_length bv') SBDW ltac:(lia)) as EL.
  split.
  - intros Hc.
    assert (Hs : p / SBDW < _num_superblocks bv').
    { apply Z.div_lt_upper_bound; [lia|].
      destruct Hc as [Hc|Hc]; [lia|].
      destruct (Z.eq_dec (_length bv') (_num_superblocks bv' * SBDW))
        as [E|E]; [|lia].
      rewrite E in Hc. rewrite Z.mod_mul in Hc by lia. lia. }
    rewrite rank1_spec, rank0_spec by auto.
    rewrite ones_payload_is_set by lia. auto.
  - intros -> Hm. rewrite Hm, Z.add_0_r in EL.
    assert (Eq : _length bv' / SBDW = _num_superblocks bv').
    { assert (_length bv' / SBDW < _num_superblocks bv' + 1).
      { apply (mul_lt_cancel _ _ SBDW); lia. }
      assert (_num_superblocks bv' - 1 < _length bv' / SBDW).
      { apply (mul_lt_cancel _ _ SBDW); lia. }
      lia. }
    assert (En : rd (_superblock_data bv') (_length bv' / SBDW) = None).
    { apply rd_outside. lia. }
    split; [|exact En]. unfold rank1. rewrite En. reflexivity.
Qed.

(* =================================================================== *)
(** ** The claims about the select structure *)
(* =================================================================== *)

Local Abbreviation select_new :=
  (select_new BlockWidth BlockHeaderWidth Stride).
Local Abbreviation select1 :=
  (select1 BlockWidth BlockHeaderWidth kUseBinarySearch Stride USE_PDEP).
Local Abbreviation select0 :=
  (select0 BlockWidth BlockHeaderWidth kUseBinarySearch Stride USE_PDEP).

Lemma select_wanted bv sel v p :
  finalized bv -> _bitvector sel = bv ->
  samples_ok bv v (samples_of v sel) ->
  0 <= p < _length bv -> wanted bv v p = true ->
  select v sel (ones (wanted bv v) 0 p + 1) = Some p.
Proof.
  intros Hfin Eb Hs Hp Hw. rewrite select_descend, Eb.
  apply descend_spec; auto.
Qed.

Lemma wanted_is_set bv v p :
  wf bv -> 0 <= p < _length bv ->
  wanted bv v p = if v then is_set bv p else negb (is_set bv p).
Proof.
  intros Hwf Hp. facts Hwf. unfold wanted.
  rewrite payload_is_set by lia.
  replace (p <? _length bv) with true by (symmetry; apply Z.ltb_lt; lia).
  destruct v; reflexivity.
Qed.

Lemma ones_wanted_is_set bv v p :
  wf bv -> 0 <= p <= _length bv ->
  ones (wanted bv v) 0 p
  = if v then ones (is_set bv) 0 p else p - ones (is_set bv) 0 p.
Proof.
  intros Hwf Hp. facts Hwf.
  rewrite ones_wanted_counted, ones_counted by lia.
  rewrite ones_payload_is_set by lia. destruct v; lia.
Qed.



(** C8 (as amended).  The buffer of the one-samples has
    [floor (num_ones / stride) + 2] entries and the buffer of the
    zero-samples [floor (num_zeros / stride) + 2], so that
    [memory_space()] returns
    [(floor (num_ones / stride) + floor (num_zeros / stride) + 4) * 64]. *)
Theorem select_sample_sizes bv heap_zero heap_one :
  reachable bv ->
  let num_ones := ones (is_set bv) 0 (_length bv) in
  let num_zeros := _length bv - num_ones in
  exists sel,
    select_new heap_zero heap_one bv num_ones = Some sel
    /\ size (_one_samples sel) = num_ones / Stride + 2
    /\ size (_zero_samples sel) = num_zeros / Stride + 2
    /\ select_memory_space sel
       = (num_ones / Stride + num_zeros / Stride + 4) * 64.
Proof.
  intros Hr num_ones num_zeros. pose proof (reachable_wf bv Hr) as Hwf.
  facts Hwf. destruct stride_bounds as [HS1 HS2]. pose proof BDW_bounds.
  pose proof (length_small bv Hwf) as HLs.
  destruct (select_new_spec bv heap_zero heap_one Hwf)
    as (sel & E & _ & E1 & E0 & _).
  fold num_ones in E, E1, E0. fold num_zeros in E0.
  exists sel. repeat split; auto.
  pose proof (ones_bounds (is_set bv) 0 (_length bv) ltac:(lia)) as Hn.
  fold num_ones in Hn.
  assert (Hd : forall x, 0 <= x <= _length bv ->
            0 <= x / Stride /\ x / Stride * 64 <= x).
  { intros x Hx. assert (0 <= x / Stride) by (apply Z.div_pos; lia).
    split; [assumption|].
    pose proof (div_bounds x Stride ltac:(lia)).
    assert (x / Stride * 64 <= x / Stride * Stride)
      by (apply Z.mul_le_mono_nonneg_l; lia).
    lia. }
  destruct (Hd num_ones ltac:(lia)) as [A1 A2].
  destruct (Hd num_zeros ltac:(unfold num_zeros; lia)) as [B1 B2].
  assert (E63 : 2 ^ 63 + 2 ^ 63 = 2 ^ 64) by reflexivity.
  assert (S63 : 256 < 2 ^ 63) by reflexivity.
  unfold select_memory_space, kWordWidth. rewrite E1, E0.
  unfold num_zeros in *.
  rewrite !wrap_small by (rewrite ?wrap_small; lia).
  ring.
Qed.

(* =================================================================== *)
(** ** Further properties of the bit vector *)
(* =================================================================== *)

(** The word that [set (pos, value)] stores, bit by bit. *)
Lemma set_value_word_bit w wp v j :
  0 <= wp < 64 -> 0 <= j < 64 ->
  Z.testbit (Z.lor (Z.land w (lnot (shl 1 wp)))
                   (Z.land (wrap (- Z.b2z v)) (shl 1 wp))) j
  = if j =? wp then v else Z.testbit w j.
Proof.
  intros Hwp Hj.
  rewrite Z.lor_spec, !Z.land_spec, testbit_lnot, testbit_bitmask by lia.
  replace (j <? 64) with true by (symmetry; apply Z.ltb_lt; lia).
  rewrite testbit_wrap.
  replace (j <? 64) with true by (symmetry; apply Z.ltb_lt; lia).
  destruct (j =? wp); cbn [andb negb].
  - rewrite andb_false_r, andb_true_r. cbn [orb].
    destruct v; cbn [Z.b2z Z.opp].
    + change (-1) with (Z.lnot 0).
      rewrite Z.lnot_spec, Z.testbit_0_l by lia. reflexivity.
    + apply Z.testbit_0_l.
  - rewrite andb_false_r, andb_true_r. apply orb_false_r.
Qed.

Lemma set_value_word w wp v :
  word w -> 0 <= wp < 64 ->
  Z.lor (Z.land w (lnot (shl 1 wp))) (Z.land (wrap (- Z.b2z v)) (shl 1 wp))
  = if v then Z.lor w (shl 1 wp) else Z.land w (lnot (shl 1 wp)).
Proof.
  intros Hw Hwp.
  assert (Hm : word (shl 1 wp)) by apply wrap_word.
  assert (Hn : word (lnot (shl 1 wp))) by apply wrap_word.
  assert (Hx : word (Z.lor (Z.land w (lnot (shl 1 wp)))
                       (Z.land (wrap (- Z.b2z v)) (shl 1 wp)))).
  { apply word_lor; apply word_land; auto; try apply wrap_word;
      unfold word in *; lia. }
  apply word_bits_inj; auto.
  - destruct v; [apply word_lor; auto|apply word_land; auto].
    unfold word in Hn. lia.
  - intros j Hj. rewrite set_value_word_bit by lia.
    destruct v.
    + rewrite Z.lor_spec, testbit_bitmask by lia.
      destruct (j =? wp);
        [rewrite orb_true_r|rewrite orb_false_r]; reflexivity.
    + rewrite Z.land_spec, testbit_lnot, testbit_bitmask by lia.
      replace (j <? 64) with true by (symmetry; apply Z.ltb_lt; lia).
      destruct (j =? wp); cbn [andb negb];
        [rewrite andb_false_r|rewrite andb_true_r]; reflexivity.
Qed.

(** [set (pos, value)] as a write of one word. *)
Lemma set_value_as_poke bv p v :
  0 <= p ->
  set_value BlockWidth BlockHeaderWidth bv p v
  = with_data bv
      (poke (_data bv) (bit_index p / 64)
         (Z.lor (Z.land (peek (_data bv) (bit_index p / 64))
                        (lnot (shl 1 (bit_index p mod 64))))
                (Z.land (wrap (- Z.b2z v))
                        (shl 1 (bit_index p mod 64))))).
Proof.
  intros Hp. unfold set_value.
  destruct (word_index_bit_index p Hp) as [-> ->]. reflexivity.
Qed.

(** X1.  [set (pos, value)] followed by [is_set]: the bit written reads
    back as [value], every other bit reads as before, and the length
    does not change. *)
Theorem set_value_then_is_set bv p v :
  reachable bv -> 0 <= p < _length bv ->
  let bv' := set_value BlockWidth BlockHeaderWidth bv p v in
  is_set bv' p = v
  /\ (forall q, 0 <= q -> q <> p -> is_set bv' q = is_set bv q)
  /\ _length bv' = _length bv.
Proof.
  intros Hr Hp bv'. pose proof (reachable_wf bv Hr) as Hwf.
  destruct (set_value_spec bv p v Hwf Hp) as [_ Hs]. fold bv' in Hs.
  repeat split.
  - rewrite Hs by lia. rewrite Z.eqb_refl. reflexivity.
  - intros q Hq Hne. rewrite Hs by lia.
    destruct (Z.eqb_spec q p); [lia|reflexivity].
Qed.

(** X2.  The branch-free [set (pos, value)] leaves the bit vector in
    the state [set (pos)] leaves it in when [value] is true, and in the
    state [unset (pos)] leaves it in when [value] is false. *)
Theorem set_value_agrees bv p :
  reachable bv -> 0 <= p < _length bv ->
  set_value BlockWidth BlockHeaderWidth bv p true
  = set BlockWidth BlockHeaderWidth bv p
  /\ set_value BlockWidth BlockHeaderWidth bv p false
     = unset BlockWidth BlockHeaderWidth bv p.
Proof.
  intros Hr Hp. pose proof (reachable_wf bv Hr) as Hwf.
  pose proof (Z.mod_pos_bound (bit_index p) 64 ltac:(lia)) as Hm.
  assert (Hw : word (peek (_data bv) (bit_index p / 64)))
    by (apply words_peek, Hwf).
  split; rewrite set_value_as_poke by lia;
    rewrite set_value_word by auto.
  - unfold set. destruct (word_index_bit_index p ltac:(lia)) as [-> ->].
    reflexivity.
  - unfold unset. destruct (word_index_bit_index p ltac:(lia)) as [-> ->].
    reflexivity.
Qed.

(** X3.  [set (pos, value)] writes payload bits only: the header of
    every block and the superblock table are as before, so the ranks
    stored by the last [update()] are not touched. *)
Theorem set_value_keeps_headers bv p v :
  reachable bv -> 0 <= p < _length bv ->
  let bv' := set_value BlockWidth BlockHeaderWidth bv p v in
  (forall b, 0 <= b -> header bv' b = header bv b)
  /\ _superblock_data bv' = _superblock_data bv
  /\ _num_blocks bv' = _num_blocks bv
  /\ _num_superblocks bv' = _num_superblocks bv.
Proof.
  intros Hr Hp bv'. pose proof (reachable_wf bv Hr) as Hwf.
  facts Hwf. params. pose proof BDW_bounds.
  pose proof (position_word_in_data bv p Hwf ltac:(lia)) as Hi.
  destruct (bit_index_bounds p ltac:(lia)) as [Hb1 Hb2].
  pose proof (Z.mod_pos_bound (bit_index p) 64 ltac:(lia)) as Hm.
  pose proof (Z.div_mod (bit_index p) 64 ltac:(lia)) as Ed.
  unfold bv'. rewrite set_value_as_poke by lia.
  repeat split. intros b Hb. unfold header. cbn [_data with_data].
  assert (0 <= b * WPB) by (apply Z.mul_nonneg_nonneg; lia).
  assert (Hsz : _num_blocks bv * WPB <= size (_data bv)).
  { rewrite Hds. apply Z.mul_le_mono_nonneg_r; lia. }
  rewrite peek_poke by lia.
  destruct (Z.eqb_spec (b * WPB) (bit_index p / 64)) as [E|E];
    [|reflexivity].
  assert (Eb : b = p / BDW).
  { assert (b < p / BDW + 1)
      by (apply (mul_lt_cancel _ _ WPB); lia).
    assert (p / BDW <= b) by (apply (mul_le_cancel _ _ WPB); lia).
    lia. }
  assert (Hlow : BHW <= bit_index p mod 64).
  { rewrite <- Eb in Hb1. lia. }
  apply Z.bits_inj'. intros j Hj. rewrite !Z.land_spec.
  rewrite testbit_setbits by lia.
  destruct (Z.ltb_spec j (0 + BHW)) as [Hlt|Hge];
    [|rewrite andb_false_r; cbn; rewrite !andb_false_r; reflexivity].
  rewrite set_value_word_bit by lia.
  destruct (Z.eqb_spec j (bit_index p mod 64)); [lia|].
  rewrite E. reflexivity.
Qed.

(** A run of [set (pos, f (pos))] over the positions below [n]. *)
Lemma fill_invariant bv0 (f : Z -> bool) n :
  reachable bv0 -> 0 <= n <= _length bv0 ->
  let bv :=
    iterate (Z.to_nat n) 0 1
      (fun pos bv => set_value BlockWidth BlockHeaderWidth bv pos (f pos))
      bv0 in
  reachable bv /\ _length bv = _length bv0
  /\ (forall q, 0 <= q ->
        is_set bv q = if q <? n then f q else is_set bv0 q).
Proof.
  intros Hr Hn bv.
  pose (P := fun (k : Z) (b : BitVector) =>
               reachable b /\ _length b = _length bv0
               /\ forall q, 0 <= q ->
                    is_set b q = if q <? k then f q else is_set bv0 q).
  assert (HP : P (Z.of_nat (Z.to_nat n)) bv).
  { apply iterate_invariant.
    - repeat split; auto. intros q Hq.
      destruct (Z.ltb_spec q 0); [lia|reflexivity].
    - intros k b Hk (Hrb & Hlb & Hsb). rewrite Z2Nat.id in Hk by lia.
      rewrite Z.add_0_l, Z.mul_1_r.
      pose proof (reachable_wf b Hrb) as Hwfb.
      destruct (set_value_spec b k (f k) Hwfb ltac:(lia)) as [_ Hs].
      repeat split.
      + apply reach_set_value; [exact Hrb|lia].
      + exact Hlb.
      + intros q Hq. rewrite Hs by lia.
        destruct (Z.eqb_spec q k) as [->|Hne].
        * destruct (Z.ltb_spec k (k + 1)); [reflexivity|lia].
        * rewrite Hsb by lia.
          destruct (Z.ltb_spec q k), (Z.ltb_spec q (k + 1));
            try reflexivity; lia. }
  rewrite Z2Nat.id in HP by lia. exact HP.
Qed.

(** X4.  The two-argument constructor: every bit of the new vector
    reads as [value], and the ranks are initialised, so that
    [rank1 (p)] is [p] on a vector of ones and [0] on a vector of
    zeros, and [rank0 (p)] the other way round. *)
Theorem new_filled_uniform heap_data heap_superblock length value :
  0 <= length ->
  (math.div_ceil length BDW + BPSB) * BW < 2 ^ 63 ->
  let bv :=
    new_filled BlockWidth BlockHeaderWidth heap_data heap_superblock
      length value in
  _length bv = length
  /\ forall p, 0 <= p < length ->
       is_set bv p = value
       /\ rank1 BlockWidth BlockHeaderWidth bv p
          = Some (if value then p else 0)
       /\ rank0 BlockWidth BlockHeaderWidth bv p
          = Some (if value then 0 else p).
Proof.
  intros Hlen Hsize bv.
  pose proof (reach_new BlockWidth BlockHeaderWidth heap_data
                heap_superblock length Hlen Hsize) as Hr0.
  set (bv0 := new BlockWidth BlockHeaderWidth heap_data heap_superblock
                length) in *.
  assert (Hl0 : _length bv0 = length) by reflexivity.
  destruct (fill_invariant bv0 (fun _ => value) length Hr0 ltac:(lia))
    as (Hr & Hl & Hs).
  assert (Ebv : bv = update
            (iterate (Z.to_nat length) 0 1
               (fun pos b =>
                  set_value BlockWidth BlockHeaderWidth b pos value) bv0)).
  { unfold bv, new_filled. fold bv0.
    rewrite <- (for_range_iterate _ 0 1 length) by lia.
    rewrite Z.add_0_l, Z.mul_1_r. reflexivity. }
  set (bvf := iterate (Z.to_nat length) 0 1
                (fun pos b =>
                   set_value BlockWidth BlockHeaderWidth b pos value) bv0)
    in *.
  pose proof (reachable_wf bvf Hr) as Hwf.
  pose proof (update_finalized bvf Hwf) as Hfin.
  pose proof (fin_wf _ _ _ Hfin) as Hwf'.
  rewrite Ebv. split; [rewrite update_length; lia|].
  intros p Hp. facts Hwf. pose proof BDW_bounds. pose proof SBDW_bounds.
  assert (Hset : forall q, 0 <= q < length ->
            is_set (update bvf) q = value).
  { intros q Hq. rewrite is_set_update by (auto; lia).
    rewrite Hs by lia.
    destruct (Z.ltb_spec q length); [reflexivity|lia]. }
  assert (Hones : ones (payload (update bvf)) 0 p
                  = if value then p else 0).
  { rewrite ones_payload_is_set by (rewrite update_num_blocks; lia).
    destruct value.
    - rewrite ones_true; [lia|lia|]. intros i Hi. apply Hset. lia.
    - apply ones_false. intros i Hi. apply Hset. lia. }
  assert (Hsb : p / SBDW < _num_superblocks (update bvf)).
  { rewrite update_num_superblocks.
    apply Z.div_lt_upper_bound; lia. }
  repeat split.
  - apply Hset. lia.
  - rewrite rank1_spec by (auto; rewrite ?update_length; lia).
    rewrite Hones. reflexivity.
  - rewrite rank0_spec by (auto; rewrite ?update_length; lia).
    rewrite Hones. destruct value; f_equal; lia.
Qed.

(** X5.  [block_popcount (num_block)] is the number of set bits among
    the positions of that block that lie below the length: the header
    bits of the first word and the unused bits of the last block do not
    count, and [update()] does not change the result. *)
Theorem block_popcount_counts_payload bv b :
  reachable bv -> 0 <= b < _num_blocks bv ->
  block_popcount BlockWidth BlockHeaderWidth bv b
  = ones (is_set bv) (b * BDW) (Z.min ((b + 1) * BDW) (_length bv))
  /\ block_popcount BlockWidth BlockHeaderWidth (update bv) b
     = block_popcount BlockWidth BlockHeaderWidth bv b.
Proof.
  intros Hr Hb. pose proof (reachable_wf bv Hr) as Hwf.
  pose proof (update_wf bv Hwf) as Hwf'.
  facts Hwf. pose proof BDW_bounds.
  assert (Hlo : b * BDW < _length bv).
  { assert (b * BDW <= (_num_blocks bv - 1) * BDW)
      by (apply Z.mul_le_mono_nonneg_r; lia). lia. }
  assert (Hhi : (b + 1) * BDW <= _num_blocks bv * BDW)
    by (apply Z.mul_le_mono_nonneg_r; lia).
  assert (Hb0 : 0 <= b * BDW) by (apply Z.mul_nonneg_nonneg; lia).
  split.
  - rewrite block_popcount_spec by (try apply Hwf; lia).
    destruct (Z.min_spec ((b + 1) * BDW) (_length bv)) as [[_ ->]|[Hle ->]];
      [reflexivity|].
    rewrite (ones_split _ (b * BDW) (_length bv) ((b + 1) * BDW)) by lia.
    rewrite (ones_false _ (_length bv)); [lia|].
    intros i Hi. apply (wf_tail _ _ _ Hwf). lia.
  - rewrite !block_popcount_spec by (try apply Hwf; try apply Hwf'; lia).
    apply ones_ext. intros i Hi. apply is_set_update; auto. lia.
Qed.

Lemma memory_space_spec bv :
  wf bv ->
  memory_space bv
  = (math.div_ceil (_length bv) BDW + BPSB) * BW
    + math.div_ceil (_length bv) SBDW * 64.
Proof.
  intros Hwf.
  pose proof (wf_small bv Hwf) as Hsmall.
  pose proof (wf_num_blocks _ _ _ Hwf) as Enb.
  pose proof (wf_num_superblocks _ _ _ Hwf) as Ensb.
  facts Hwf. params. pose proof BDW_bounds. pose proof SBDW_bounds.
  assert (E63 : 2 ^ 63 + 2 ^ 63 = 2 ^ 64) by reflexivity.
  assert (Hle : _num_superblocks bv <= _num_blocks bv).
  { assert (_num_blocks bv * BDW <= _num_blocks bv * SBDW)
      by (apply Z.mul_le_mono_nonneg_l; lia).
    assert (_num_superblocks bv - 1 < _num_blocks bv); [|lia].
    apply (mul_lt_cancel _ _ SBDW); lia. }
  assert (Hs64 : _num_superblocks bv * 64 <= _num_blocks bv * BW).
  { assert (_num_superblocks bv * 64 <= _num_blocks bv * 64)
      by (apply Z.mul_le_mono_nonneg_r; lia).
    assert (_num_blocks bv * 64 <= _num_blocks bv * BW)
      by (apply Z.mul_le_mono_nonneg_l; lia).
    lia. }
  assert (Hd64 : size (_data bv) * 64 = (_num_blocks bv + BPSB) * BW).
  { rewrite Hds, pBW. ring. }
  assert (0 <= BPSB * BW) by (apply Z.mul_nonneg_nonneg; lia).
  unfold memory_space, kWordWidth. rewrite Hss, Hd64.
  rewrite <- Enb, <- Ensb.
  rewrite !wrap_small by (rewrite ?wrap_small; lia).
  reflexivity.
Qed.

(** X6.  [memory_space()] depends on the length alone: the blocks of
    the vector and the padding blocks of one superblock, at
    [BlockWidth] bits each, plus one 64-bit entry per superblock.
    Writing bits and updating the ranks do not change it. *)
Theorem memory_space_of_length bv :
  reachable bv ->
  memory_space bv
  = (math.div_ceil (_length bv) BDW + BPSB) * BW
    + math.div_ceil (_length bv) SBDW * 64.
Proof.
  intros Hr. apply memory_space_spec. apply reachable_wf. exact Hr.
Qed.

(** X7.  On a finalized vector the ranks of neighbouring positions
    differ by the bit between them: [rank1 (0) = 0], and
    [rank1 (p + 1)] is [rank1 (p)] plus one when bit [p] is set,
    [rank0 (p + 1)] is [rank0 (p)] plus one when it is not. *)
Theorem rank_step bv p :
  reachable bv ->
  let bv' := update bv in
  0 <= p -> p + 1 < _length bv' ->
  rank1 BlockWidth BlockHeaderWidth bv' 0 = Some 0
  /\ exists r1 r0,
       rank1 BlockWidth BlockHeaderWidth bv' p = Some r1
       /\ rank0 BlockWidth BlockHeaderWidth bv' p = Some r0
       /\ rank1 BlockWidth BlockHeaderWidth bv' (p + 1)
          = Some (r1 + Z.b2z (is_set bv' p))
       /\ rank0 BlockWidth BlockHeaderWidth bv' (p + 1)
          = Some (r0 + Z.b2z (negb (is_set bv' p))).
Proof.
  intros Hr bv' Hp0 Hp1. pose proof (reachable_wf bv Hr) as Hwf0.
  pose proof (update_finalized bv Hwf0) as Hfin. fold bv' in Hfin.
  pose proof (fin_wf _ _ _ Hfin) as Hwf. facts Hwf.
  pose proof BDW_bounds. pose proof SBDW_bounds.
  assert (Hsb : forall q, 0 <= q < _length bv' ->
            q / SBDW < _num_superblocks bv')
    by (intros q Hq; apply Z.div_lt_upper_bound; lia).
  split.
  - rewrite rank1_spec by (auto; try lia; apply Hsb; lia).
    rewrite ones_empty by lia. reflexivity.
  - exists (ones (payload bv') 0 p), (p - ones (payload bv') 0 p).
    rewrite !rank1_spec, !rank0_spec by (auto; try lia; apply Hsb; lia).
    rewrite ones_succ by lia.
    rewrite (payload_is_set bv' p) by lia.
    repeat split. f_equal. destruct (is_set bv' p); cbn; lia.
Qed.

(** *** Ranks between two calls of [update()] *)

Lemma rd_poke_ne v i x j :
  0 <= i < size v -> j <> i -> rd (poke v i x) j = rd v j.
Proof.
  intros Hi Hne.
  destruct (Z_lt_le_dec j 0) as [Hneg|Hpos].
  - unfold rd.
    replace (0 <=? j) with false by (symmetry; apply Z.leb_gt; lia).
    reflexivity.
  - destruct (Z_lt_le_dec j (size v)) as [Hin|Hout].
    + rewrite !rd_peek by (rewrite ?size_poke; lia).
      rewrite peek_poke by lia.
      destruct (Z.eqb_spec j i); [lia|reflexivity].
    + rewrite !rd_outside by (rewrite ?size_poke; lia). reflexivity.
Qed.

Lemma rank1_words_result data base nw :
  forall fuel k r i' r',
    k <= nw ->
    rank1_words fuel data base k nw r = Some (i', r') -> i' = nw.
Proof.
  induction fuel as [|fuel IH]; intros k r i' r' Hk; cbn [rank1_words];
    destruct (Z.ltb_spec k nw) as [Hlt|Hge]; try discriminate.
  - intros E. injection E as <- _. lia.
  - destruct (rd data (base + k)) as [w|]; cbn [bind]; [|discriminate].
    apply IH. lia.
  - intros E. injection E as <- _. lia.
Qed.

Lemma rank1_words_poke data i x base nw :
  0 <= i < size data ->
  (forall j, 1 <= j < nw -> base + j <> i) ->
  forall fuel k r,
    1 <= k ->
    rank1_words fuel (poke data i x) base k nw r
    = rank1_words fuel data base k nw r.
Proof.
  intros Hi Hne. induction fuel as [|fuel IH]; intros k r Hk;
    cbn [rank1_words]; [reflexivity|].
  destruct (Z.ltb_spec k nw) as [Hlt|Hge]; [|reflexivity].
  rewrite rd_poke_ne by (auto; apply Hne; lia).
  destruct (rd data (base + k)) as [w|]; cbn [bind]; [|reflexivity].
  apply IH. lia.
Qed.

(** [rank1] reads the superblock table and the block of its position,
    nothing else. *)
Lemma rank1_other_block bv q i x :
  wf bv -> 0 <= q -> 0 <= i < size (_data bv) ->
  i / WPB <> q / BDW ->
  rank1 BlockWidth BlockHeaderWidth (with_data bv (poke (_data bv) i x)) q
  = rank1 BlockWidth BlockHeaderWidth bv q.
Proof.
  intros Hwf Hq Hi Hblk. params. pose proof BDW_bounds.
  pose proof (div_bounds i WPB ltac:(lia)) as Hiw.
  pose proof (Z.mod_pos_bound q BDW ltac:(lia)) as Hm.
  assert (Hnw : 0 <= (q mod BDW + BHW) / 64 < WPB).
  { split; [apply Z.div_pos; lia|].
    apply Z.div_lt_upper_bound; lia. }
  assert (Hne : forall j, 0 <= j < WPB -> q / BDW * WPB + j <> i).
  { intros j Hj Ej.
    destruct (Z_lt_le_dec (i / WPB) (q / BDW)) as [Hlt|Hge].
    - assert ((i / WPB + 1) * WPB <= q / BDW * WPB)
        by (apply Z.mul_le_mono_nonneg_r; lia). lia.
    - assert ((q / BDW + 1) * WPB <= i / WPB * WPB)
        by (apply Z.mul_le_mono_nonneg_r; lia). lia. }
  unfold rank1, kWordWidth.
  cbn [_data _superblock_data with_data].
  destruct (rd (_superblock_data bv) (q / SBDW)) as [r|]; cbn [bind];
    [|reflexivity].
  rewrite rd_poke_ne
    by (auto; specialize (Hne 0 ltac:(lia)); lia).
  destruct (rd (_data bv) (q / BDW * WPB)) as [fw|]; cbn [bind];
    [|reflexivity].
  destruct (Z.eqb_spec ((q mod BDW + BHW) / 64) 0) as [|Hnz];
    [reflexivity|].
  rewrite rank1_words_poke by (auto; try lia; intros j Hj; apply Hne; lia).
  destruct (rank1_words _ (_data bv) _ 1 _ _) as [[i' r']|] eqn:Ew;
    cbn [bind]; [|reflexivity].
  apply rank1_words_result in Ew; [|lia]. subst i'.
  rewrite rd_poke_ne by (auto; apply Hne; lia). reflexivity.
Qed.

(** X8.  A bit written after [update()] is not seen by the ranks of the
    other blocks until the next [update()]: [rank1 (q)] at a position
    of another block still returns the count of ones the vector had
    when it was updated, which for [q] above a bit that changed is off
    by one. *)
Theorem rank_stale_until_update bv p v q :
  reachable bv ->
  let bv0 := update bv in
  let bv' := set_value BlockWidth BlockHeaderWidth bv0 p v in
  0 <= p < _length bv -> 0 <= q < _length bv ->
  q / BDW <> p / BDW ->
  rank1 BlockWidth BlockHeaderWidth bv' q
  = Some (ones (is_set bv0) 0 q)
  /\ (p < q -> is_set bv0 p = negb v ->
      ones (is_set bv') 0 q
      = ones (is_set bv0) 0 q + (if v then 1 else -1)).
Proof.
  intros Hr bv0 bv' Hp Hq Hblk.
  pose proof (reachable_wf bv Hr) as Hwf.
  pose proof (update_finalized bv Hwf) as Hfin. fold bv0 in Hfin.
  pose proof (fin_wf _ _ _ Hfin) as Hwf0.
  assert (El : _length bv0 = _length bv) by apply update_length.
  facts Hwf0. params. pose proof BDW_bounds. pose proof SBDW_bounds.
  pose proof (position_word_in_data bv0 p Hwf0 ltac:(lia)) as Hi.
  destruct (bit_index_bounds p ltac:(lia)) as [_ Hb2].
  assert (Hsz : _num_blocks bv0 * WPB <= size (_data bv0)).
  { rewrite Hds. apply Z.mul_le_mono_nonneg_r; lia. }
  split.
  - unfold bv'. rewrite set_value_as_poke by lia.
    rewrite rank1_other_block; auto; try lia.
    + rewrite rank1_spec; auto; try lia.
      * rewrite ones_payload_is_set by lia. reflexivity.
      * apply Z.div_lt_upper_bound; lia.
    + rewrite (div_range (bit_index p / 64) WPB (p / BDW)) by lia.
      auto.
  - intros Hlt Hflip.
    destruct (set_value_spec bv0 p v Hwf0 ltac:(lia)) as [_ Hs].
    fold bv' in Hs.
    rewrite (ones_split (is_set bv') 0 p q) by lia.
    rewrite (ones_split (is_set bv') p (p + 1) q) by lia.
    rewrite (ones_split (is_set bv0) 0 p q) by lia.
    rewrite (ones_split (is_set bv0) p (p + 1) q) by lia.
    rewrite !ones_single.
    rewrite (ones_ext (is_set bv') (is_set bv0) 0 p).
    2:{ intros i Hi'. rewrite Hs by lia.
        destruct (Z.eqb_spec i p); [lia|reflexivity]. }
    rewrite (ones_ext (is_set bv') (is_set bv0) (p + 1) q).
    2:{ intros i Hi'. rewrite Hs by lia.
        destruct (Z.eqb_spec i p); [lia|reflexivity]. }
    rewrite Hs by lia. rewrite Z.eqb_refl, Hflip.
    destruct v; cbn [negb Z.b2z]; lia.
Qed.

(* =================================================================== *)
(** ** Further properties of the select structure *)
(* =================================================================== *)

(** What a select query returns, for either kind of bit. *)
Lemma select_kth bv sel v r :
  finalized bv -> _bitvector sel = bv ->
  samples_ok bv v (samples_of v sel) ->
  1 <= r <= ones (wanted bv v) 0 (_length bv) ->
  exists p, select v sel r = Some p
            /\ 0 <= p < _length bv
            /\ wanted bv v p = true
            /\ ones (wanted bv v) 0 p = r - 1.
Proof.
  intros Hfin Eb Hok Hr.
  destruct (ones_find (wanted bv v) 0 (_length bv) r Hr)
    as (p & Hp & Hw & Hc).
  exists p. split; [|auto].
  replace r with (ones (wanted bv v) 0 p + 1) by lia.
  apply select_wanted; auto.
Qed.

(** X9.  Rank undoes select: on a finalized vector with a select
    structure built on it, [select1 (r)] for [1 <= r <= num_ones] is a
    position that holds a one and has [rank1 = r - 1], and
    [select0 (r)] for [1 <= r <= num_zeros] is a position that holds a
    zero and has [rank0 = r - 1]. *)
Theorem rank_of_select bv heap_zero heap_one :
  reachable bv ->
  let bv' := update bv in
  let num_ones := ones (is_set bv') 0 (_length bv') in
  let num_zeros := _length bv' - num_ones in
  exists sel,
    select_new heap_zero heap_one bv' num_ones = Some sel
    /\ (forall r, 1 <= r <= num_ones ->
          exists p, select1 sel r = Some p
                    /\ is_set bv' p = true
                    /\ rank1 BlockWidth BlockHeaderWidth bv' p
                       = Some (r - 1))
    /\ (forall r, 1 <= r <= num_zeros ->
          exists p, select0 sel r = Some p
                    /\ is_set bv' p = false
                    /\ rank0 BlockWidth BlockHeaderWidth bv' p
                       = Some (r - 1)).
Proof.
  intros Hr bv' num_ones num_zeros.
  pose proof (reachable_wf bv Hr) as Hwf0.
  pose proof (update_finalized bv Hwf0) as Hfin. fold bv' in Hfin.
  pose proof (fin_wf _ _ _ Hfin) as Hwf. facts Hwf.
  pose proof BDW_bounds. pose proof SBDW_bounds.
  destruct (select_new_spec bv' heap_zero heap_one Hwf)
    as (sel & E & Eb & _ & _ & Hok).
  exists sel. split; [exact E|].
  assert (Hsb : forall q, 0 <= q < _length bv' ->
            q / SBDW < _num_superblocks bv')
    by (intros q Hq; apply Z.div_lt_upper_bound; lia).
  split; intros r Hrr.
  - pose proof (ones_bounds (is_set bv') 0 (_length bv') ltac:(lia))
      as Hob.
    destruct (Hok ltac:(unfold num_ones in *; lia)) as [Ok1 _].
    destruct (select_kth bv' sel true r Hfin Eb Ok1)
      as (p & Hsel & Hp & Hw & Hc).
    { rewrite ones_wanted_is_set by (auto; lia). exact Hrr. }
    rewrite wanted_is_set in Hw by auto.
    rewrite ones_wanted_is_set in Hc by (auto; lia).
    exists p. repeat split; auto.
    rewrite rank1_spec by (auto; try lia; apply Hsb; lia).
    rewrite ones_payload_is_set by lia. rewrite Hc. reflexivity.
  - pose proof (ones_nonneg (is_set bv') 0 (_length bv')) as Hob.
    destruct (Hok ltac:(unfold num_zeros, num_ones in *; lia))
      as [_ Ok0].
    destruct (select_kth bv' sel false r Hfin Eb Ok0)
      as (p & Hsel & Hp & Hw & Hc).
    { rewrite ones_wanted_is_set by (auto; lia). exact Hrr. }
    rewrite wanted_is_set in Hw by auto.
    rewrite ones_wanted_is_set in Hc by (auto; lia).
    exists p. repeat split; auto.
    + destruct (is_set bv' p); [discriminate|reflexivity].
    + rewrite rank0_spec by (auto; try lia; apply Hsb; lia).
      rewrite ones_payload_is_set by lia. rewrite Hc. reflexivity.
Qed.

(** X10.  Select is strictly increasing: for valid ranks [r < r'] both
    queries return a position, and the position returned for [r] is
    smaller than the one returned for [r'], for [select1] as for
    [select0]. *)
Theorem select_increasing bv heap_zero heap_one :
  reachable bv ->
  let bv' := update bv in
  let num_ones := ones (is_set bv') 0 (_length bv') in
  let num_zeros := _length bv' - num_ones in
  exists sel,
    select_new heap_zero heap_one bv' num_ones = Some sel
    /\ (forall r r',
          1 <= r -> r < r' -> r' <= num_ones ->
          exists p p',
            select1 sel r = Some p /\ select1 sel r' = Some p' /\ p < p')
    /\ (forall r r',
          1 <= r -> r < r' -> r' <= num_zeros ->
          exists p p',
            select0 sel r = Some p /\ select0 sel r' = Some p' /\ p < p').
Proof.
  intros Hr bv' num_ones num_zeros.
  pose proof (reachable_wf bv Hr) as Hwf0.
  pose proof (update_finalized bv Hwf0) as Hfin. fold bv' in Hfin.
  pose proof (fin_wf _ _ _ Hfin) as Hwf. facts Hwf.
  destruct (select_new_spec bv' heap_zero heap_one Hwf)
    as (sel & E & Eb & _ & _ & Hok).
  exists sel. split; [exact E|].
  assert (Hgen : forall v r r',
            samples_ok bv' v (samples_of v sel) ->
            1 <= r -> r < r' ->
            r' <= ones (wanted bv' v) 0 (_length bv') ->
            exists p p',
              select v sel r = Some p /\ select v sel r' = Some p'
              /\ p < p').
  { intros v r r' Ok H1 H2 H3.
    destruct (select_kth bv' sel v r Hfin Eb Ok ltac:(lia))
      as (p & Ep & Hp & _ & Cp).
    destruct (select_kth bv' sel v r' Hfin Eb Ok ltac:(lia))
      as (p' & Ep' & Hp' & _ & Cp').
    exists p, p'. split; [exact Ep|]. split; [exact Ep'|].
    destruct (Z_lt_le_dec p p') as [|Hge]; [assumption|].
    pose proof (ones_mono (wanted bv' v) 0 p' p ltac:(lia)). lia. }
  split; intros r r' H1 H2 H3.
  - pose proof (ones_bounds (is_set bv') 0 (_length bv') ltac:(lia))
      as Hob.
    destruct (Hok ltac:(unfold num_ones in *; lia)) as [Ok1 _].
    apply (Hgen true r r'); auto.
    rewrite ones_wanted_is_set by (auto; lia). exact H3.
  - pose proof (ones_nonneg (is_set bv') 0 (_length bv')) as Hob.
    destruct (Hok ltac:(unfold num_zeros, num_ones in *; lia))
      as [_ Ok0].
    apply (Hgen false r r'); auto.
    rewrite ones_wanted_is_set by (auto; lia). exact H3.
Qed.

(** *** [update()] of the select structure, called again *)

Lemma record_sample_words total k st st' :
  record_sample BlockWidth BlockHeaderWidth Stride total k st = Some st' ->
  Forall word (fst (fst st)) -> Forall word (fst (fst st')).
Proof.
  destruct st as [[samples cur] thr]. unfold record_sample.
  pose proof SBDW_bounds. pose proof BDW_bounds.
  destruct (thr <=? total); [|intros E; injection E as <-; auto].
  unfold wr. destruct ((0 <=? cur) && (cur <? size samples));
    cbn [bind]; [|discriminate].
  intros E Hw. injection E as <-. cbn [fst].
  apply words_poke; [exact Hw|].
  pose proof (wrap_word (k * BDW)) as Hk. unfold word in *.
  split; [apply Z.div_pos; lia|].
  apply Z.div_lt_upper_bound; [lia|].
  assert (1 * wrap (k * BDW) <= SBDW * wrap (k * BDW))
    by (apply Z.mul_le_mono_nonneg_r; lia).
  assert (SBDW * wrap (k * BDW) < SBDW * 2 ^ 64)
    by (apply Z.mul_lt_mono_pos_l; lia).
  lia.
Qed.

Lemma handle_block_words k num_ones num_zeros st st' :
  handle_block BlockWidth BlockHeaderWidth Stride k num_ones num_zeros st
  = Some st' ->
  Forall word (s_one_samples st) -> Forall word (s_zero_samples st) ->
  Forall word (s_one_samples st') /\ Forall word (s_zero_samples st').
Proof.
  unfold handle_block. intros E H1 H0.
  destruct (record_sample _ _ _ _ _ (s_one_samples st, _, _))
    as [[[s1 c1] t1]|] eqn:E1; cbn [bind] in E; [|discriminate].
  destruct (record_sample _ _ _ _ _ (s_zero_samples st, _, _))
    as [[[s0 c0] t0]|] eqn:E0; cbn [bind] in E; [|discriminate].
  injection E as <-. cbn [s_one_samples s_zero_samples].
  apply record_sample_words in E1; [|exact H1].
  apply record_sample_words in E0; [|exact H0].
  auto.
Qed.

(** [update()] leaves 64-bit values in the sample buffers. *)
Lemma select_update_words sel sel' :
  select_update BlockWidth BlockHeaderWidth Stride sel = Some sel' ->
  Forall word (_one_samples sel) -> Forall word (_zero_samples sel) ->
  Forall word (_one_samples sel') /\ Forall word (_zero_samples sel').
Proof.
  unfold select_update. intros E H1 H0.
  destruct (_length (_bitvector sel) =? 0);
    [injection E as <-; auto|].
  match type of E with
  | context [for_range 0 ?n 1 ?body ?init] =>
      assert (Hn : 0 <= n) by (apply Z.mod_pos_bound; reflexivity);
      pose proof (for_range_iterate body 0 1 n init ltac:(lia) Hn)
        as Eloop;
      assert (Hloop :
        forall st, iterate (Z.to_nat n) 0 1 body init = Some st ->
                   Forall word (s_one_samples st)
                   /\ Forall word (s_zero_samples st))
  end.
  { apply (iterate_invariant
             (fun (_ : Z) ost =>
                forall st, ost = Some st ->
                           Forall word (s_one_samples st)
                           /\ Forall word (s_zero_samples st))).
    - intros st Est. injection Est as <-. auto.
    - intros k [st0|] _ IH st Est; cbn [bind] in Est; [|discriminate].
      destruct (IH st0 eq_refl) as [J1 J0].
      apply handle_block_words in Est; auto. }
  rewrite Z.add_0_l, Z.mul_1_r in Eloop. rewrite Eloop in E.
  destruct (iterate _ 0 1 _ _) as [st|] eqn:Est; cbn [bind] in E;
    [|discriminate].
  destruct (Hloop st eq_refl) as [J1 J0].
  destruct (handle_block _ _ _ _ _ _ st) as [st'|] eqn:Eh;
    cbn [bind] in E; [|discriminate].
  apply handle_block_words in Eh; auto. destruct Eh as [K1 K0].
  unfold wr in E.
  destruct ((0 <=? s_cur_one st') && _); cbn [bind] in E; [|discriminate].
  destruct ((0 <=? s_cur_zero st') && _); cbn [bind] in E; [|discriminate].
  injection E as <-. cbn [_one_samples _zero_samples].
  split; apply words_poke; auto; apply wrap_word.
Qed.

(** X11.  [update()] of the select structure can be called again after
    the bit vector has changed, as long as the new numbers of ones and
    of zeros call for sample buffers of the size allocated by the
    constructor: the structure then answers [select1] and [select0]
    for the new contents.  The structure refers to the bit vector, so
    it sees the vector's new state. *)
Theorem select_update_again bv bv2 heap_zero heap_one :
  reachable bv -> reachable bv2 -> _length bv2 = _length bv ->
  let bv' := update bv in
  let bv2' := update bv2 in
  let num_ones := ones (is_set bv') 0 (_length bv') in
  let num_ones2 := ones (is_set bv2') 0 (_length bv2') in
  num_ones2 / Stride = num_ones / Stride ->
  (_length bv2' - num_ones2) / Stride
  = (_length bv' - num_ones) / Stride ->
  exists sel sel2,
    select_new heap_zero heap_one bv' num_ones = Some sel
    /\ select_update BlockWidth BlockHeaderWidth Stride
         {| _bitvector := bv2'; _zero_samples := _zero_samples sel;
            _one_samples := _one_samples sel |} = Some sel2
    /\ (forall r, 1 <= r <= num_ones2 ->
          exists p, select1 sel2 r = Some p
                    /\ is_set bv2' p = true
                    /\ ones (is_set bv2') 0 p = r - 1)
    /\ (forall r, 1 <= r <= _length bv2' - num_ones2 ->
          exists p, select0 sel2 r = Some p
                    /\ is_set bv2' p = false
                    /\ p - ones (is_set bv2') 0 p = r - 1).
Proof.
  intros Hr Hr2 El bv' bv2' num_ones num_ones2 E1 E0.
  pose proof (reachable_wf bv Hr) as Hwf0.
  pose proof (reachable_wf bv2 Hr2) as Hwf20.
  pose proof (update_finalized bv Hwf0) as Hfin. fold bv' in Hfin.
  pose proof (update_finalized bv2 Hwf20) as Hfin2. fold bv2' in Hfin2.
  pose proof (fin_wf _ _ _ Hfin) as Hwf.
  pose proof (fin_wf _ _ _ Hfin2) as Hwf2. facts Hwf2.
  destruct (select_new_spec bv' heap_zero heap_one Hwf)
    as (sel & E & Eb & S1 & S0 & _).
  fold num_ones in E, S1, S0.
  assert (Hw : Forall word (_one_samples sel)
               /\ Forall word (_zero_samples sel)).
  { unfold select_new in E.
    apply (select_update_words _ _ E); apply words_StaticVector. }
  destruct Hw as [W1 W0].
  destruct (select_update_spec bv2' (_zero_samples sel) (_one_samples sel)
              Hwf2) as (sel2 & E2 & Eb2 & _ & _ & Hok); auto.
  - rewrite (seen_all bv2' true Hwf2). fold num_ones2. lia.
  - rewrite (seen_all bv2' false Hwf2). fold num_ones2. lia.
  - exists sel, sel2. split; [exact E|]. split; [exact E2|].
    pose proof (ones_bounds (is_set bv2') 0 (_length bv2') ltac:(lia))
      as Hob. fold num_ones2 in Hob.
    split; intros r Hrr.
    + destruct (Hok ltac:(lia)) as [Ok1 _].
      destruct (select_kth bv2' sel2 true r Hfin2 Eb2 Ok1)
        as (p & Hsel & Hp & Hw & Hc).
      { rewrite ones_wanted_is_set by (auto; lia). exact Hrr. }
      rewrite wanted_is_set in Hw by auto.
      rewrite ones_wanted_is_set in Hc by (auto; lia).
      exists p. auto.
    + destruct (Hok ltac:(lia)) as [_ Ok0].
      destruct (select_kth bv2' sel2 false r Hfin2 Eb2 Ok0)
        as (p & Hsel & Hp & Hw & Hc).
      { rewrite ones_wanted_is_set by (auto; lia). exact Hrr. }
      rewrite wanted_is_set in Hw by auto.
      rewrite ones_wanted_is_set in Hc by (auto; lia).
      exists p. repeat split; auto.
      destruct (is_set bv2' p); [discriminate|reflexivity].
Qed.

(** [memory_space()] of the select structure, from the sizes of its
    buffers. *)
Lemma select_memory_space_sizes sel a b :
  size (_one_samples sel) = a + 2 -> size (_zero_samples sel) = b + 2 ->
  0 <= a -> 0 <= b -> (a + b + 4) * 64 < 2 ^ 64 ->
  select_memory_space sel = (a + b + 4) * 64.
Proof.
  intros E1 E0 Ha Hb Hs. unfold select_memory_space, kWordWidth.
  rewrite E1, E0. rewrite !wrap_small by (rewrite ?wrap_small; lia).
  ring.
Qed.

End Verification.

(* ===================================================================== *)
(** ** The default instantiation *)
(* ===================================================================== *)

Lemma default_parameters_valid : valid_parameters 512 14.
Proof. split; vm_compute; reflexivity. Qed.

Lemma example_reachable : reachable 512 14 example_bitvector.
Proof.
  unfold example_bitvector.
  apply reach_set; [|cbn; lia].
  apply reach_unset; [|cbn; lia].
  apply reach_unset; [|cbn; lia].
  apply reach_new; [lia|vm_compute; reflexivity].
Qed.

Lemma update_establishes_ranks_witness :
  valid_parameters 512 14 /\ reachable 512 14 example_bitvector
  /\ let bv' := update 512 14 example_bitvector in
     (forall s b,
         0 <= b < _num_blocks bv' -> b / kNumBlocksPerSuperblock 512 14 = s ->
         header 512 14 bv' b
         = ones (is_set 512 14 bv') (s * kSuperblockDataWidth 512 14)
             (b * kBlockDataWidth 512 14))
     /\ (forall s,
         0 <= s < _num_superblocks bv' ->
         rd (_superblock_data bv') s
         = Some (ones (is_set 512 14 bv') 0 (s * kSuperblockDataWidth 512 14))).
Proof.
  split; [exact default_parameters_valid|].
  split; [exact example_reachable|].
  exact (update_establishes_ranks 512 14 default_parameters_valid
           example_bitvector example_reachable).
Defined.

Lemma update_preserves_is_set_witness :
  valid_parameters 512 14 /\ reachable 512 14 example_bitvector
  /\ (forall p, 0 <= p < _length example_bitvector ->
        is_set 512 14 (update 512 14 example_bitvector) p
        = is_set 512 14 example_bitvector p).
Proof.
  split; [exact default_parameters_valid|].
  split; [exact example_reachable|].
  exact (proj1 (update_preserves_is_set 512 14 default_parameters_valid
                  example_bitvector example_reachable)).
Defined.



Lemma update_pad_headers_witness :
  valid_parameters 512 14 /\ reachable 512 14 example_bitvector
  /\ let bv' := update 512 14 example_bitvector in
     forall b,
       _num_blocks bv' <= b
       < _num_blocks bv' + kNumBlocksPerSuperblock 512 14 ->
       peek (_data bv') (b * kNumWordsPerBlock 512)
       = ones (is_set 512 14 bv')
           (b / kNumBlocksPerSuperblock 512 14 * kSuperblockDataWidth 512 14)
           (_length bv')
       /\ header 512 14 bv' b
          = ones (is_set 512 14 bv')
              (b / kNumBlocksPerSuperblock 512 14
               * kSuperblockDataWidth 512 14)
              (_length bv')
       /\ (_length bv'
           <= b / kNumBlocksPerSuperblock 512 14 * kSuperblockDataWidth 512 14
           -> header 512 14 bv' b = 0).
Proof.
  split; [exact default_parameters_valid|].
  split; [exact example_reachable|].
  exact (update_pad_headers 512 14 default_parameters_valid
           example_bitvector example_reachable).
Defined.

(** C7, as stated, fails: a padding block in the superblock of the last
    real block carries the number of ones of that superblock.  With the
    block width 1536, which is no power of two, the first word of pad
    block 45 holds 66881, the ones of the whole vector, where its
    superblock holds 2017 of them. *)
Lemma pad_header_not_zero :
  let bv := update 512 14 example_bitvector in
  let wide := update 1536 16 example_wide_blocks in
  (_num_blocks bv <= 1 < _num_blocks bv + kNumBlocksPerSuperblock 512 14
   /\ header 512 14 bv 1 = 1)
  /\ (static_asserts 1536 16 = true
      /\ _num_blocks wide <= 45
         < _num_blocks wide + kNumBlocksPerSuperblock 1536 16
      /\ header 1536 16 wide 45 = 1345
      /\ peek (_data wide) (45 * kNumWordsPerBlock 1536) = 66881
      /\ ones (is_set 1536 16 wide)
           (45 / kNumBlocksPerSuperblock 1536 16
            * kSuperblockDataWidth 1536 16) (_length wide) = 2017).
Proof. vm_compute. repeat split; congruence. Qed.

Lemma rank_correct_witness :
  valid_parameters 512 14 /\ reachable 512 14 example_bitvector
  /\ 0 <= 3 <= _length (update 512 14 example_bitvector)
  /\ rank1 512 14 (update 512 14 example_bitvector) 3
     = Some (ones (is_set 512 14 (update 512 14 example_bitvector)) 0 3)
  /\ rank0 512 14 (update 512 14 example_bitvector) 3
     = Some (3 - ones (is_set 512 14 (update 512 14 example_bitvector)) 0 3).
Proof.
  split; [exact default_parameters_valid|].
  split; [exact example_reachable|].
  assert (H : 0 <= 3 <= _length (update 512 14 example_bitvector))
    by (cbn; lia).
  split; [exact H|].
  apply (proj1 (rank_correct 512 14 default_parameters_valid
                  example_bitvector 3 example_reachable H)).
  right. vm_compute. discriminate.
Defined.

(** C1, as stated, fails in two ways.  At [p = n] when [n] is a multiple
    of the superblock data width: the empty vector, and a vector that
    fills one superblock exactly.  And with the block width 1536, which
    the [static_assert]s accept and which is no power of two: blocks and
    superblocks do not line up, [update()] never writes
    [superblock_data[1]], the block ranks run on past [2^16], and
    [rank1 (66000)] is 65999 where 66000 bits are set below. *)
Lemma rank_claim_fails :
  (let empty := update 512 14 (new 512 14 dirty_heap dirty_heap 0) in
   0 <= 0 <= _length empty /\ rank1 512 14 empty 0 = None
   /\ rank1 512 14 empty 0 <> Some (ones (is_set 512 14 empty) 0 0))
  /\ (let full := update 512 14 (new 512 14 dirty_heap dirty_heap 15936) in
      0 <= 15936 <= _length full /\ rank1 512 14 full 15936 = None
      /\ rank1 512 14 full 15936
         <> Some (ones (is_set 512 14 full) 0 15936))
  /\ (let wide := update 1536 16 example_wide_blocks in
      static_asserts 1536 16 = true /\ 0 <= 66000 < _length wide
      /\ rank1 1536 16 wide 66000 = Some 65999
      /\ ones (is_set 1536 16 wide) 0 66000 = 66000
      /\ rd (_superblock_data wide) 1 = Some (full_heap 1)
      /\ header 1536 16 wide 43 = 65360).
Proof. split; [|split]; vm_compute; repeat split; congruence. Qed.

(* ===================================================================== *)
(** ** The select structure on the worked example *)
(* ===================================================================== *)

Lemma default_stride_valid : valid_stride 512 32768.
Proof.
  split; [reflexivity|]. unfold kBlockWidth.
  split; [lia|]. vm_compute. reflexivity.
Qed.



Lemma select_sample_sizes_witness :
  valid_parameters 512 14 /\ valid_stride 512 32768
  /\ reachable 512 14 example_bitvector
  /\ let num_ones :=
       ones (is_set 512 14 example_bitvector) 0 (_length example_bitvector) in
     let num_zeros := _length example_bitvector - num_ones in
     exists sel,
       select_new 512 14 32768 dirty_heap dirty_heap example_bitvector
         num_ones = Some sel
       /\ size (_one_samples sel) = num_ones / 32768 + 2
       /\ size (_zero_samples sel) = num_zeros / 32768 + 2
       /\ select_memory_space sel
          = (num_ones / 32768 + num_zeros / 32768 + 4) * 64.
Proof.
  split; [exact default_parameters_valid|].
  split; [exact default_stride_valid|].
  split; [exact example_reachable|].
  exact (select_sample_sizes 512 14 default_parameters_valid 32768
           default_stride_valid example_bitvector dirty_heap dirty_heap
           example_reachable).
Defined.

(** C8, as stated, fails: with one set bit and two cleared bits and the
    default stride, either sample buffer holds two entries, not
    [ceil (1 / 32768) + 2 = 3] and [ceil (2 / 32768) + 2 = 3], and
    [memory_space()] returns 256, not [(1 + 1 + 4) * 64 = 384]. *)
Lemma sample_buffers_not_ceil :
  let bv := update 512 14 example_bitvector in
  let num_ones := ones (is_set 512 14 bv) 0 (_length bv) in
  let num_zeros := _length bv - num_ones in
  let sel := select_new 512 14 32768 dirty_heap dirty_heap bv num_ones in
  num_ones = 1 /\ num_zeros = 2
  /\ option_map (fun s => size (_one_samples s)) sel = Some 2
  /\ math.div_ceil num_ones 32768 + 2 = 3
  /\ option_map (fun s => size (_zero_samples s)) sel = Some 2
  /\ math.div_ceil num_zeros 32768 + 2 = 3
  /\ option_map select_memory_space sel = Some 256
  /\ (math.div_ceil num_ones 32768 + math.div_ceil num_zeros 32768 + 4) * 64
     = 384.
Proof. vm_compute. repeat split; reflexivity. Qed.

(* ===================================================================== *)
(** ** Outside the parameter domain *)
(* ===================================================================== *)

(** C3, as stated, fails with the block width 1536, which the
    [static_assert]s accept and which is no power of two: a superblock of
    [2^16] bits is no whole number of blocks, so [update()], which begins
    a superblock at a block whose first word is a multiple of 1024 words,
    begins none after block 0.  Block 43 lies in superblock 1 and its
    header counts the ones from position 0, and [superblock_data[1]] is
    left as the allocator handed it out. *)
Lemma update_ranks_wide_blocks :
  let bv := update 1536 16 example_wide_blocks in
  static_asserts 1536 16 = true
  /\ (0 <= 43 < _num_blocks bv /\ 43 / kNumBlocksPerSuperblock 1536 16 = 1
      /\ header 1536 16 bv 43 = 65360
      /\ ones (is_set 1536 16 bv) (1 * kSuperblockDataWidth 1536 16)
           (43 * kBlockDataWidth 1536 16) = 496)
  /\ (0 <= 1 < _num_superblocks bv
      /\ rd (_superblock_data bv) 1 = Some (full_heap 1)
      /\ ones (is_set 1536 16 bv) 0 (1 * kSuperblockDataWidth 1536 16)
         = 64864).
Proof. vm_compute. repeat split; congruence. Qed.

(** C5, as stated, fails in two ways.  With the block width 1536 the
    block rank written into the first word of block 44 is 66880, which
    does not fit the 16 header bits: bit 16 of the word, the payload bit
    of position 66880, is set by [update()].  And with any block width
    the second loop of [update()] assigns the whole first word of a pad
    block: bit 20 of the first word of pad block 1 of the worked example
    is cleared. *)
Lemma update_changes_payload_bits :
  (static_asserts 1536 16 = true
   /\ 0 <= 66880 < _length example_wide_blocks
   /\ is_set 1536 16 example_wide_blocks 66880 = false
   /\ is_set 1536 16 (update 1536 16 example_wide_blocks) 66880 = true)
  /\ (_num_blocks example_bitvector <= 1
      /\ kBlockHeaderWidth 14 <= 20 < 64
      /\ Z.testbit
           (peek (_data example_bitvector) (1 * kNumWordsPerBlock 512)) 20
         = true
      /\ Z.testbit
           (peek (_data (update 512 14 example_bitvector))
              (1 * kNumWordsPerBlock 512)) 20
         = false).
Proof. vm_compute. repeat split; congruence. Qed.




(** The [static_assert] on the block width accepts every even width.
    With a width that does not divide the superblock width the superblock
    table is not maintained, and [rank1] past the first superblock is
    off. *)
Remark block_width_not_power_of_two :
  static_asserts 1536 16 = true /\ power_of_two 1536 = false
  /\ let bv := update 1536 16 (new 1536 16 dirty_heap dirty_heap 70000) in
     rank1 1536 16 bv 65000 <> Some (ones (is_set 1536 16 bv) 0 65000).
Proof.
  split; [reflexivity|]. split; [reflexivity|].
  vm_compute. congruence.
Qed.

(** [handle_block] records at most one sample of a kind per block.  With
    a stride below the block width a sample is missing: on five zeros and
    stride 2, [select0 (3)] reads the sample slot nobody wrote and probes
    the superblock table far outside. *)
Remark stride_below_block_width :
  select_static_asserts 2 = true
  /\ let bv :=
       update 512 14
         (for_range 0 5 1 (fun pos bv => unset 512 14 bv pos)
            (new 512 14 dirty_heap dirty_heap 5)) in
     option_map (fun sel => select0 512 14 true 2 true sel 3)
       (select_new 512 14 2 dirty_heap dirty_heap bv 0)
     = Some None.
Proof. split; vm_compute; reflexivity. Qed.

(* ===================================================================== *)
(** ** [update()] called twice *)
(* ===================================================================== *)

(** A second [update()] writes what the first one wrote.  The argument
    needs no more of the template parameters than the [static_assert]s of
    the class: either loop of [update()] writes one word per block, and
    what it writes into a block depends only on the words of the blocks
    before it, which it has written already. *)

Lemma upd_same v n x :
  ((n < length v)%nat -> nth n v 0 = x) -> upd v n x = v.
Proof.
  revert n. induction v as [|h t IH]; intros [|n] H; cbn in *; auto.
  - rewrite H by lia. reflexivity.
  - f_equal. apply IH. intros Hn. apply H. lia.
Qed.

Lemma poke_same v i x :
  0 <= i -> (i < size v -> peek v i = x) -> poke v i x = v.
Proof.
  intros Hi H. unfold poke. apply upd_same. intros Hn. apply H.
  unfold size. lia.
Qed.

Lemma peek_poke_other v i x j :
  0 <= i -> 0 <= j -> j <> i -> peek (poke v i x) j = peek v j.
Proof.
  intros Hi Hj Hne. destruct (Z_lt_le_dec i (size v)) as [Hlt|Hge].
  - apply peek_poke_ne; lia.
  - rewrite poke_same; [reflexivity|lia|lia].
Qed.

Lemma header_write_again x m r :
  Z.lor (Z.land (Z.lor (Z.land x m) r) m) r = Z.lor (Z.land x m) r.
Proof.
  apply Z.bits_inj'. intros n Hn.
  rewrite !Z.lor_spec, !Z.land_spec, !Z.lor_spec, !Z.land_spec.
  destruct (Z.testbit x n), (Z.testbit m n), (Z.testbit r n); reflexivity.
Qed.

Lemma iterate_ext {S : Type} (f g : Z -> S -> S) n start step st :
  (forall k s, 0 <= k < Z.of_nat n ->
               f (start + k * step) s = g (start + k * step) s) ->
  iterate n start step f st = iterate n start step g st.
Proof.
  induction n as [|n IH]; intros H; cbn [iterate]; [reflexivity|].
  rewrite IH by (intros k s Hk; apply H; lia). apply H. lia.
Qed.

Lemma for_range_preserves {S : Type} (P : S -> Prop) start stop step
    (body : Z -> S -> S) st :
  P st -> (forall i s, P s -> P (body i s)) ->
  P (for_range start stop step body st).
Proof.
  intros H0 Hstep. unfold for_range.
  generalize (Z.to_nat (stop - start)) as fuel. intros fuel.
  revert start st H0. induction fuel as [|fuel IH]; intros start st H0;
    cbn [for_loop]; [exact H0|].
  destruct (start <? stop); [|exact H0]. apply IH. apply Hstep. exact H0.
Qed.

Section UpdateTwice.

Variables BlockWidth BlockHeaderWidth : Z.
Hypothesis Hasserts : static_asserts BlockWidth BlockHeaderWidth = true.

Local Abbreviation BW := (kBlockWidth BlockWidth).
Local Abbreviation BHW := (kBlockHeaderWidth BlockHeaderWidth).
Local Abbreviation BDW := (kBlockDataWidth BlockWidth BlockHeaderWidth).
Local Abbreviation HDW := (kHeaderDataWidth BlockHeaderWidth).
Local Abbreviation WPB := (kNumWordsPerBlock BlockWidth).
Local Abbreviation BPSB :=
  (kNumBlocksPerSuperblock BlockWidth BlockHeaderWidth).
Local Abbreviation WPSB := (kNumWordsPerSuperblock BlockHeaderWidth).
Local Abbreviation reachable := (reachable BlockWidth BlockHeaderWidth).
Local Abbreviation finalize := (update BlockWidth BlockHeaderWidth).
Local Abbreviation run := (update_run BlockWidth BlockHeaderWidth).
Local Abbreviation block_step :=
  (update_block BlockWidth BlockHeaderWidth).
Local Abbreviation pad_step := (update_pad BlockHeaderWidth).
Local Abbreviation popcount_at :=
  (block_popcount_at BlockWidth BlockHeaderWidth).
Local Abbreviation blocks k st := (iterate k 0 WPB block_step st).
Local Abbreviation pads start m st := (iterate m start WPB pad_step st).

Lemma asserted_bounds :
  64 < BW /\ BHW <= 64 /\ 1 <= WPB /\ 0 <= BPSB /\ 1 <= BDW.
Proof.
  unfold static_asserts in Hasserts.
  rewrite !andb_true_iff in Hasserts.
  destruct Hasserts as [[[_ H1] H2] H3].
  apply Z.ltb_lt in H1, H3. apply Z.leb_le in H2.
  repeat split; try assumption.
  - unfold kNumWordsPerBlock, kWordWidth.
    apply Z.div_le_lower_bound; lia.
  - unfold kNumBlocksPerSuperblock, kSuperblockWidth.
    apply Z.div_pos; [|lia]. unfold kBlockHeaderWidth in H3. lia.
  - unfold kBlockDataWidth. lia.
Qed.

(** *** The sizes of the buffers *)

Lemma update_block_sizes i st :
  size (u_data (block_step i st)) = size (u_data st)
  /\ size (u_superblock_data (block_step i st))
     = size (u_superblock_data st).
Proof.
  unfold update_block, begin_superblock.
  destruct (i mod _ =? 0); cbn [u_data u_superblock_data];
    rewrite ?size_poke; split; reflexivity.
Qed.

Lemma update_pad_sizes i st :
  size (u_data (pad_step i st)) = size (u_data st)
  /\ u_superblock_data (pad_step i st) = u_superblock_data st
  /\ u_cur_rank (pad_step i st) = u_cur_rank st
  /\ u_cur_num_super_block (pad_step i st) = u_cur_num_super_block st.
Proof.
  unfold update_pad.
  cbn [u_data u_superblock_data u_cur_rank u_cur_num_super_block].
  rewrite size_poke. repeat split; reflexivity.
Qed.

Lemma blocks_sizes k st :
  size (u_data (blocks k st)) = size (u_data st)
  /\ size (u_superblock_data (blocks k st))
     = size (u_superblock_data st).
Proof.
  induction k as [|k IH]; cbn [iterate]; [split; reflexivity|].
  destruct (update_block_sizes (0 + Z.of_nat k * WPB) (blocks k st))
    as [E1 E2].
  rewrite E1, E2. exact IH.
Qed.

Lemma pads_sizes start m st :
  size (u_data (pads start m st)) = size (u_data st)
  /\ u_superblock_data (pads start m st) = u_superblock_data st
  /\ u_cur_rank (pads start m st) = u_cur_rank st
  /\ u_cur_num_super_block (pads start m st) = u_cur_num_super_block st.
Proof.
  induction m as [|m IH]; cbn [iterate]; [repeat split; reflexivity|].
  destruct (update_pad_sizes (start + Z.of_nat m * WPB) (pads start m st))
    as (E1 & E2 & E3 & E4).
  rewrite E1, E2, E3, E4. exact IH.
Qed.

Lemma update_run_sizes bv :
  size (u_data (run bv)) = size (_data bv)
  /\ size (u_superblock_data (run bv))
     = size (_superblock_data bv).
Proof.
  unfold update_run.
  apply (for_range_preserves
           (fun st => size (u_data st) = size (_data bv)
                      /\ size (u_superblock_data st)
                         = size (_superblock_data bv))).
  - apply (for_range_preserves
             (fun st => size (u_data st) = size (_data bv)
                        /\ size (u_superblock_data st)
                           = size (_superblock_data bv))).
    + split; reflexivity.
    + intros i s [H1 H2]. destruct (update_block_sizes i s) as [E1 E2].
      rewrite E1, E2. split; assumption.
  - intros i s [H1 H2]. destruct (update_pad_sizes i s) as (E1 & E2 & _).
    rewrite E1, E2. split; assumption.
Qed.

(** The buffer of a vector a client can build holds its blocks and the
    padding blocks. *)
Lemma reachable_buffer bv :
  reachable bv ->
  0 <= _num_blocks bv < 2 ^ 63
  /\ size (_data bv) = _num_blocks bv * WPB + BPSB * WPB.
Proof.
  destruct asserted_bounds as (B1 & B2 & B3 & B4 & B5).
  induction 1 as [heap_data heap_superblock length Hl Hs
                 |bv pos Hr IH Hp|bv pos Hr IH Hp|bv pos value Hr IH Hp
                 |bv Hr IH].
  - unfold new. cbn [_num_blocks _data].
    set (nb := math.div_ceil length BDW) in *.
    assert (Hnb : 0 <= nb).
    { unfold nb, math.div_ceil.
      assert (0 <= length / BDW) by (apply Z.div_pos; lia).
      destruct (negb (length mod BDW =? 0)); cbn [Z.b2z]; lia. }
    assert (Hsmall : nb < 2 ^ 63).
    { assert ((nb + BPSB) * 1 <= (nb + BPSB) * BW)
        by (apply Z.mul_le_mono_nonneg_l; lia).
      lia. }
    assert (Hsz : 0 <= nb * WPB + BPSB * WPB).
    { assert (0 <= nb * WPB) by (apply Z.mul_nonneg_nonneg; lia).
      assert (0 <= BPSB * WPB) by (apply Z.mul_nonneg_nonneg; lia).
      lia. }
    split; [lia|].
    destruct (0 <? nb); rewrite ?size_fill_n, size_StaticVector by lia;
      reflexivity.
  - unfold set, with_data. cbn [_num_blocks _data]. rewrite size_poke.
    exact IH.
  - unfold unset, with_data. cbn [_num_blocks _data]. rewrite size_poke.
    exact IH.
  - unfold set_value, with_data. cbn [_num_blocks _data].
    rewrite size_poke. exact IH.
  - unfold update. cbn [_num_blocks _data].
    destruct (update_run_sizes bv) as [E _]. rewrite E. exact IH.
Qed.

(** [update()] as two counted loops. *)
Lemma update_run_loops bv :
  reachable bv ->
  run bv
  = pads (_num_blocks bv * WPB) (Z.to_nat BPSB)
      (blocks (Z.to_nat (_num_blocks bv))
         {| u_data := _data bv;
            u_superblock_data := _superblock_data bv;
            u_cur_rank := 0; u_cur_block_rank := 0;
            u_cur_num_super_block := 0 |}).
Proof.
  intros Hr. destruct (reachable_buffer bv Hr) as [Hnb Hsz].
  destruct asserted_bounds as (B1 & B2 & B3 & B4 & B5).
  unfold update_run. rewrite Hsz.
  rewrite (for_range_iterate _ (_num_blocks bv * WPB) WPB BPSB)
    by lia.
  replace (_num_blocks bv * WPB) with (0 + _num_blocks bv * WPB) at 1
    by lia.
  rewrite (for_range_iterate _ 0 WPB (_num_blocks bv)) by lia.
  reflexivity.
Qed.

(** *** What a later iteration leaves alone *)

Lemma update_block_data i st :
  u_data (block_step i st)
  = poke (u_data st) i
      (Z.lor (Z.land (peek (u_data st) i) (math.setbits HDW BHW))
             (if i mod WPSB =? 0 then 0 else u_cur_block_rank st)).
Proof.
  unfold update_block, begin_superblock.
  destruct (i mod _ =? 0); reflexivity.
Qed.

Lemma blocks_frame_data st k m j :
  0 <= j < Z.of_nat k * WPB ->
  peek (u_data (blocks (k + m) st)) j = peek (u_data (blocks k st)) j.
Proof.
  intros Hj. destruct asserted_bounds as (B1 & B2 & B3 & B4 & B5).
  induction m as [|m IH].
  - rewrite Nat.add_0_r. reflexivity.
  - rewrite Nat.add_succ_r. cbn [iterate]. rewrite update_block_data.
    rewrite peek_poke_other; [exact IH| |lia|].
    + assert (0 <= Z.of_nat (k + m) * WPB)
        by (apply Z.mul_nonneg_nonneg; lia).
      lia.
    + assert (Z.of_nat k * WPB <= Z.of_nat (k + m) * WPB)
        by (apply Z.mul_le_mono_nonneg_r; lia).
      lia.
Qed.

Lemma pads_frame_data st start m m' j :
  0 <= start -> 0 <= j < start + Z.of_nat m * WPB ->
  peek (u_data (pads start (m + m') st)) j
  = peek (u_data (pads start m st)) j.
Proof.
  intros Hs Hj. destruct asserted_bounds as (B1 & B2 & B3 & B4 & B5).
  induction m' as [|m' IH].
  - rewrite Nat.add_0_r. reflexivity.
  - rewrite Nat.add_succ_r. cbn [iterate].
    unfold update_pad at 1. cbn [u_data].
    rewrite peek_poke_other; [exact IH| |lia|].
    + assert (0 <= Z.of_nat (m + m') * WPB)
        by (apply Z.mul_nonneg_nonneg; lia).
      lia.
    + assert (Z.of_nat m * WPB <= Z.of_nat (m + m') * WPB)
        by (apply Z.mul_le_mono_nonneg_r; lia).
      lia.
Qed.

(** The index of the next entry of the superblock table. *)
Lemma update_block_counter i st :
  u_cur_num_super_block (block_step i st)
  = if i mod WPSB =? 0 then wrap (u_cur_num_super_block st + 1)
    else u_cur_num_super_block st.
Proof.
  unfold update_block, begin_superblock.
  destruct (i mod _ =? 0); reflexivity.
Qed.

Lemma update_block_table i st :
  u_superblock_data (block_step i st)
  = if i mod WPSB =? 0
    then poke (u_superblock_data st) (u_cur_num_super_block st)
           (wrap (u_cur_rank st + u_cur_block_rank st))
    else u_superblock_data st.
Proof.
  unfold update_block, begin_superblock.
  destruct (i mod _ =? 0); reflexivity.
Qed.

Lemma blocks_counter st k :
  u_cur_num_super_block st = 0 -> Z.of_nat k < 2 ^ 63 ->
  0 <= u_cur_num_super_block (blocks k st) <= Z.of_nat k.
Proof.
  intros H0. induction k as [|k IH]; intros Hk; cbn [iterate].
  - rewrite H0. lia.
  - rewrite update_block_counter. specialize (IH ltac:(lia)).
    assert (E63 : 2 ^ 63 + 2 ^ 63 = 2 ^ 64) by reflexivity.
    destruct (_ =? 0); [rewrite wrap_small by lia|]; lia.
Qed.

Lemma blocks_counter_mono st k m :
  u_cur_num_super_block st = 0 -> Z.of_nat (k + m) < 2 ^ 63 ->
  u_cur_num_super_block (blocks k st)
  <= u_cur_num_super_block (blocks (k + m) st).
Proof.
  intros H0. induction m as [|m IH]; intros Hk.
  - rewrite Nat.add_0_r. lia.
  - rewrite Nat.add_succ_r in *. cbn [iterate].
    rewrite update_block_counter. specialize (IH ltac:(lia)).
    pose proof (blocks_counter st (k + m) H0 ltac:(lia)).
    assert (E63 : 2 ^ 63 + 2 ^ 63 = 2 ^ 64) by reflexivity.
    destruct (_ =? 0); [rewrite wrap_small by lia|]; lia.
Qed.

Lemma blocks_frame_table st k m j :
  u_cur_num_super_block st = 0 -> Z.of_nat (k + m) < 2 ^ 63 ->
  0 <= j < u_cur_num_super_block (blocks k st) ->
  peek (u_superblock_data (blocks (k + m) st)) j
  = peek (u_superblock_data (blocks k st)) j.
Proof.
  intros H0 Hk Hj. induction m as [|m IH].
  - rewrite Nat.add_0_r. reflexivity.
  - rewrite Nat.add_succ_r in *. cbn [iterate].
    rewrite update_block_table. specialize (IH ltac:(lia)).
    pose proof (blocks_counter_mono st k m H0 ltac:(lia)).
    destruct (_ =? 0); [|exact IH].
    rewrite peek_poke_other; [exact IH|lia|lia|lia].
Qed.

(** *** One iteration, run again on the final buffers *)

Lemma block_popcount_at_ext d1 d2 base :
  (forall j, base <= j < base + WPB -> peek d1 j = peek d2 j) ->
  popcount_at d1 base = popcount_at d2 base.
Proof.
  intros H. destruct asserted_bounds as (B1 & B2 & B3 & B4 & B5).
  unfold block_popcount_at.
  assert (E : forall (body : Z -> Z -> Z) st,
             for_range 1 WPB 1 body st
             = iterate (Z.to_nat (WPB - 1)) 1 1 body st).
  { intros body st. replace WPB with (1 + (WPB - 1) * 1) at 1 by lia.
    apply for_range_iterate; lia. }
  rewrite !E.
  rewrite (H base) by lia.
  apply iterate_ext. intros k s Hk. rewrite (H (base + (1 + k * 1))) by lia.
  reflexivity.
Qed.

Lemma update_block_again i st final_data final_table :
  0 <= i ->
  size final_data = size (u_data st) ->
  size final_table = size (u_superblock_data st) ->
  (forall j, i <= j < i + WPB ->
             peek final_data j = peek (u_data (block_step i st)) j) ->
  (i mod WPSB = 0 ->
   0 <= u_cur_num_super_block st
   /\ peek final_table (u_cur_num_super_block st)
      = peek (u_superblock_data (block_step i st))
          (u_cur_num_super_block st)) ->
  block_step i
    {| u_data := final_data; u_superblock_data := final_table;
       u_cur_rank := u_cur_rank st;
       u_cur_block_rank := u_cur_block_rank st;
       u_cur_num_super_block := u_cur_num_super_block st |}
  = {| u_data := final_data; u_superblock_data := final_table;
       u_cur_rank := u_cur_rank (block_step i st);
       u_cur_block_rank := u_cur_block_rank (block_step i st);
       u_cur_num_super_block :=
         u_cur_num_super_block (block_step i st) |}.
Proof.
  intros Hi Hsd Hst Hdata Htable.
  destruct asserted_bounds as (B1 & B2 & B3 & B4 & B5).
  pose proof (Hdata i ltac:(lia)) as Hword.
  rewrite update_block_data in Hword.
  assert (Ewrite :
    forall r,
      r = (if i mod WPSB =? 0 then 0 else u_cur_block_rank st) ->
      poke final_data i
        (Z.lor (Z.land (peek final_data i) (math.setbits HDW BHW)) r)
      = final_data).
  { intros r ->. apply poke_same; [exact Hi|]. intros Hlt.
    rewrite Hword. rewrite peek_poke_eq by lia.
    symmetry. apply header_write_again. }
  assert (Ecount : popcount_at final_data i
                   = popcount_at (u_data (block_step i st)) i).
  { apply block_popcount_at_ext. exact Hdata. }
  rewrite update_block_table in Htable.
  rewrite update_block_data in Ecount.
  unfold update_block, begin_superblock in *.
  destruct (Z.eqb_spec (i mod WPSB) 0) as [E0|E0];
    cbn [u_data u_superblock_data u_cur_rank u_cur_block_rank
         u_cur_num_super_block] in *.
  - destruct (Htable E0) as [Hc Htab].
    rewrite (Ewrite 0 eq_refl), Ecount. f_equal.
    apply poke_same; [exact Hc|]. intros Hlt.
    rewrite Htab. rewrite peek_poke_eq by lia. reflexivity.
  - rewrite (Ewrite _ eq_refl), Ecount. reflexivity.
Qed.

Lemma update_pad_again i st final_data final_table :
  0 <= i ->
  size final_data = size (u_data st) ->
  peek final_data i = peek (u_data (pad_step i st)) i ->
  pad_step i
    {| u_data := final_data; u_superblock_data := final_table;
       u_cur_rank := u_cur_rank st;
       u_cur_block_rank := u_cur_block_rank st;
       u_cur_num_super_block := u_cur_num_super_block st |}
  = {| u_data := final_data; u_superblock_data := final_table;
       u_cur_rank := u_cur_rank st;
       u_cur_block_rank := u_cur_block_rank (pad_step i st);
       u_cur_num_super_block := u_cur_num_super_block st |}.
Proof.
  intros Hi Hsd Hword.
  unfold update_pad in *.
  cbn [u_data u_superblock_data u_cur_rank u_cur_block_rank
       u_cur_num_super_block] in *.
  f_equal. apply poke_same; [exact Hi|]. intros Hlt.
  rewrite Hword. rewrite peek_poke_eq by lia. reflexivity.
Qed.

(** *** The second call *)

Lemma update_again bv :
  reachable bv -> finalize (finalize bv) = finalize bv.
Proof.
  intros Hr.
  destruct (reachable_buffer bv Hr) as [Hnb Hsz].
  destruct asserted_bounds as (B1 & B2 & B3 & B4 & B5).
  pose proof (update_run_loops bv Hr) as E1.
  pose proof (update_run_loops (finalize bv) (reach_update _ _ bv Hr)) as E2.
  unfold update at 1. unfold update at 2.
  cbn [_length _num_blocks _num_superblocks _data _superblock_data] in *.
  fold (finalize bv). rewrite E2. clear E2.
  unfold update. cbn [_num_blocks _data _superblock_data].
  rewrite E1. clear E1.
  set (n := Z.to_nat (_num_blocks bv)).
  set (n2 := Z.to_nat BPSB).
  set (start := _num_blocks bv * WPB).
  set (st0 := {| u_data := _data bv;
                 u_superblock_data := _superblock_data bv;
                 u_cur_rank := 0; u_cur_block_rank := 0;
                 u_cur_num_super_block := 0 |}).
  set (final := pads start n2 (blocks n st0)).
  assert (Hn : Z.of_nat n = _num_blocks bv) by (unfold n; lia).
  assert (Hstart : start = Z.of_nat n * WPB) by (unfold start; lia).
  assert (Hstart0 : 0 <= start)
    by (rewrite Hstart; apply Z.mul_nonneg_nonneg; lia).
  destruct (pads_sizes start n2 (blocks n st0)) as (Fd & Ft & Fr & Fc).
  fold final in Fd, Ft, Fr, Fc.
  (* the first loop *)
  assert (J1 : forall k, (k <= n)%nat ->
            blocks k {| u_data := u_data final;
                        u_superblock_data := u_superblock_data final;
                        u_cur_rank := 0; u_cur_block_rank := 0;
                        u_cur_num_super_block := 0 |}
            = {| u_data := u_data final;
                 u_superblock_data := u_superblock_data final;
                 u_cur_rank := u_cur_rank (blocks k st0);
                 u_cur_block_rank := u_cur_block_rank (blocks k st0);
                 u_cur_num_super_block :=
                   u_cur_num_super_block (blocks k st0) |}).
  { induction k as [|k IH]; intros Hk; [reflexivity|].
    cbn [iterate]. rewrite IH by lia.
    destruct (blocks_sizes k st0) as [Sd St].
    assert (Hi : 0 <= 0 + Z.of_nat k * WPB)
      by (apply Z.add_nonneg_nonneg; [lia|];
          apply Z.mul_nonneg_nonneg; lia).
    apply update_block_again.
    - exact Hi.
    - rewrite Fd. destruct (blocks_sizes n st0) as [Sn _].
      rewrite Sn, Sd. reflexivity.
    - rewrite Ft. destruct (blocks_sizes n st0) as [_ Sn].
      rewrite Sn, St. reflexivity.
    - intros j Hj. unfold final.
      assert (Hjn : j < Z.of_nat (S k) * WPB) by lia.
      assert (Hkn : Z.of_nat (S k) * WPB <= Z.of_nat n * WPB)
        by (apply Z.mul_le_mono_nonneg_r; lia).
      rewrite <- (Nat.add_0_l n2).
      rewrite pads_frame_data by (cbn [iterate]; lia).
      cbn [iterate].
      replace n with (S k + (n - S k))%nat by lia.
      rewrite blocks_frame_data by lia. reflexivity.
    - intros E0.
      pose proof (blocks_counter st0 k eq_refl ltac:(lia)) as Hc.
      split; [lia|].
      rewrite Ft.
      replace n with (S k + (n - S k))%nat by lia.
      rewrite blocks_frame_table; [reflexivity|reflexivity|lia|].
      cbn [iterate]. rewrite update_block_counter.
      replace (0 + Z.of_nat k * WPB) with (Z.of_nat k * WPB) in E0 |- *
        by lia.
      rewrite E0. cbn [Z.eqb].
      assert (E63 : 2 ^ 63 + 2 ^ 63 = 2 ^ 64) by reflexivity.
      rewrite wrap_small by lia. lia. }
  rewrite (J1 n (Nat.le_refl n)).
  (* the second loop *)
  assert (J2 : forall m, (m <= n2)%nat ->
            pads start m
              {| u_data := u_data final;
                 u_superblock_data := u_superblock_data final;
                 u_cur_rank := u_cur_rank (blocks n st0);
                 u_cur_block_rank := u_cur_block_rank (blocks n st0);
                 u_cur_num_super_block :=
                   u_cur_num_super_block (blocks n st0) |}
            = {| u_data := u_data final;
                 u_superblock_data := u_superblock_data final;
                 u_cur_rank := u_cur_rank (blocks n st0);
                 u_cur_block_rank :=
                   u_cur_block_rank (pads start m (blocks n st0));
                 u_cur_num_super_block :=
                   u_cur_num_super_block (blocks n st0) |}).
  { induction m as [|m IH]; intros Hm; [reflexivity|].
    cbn [iterate]. rewrite IH by lia.
    destruct (pads_sizes start m (blocks n st0)) as (Pd & Pt & Pr & Pc).
    assert (Hi : 0 <= start + Z.of_nat m * WPB)
      by (apply Z.add_nonneg_nonneg; [lia|];
          apply Z.mul_nonneg_nonneg; lia).
    rewrite <- Pr at 1 2. rewrite <- Pc at 1 2.
    rewrite update_pad_again.
    - rewrite Pr, Pc. reflexivity.
    - exact Hi.
    - rewrite Fd, Pd. reflexivity.
    - unfold final.
      replace n2 with (S m + (n2 - S m))%nat by lia.
      rewrite pads_frame_data by lia. reflexivity. }
  rewrite (J2 n2 (Nat.le_refl n2)). reflexivity.
Qed.

End UpdateTwice.



(** The vector with blocks of 1536 bits can be built, and a second
    [update()] leaves it as the first one did. *)
Lemma example_wide_blocks_reachable : reachable 1536 16 example_wide_blocks.
Proof.
  unfold example_wide_blocks.
  apply reach_new; [lia|vm_compute; reflexivity].
Qed.

Remark update_again_wide_blocks :
  update 1536 16 (update 1536 16 example_wide_blocks)
  = update 1536 16 example_wide_blocks.
Proof.
  apply update_again; [reflexivity|exact example_wide_blocks_reachable].
Qed.

(* ===================================================================== *)
(** ** bitsy::math, verified *)
(* ===================================================================== *)

(** X12.  [math::div_ceil (x, y)] is the ceiling of [x / y]: the least
    [q] with [x <= q * y]. *)
Theorem div_ceil_ceiling x y :
  0 <= x -> 0 < y ->
  x <= math.div_ceil x y * y
  /\ forall q, x <= q * y -> math.div_ceil x y <= q.
Proof.
  intros Hx Hy. destruct (div_ceil_spec x y Hx Hy) as [H0 H1].
  split; [lia|]. intros q Hq.
  assert (math.div_ceil x y - 1 < q); [|lia].
  apply (mul_lt_cancel _ _ y); lia.
Qed.

(** X13.  [math::round_to (x, y)] is the least multiple of [y] that is
    not below [x], as long as that multiple is a 64-bit value. *)
Theorem round_to_next_multiple x y :
  0 <= x -> 0 < y -> x + y <= 2 ^ 64 ->
  x <= math.round_to x y < x + y
  /\ math.round_to x y mod y = 0
  /\ (x mod y = 0 -> math.round_to x y = x).
Proof.
  intros Hx Hy Hs. destruct (div_ceil_spec x y Hx Hy) as [H0 H1].
  unfold math.round_to. rewrite wrap_small by lia.
  split; [lia|]. split; [apply Z.mod_mul; lia|].
  intros Hm. unfold math.div_ceil. rewrite Hm. cbn [Z.eqb negb Z.b2z].
  pose proof (Z.div_mod x y ltac:(lia)). lia.
Qed.

(** X14.  [math::setbits (num_set_bits, start)] is the 64-bit mask whose
    set bits are those from [start] up to [start + num_set_bits - 1];
    for [num_set_bits = 0], where the shift by the full width is
    avoided, it is the empty mask. *)
Theorem setbits_mask n start i :
  0 <= n -> 0 <= start -> n + start <= 64 -> 0 <= i ->
  Z.testbit (math.setbits n start) i = (start <=? i) && (i <? start + n)
  /\ word (math.setbits n start).
Proof.
  intros Hn Hs Hsum Hi. split; [|apply word_setbits].
  destruct (Z.eq_dec n 0) as [->|Hne].
  - unfold math.setbits. cbn [Z.eqb]. rewrite Z.testbit_0_l.
    destruct (Z.leb_spec start i), (Z.ltb_spec i (start + 0));
      cbn [andb]; auto; lia.
  - apply testbit_setbits; lia.
Qed.

(* ===================================================================== *)
(** ** [word_select1] outside its domain *)
(* ===================================================================== *)

Lemma word_select1_pdep_overshoot w k :
  popcount w < k -> 1 <= k <= 64 -> word_select1_pdep w k = 64.
Proof.
  intros Hpc Hk. unfold word_select1_pdep, pdep_u64.
  rewrite (wrap_small (k - 1)) by lia.
  unfold shl. rewrite Z.shiftl_1_l.
  rewrite wrap_small.
  2:{ split; [apply Z.pow_nonneg; lia|apply Z.pow_lt_mono_r; lia]. }
  rewrite pdep_from_none; [reflexivity|lia|].
  intros i Hi Hb. cbn in Hi. unfold popcount in Hpc.
  pose proof (ones_succ (Z.testbit w) 0 i ltac:(lia)) as Hs.
  rewrite Hb in Hs. cbn [Z.b2z] in Hs.
  pose proof (ones_mono (Z.testbit w) 0 (i + 1) 64 ltac:(lia)). lia.
Qed.

Lemma word_select1_binary_loop_overshoot w k :
  popcount w < k ->
  forall fuel pos length,
    0 <= pos -> 1 <= length -> pos + length = 64 ->
    length <= 2 ^ Z.of_nat fuel ->
    word_select1_binary_loop fuel w k pos length = Some 63.
Proof.
  intros Hpc. induction fuel as [|fuel IH]; intros pos length Hpos Hlen Hsum
    Hfuel; cbn [word_select1_binary_loop].
  - change (2 ^ Z.of_nat 0) with 1 in Hfuel.
    assert (length = 1) by lia. subst length. cbn. f_equal. lia.
  - destruct (Z.ltb_spec 1 length) as [Hl|Hl].
    + assert (Hhalf : 1 <= length / 2 /\ 2 * (length / 2) <= length).
      { pose proof (Z.div_mod length 2 ltac:(lia)).
        pose proof (Z.mod_pos_bound length 2 ltac:(lia)). lia. }
      assert (Hceil : length - length / 2 <= 2 ^ Z.of_nat fuel).
      { rewrite Nat2Z.inj_succ, Z.pow_succ_r in Hfuel by lia.
        pose proof (Z.div_mod length 2 ltac:(lia)).
        pose proof (Z.mod_pos_bound length 2 ltac:(lia)). lia. }
      set (half := length / 2) in *.
      rewrite (wrap_small (pos + half)) by lia.
      rewrite (wrap_small (64 - (pos + half))) by lia.
      rewrite popcount_shl by lia.
      replace (64 - (64 - (pos + half))) with (pos + half) by lia.
      rewrite (wrap_small (length - half)) by lia.
      unfold popcount in Hpc.
      pose proof (ones_mono (Z.testbit w) 0 (pos + half) 64 ltac:(lia)).
      replace (ones (Z.testbit w) 0 (pos + half) <? k) with true
        by (symmetry; apply Z.ltb_lt; lia).
      cbn [Z.b2z]. rewrite Z.mul_1_l, (wrap_small (pos + half)) by lia.
      apply IH; lia.
    + assert (length = 1) by lia. subst length. f_equal. lia.
Qed.

Lemma word_select1_linear_loop_diverges :
  forall fuel w k pos,
    word w -> popcount w < k < 2 ^ 64 ->
    word_select1_linear_loop fuel w k pos = None.
Proof.
  induction fuel as [|fuel IH]; intros w k pos Hw Hk;
    pose proof (popcount_bounds w) as Hb;
    cbn [word_select1_linear_loop];
    (replace (0 <? k) with true by (symmetry; apply Z.ltb_lt; lia));
    [reflexivity|].
  assert (Hs : popcount (shr w 1) = popcount w - Z.land w 1).
  { rewrite popcount_shr by (auto; lia). unfold popcount.
    rewrite (ones_split _ 0 1 64) by lia.
    rewrite (ones_single _ 0 : ones _ 0 1 = _), land1_b2z. lia. }
  assert (Hbit : 0 <= Z.land w 1 <= 1)
    by (rewrite land1_b2z; destruct (Z.testbit w 0); cbn; lia).
  apply IH; [apply word_shr; auto; lia|].
  rewrite wrap_small by lia. lia.
Qed.

(** X15.  When [rank] exceeds the number of set bits of the word, the
    three implementations of [word_select1] part ways: the PDEP variant
    returns 64, the binary search returns 63, and the loop of the linear
    scan never ends. *)
Theorem word_select1_rank_too_large w k :
  word w -> popcount w < k <= 64 ->
  (forall kUseBinarySearch,
     word_select1 true kUseBinarySearch false w k = Some 64)
  /\ (forall kOverwriteFastPDEP,
        word_select1 false true kOverwriteFastPDEP w k = Some 63)
  /\ word_select1 true true true w k = Some 63
  /\ (forall fuel, word_select1_linear_loop fuel w k 0 = None).
Proof.
  intros Hw Hk. pose proof (popcount_bounds w) as Hb.
  assert (E63 : word_select1_binary_loop 64 w k 0 64 = Some 63).
  { apply word_select1_binary_loop_overshoot; lia. }
  repeat split.
  - intros bs. unfold word_select1. cbn [negb andb]. f_equal.
    apply word_select1_pdep_overshoot; lia.
  - intros ov. unfold word_select1. rewrite andb_false_r. exact E63.
  - exact E63.
  - intros fuel. apply word_select1_linear_loop_diverges; auto.
    assert (64 < 2 ^ 64) by reflexivity. lia.
Qed.

(* ===================================================================== *)
(** ** bitsy::BitVector, verified *)
(* ===================================================================== *)

Lemma bitvector_is_set_bit bv p :
  0 <= p ->
  bitvector.is_set bv p
  = Z.testbit (peek (bitvector._data bv) (p / 64)) (p mod 64).
Proof.
  intros Hp. unfold bitvector.is_set, kWordWidth.
  apply testbit_land1. apply Z.mod_pos_bound. lia.
Qed.

Lemma bitvector_wf_facts bv :
  bitvector_wf bv ->
  0 <= bitvector._num_words bv
  /\ bitvector._length bv <= bitvector._num_words bv * 64
     < bitvector._length bv + 64.
Proof.
  intros [H1 H2 H3 H4]. rewrite H2. unfold kWordWidth.
  apply div_ceil_spec; lia.
Qed.

(** Writing one bit keeps the invariant and changes that bit only. *)
Lemma bitvector_write_bit bv p v neww :
  bitvector_wf bv -> 0 <= p < bitvector._length bv ->
  word neww ->
  (forall j, 0 <= j < 64 ->
     Z.testbit neww j =
     if j =? p mod 64 then v
     else Z.testbit (peek (bitvector._data bv) (p / 64)) j) ->
  let bv' :=
    bitvector.with_data bv (poke (bitvector._data bv) (p / 64) neww) in
  bitvector_wf bv'
  /\ forall q, 0 <= q ->
       bitvector.is_set bv' q = if q =? p then v else bitvector.is_set bv q.
Proof.
  intros Hwf Hp Hw Hbits bv'.
  destruct (bitvector_wf_facts bv Hwf) as [Hn Hnw].
  destruct Hwf as [W1 W2 W3 W4].
  pose proof (div_bounds p 64 ltac:(lia)) as Hd.
  assert (Hi : 0 <= p / 64 < size (bitvector._data bv)).
  { rewrite W3. split; [apply Z.div_pos; lia|].
    apply Z.div_lt_upper_bound; lia. }
  split.
  - constructor; unfold bv';
      cbn [bitvector._length bitvector._num_words bitvector._data
           bitvector.with_data]; rewrite ?size_poke; auto.
    apply words_poke; auto.
  - intros q Hq. rewrite !bitvector_is_set_bit by lia. unfold bv'.
    cbn [bitvector._data bitvector.with_data].
    pose proof (div_bounds q 64 ltac:(lia)) as Hdq.
    pose proof (Z.mod_pos_bound q 64 ltac:(lia)) as Hmq.
    pose proof (Z.div_mod q 64 ltac:(lia)) as Eq.
    pose proof (Z.div_mod p 64 ltac:(lia)) as Ep.
    assert (0 <= q / 64) by (apply Z.div_pos; lia).
    rewrite peek_poke by lia.
    destruct (Z.eqb_spec (q / 64) (p / 64)) as [Ew|Ew].
    + rewrite Hbits by lia.
      destruct (Z.eqb_spec (q mod 64) (p mod 64)) as [Em|Em].
      * replace (q =? p) with true by (symmetry; apply Z.eqb_eq; lia).
        reflexivity.
      * replace (q =? p) with false
          by (symmetry; apply Z.eqb_neq; intros ->; lia).
        rewrite Ew. reflexivity.
    + replace (q =? p) with false
        by (symmetry; apply Z.eqb_neq; intros ->; lia).
      reflexivity.
Qed.

Lemma bitvector_set_value_spec bv p v :
  bitvector_wf bv -> 0 <= p < bitvector._length bv ->
  bitvector_wf (bitvector.set_value bv p v)
  /\ forall q, 0 <= q ->
       bitvector.is_set (bitvector.set_value bv p v) q
       = if q =? p then v else bitvector.is_set bv q.
Proof.
  intros Hwf Hp. unfold bitvector.set_value, kWordWidth.
  pose proof (Z.mod_pos_bound p 64 ltac:(lia)).
  apply bitvector_write_bit; auto.
  - apply word_lor.
    + apply word_land; [apply words_peek, Hwf|]. apply wrap_word.
    + apply word_land; [apply wrap_word|]. apply wrap_word.
  - intros j Hj. apply set_value_word_bit; lia.
Qed.

Lemma bitvector_set_value_agrees bv p :
  bitvector_wf bv -> 0 <= p ->
  bitvector.set_value bv p true = bitvector.set bv p
  /\ bitvector.set_value bv p false = bitvector.unset bv p.
Proof.
  intros Hwf Hp. pose proof (Z.mod_pos_bound p 64 ltac:(lia)).
  assert (Hw : word (peek (bitvector._data bv) (p / 64)))
    by (apply words_peek, Hwf).
  unfold bitvector.set_value, bitvector.set, bitvector.unset, kWordWidth.
  split; rewrite set_value_word by auto; reflexivity.
Qed.

Lemma bitvector_new_wf heap length :
  0 <= length -> bitvector_wf (bitvector.new heap length).
Proof.
  intros Hl. destruct (div_ceil_spec length 64 Hl ltac:(lia)) as [H0 _].
  constructor; cbn; auto.
  - apply size_StaticVector. exact H0.
  - apply words_StaticVector.
Qed.

Lemma bitvector_new_filled_spec heap length value :
  0 <= length ->
  let bv := bitvector.new_filled heap length value in
  bitvector_wf bv
  /\ forall p, 0 <= p < length -> bitvector.is_set bv p = value.
Proof.
  intros Hl bv.
  destruct (div_ceil_spec length 64 Hl ltac:(lia)) as [H0 H1].
  pose proof (bitvector_new_wf heap length Hl) as [W1 W2 W3 W4].
  set (nw := math.div_ceil length 64) in *.
  assert (Hfill : word (math.setbits (if value then kWordWidth else 0) 0))
    by apply word_setbits.
  split.
  - constructor; unfold bv, bitvector.new_filled;
      cbn [bitvector._length bitvector._num_words bitvector._data
           bitvector.with_data bitvector.new]; auto.
    + rewrite size_fill_n. apply size_StaticVector. exact H0.
    + apply words_fill_n; auto.
  - intros p Hp. rewrite bitvector_is_set_bit by lia.
    unfold bv, bitvector.new_filled.
    cbn [bitvector._length bitvector._num_words bitvector._data
         bitvector.with_data bitvector.new].
    change (math.div_ceil length kWordWidth) with nw.
    pose proof (div_bounds p 64 ltac:(lia)) as Hd.
    pose proof (Z.mod_pos_bound p 64 ltac:(lia)) as Hm.
    assert (Hi : 0 <= p / 64 < nw).
    { split; [apply Z.div_pos; lia|].
      apply Z.div_lt_upper_bound; lia. }
    rewrite peek_fill_n
      by (rewrite ?size_StaticVector, ?Z2Nat.id by lia; lia).
    rewrite Z2Nat.id by lia.
    replace ((0 <=? p / 64) && (p / 64 <? 0 + nw)) with true.
    2:{ symmetry. apply andb_true_intro.
        split; [apply Z.leb_le|apply Z.ltb_lt]; lia. }
    destruct value.
    + unfold kWordWidth. rewrite testbit_setbits by lia.
      apply andb_true_intro.
      split; [apply Z.leb_le|apply Z.ltb_lt]; lia.
    + unfold math.setbits. cbn [Z.eqb]. apply Z.testbit_0_l.
Qed.

Lemma bitvector_reachable_wf bv : bitvector_reachable bv -> bitvector_wf bv.
Proof.
  induction 1 as [heap length Hl|heap length value Hl|bv pos Hr IH Hp
                  |bv pos Hr IH Hp|bv pos value Hr IH Hp].
  - apply bitvector_new_wf. exact Hl.
  - apply bitvector_new_filled_spec. exact Hl.
  - destruct (bitvector_set_value_agrees bv pos IH ltac:(lia)) as [<- _].
    apply bitvector_set_value_spec; auto.
  - destruct (bitvector_set_value_agrees bv pos IH ltac:(lia)) as [_ <-].
    apply bitvector_set_value_spec; auto.
  - apply bitvector_set_value_spec; auto.
Qed.

(** X16.  [bitsy::BitVector]: after [set (pos, value)] the bit read by
    [is_set (pos)] is [value] and every other bit reads as before;
    [set (pos)] is [set (pos, true)] and [unset (pos)] is
    [set (pos, false)]. *)
Theorem bitvector_set_then_is_set bv p v :
  bitvector_reachable bv -> 0 <= p < bitvector._length bv ->
  bitvector.is_set (bitvector.set_value bv p v) p = v
  /\ (forall q, 0 <= q -> q <> p ->
        bitvector.is_set (bitvector.set_value bv p v) q
        = bitvector.is_set bv q)
  /\ bitvector.set bv p = bitvector.set_value bv p true
  /\ bitvector.unset bv p = bitvector.set_value bv p false.
Proof.
  intros Hr Hp. pose proof (bitvector_reachable_wf bv Hr) as Hwf.
  destruct (bitvector_set_value_spec bv p v Hwf Hp) as [_ Hs].
  destruct (bitvector_set_value_agrees bv p Hwf ltac:(lia)) as [E1 E0].
  repeat split; auto.
  - rewrite Hs by lia. rewrite Z.eqb_refl. reflexivity.
  - intros q Hq Hne. rewrite Hs by lia.
    destruct (Z.eqb_spec q p); [lia|reflexivity].
Qed.

(** X17.  [bitsy::BitVector (length, set)]: every bit below the length
    reads as [set]. *)
Theorem bitvector_new_filled_uniform heap length value p :
  0 <= p < length ->
  bitvector.is_set (bitvector.new_filled heap length value) p = value.
Proof.
  intros Hp. apply bitvector_new_filled_spec; lia.
Qed.

(** X18.  [bitsy::BitVector::memory_space()] is the length rounded up to
    whole words: at most 63 bits are wasted. *)
Theorem bitvector_memory_space_waste bv :
  bitvector_reachable bv -> bitvector._length bv <= 2 ^ 64 - 64 ->
  bitvector._length bv <= bitvector.memory_space bv
  <= bitvector._length bv + 63
  /\ bitvector.memory_space bv mod 64 = 0.
Proof.
  intros Hr Hl. pose proof (bitvector_reachable_wf bv Hr) as Hwf.
  destruct (bitvector_wf_facts bv Hwf) as [Hn Hnw].
  unfold bitvector.memory_space, kWordWidth.
  rewrite (bwf_size _ Hwf). rewrite wrap_small by lia.
  split; [lia|]. apply Z.mod_mul. lia.
Qed.

(* ===================================================================== *)
(** ** bitsy::NaiveRank and bitsy::NaiveSelect, verified *)
(* ===================================================================== *)

Section NaiveVerified.

Context {T : Type} {T_is_bitvector : type_traits.BitVector T}.

Variable bitvector : T.

Local Abbreviation length :=
  (@type_traits.length T T_is_bitvector bitvector).
Local Abbreviation is_set :=
  (@type_traits.is_set T T_is_bitvector bitvector).
Local Abbreviation positions_invariant := (positions_invariant bitvector).

Hypothesis Hlength : 0 <= length < 2 ^ 64.

Lemma count_small k : 0 <= k <= length -> 0 <= ones is_set 0 k <= k.
Proof.
  intros Hk. pose proof (ones_bounds is_set 0 k ltac:(lia)). lia.
Qed.

(** X19.  [NaiveRank]: the constructor fills the buffer without
    leaving it; afterwards [rank1 (pos)] is the number of ones below
    [pos] and [rank0 (pos)] the number of zeros, for every [pos] below
    the length.  There is no entry for [pos = length]: that read, like
    any read above it, is outside the buffer. *)
Theorem naive_rank_correct heap :
  exists r,
    naive_rank.new heap bitvector = Some r
    /\ (forall pos, 0 <= pos < length ->
          naive_rank.rank1 r pos = Some (ones is_set 0 pos)
          /\ naive_rank.rank0 r pos = Some (pos - ones is_set 0 pos))
    /\ (forall pos, length <= pos -> naive_rank.rank1 r pos = None).
Proof.
  assert (Hl0 : 0 <= length) by lia.
  unfold naive_rank.new, naive_rank.update.
  cbn [naive_rank._bitvector naive_rank._data].
  match goal with
  | |- context [for_range 0 _ 1 ?body ?init] =>
      pose proof (for_range_iterate body 0 1 _ init ltac:(lia) Hl0)
        as Eloop;
      assert (Hloop :
        exists data,
          iterate (Z.to_nat length) 0 1 body init
          = Some (data, ones is_set 0 (Z.of_nat (Z.to_nat length)))
          /\ size data = length
          /\ forall j, 0 <= j < Z.of_nat (Z.to_nat length) ->
                       peek data j = ones is_set 0 j)
  end.
  { apply (iterate_invariant
             (fun k ost =>
                exists data,
                  ost = Some (data, ones is_set 0 k)
                  /\ size data = length
                  /\ forall j, 0 <= j < k -> peek data j = ones is_set 0 j)).
    - eexists. split; [rewrite ones_empty by lia; reflexivity|].
      split; [apply size_StaticVector; lia|]. intros j Hj. lia.
    - intros k ost Hk (data & -> & Hsz & Hd). rewrite Z2Nat.id in Hk by lia.
      cbn [bind]. rewrite Z.add_0_l, Z.mul_1_r.
      rewrite wr_poke by lia. cbn [bind].
      pose proof (count_small (k + 1) ltac:(lia)) as Hc.
      rewrite ones_succ in Hc |- * by lia.
      rewrite wrap_small by lia.
      eexists. split; [reflexivity|].
      split; [rewrite size_poke; exact Hsz|].
      intros j Hj. rewrite peek_poke by lia.
      destruct (Z.eqb_spec j k) as [->|Hne]; [reflexivity|].
      apply Hd. lia. }
  rewrite Z.add_0_l, Z.mul_1_r in Eloop. rewrite Eloop.
  destruct Hloop as (data & -> & Hsz & Hd). cbn [bind fst].
  rewrite Z2Nat.id in Hd by lia.
  eexists. split; [reflexivity|].
  unfold naive_rank.rank0, naive_rank.rank1. cbn [naive_rank._data].
  split.
  - intros pos Hp. rewrite rd_peek by lia. rewrite Hd by lia.
    split; [reflexivity|]. cbn [bind].
    pose proof (count_small pos ltac:(lia)).
    rewrite wrap_small by lia. reflexivity.
  - intros pos Hp. apply rd_outside. lia.
Qed.

Lemma record_position_step n1 n0 k st :
  0 <= k < length ->
  n1 = ones is_set 0 length -> n0 = length - n1 ->
  positions_invariant n1 n0 k st ->
  exists st',
    naive_select.record_position bitvector k st = Some st'
    /\ positions_invariant n1 n0 (k + 1) st'.
Proof.
  intros Hk Hn1 Hn0 (S1 & S0 & C1 & C0 & P1 & P0).
  pose proof (count_small k ltac:(lia)) as Hck.
  pose proof (count_small (k + 1) ltac:(lia)) as Hck1.
  pose proof (ones_mono is_set 0 (k + 1) length ltac:(lia)) as Hm.
  pose proof (ones_split is_set 0 (k + 1) length ltac:(lia)) as Hsp.
  pose proof (ones_bounds is_set (k + 1) length ltac:(lia)) as Hrest.
  rewrite ones_succ in Hck1, Hm, Hsp by lia.
  unfold naive_select.record_position.
  destruct (type_traits.is_set bitvector k) eqn:Ek; cbn [Z.b2z] in *.
  - rewrite wr_poke by lia. cbn [bind]. eexists. split; [reflexivity|].
    unfold positions_invariant.
    cbn [naive_select.p_one_positions naive_select.p_zero_positions
         naive_select.p_cur_one naive_select.p_cur_zero].
    rewrite size_poke, ones_succ, Ek by lia. cbn [Z.b2z].
    rewrite wrap_small by lia.
    repeat split; auto; try lia.
    + intros j Hj. rewrite peek_poke by lia.
      destruct (Z.eqb_spec j (naive_select.p_cur_one st)) as [->|Hne].
      * exists k. repeat split; auto; lia.
      * destruct (P1 j ltac:(lia)) as (p & Hp & E1 & E2 & E3).
        exists p. repeat split; auto; lia.
    + intros j Hj. destruct (P0 j ltac:(lia)) as (p & Hp & E1 & E2 & E3).
      exists p. repeat split; auto; lia.
  - rewrite wr_poke by lia. cbn [bind]. eexists. split; [reflexivity|].
    unfold positions_invariant.
    cbn [naive_select.p_one_positions naive_select.p_zero_positions
         naive_select.p_cur_one naive_select.p_cur_zero].
    rewrite size_poke, ones_succ, Ek by lia. cbn [Z.b2z].
    rewrite wrap_small by lia.
    repeat split; auto; try lia.
    + intros j Hj. destruct (P1 j ltac:(lia)) as (p & Hp & E1 & E2 & E3).
      exists p. repeat split; auto; lia.
    + intros j Hj. rewrite peek_poke by lia.
      destruct (Z.eqb_spec j (naive_select.p_cur_zero st)) as [->|Hne].
      * exists k. repeat split; auto; lia.
      * destruct (P0 j ltac:(lia)) as (p & Hp & E1 & E2 & E3).
        exists p. repeat split; auto; lia.
Qed.

(** X20.  [NaiveSelect], built with the number of ones of the vector:
    the constructor fills both buffers without leaving them;
    [select1 (r)] for [1 <= r <= num_ones] is the position of the
    [r]-th one and [select0 (r)] for [1 <= r <= num_zeros] the
    position of the [r]-th zero.  Rank 0 and the ranks above the
    count are read outside the buffer. *)
Theorem naive_select_correct heap_zero heap_one :
  let num_ones := ones is_set 0 length in
  let num_zeros := length - num_ones in
  exists s,
    naive_select.new heap_zero heap_one bitvector num_ones = Some s
    /\ (forall r, 1 <= r <= num_ones ->
          exists p, naive_select.select1 s r = Some p
                    /\ 0 <= p < length /\ is_set p = true
                    /\ ones is_set 0 p = r - 1)
    /\ (forall r, 1 <= r <= num_zeros ->
          exists p, naive_select.select0 s r = Some p
                    /\ 0 <= p < length /\ is_set p = false
                    /\ p - ones is_set 0 p = r - 1)
    /\ naive_select.select1 s 0 = None
    /\ naive_select.select0 s 0 = None
    /\ (forall r, num_ones < r < 2 ^ 64 -> naive_select.select1 s r = None)
    /\ (forall r, num_zeros < r < 2 ^ 64 ->
          naive_select.select0 s r = None).
Proof.
  intros num_ones num_zeros.
  assert (Hl0 : 0 <= length) by lia.
  pose proof (count_small length ltac:(lia)) as Hc.
  fold num_ones in Hc.
  unfold naive_select.new, naive_select.update.
  cbn [naive_select._bitvector naive_select._zero_positions
       naive_select._one_positions].
  rewrite (wrap_small (length - num_ones)) by lia. fold num_zeros.
  match goal with
  | |- context [for_range 0 _ 1 ?body ?init] =>
      pose proof (for_range_iterate body 0 1 _ init ltac:(lia) Hl0)
        as Eloop;
      assert (Hloop :
        exists st,
          iterate (Z.to_nat length) 0 1 body init = Some st
          /\ positions_invariant num_ones num_zeros
               (Z.of_nat (Z.to_nat length)) st)
  end.
  { apply (iterate_invariant
             (fun k ost =>
                exists st, ost = Some st
                           /\ positions_invariant num_ones num_zeros k st)).
    - eexists. split; [reflexivity|]. unfold positions_invariant.
      cbn [naive_select.p_one_positions naive_select.p_zero_positions
           naive_select.p_cur_one naive_select.p_cur_zero].
      rewrite !size_StaticVector, ones_empty by lia.
      repeat split; auto; intros j Hj; lia.
    - intros k ost Hk (st & -> & HI). rewrite Z2Nat.id in Hk by lia.
      cbn [bind]. rewrite Z.add_0_l, Z.mul_1_r.
      apply record_position_step; auto. }
  rewrite Z.add_0_l, Z.mul_1_r in Eloop. rewrite Eloop.
  destruct Hloop as (st & -> & HI). cbn [bind].
  rewrite Z2Nat.id in HI by lia.
  destruct HI as (S1 & S0 & C1 & C0 & P1 & P0).
  fold num_ones in P1, P0. fold num_zeros in P0.
  eexists. split; [reflexivity|].
  unfold naive_select.select1, naive_select.select0.
  cbn [naive_select._zero_positions naive_select._one_positions].
  assert (Em1 : wrap (0 - 1) = 2 ^ 64 - 1) by reflexivity.
  repeat split.
  - intros r Hr. rewrite wrap_small by lia.
    destruct (P1 (r - 1) ltac:(lia)) as (p & Hp & E1 & E2 & E3).
    exists p. rewrite rd_peek by lia. rewrite E1. auto.
  - intros r Hr. rewrite wrap_small by lia.
    destruct (P0 (r - 1) ltac:(lia)) as (p & Hp & E1 & E2 & E3).
    exists p. rewrite rd_peek by lia. rewrite E1. auto.
  - rewrite Em1. apply rd_outside. lia.
  - rewrite Em1. apply rd_outside. lia.
  - intros r Hr. rewrite wrap_small by lia. apply rd_outside. lia.
  - intros r Hr. rewrite wrap_small by lia. apply rd_outside. lia.
Qed.

(** X21.  [NaiveSelect] trusts the caller's [num_ones]: with any other
    number than the number of ones of the vector, [update()] writes a
    position outside the buffer of the ones or outside the buffer of
    the zeros. *)
Theorem naive_select_wrong_num_ones heap_zero heap_one num_ones :
  0 <= num_ones <= length ->
  num_ones <> ones is_set 0 length ->
  naive_select.new heap_zero heap_one bitvector num_ones = None.
Proof.
  intros Hn Hne.
  assert (Hl0 : 0 <= length) by lia.
  unfold naive_select.new, naive_select.update.
  cbn [naive_select._bitvector naive_select._zero_positions
       naive_select._one_positions].
  rewrite (wrap_small (length - num_ones)) by lia.
  match goal with
  | |- context [for_range 0 _ 1 ?body ?init] =>
      pose proof (for_range_iterate body 0 1 _ init ltac:(lia) Hl0)
        as Eloop;
      assert (Hloop :
        forall st,
          iterate (Z.to_nat length) 0 1 body init = Some st ->
          ones is_set 0 (Z.of_nat (Z.to_nat length)) <= num_ones
          /\ Z.of_nat (Z.to_nat length)
             - ones is_set 0 (Z.of_nat (Z.to_nat length))
             <= length - num_ones)
  end.
  { assert (Hinv :
      forall st,
        iterate (Z.to_nat length) 0 1
          (fun pos ost =>
             st <- ost ;; naive_select.record_position bitvector pos st)
          (Some {| naive_select.p_zero_positions :=
                     StaticVector heap_zero (length - num_ones);
                   naive_select.p_one_positions :=
                     StaticVector heap_one num_ones;
                   naive_select.p_cur_zero := 0;
                   naive_select.p_cur_one := 0 |}) = Some st ->
        size (naive_select.p_one_positions st) = num_ones
        /\ size (naive_select.p_zero_positions st) = length - num_ones
        /\ naive_select.p_cur_one st
           = ones is_set 0 (Z.of_nat (Z.to_nat length))
        /\ naive_select.p_cur_zero st
           = Z.of_nat (Z.to_nat length)
             - ones is_set 0 (Z.of_nat (Z.to_nat length))
        /\ naive_select.p_cur_one st <= num_ones
        /\ naive_select.p_cur_zero st <= length - num_ones).
    { apply (iterate_invariant
               (fun k ost =>
                  forall st, ost = Some st ->
                    size (naive_select.p_one_positions st) = num_ones
                    /\ size (naive_select.p_zero_positions st)
                       = length - num_ones
                    /\ naive_select.p_cur_one st = ones is_set 0 k
                    /\ naive_select.p_cur_zero st = k - ones is_set 0 k
                    /\ naive_select.p_cur_one st <= num_ones
                    /\ naive_select.p_cur_zero st <= length - num_ones)).
      - intros st E. injection E as <-.
        cbn [naive_select.p_one_positions naive_select.p_zero_positions
             naive_select.p_cur_one naive_select.p_cur_zero].
        rewrite !size_StaticVector, ones_empty by lia.
        repeat split; lia.
      - intros k [st0|] Hk IH st E; cbn [bind] in E; [|discriminate].
        rewrite Z2Nat.id in Hk by lia.
        rewrite Z.add_0_l, Z.mul_1_r in E.
        destruct (IH st0 eq_refl) as (S1 & S0 & C1 & C0 & B1 & B0).
        pose proof (count_small k ltac:(lia)) as Hck.
        unfold naive_select.record_position, wr in E.
        rewrite ones_succ by lia.
        destruct (type_traits.is_set bitvector k) eqn:Ek;
          cbn [Z.b2z].
        + destruct ((0 <=? naive_select.p_cur_one st0)
                    && (naive_select.p_cur_one st0
                        <? size (naive_select.p_one_positions st0)))
            eqn:Eb; cbn [bind] in E; [|discriminate].
          apply andb_prop in Eb. destruct Eb as [_ Eb].
          apply Z.ltb_lt in Eb. injection E as <-.
          cbn [naive_select.p_one_positions naive_select.p_zero_positions
               naive_select.p_cur_one naive_select.p_cur_zero].
          rewrite size_poke. rewrite wrap_small by lia.
          repeat split; lia.
        + destruct ((0 <=? naive_select.p_cur_zero st0)
                    && (naive_select.p_cur_zero st0
                        <? size (naive_select.p_zero_positions st0)))
            eqn:Eb; cbn [bind] in E; [|discriminate].
          apply andb_prop in Eb. destruct Eb as [_ Eb].
          apply Z.ltb_lt in Eb. injection E as <-.
          cbn [naive_select.p_one_positions naive_select.p_zero_positions
               naive_select.p_cur_one naive_select.p_cur_zero].
          rewrite size_poke. rewrite wrap_small by lia.
          repeat split; lia. }
    intros st Est. destruct (Hinv st Est) as (_ & _ & C1 & C0 & B1 & B0).
    lia. }
  rewrite Z.add_0_l, Z.mul_1_r in Eloop. rewrite Eloop.
  destruct (iterate _ 0 1 _ _) as [st|]; cbn [bind]; [|reflexivity].
  exfalso. destruct (Hloop st eq_refl) as [H1 H0].
  rewrite Z2Nat.id in H1, H0 by lia. lia.
Qed.

End NaiveVerified.

(* ===================================================================== *)
(** ** The test utilities and the two implementations side by side *)
(* ===================================================================== *)

Lemma count_ones_spec {T : Type} {T_is_bitvector : type_traits.BitVector T}
    (bitvector : T) :
  0 <= type_traits.length bitvector < 2 ^ 64 ->
  testing.count_ones bitvector
  = ones (type_traits.is_set bitvector) 0 (type_traits.length bitvector).
Proof.
  intros Hl. unfold testing.count_ones.
  set (n := type_traits.length bitvector) in *.
  set (f := type_traits.is_set bitvector).
  rewrite <- (Z2Nat.id n) at 2 by lia.
  match goal with
  | |- for_range 0 n 1 ?body ?init = _ =>
      pose proof (for_range_iterate body 0 1 n init ltac:(lia) ltac:(lia))
        as Eloop
  end.
  rewrite Z.add_0_l, Z.mul_1_r in Eloop. rewrite Eloop.
  apply (iterate_invariant (fun k c => c = ones f 0 k)).
  - rewrite ones_empty by lia. reflexivity.
  - intros k c Hk ->. rewrite Z2Nat.id in Hk by lia.
    rewrite Z.add_0_l, Z.mul_1_r, ones_succ by lia.
    pose proof (ones_bounds f 0 (k + 1) ltac:(lia)) as Hb.
    rewrite ones_succ in Hb by lia.
    apply wrap_small. lia.
Qed.

(** A run of [set (pos, f (pos))] over the positions below [n], on the
    plain bit vector. *)
Lemma bitvector_fill_invariant bv0 (f : Z -> bool) n :
  bitvector_reachable bv0 -> 0 <= n <= bitvector._length bv0 ->
  let bv :=
    iterate (Z.to_nat n) 0 1
      (fun pos bv => bitvector.set_value bv pos (f pos)) bv0 in
  bitvector_reachable bv /\ bitvector._length bv = bitvector._length bv0
  /\ (forall q, 0 <= q ->
        bitvector.is_set bv q
        = if q <? n then f q else bitvector.is_set bv0 q).
Proof.
  intros Hr Hn bv.
  pose (P := fun (k : Z) (b : bitvector.BitVector) =>
               bitvector_reachable b
               /\ bitvector._length b = bitvector._length bv0
               /\ forall q, 0 <= q ->
                    bitvector.is_set b q
                    = if q <? k then f q else bitvector.is_set bv0 q).
  assert (HP : P (Z.of_nat (Z.to_nat n)) bv).
  { apply iterate_invariant.
    - repeat split; auto. intros q Hq.
      destruct (Z.ltb_spec q 0); [lia|reflexivity].
    - intros k b Hk (Hrb & Hlb & Hsb). rewrite Z2Nat.id in Hk by lia.
      rewrite Z.add_0_l, Z.mul_1_r.
      pose proof (bitvector_reachable_wf b Hrb) as Hwfb.
      destruct (bitvector_set_value_spec b k (f k) Hwfb ltac:(lia))
        as [_ Hs].
      repeat split.
      + apply breach_set_value; [exact Hrb|lia].
      + exact Hlb.
      + intros q Hq. rewrite Hs by lia.
        destruct (Z.eqb_spec q k) as [->|Hne].
        * destruct (Z.ltb_spec k (k + 1)); [reflexivity|lia].
        * rewrite Hsb by lia.
          destruct (Z.ltb_spec q k), (Z.ltb_spec q (k + 1));
            try reflexivity; lia. }
  rewrite Z2Nat.id in HP by lia. exact HP.
Qed.

(** A loop whose body cannot fail returns a state. *)
Lemma iterate_total {S : Type} (g : Z -> S -> S) n start step st :
  iterate n start step (fun pos result => s <- result ;; Some (g pos s))
    (Some st)
  = Some (iterate n start step g st).
Proof.
  induction n as [|n IH]; cbn [iterate]; [reflexivity|].
  rewrite IH. reflexivity.
Qed.

(** With a period of zero the first iteration of
    [create_alternating_bitvec] divides by zero. *)
Remark create_alternating_bitvec_period_zero
    {T : Type} {T_is_bitvector : type_traits.BitVector T} mem length :
  0 < length ->
  @testing.create_alternating_bitvec T T_is_bitvector mem length 0 = None.
Proof.
  intros Hl. unfold testing.create_alternating_bitvec, for_range.
  destruct (Z.to_nat (length - 0)) as [|fuel] eqn:E; [lia|].
  cbn [for_loop]. destruct (Z.ltb_spec 0 length); [|lia].
  cbn [bind Z.eqb]. generalize (0 + 1). clear E.
  induction fuel as [|fuel IH]; intros i; cbn [for_loop]; [reflexivity|].
  destruct (i <? length); [|reflexivity]. cbn [bind]. apply IH.
Qed.

Section Comparison.

Variables BlockWidth BlockHeaderWidth : Z.
Hypothesis Hvalid : valid_parameters BlockWidth BlockHeaderWidth.

Local Abbreviation BW := (kBlockWidth BlockWidth).
Local Abbreviation BDW := (kBlockDataWidth BlockWidth BlockHeaderWidth).
Local Abbreviation BPSB :=
  (kNumBlocksPerSuperblock BlockWidth BlockHeaderWidth).
Local Abbreviation SBDW :=
  (kSuperblockDataWidth BlockWidth BlockHeaderWidth).
Local Abbreviation reachable := (reachable BlockWidth BlockHeaderWidth).
Local Abbreviation is_set := (is_set BlockWidth BlockHeaderWidth).
Local Abbreviation update := (update BlockWidth BlockHeaderWidth).
Local Abbreviation two_layer :=
  (TwoLayerRankCombinedBitVector BlockWidth BlockHeaderWidth).

(** X22.  [create_alternating_bitvec (length, period)] with a period
    that is not zero returns a vector, on the plain bit vector as on
    the rank-combined one, and in it bit [i] is set exactly when [i] is
    a multiple of [period]. *)
Theorem create_alternating_bitvec_bits heap heap_data heap_superblock
    length period :
  0 <= length -> (math.div_ceil length BDW + BPSB) * BW < 2 ^ 63 ->
  0 < period ->
  exists plain combined,
    @testing.create_alternating_bitvec _ PlainBitVector heap length period
    = Some plain
    /\ @testing.create_alternating_bitvec _ two_layer
         (heap_data, heap_superblock) length period = Some combined
    /\ forall i,
         0 <= i < length ->
         bitvector.is_set plain i = (i mod period =? 0)
         /\ is_set combined i = (i mod period =? 0).
Proof.
  intros Hl Hsz Hp. unfold testing.create_alternating_bitvec.
  destruct (Z.eqb_spec period 0) as [E0|_]; [lia|].
  cbn [type_traits.new type_traits.set_value PlainBitVector
       TwoLayerRankCombinedBitVector fst snd].
  assert (Efor : forall (S : Type) (body : Z -> S -> S) st,
             for_range 0 length 1 body st
             = iterate (Z.to_nat length) 0 1 body st).
  { intros S body st.
    rewrite <- (for_range_iterate body 0 1 length st) by lia.
    f_equal. lia. }
  rewrite !Efor, !iterate_total.
  eexists. eexists. split; [reflexivity|]. split; [reflexivity|].
  intros i Hi. split.
  - destruct (bitvector_fill_invariant (bitvector.new heap length)
                (fun pos => pos mod period =? 0) length)
      as (_ & _ & Hs).
    + apply breach_new. exact Hl.
    + cbn. lia.
    + rewrite Hs by lia.
      destruct (Z.ltb_spec i length); [reflexivity|lia].
  - destruct (fill_invariant BlockWidth BlockHeaderWidth Hvalid
                (new BlockWidth BlockHeaderWidth heap_data heap_superblock
                   length)
                (fun pos => pos mod period =? 0) length)
      as (_ & _ & Hs).
    + apply reach_new; auto.
    + cbn. lia.
    + rewrite Hs by lia.
      destruct (Z.ltb_spec i length); [reflexivity|lia].
Qed.

(** X26.  [create_random_bitvec], instantiated with the plain bit
    vector and with the rank-combined one and fed the same draws,
    yields two vectors that agree at every position below the length:
    both hold the draws. *)
Theorem create_random_bitvec_agree draw heap heap_data heap_superblock
    length i :
  0 <= length -> (math.div_ceil length BDW + BPSB) * BW < 2 ^ 63 ->
  0 <= i < length ->
  bitvector.is_set
    (@testing.create_random_bitvec _ PlainBitVector draw heap length) i
  = is_set
      (@testing.create_random_bitvec _ two_layer draw
         (heap_data, heap_superblock) length) i
  /\ is_set
       (@testing.create_random_bitvec _ two_layer draw
          (heap_data, heap_superblock) length) i = draw i.
Proof.
  intros Hl Hsz Hi. unfold testing.create_random_bitvec.
  cbn [type_traits.new type_traits.set_value PlainBitVector
       TwoLayerRankCombinedBitVector fst snd].
  rewrite <- (Z.mul_1_r length) at 1 3 5.
  rewrite <- (Z.add_0_l (length * 1)).
  rewrite !for_range_iterate by lia.
  destruct (bitvector_fill_invariant (bitvector.new heap length) draw
              length) as (_ & _ & Hs).
  { apply breach_new. exact Hl. }
  { cbn. lia. }
  destruct (fill_invariant BlockWidth BlockHeaderWidth Hvalid
              (new BlockWidth BlockHeaderWidth heap_data heap_superblock
                 length) draw length) as (_ & _ & Hs').
  { apply reach_new; auto. }
  { cbn. lia. }
  rewrite Hs, Hs' by lia.
  destruct (Z.ltb_spec i length); [auto|lia].
Qed.

(** X23.  The naive rank structure and the rank-combined bit vector
    agree: built on a finalized vector, [NaiveRank] answers [rank1] and
    [rank0] at every position below the length as the vector itself
    does. *)
Theorem naive_rank_agrees bv heap :
  reachable bv ->
  let bv' := update bv in
  exists r,
    @naive_rank.new _ two_layer heap bv' = Some r
    /\ forall p, 0 <= p < _length bv' ->
         naive_rank.rank1 r p = rank1 BlockWidth BlockHeaderWidth bv' p
         /\ naive_rank.rank0 r p = rank0 BlockWidth BlockHeaderWidth bv' p.
Proof.
  intros Hr bv'.
  pose proof (reachable_wf _ _ Hvalid bv Hr) as Hwf0.
  pose proof (update_finalized _ _ Hvalid bv Hwf0) as Hfin.
  fold bv' in Hfin. pose proof (fin_wf _ _ _ Hfin) as Hwf.
  pose proof (length_small _ _ Hvalid bv' Hwf) as Hls.
  destruct (wf_facts _ _ Hvalid bv' Hwf)
    as (HL & Hnb & Hnbd & Hnsb & Hnsbd & _).
  pose proof (SBDW_bounds _ _ Hvalid). pose proof (BDW_bounds _ _ Hvalid).
  assert (E63 : 2 ^ 63 < 2 ^ 64) by reflexivity.
  assert (Hlen : 0 <= @type_traits.length _ two_layer bv' < 2 ^ 64)
    by (cbn [type_traits.length TwoLayerRankCombinedBitVector]; lia).
  destruct (@naive_rank_correct _ two_layer bv' Hlen heap)
    as (r & E & Hr1 & _).
  exists r. split; [exact E|]. intros p Hp.
  destruct (Hr1 p Hp) as [-> ->].
  cbn [type_traits.is_set TwoLayerRankCombinedBitVector].
  assert (Hsb : p / SBDW < _num_superblocks bv')
    by (apply Z.div_lt_upper_bound; lia).
  rewrite rank1_spec, rank0_spec by (auto; lia).
  rewrite ones_payload_is_set by lia. auto.
Qed.

Variable Stride : Z.
Hypothesis Hstride : valid_stride BlockWidth Stride.
Variables kUseBinarySearch USE_PDEP : bool.

(** X24.  The naive select structure and the sampled one agree: built
    on a finalized vector with the number of ones that [count_ones]
    reports, both answer every [select1 (r)] with [1 <= r <= num_ones]
    and every [select0 (r)] with [1 <= r <= num_zeros], and with the
    same position. *)
Theorem naive_select_agrees bv heap_zero heap_one heap_zero' heap_one' :
  reachable bv ->
  let bv' := update bv in
  let num_ones := @testing.count_ones _ two_layer bv' in
  let num_zeros := _length bv' - num_ones in
  exists s sel,
    @naive_select.new _ two_layer heap_zero heap_one bv' num_ones = Some s
    /\ select_new BlockWidth BlockHeaderWidth Stride heap_zero' heap_one'
         bv' num_ones = Some sel
    /\ (forall r, 1 <= r <= num_ones ->
          exists p, naive_select.select1 s r = Some p
                    /\ select1 BlockWidth BlockHeaderWidth kUseBinarySearch
                         Stride USE_PDEP sel r = Some p)
    /\ (forall r, 1 <= r <= num_zeros ->
          exists p, naive_select.select0 s r = Some p
                    /\ select0 BlockWidth BlockHeaderWidth kUseBinarySearch
                         Stride USE_PDEP sel r = Some p).
Proof.
  intros Hr bv' num_ones num_zeros.
  pose proof (reachable_wf _ _ Hvalid bv Hr) as Hwf0.
  pose proof (update_finalized _ _ Hvalid bv Hwf0) as Hfin.
  fold bv' in Hfin. pose proof (fin_wf _ _ _ Hfin) as Hwf.
  pose proof (length_small _ _ Hvalid bv' Hwf) as Hls.
  destruct (wf_facts _ _ Hvalid bv' Hwf) as (HL & _).
  assert (E63 : 2 ^ 63 < 2 ^ 64) by reflexivity.
  assert (Hlen : 0 <= @type_traits.length _ two_layer bv' < 2 ^ 64)
    by (cbn [type_traits.length TwoLayerRankCombinedBitVector]; lia).
  assert (En : num_ones = ones (is_set bv') 0 (_length bv')).
  { unfold num_ones. rewrite count_ones_spec by exact Hlen. reflexivity. }
  destruct (@naive_select_correct _ two_layer bv' Hlen heap_zero heap_one)
    as (s & Es & Hs1 & Hs0 & _).
  cbn [type_traits.is_set type_traits.length TwoLayerRankCombinedBitVector]
    in Es, Hs1, Hs0.
  rewrite <- En in Es, Hs1, Hs0. fold num_zeros in Hs0.
  destruct (select_new_spec _ _ Hvalid Stride Hstride bv' heap_zero'
              heap_one' Hwf) as (sel & E & Eb & _ & _ & Hok).
  rewrite <- En in E.
  exists s, sel. split; [exact Es|]. split; [exact E|].
  pose proof (ones_bounds (is_set bv') 0 (_length bv') ltac:(lia)) as Hob.
  split; intros r Hrr.
  - destruct (Hs1 r Hrr) as (p & Hp & Hpl & Hset & Hc).
    exists p. split; [exact Hp|].
    destruct (Hok ltac:(lia)) as [Ok1 _].
    pose proof (select_wanted _ _ Hvalid Stride Hstride kUseBinarySearch
                  USE_PDEP bv' sel true p Hfin Eb Ok1 Hpl) as Hsel.
    rewrite wanted_is_set in Hsel by auto.
    rewrite ones_wanted_is_set in Hsel by (auto; lia).
    rewrite Hc in Hsel. replace (r - 1 + 1) with r in Hsel by lia.
    apply Hsel. exact Hset.
  - destruct (Hs0 r Hrr) as (p & Hp & Hpl & Hset & Hc).
    exists p. split; [exact Hp|].
    destruct (Hok ltac:(lia)) as [_ Ok0].
    pose proof (select_wanted _ _ Hvalid Stride Hstride kUseBinarySearch
                  USE_PDEP bv' sel false p Hfin Eb Ok0 Hpl) as Hsel.
    rewrite wanted_is_set in Hsel by auto.
    rewrite ones_wanted_is_set in Hsel by (auto; lia).
    rewrite Hc in Hsel. replace (r - 1 + 1) with r in Hsel by lia.
    apply Hsel. rewrite Hset. reflexivity.
Qed.

End Comparison.

(* ===================================================================== *)
(** ** The application, verified *)
(* ===================================================================== *)

Section Application.

Variable USE_PDEP : bool.
Variables heap_data heap_superblock heap_zero heap_one : nat -> Z.
Variable raw_bitvector : String.string.

Local Abbreviation n := (Z.of_nat (String.length raw_bitvector)).
Local Abbreviation bits := (ads_programm.is_one raw_bitvector).
Local Abbreviation loaded :=
  (ads_programm.load heap_data heap_superblock raw_bitvector).

Hypothesis Hsmall : n < 2 ^ 62.

Lemma application_size : (math.div_ceil n 498 + 32) * 512 < 2 ^ 63.
Proof.
  destruct (div_ceil_spec n 498 ltac:(lia) ltac:(lia)) as [H0 H1].
  assert (E : 2 ^ 62 + 2 ^ 62 = 2 ^ 63) by reflexivity.
  assert (E62 : 2 ^ 62 = 4611686018427387904) by reflexivity.
  lia.
Qed.

(** The first loop of [main] stores the bits of the input and counts
    its ones. *)
Lemma load_spec :
  reachable 512 14 (snd loaded)
  /\ _length (snd loaded) = n
  /\ fst loaded = ones bits 0 n
  /\ forall q, 0 <= q < n -> is_set 512 14 (snd loaded) q = bits q.
Proof.
  pose proof application_size as Hsz.
  assert (Hn : 0 <= n) by lia.
  assert (E62 : 2 ^ 62 < 2 ^ 64) by reflexivity.
  set (bv0 := new 512 14 heap_data heap_superblock n).
  assert (Hr0 : reachable 512 14 bv0) by (apply reach_new; auto).
  unfold ads_programm.load. fold bv0.
  match goal with
  | |- context [for_range 0 _ 1 ?body ?init] =>
      pose proof (for_range_iterate body 0 1 _ init ltac:(lia) Hn)
        as Eloop;
      assert (Hloop :
        let st := iterate (Z.to_nat n) 0 1 body init in
        reachable 512 14 (snd st)
        /\ _length (snd st) = n
        /\ fst st = ones bits 0 (Z.of_nat (Z.to_nat n))
        /\ forall q, 0 <= q < Z.of_nat (Z.to_nat n) ->
                     is_set 512 14 (snd st) q = bits q)
  end.
  { apply (iterate_invariant
             (fun k (st : Z * BitVector) =>
                reachable 512 14 (snd st)
                /\ _length (snd st) = n
                /\ fst st = ones bits 0 k
                /\ forall q, 0 <= q < k ->
                             is_set 512 14 (snd st) q = bits q)).
    - cbn [fst snd]. rewrite ones_empty by lia.
      repeat split; auto. intros q Hq. lia.
    - intros k [c b] Hk (Hrb & Hlb & Hc & Hb). cbn [fst snd] in *.
      rewrite Z2Nat.id in Hk by lia. rewrite Z.add_0_l, Z.mul_1_r.
      pose proof (reachable_wf _ _ default_parameters_valid b Hrb)
        as Hwfb.
      destruct (set_value_spec _ _ default_parameters_valid b k (bits k)
                  Hwfb ltac:(lia)) as [_ Hs].
      pose proof (ones_bounds bits 0 (k + 1) ltac:(lia)) as Hob.
      rewrite ones_succ in Hob |- * by lia.
      repeat split.
      + apply reach_set_value; [exact Hrb|lia].
      + exact Hlb.
      + rewrite Hc. apply wrap_small. lia.
      + intros q Hq. rewrite Hs by lia.
        destruct (Z.eqb_spec q k) as [->|Hne]; [reflexivity|].
        apply Hb. lia. }
  rewrite Z.add_0_l, Z.mul_1_r in Eloop. rewrite Eloop.
  rewrite Z2Nat.id in Hloop by lia. exact Hloop.
Qed.

(** X25.  [ads_programm]: for every input of fewer than [2^62] bits
    and every list of queries that name a position below the length
    or a rank the input has, the program builds its structures without
    leaving a buffer and writes, for every query in turn, the answer
    asked for: the bit for [access], the number of zeros or ones below
    the position for [rank], the position of the zero or one of that
    rank for [select].  The space it reports is that of the blocks, of
    the superblock table and of the two sample buffers. *)
Theorem main_answers queries :
  Forall (query_valid bits n) queries ->
  exists answers,
    ads_programm.main USE_PDEP heap_data heap_superblock heap_zero heap_one
      raw_bitvector queries
    = Some ((math.div_ceil n (kBlockDataWidth 512 14)
             + kNumBlocksPerSuperblock 512 14) * kBlockWidth 512
            + math.div_ceil n (kSuperblockDataWidth 512 14) * 64
            + (ones bits 0 n / 32768 + (n - ones bits 0 n) / 32768 + 4)
              * 64,
            answers)
    /\ Forall2 (query_answer bits n) queries answers.
Proof.
  intros Hq. destruct load_spec as (Hr & Hl & Hc & Hb).
  unfold ads_programm.main. cbv zeta.
  set (bvl := snd loaded) in *. rewrite Hc.
  pose proof default_parameters_valid as Hv.
  pose proof default_stride_valid as Hst.
  pose proof (reachable_wf _ _ Hv bvl Hr) as Hwf0.
  pose proof (update_finalized _ _ Hv bvl Hwf0) as Hfin.
  set (bv' := update 512 14 bvl) in *.
  pose proof (fin_wf _ _ _ Hfin) as Hwf.
  assert (El : _length bv' = n) by (unfold bv'; rewrite update_length; auto).
  destruct (wf_facts _ _ Hv bv' Hwf)
    as (HL & Hnb & Hnbd & Hnsb & Hnsbd & _).
  destruct (wf_facts _ _ Hv bvl Hwf0) as (_ & _ & Hnbd0 & _).
  pose proof (SBDW_bounds _ _ Hv) as HS. pose proof (BDW_bounds _ _ Hv) as HB.
  assert (Hset : forall q, 0 <= q < n -> is_set 512 14 bv' q = bits q).
  { intros q Hq'. unfold bv'.
    rewrite is_set_update by (auto; lia). apply Hb. lia. }
  assert (Hones : forall q, 0 <= q <= n ->
            ones (is_set 512 14 bv') 0 q = ones bits 0 q).
  { intros q Hq'. apply ones_ext. intros i Hi. apply Hset. lia. }
  destruct (select_new_spec _ _ Hv 32768 Hst bv' heap_zero heap_one Hwf)
    as (sel & E & Eb & S1 & S0 & Hok).
  rewrite El, Hones in E, S1, S0 by lia. rewrite E. cbn [bind].
  pose proof (ones_bounds bits 0 n ltac:(lia)) as Hobn.
  assert (Hd : forall x, 0 <= x <= n ->
            0 <= x / 32768 /\ x / 32768 * 64 <= x).
  { intros x Hx. pose proof (div_bounds x 32768 ltac:(lia)).
    assert (0 <= x / 32768) by (apply Z.div_pos; lia). lia. }
  destruct (Hd (ones bits 0 n) ltac:(lia)) as [A1 A2].
  destruct (Hd (n - ones bits 0 n) ltac:(lia)) as [B1 B2].
  assert (E62 : 2 ^ 62 + 2 ^ 62 + (2 ^ 62 + 2 ^ 62) = 2 ^ 64)
    by reflexivity.
  pose proof application_size as Hsz.
  assert (E63 : 2 ^ 63 = 2 ^ 62 + 2 ^ 62) by reflexivity.
  rewrite (select_memory_space_sizes sel _ _ S1 S0) by lia.
  rewrite (memory_space_spec _ _ Hv bvl Hwf0), Hl.
  assert (E62n : 2 ^ 62 = 4611686018427387904) by reflexivity.
  assert (Hsb64 : 0 <= math.div_ceil n (kSuperblockDataWidth 512 14) * 64
                  <= 2305843009213693952).
  { change (kSuperblockDataWidth 512 14) with 15936.
    destruct (div_ceil_spec n 15936 ltac:(lia) ltac:(lia)) as [D0 D1].
    lia. }
  assert (Hbl : 0 <= (math.div_ceil n (kBlockDataWidth 512 14)
                      + kNumBlocksPerSuperblock 512 14) * kBlockWidth 512).
  { change (kBlockDataWidth 512 14) with 498.
    change (kNumBlocksPerSuperblock 512 14) with 32.
    change (kBlockWidth 512) with 512.
    destruct (div_ceil_spec n 498 ltac:(lia) ltac:(lia)) as [D0 D1].
    lia. }
  assert (Hsz' : (math.div_ceil n (kBlockDataWidth 512 14)
                  + kNumBlocksPerSuperblock 512 14) * kBlockWidth 512
                 < 2 ^ 63) by exact Hsz.
  rewrite wrap_small by lia.
  assert (Hans :
    exists answers,
      ads_programm.answer_queries USE_PDEP bv' sel queries = Some answers
      /\ Forall2 (query_answer bits n) queries answers).
  { induction Hq as [|[kind v] rest Hvalid Hrest IH].
    - exists []. split; [reflexivity|constructor].
    - destruct IH as (answers & Ea & Fa).
      cbn [ads_programm.answer_queries]. rewrite Ea.
      assert (Hone :
        exists a, ads_programm.answer USE_PDEP bv' sel
                    {| ads_programm.kind := kind;
                       ads_programm.value := v |} = Some a
                  /\ query_answer bits n
                       {| ads_programm.kind := kind;
                          ads_programm.value := v |} a).
      { unfold ads_programm.answer, query_answer, query_valid in *.
        cbn [ads_programm.kind ads_programm.value] in *.
        assert (Hsb : forall p, 0 <= p < n ->
                  p / kSuperblockDataWidth 512 14 < _num_superblocks bv')
          by (intros p Hp; apply Z.div_lt_upper_bound; lia).
        pose proof (ones_bounds bits 0 n ltac:(lia)) as Hob.
        destruct kind.
        - eexists. split; [reflexivity|]. rewrite Hset by lia. reflexivity.
        - rewrite rank0_spec by (auto; try lia; apply Hsb; lia).
          eexists. split; [reflexivity|].
          rewrite ones_payload_is_set by lia. rewrite Hones by lia.
          reflexivity.
        - rewrite rank1_spec by (auto; try lia; apply Hsb; lia).
          eexists. split; [reflexivity|].
          rewrite ones_payload_is_set by lia. rewrite Hones by lia.
          reflexivity.
        - destruct (Hok ltac:(lia)) as [_ Ok0].
          destruct (select_kth _ _ Hv 32768 Hst true USE_PDEP bv' sel
                      false v Hfin Eb Ok0) as (p & Hsel & Hp & Hw & Hcn).
          { rewrite ones_wanted_is_set by (auto; lia).
            rewrite El, Hones by lia. exact Hvalid. }
          rewrite wanted_is_set in Hw by auto.
          rewrite ones_wanted_is_set in Hcn by (auto; lia).
          exists p. split; [exact Hsel|].
          rewrite Hones in Hcn by lia. rewrite Hset in Hw by lia.
          repeat split; try lia.
          destruct (bits p); [discriminate|reflexivity].
        - destruct (Hok ltac:(lia)) as [Ok1 _].
          destruct (select_kth _ _ Hv 32768 Hst true USE_PDEP bv' sel
                      true v Hfin Eb Ok1) as (p & Hsel & Hp & Hw & Hcn).
          { rewrite ones_wanted_is_set by (auto; lia).
            rewrite El, Hones by lia. exact Hvalid. }
          rewrite wanted_is_set in Hw by auto.
          rewrite ones_wanted_is_set in Hcn by (auto; lia).
          exists p. split; [exact Hsel|].
          rewrite Hones in Hcn by lia. rewrite Hset in Hw by lia.
          repeat split; try lia. exact Hw. }
      destruct Hone as (a & Eone & Hone). rewrite Eone. cbn [bind].
      exists (a :: answers). split; [reflexivity|].
      constructor; auto. }
  destruct Hans as (answers & -> & Fa). cbn [bind].
  exists answers. split; [reflexivity|exact Fa].
Qed.

End Application.


(* ===================================================================== *)
(** ** The further properties on the worked examples *)
(* ===================================================================== *)

Ltac by_computation :=
  vm_compute; repeat split; try reflexivity; try (intro; discriminate).

Lemma example_position : 0 <= 1 < _length example_bitvector.
Proof. by_computation. Qed.

Lemma example_two_blocks_reachable : reachable 512 14 example_two_blocks.
Proof. apply reach_new; [lia|by_computation]. Qed.

Lemma example_plain_reachable : bitvector_reachable example_plain.
Proof.
  apply breach_set; [apply breach_new_filled; lia|by_computation].
Qed.

Lemma example_plain_length : 0 <= type_traits.length example_plain < 2 ^ 64.
Proof. by_computation. Qed.

Lemma set_value_then_is_set_witness :
  valid_parameters 512 14 /\ reachable 512 14 example_bitvector
  /\ 0 <= 1 < _length example_bitvector
  /\ is_set 512 14 (set_value 512 14 example_bitvector 1 false) 1 = false.
Proof.
  split; [exact default_parameters_valid|].
  split; [exact example_reachable|].
  split; [exact example_position|].
  exact (proj1 (set_value_then_is_set 512 14 default_parameters_valid
                  example_bitvector 1 false example_reachable
                  example_position)).
Defined.

Lemma set_value_agrees_witness :
  valid_parameters 512 14 /\ reachable 512 14 example_bitvector
  /\ 0 <= 1 < _length example_bitvector
  /\ set_value 512 14 example_bitvector 1 true
     = set 512 14 example_bitvector 1
  /\ set_value 512 14 example_bitvector 1 false
     = unset 512 14 example_bitvector 1.
Proof.
  split; [exact default_parameters_valid|].
  split; [exact example_reachable|].
  split; [exact example_position|].
  exact (set_value_agrees 512 14 default_parameters_valid example_bitvector 1
           example_reachable example_position).
Defined.

Lemma set_value_keeps_headers_witness :
  valid_parameters 512 14 /\ reachable 512 14 example_bitvector
  /\ 0 <= 1 < _length example_bitvector
  /\ forall b, 0 <= b ->
       header 512 14 (set_value 512 14 example_bitvector 1 true) b
       = header 512 14 example_bitvector b.
Proof.
  split; [exact default_parameters_valid|].
  split; [exact example_reachable|].
  split; [exact example_position|].
  exact (proj1 (set_value_keeps_headers 512 14 default_parameters_valid
                  example_bitvector 1 true example_reachable
                  example_position)).
Defined.

Lemma example_size :
  (math.div_ceil 499 (kBlockDataWidth 512 14)
   + kNumBlocksPerSuperblock 512 14) * kBlockWidth 512 < 2 ^ 63.
Proof. by_computation. Qed.

Lemma new_filled_uniform_witness :
  valid_parameters 512 14 /\ 0 <= 499
  /\ (math.div_ceil 499 (kBlockDataWidth 512 14)
      + kNumBlocksPerSuperblock 512 14) * kBlockWidth 512 < 2 ^ 63
  /\ forall p, 0 <= p < 499 ->
       is_set 512 14 (new_filled 512 14 dirty_heap dirty_heap 499 true) p
       = true
       /\ rank1 512 14 (new_filled 512 14 dirty_heap dirty_heap 499 true) p
          = Some p
       /\ rank0 512 14 (new_filled 512 14 dirty_heap dirty_heap 499 true) p
          = Some 0.
Proof.
  split; [exact default_parameters_valid|].
  split; [lia|]. split; [exact example_size|].
  exact (proj2 (new_filled_uniform 512 14 default_parameters_valid dirty_heap
                  dirty_heap 499 true ltac:(lia) example_size)).
Defined.

Lemma example_block : 0 <= 0 < _num_blocks example_bitvector.
Proof. by_computation. Qed.

Lemma block_popcount_counts_payload_witness :
  valid_parameters 512 14 /\ reachable 512 14 example_bitvector
  /\ 0 <= 0 < _num_blocks example_bitvector
  /\ block_popcount 512 14 (update 512 14 example_bitvector) 0
     = block_popcount 512 14 example_bitvector 0.
Proof.
  split; [exact default_parameters_valid|].
  split; [exact example_reachable|].
  split; [exact example_block|].
  exact (proj2 (block_popcount_counts_payload 512 14 default_parameters_valid
                  example_bitvector 0 example_reachable example_block)).
Defined.

Lemma memory_space_of_length_witness :
  valid_parameters 512 14 /\ reachable 512 14 example_bitvector
  /\ memory_space example_bitvector
     = (math.div_ceil (_length example_bitvector) (kBlockDataWidth 512 14)
        + kNumBlocksPerSuperblock 512 14) * kBlockWidth 512
       + math.div_ceil (_length example_bitvector)
           (kSuperblockDataWidth 512 14) * 64.
Proof.
  split; [exact default_parameters_valid|].
  split; [exact example_reachable|].
  exact (memory_space_of_length 512 14 default_parameters_valid
           example_bitvector example_reachable).
Defined.

Lemma example_step : 0 + 1 < _length (update 512 14 example_bitvector).
Proof. by_computation. Qed.

Lemma rank_step_witness :
  valid_parameters 512 14 /\ reachable 512 14 example_bitvector
  /\ 0 <= 0 /\ 0 + 1 < _length (update 512 14 example_bitvector)
  /\ rank1 512 14 (update 512 14 example_bitvector) 0 = Some 0.
Proof.
  split; [exact default_parameters_valid|].
  split; [exact example_reachable|].
  split; [lia|]. split; [exact example_step|].
  exact (proj1 (rank_step 512 14 default_parameters_valid example_bitvector 0
                  example_reachable ltac:(lia) example_step)).
Defined.

Lemma example_two_blocks_positions :
  0 <= 0 < _length example_two_blocks
  /\ 0 <= 500 < _length example_two_blocks
  /\ 500 / kBlockDataWidth 512 14 <> 0 / kBlockDataWidth 512 14.
Proof. by_computation. Qed.

Lemma rank_stale_until_update_witness :
  valid_parameters 512 14 /\ reachable 512 14 example_two_blocks
  /\ 0 <= 0 < _length example_two_blocks
  /\ 0 <= 500 < _length example_two_blocks
  /\ 500 / kBlockDataWidth 512 14 <> 0 / kBlockDataWidth 512 14
  /\ rank1 512 14
       (set_value 512 14 (update 512 14 example_two_blocks) 0 false) 500
     = Some (ones (is_set 512 14 (update 512 14 example_two_blocks)) 0 500).
Proof.
  split; [exact default_parameters_valid|].
  split; [exact example_two_blocks_reachable|].
  destruct example_two_blocks_positions as (Hp & Hq & Hb).
  split; [exact Hp|]. split; [exact Hq|]. split; [exact Hb|].
  exact (proj1 (rank_stale_until_update 512 14 default_parameters_valid
                  example_two_blocks 0 false 500
                  example_two_blocks_reachable Hp Hq Hb)).
Defined.

Lemma rank_of_select_witness :
  valid_parameters 512 14 /\ valid_stride 512 32768
  /\ reachable 512 14 example_bitvector
  /\ exists sel,
       select_new 512 14 32768 dirty_heap dirty_heap
         (update 512 14 example_bitvector)
         (ones (is_set 512 14 (update 512 14 example_bitvector)) 0
            (_length (update 512 14 example_bitvector))) = Some sel
       /\ forall r,
            1 <= r
            <= ones (is_set 512 14 (update 512 14 example_bitvector)) 0
                 (_length (update 512 14 example_bitvector)) ->
            exists p,
              select1 512 14 true 32768 true sel r = Some p
              /\ is_set 512 14 (update 512 14 example_bitvector) p = true
              /\ rank1 512 14 (update 512 14 example_bitvector) p
                 = Some (r - 1).
Proof.
  split; [exact default_parameters_valid|].
  split; [exact default_stride_valid|].
  split; [exact example_reachable|].
  destruct (rank_of_select 512 14 default_parameters_valid 32768
              default_stride_valid true true example_bitvector dirty_heap
              dirty_heap example_reachable) as (sel & E & H1 & _).
  exists sel. split; [exact E|exact H1].
Defined.

Lemma select_increasing_witness :
  valid_parameters 512 14 /\ valid_stride 512 32768
  /\ reachable 512 14 example_two_blocks
  /\ exists sel,
       select_new 512 14 32768 dirty_heap dirty_heap
         (update 512 14 example_two_blocks)
         (ones (is_set 512 14 (update 512 14 example_two_blocks)) 0
            (_length (update 512 14 example_two_blocks))) = Some sel
       /\ forall r r',
            1 <= r -> r < r' ->
            r' <= ones (is_set 512 14 (update 512 14 example_two_blocks)) 0
                    (_length (update 512 14 example_two_blocks)) ->
            exists p p',
              select1 512 14 false 32768 false sel r = Some p
              /\ select1 512 14 false 32768 false sel r' = Some p'
              /\ p < p'.
Proof.
  split; [exact default_parameters_valid|].
  split; [exact default_stride_valid|].
  split; [exact example_two_blocks_reachable|].
  destruct (select_increasing 512 14 default_parameters_valid 32768
              default_stride_valid false false example_two_blocks dirty_heap
              dirty_heap example_two_blocks_reachable) as (sel & E & H1 & _).
  exists sel. split; [exact E|exact H1].
Defined.

Lemma example_mutated_reachable :
  reachable 512 14 (set 512 14 example_bitvector 0).
Proof. apply reach_set; [exact example_reachable|by_computation]. Qed.

Lemma example_mutated_counts :
  _length (set 512 14 example_bitvector 0) = _length example_bitvector
  /\ ones (is_set 512 14 (update 512 14 (set 512 14 example_bitvector 0))) 0
       (_length (update 512 14 (set 512 14 example_bitvector 0))) / 32768
     = ones (is_set 512 14 (update 512 14 example_bitvector)) 0
         (_length (update 512 14 example_bitvector)) / 32768
  /\ (_length (update 512 14 (set 512 14 example_bitvector 0))
      - ones (is_set 512 14 (update 512 14 (set 512 14 example_bitvector 0)))
          0 (_length (update 512 14 (set 512 14 example_bitvector 0))))
     / 32768
     = (_length (update 512 14 example_bitvector)
        - ones (is_set 512 14 (update 512 14 example_bitvector)) 0
            (_length (update 512 14 example_bitvector))) / 32768.
Proof. by_computation. Qed.

Lemma select_update_again_witness :
  valid_parameters 512 14 /\ valid_stride 512 32768
  /\ reachable 512 14 example_bitvector
  /\ reachable 512 14 (set 512 14 example_bitvector 0)
  /\ exists sel sel2,
       select_new 512 14 32768 dirty_heap dirty_heap
         (update 512 14 example_bitvector)
         (ones (is_set 512 14 (update 512 14 example_bitvector)) 0
            (_length (update 512 14 example_bitvector))) = Some sel
       /\ select_update 512 14 32768
            {| _bitvector := update 512 14 (set 512 14 example_bitvector 0);
               _zero_samples := _zero_samples sel;
               _one_samples := _one_samples sel |} = Some sel2.
Proof.
  split; [exact default_parameters_valid|].
  split; [exact default_stride_valid|].
  split; [exact example_reachable|].
  split; [exact example_mutated_reachable|].
  destruct example_mutated_counts as (El & E1 & E0).
  destruct (select_update_again 512 14 default_parameters_valid 32768
              default_stride_valid true true example_bitvector
              (set 512 14 example_bitvector 0) dirty_heap dirty_heap
              example_reachable example_mutated_reachable El E1 E0)
    as (sel & sel2 & E & E2 & _).
  exists sel, sel2. split; [exact E|exact E2].
Defined.

Lemma div_ceil_ceiling_witness :
  0 <= 7 /\ 0 < 3 /\ 7 <= math.div_ceil 7 3 * 3
  /\ forall q, 7 <= q * 3 -> math.div_ceil 7 3 <= q.
Proof.
  split; [lia|]. split; [lia|].
  exact (div_ceil_ceiling 7 3 ltac:(lia) ltac:(lia)).
Defined.

Lemma example_round : 7 + 4 <= 2 ^ 64.
Proof. by_computation. Qed.

Lemma round_to_next_multiple_witness :
  0 <= 7 /\ 0 < 4 /\ 7 + 4 <= 2 ^ 64
  /\ 7 <= math.round_to 7 4 < 7 + 4.
Proof.
  split; [lia|]. split; [lia|]. split; [exact example_round|].
  exact (proj1 (round_to_next_multiple 7 4 ltac:(lia) ltac:(lia)
                  example_round)).
Defined.

Lemma setbits_mask_witness :
  0 <= 14 /\ 0 <= 0 /\ 14 + 0 <= 64 /\ 0 <= 3
  /\ Z.testbit (math.setbits 14 0) 3 = (0 <=? 3) && (3 <? 0 + 14).
Proof.
  split; [lia|]. split; [lia|]. split; [lia|]. split; [lia|].
  exact (proj1 (setbits_mask 14 0 3 ltac:(lia) ltac:(lia) ltac:(lia)
                  ltac:(lia))).
Defined.

Lemma example_word : word 5 /\ popcount 5 < 3 <= 64.
Proof. by_computation. Qed.

Lemma word_select1_rank_too_large_witness :
  word 5 /\ popcount 5 < 3 <= 64
  /\ (forall kUseBinarySearch,
        word_select1 true kUseBinarySearch false 5 3 = Some 64)
  /\ (forall kOverwriteFastPDEP,
        word_select1 false true kOverwriteFastPDEP 5 3 = Some 63)
  /\ word_select1 true true true 5 3 = Some 63
  /\ (forall fuel, word_select1_linear_loop fuel 5 3 0 = None).
Proof.
  destruct example_word as [Hw Hk].
  split; [exact Hw|]. split; [exact Hk|].
  exact (word_select1_rank_too_large 5 3 Hw Hk).
Defined.

Lemma example_plain_position : 0 <= 3 < bitvector._length example_plain.
Proof. by_computation. Qed.

Lemma bitvector_set_then_is_set_witness :
  bitvector_reachable example_plain
  /\ 0 <= 3 < bitvector._length example_plain
  /\ bitvector.is_set (bitvector.set_value example_plain 3 true) 3 = true.
Proof.
  split; [exact example_plain_reachable|].
  split; [exact example_plain_position|].
  exact (proj1 (bitvector_set_then_is_set example_plain 3 true
                  example_plain_reachable example_plain_position)).
Defined.

Lemma bitvector_new_filled_uniform_witness :
  0 <= 65 < 70
  /\ bitvector.is_set (bitvector.new_filled dirty_heap 70 true) 65 = true.
Proof.
  split; [lia|].
  exact (bitvector_new_filled_uniform dirty_heap 70 true 65 ltac:(lia)).
Defined.

Lemma example_plain_small : bitvector._length example_plain <= 2 ^ 64 - 64.
Proof. by_computation. Qed.

Lemma bitvector_memory_space_waste_witness :
  bitvector_reachable example_plain
  /\ bitvector._length example_plain <= 2 ^ 64 - 64
  /\ bitvector._length example_plain <= bitvector.memory_space example_plain
     <= bitvector._length example_plain + 63.
Proof.
  split; [exact example_plain_reachable|].
  split; [exact example_plain_small|].
  exact (proj1 (bitvector_memory_space_waste example_plain
                  example_plain_reachable example_plain_small)).
Defined.

Lemma naive_rank_correct_witness :
  0 <= type_traits.length example_plain < 2 ^ 64
  /\ exists r,
       naive_rank.new dirty_heap example_plain = Some r
       /\ forall pos, type_traits.length example_plain <= pos ->
                      naive_rank.rank1 r pos = None.
Proof.
  split; [exact example_plain_length|].
  destruct (naive_rank_correct example_plain example_plain_length
              dirty_heap) as (r & E & _ & H).
  exists r. split; [exact E|exact H].
Defined.

Lemma naive_select_correct_witness :
  0 <= type_traits.length example_plain < 2 ^ 64
  /\ exists s,
       naive_select.new dirty_heap dirty_heap example_plain
         (ones (type_traits.is_set example_plain) 0
            (type_traits.length example_plain)) = Some s
       /\ naive_select.select1 s 0 = None.
Proof.
  split; [exact example_plain_length|].
  destruct (naive_select_correct example_plain example_plain_length
              dirty_heap dirty_heap) as (s & E & _ & _ & H & _).
  exists s. split; [exact E|exact H].
Defined.

Lemma example_wrong_count :
  0 <= 5 <= type_traits.length example_plain
  /\ 5 <> ones (type_traits.is_set example_plain) 0
            (type_traits.length example_plain).
Proof. by_computation. Qed.

Lemma naive_select_wrong_num_ones_witness :
  0 <= type_traits.length example_plain < 2 ^ 64
  /\ 0 <= 5 <= type_traits.length example_plain
  /\ 5 <> ones (type_traits.is_set example_plain) 0
            (type_traits.length example_plain)
  /\ naive_select.new dirty_heap dirty_heap example_plain 5 = None.
Proof.
  split; [exact example_plain_length|].
  destruct example_wrong_count as [Hn Hne].
  split; [exact Hn|]. split; [exact Hne|].
  exact (naive_select_wrong_num_ones example_plain example_plain_length
           dirty_heap dirty_heap 5 Hn Hne).
Defined.

Lemma create_alternating_bitvec_bits_witness :
  valid_parameters 512 14 /\ 0 <= 499
  /\ (math.div_ceil 499 (kBlockDataWidth 512 14)
      + kNumBlocksPerSuperblock 512 14) * kBlockWidth 512 < 2 ^ 63
  /\ 0 < 5
  /\ exists plain combined,
       testing.create_alternating_bitvec bitvector.BitVector dirty_heap
         499 5 = Some plain
       /\ @testing.create_alternating_bitvec BitVector
            (TwoLayerRankCombinedBitVector 512 14) (dirty_heap, dirty_heap)
            499 5 = Some combined
       /\ forall i,
            0 <= i < 499 ->
            bitvector.is_set plain i = (i mod 5 =? 0)
            /\ is_set 512 14 combined i = (i mod 5 =? 0).
Proof.
  split; [exact default_parameters_valid|].
  split; [lia|]. split; [exact example_size|]. split; [lia|].
  exact (create_alternating_bitvec_bits 512 14 default_parameters_valid
           dirty_heap dirty_heap dirty_heap 499 5 ltac:(lia) example_size
           ltac:(lia)).
Defined.

Lemma create_random_bitvec_agree_witness :
  valid_parameters 512 14 /\ 0 <= 499
  /\ (math.div_ceil 499 (kBlockDataWidth 512 14)
      + kNumBlocksPerSuperblock 512 14) * kBlockWidth 512 < 2 ^ 63
  /\ 0 <= 10 < 499
  /\ bitvector.is_set
       (testing.create_random_bitvec bitvector.BitVector Z.even dirty_heap
          499) 10
     = is_set 512 14
         (@testing.create_random_bitvec BitVector
            (TwoLayerRankCombinedBitVector 512 14) Z.even
            (dirty_heap, dirty_heap) 499) 10.
Proof.
  split; [exact default_parameters_valid|].
  split; [lia|]. split; [exact example_size|]. split; [lia|].
  exact (proj1 (create_random_bitvec_agree 512 14 default_parameters_valid
                  Z.even dirty_heap dirty_heap dirty_heap 499 10 ltac:(lia)
                  example_size ltac:(lia))).
Defined.

Lemma naive_rank_agrees_witness :
  valid_parameters 512 14 /\ reachable 512 14 example_bitvector
  /\ exists r,
       @naive_rank.new BitVector (TwoLayerRankCombinedBitVector 512 14)
         dirty_heap (update 512 14 example_bitvector) = Some r
       /\ forall p, 0 <= p < _length (update 512 14 example_bitvector) ->
            naive_rank.rank1 r p
            = rank1 512 14 (update 512 14 example_bitvector) p
            /\ naive_rank.rank0 r p
               = rank0 512 14 (update 512 14 example_bitvector) p.
Proof.
  split; [exact default_parameters_valid|].
  split; [exact example_reachable|].
  exact (naive_rank_agrees 512 14 default_parameters_valid example_bitvector
           dirty_heap example_reachable).
Defined.

Lemma naive_select_agrees_witness :
  valid_parameters 512 14 /\ valid_stride 512 32768
  /\ reachable 512 14 example_bitvector
  /\ exists s sel,
       @naive_select.new BitVector (TwoLayerRankCombinedBitVector 512 14)
         dirty_heap dirty_heap (update 512 14 example_bitvector)
         (@testing.count_ones BitVector (TwoLayerRankCombinedBitVector 512 14)
            (update 512 14 example_bitvector)) = Some s
       /\ select_new 512 14 32768 dirty_heap dirty_heap
            (update 512 14 example_bitvector)
            (@testing.count_ones BitVector
               (TwoLayerRankCombinedBitVector 512 14)
               (update 512 14 example_bitvector)) = Some sel.
Proof.
  split; [exact default_parameters_valid|].
  split; [exact default_stride_valid|].
  split; [exact example_reachable|].
  destruct (naive_select_agrees 512 14 default_parameters_valid 32768
              default_stride_valid true true example_bitvector dirty_heap
              dirty_heap dirty_heap dirty_heap example_reachable)
    as (s & sel & Es & E & _).
  exists s, sel. split; [exact Es|exact E].
Defined.

Lemma example_input_small : Z.of_nat (String.length example_input) < 2 ^ 62.
Proof. by_computation. Qed.

Lemma example_queries_valid :
  Forall (query_valid (ads_programm.is_one example_input)
            (Z.of_nat (String.length example_input))) example_queries.
Proof. repeat constructor; by_computation. Qed.

Lemma main_answers_witness :
  Z.of_nat (String.length example_input) < 2 ^ 62
  /\ Forall (query_valid (ads_programm.is_one example_input)
               (Z.of_nat (String.length example_input))) example_queries
  /\ exists space answers,
       ads_programm.main true dirty_heap dirty_heap dirty_heap dirty_heap
         example_input example_queries = Some (space, answers)
       /\ Forall2 (query_answer (ads_programm.is_one example_input)
                     (Z.of_nat (String.length example_input)))
            example_queries answers.
Proof.
  split; [exact example_input_small|].
  split; [exact example_queries_valid|].
  destruct (main_answers true dirty_heap dirty_heap dirty_heap dirty_heap
              example_input example_input_small example_queries
              example_queries_valid) as (answers & E & F).
  eexists. exists answers. split; [exact E|exact F].
Defined.

(** The program on the worked example: the answers written for
    [access 4], [rank 0 5], [rank 1 5], [select 0 4] and [select 1 3] on
    the input [0110100]. *)
Example main_example :
  option_map snd
    (ads_programm.main true dirty_heap dirty_heap dirty_heap dirty_heap
       example_input example_queries)
  = Some [1; 2; 3; 6; 4].
Proof. vm_compute. reflexivity. Qed.
